(* ===== verification/_CoqProject ===== *)
-Q . S2P
Prelude.v
Bits.v
Layout.v
Memory.v
Aarch64.v
Ring.v
Sync.v
Region.v
BootAlloc.v
Frame.v
Mmu.v
Paging.v
Mmio.v
Uart.v
Log.v
Keyboard.v
Cores.v
Mailbox.v
Font.v
Framebuffer.v
Vfs.v
Screen.v
Trap.v
Smp.v
Process.v
Scheduler.v
Handover.v
Fdt.v
Dtb.v
DtbUart.v
Timer.v
Intc.v
Interrupts.v
Heap.v
Syscall.v
Vectors.v
Preempt.v
BootAsm.v
Switch.v
User.v
Shell.v
MmInit.v
Main.v
Boot.v
Session.v
PowerOn.v
