(* ===== verification/Prelude.v ===== *)
(** * Ralix: a verification library for the Ralix ARM64 kernel

    The program is a small Rust kernel without a standard library ([src/src/]) for two boards, the
    Raspberry Pi 5 and QEMU's Raspberry Pi, chosen by a Cargo feature; here the type [Layout.board].
    This library translates it and proves what its parts promise and what they amount to
    together: that it boots into its shell on safe memory, and that scheduling, system calls, the
    console and the shell then do their work.

    ** The program and the files that model it

    Memory, [src/src/mm/]:
    - [Layout] (layout.rs, platform/board.rs): addresses, alignment, the constants of the boards.
    - [Region] (region.rs): the raw memory map and its normalization: sorting the boundaries, the
      highest-priority kind between each two, merging, page alignment of usable RAM.
    - [BootAlloc] (bootalloc.rs): the bump allocator.
    - [Frame] (frame.rs): the bitmap of frames, its global lock, and the interface [PageSource]
      through which the heap gets frames.
    - [Mmu] (arch/aarch64/mmu.rs) and [Paging] (paging.rs): system registers, the two address spaces
      built of static tables, and the hardware's walk of them.
    - [Fdt], [Dtb], [DtbUart] (dtb.rs): the flattened device tree, its memory map, boot framebuffer
      and console UART.
    - [Heap] (heap.rs): the global allocator.
    - [MmInit] (mod.rs): the order in which all this is brought up.

    Devices, [src/src/drivers/] and [gfx/]:
    - [Memory], [Mmio] (mmio.rs): byte-addressed memory, and devices as an interface.
    - [Uart], [Keyboard], [Mailbox], [Intc] (uart.rs, keyboard.rs, mailbox.rs, gic.rs and
      local_intc.rs), [Timer] (arch/aarch64/timer.rs).
    - [Log] (the formatting and the early prints of mm/mod.rs and main.rs): the lines the kernel logs.
    - [Font] (gfx/font.rs), [Framebuffer] (framebuffer.rs, platform/simplefb.rs): the text console.

    The kernel proper, [src/src/kernel/]:
    - [Sync] (util/sync.rs): the spin lock, on one core and among several (Module [Smp]).
    - [Vfs] (vfs.rs): device files.
    - [Cores] (uart.rs, keyboard.rs, vfs.rs) and [Screen] (framebuffer.rs, vfs.rs): the serial port, the
      keyboard buffer and the console when several cores are inside the drivers at once.
    - [Trap] (arch/aarch64/trap.rs), [Smp] (smp.rs), [Process] (process.rs), [Scheduler]
      (process/scheduler.rs); [Handover] (with interrupts.rs and irq_vector of exception.S): which process's
      stack each core uses.
    - [Interrupts] (interrupts.rs), [Syscall] (syscall.rs), [User] (user.rs).
    - [Shell] (user/shell.rs), and [Main] (main.rs and the entry of secondary cores).
    - [Vectors] (arch/aarch64/exception.S), [BootAsm] (arch/aarch64/boot.S, and linker.ld, which places it): the
      assembly, instruction by instruction, on the processor of [Aarch64]; [Preempt]: the vectors under the
      scheduler; [Switch]: how the kernel's page tables take the place of the boot tables.
    - [Boot], [Session], [PowerOn]: what the boot sequence comes to, the shell running on all of
      this, and the two together.

    [Aarch64] is not part of the program: it is the processor, as far as the assembly uses it, with its
    registers, exception levels, address translation and the effect of each instruction, after the Arm
    architecture.  [Bits] and [Ring] hold lemmas on bit operations and circular buffers; this file the monad of
    outcomes, machine integers, arrays and loops.

    ** How code becomes definitions

    A function is a Rocq function of its arguments and of the statics it touches, gathered in a
    Record per module; the new state is part of the result.  A fallible or looping function returns
    an [outcome]: a value, a panic, a core parked for ever, or not enough fuel.  [&mut] arguments
    and locked statics are returned; taking a lock that is held is [Halt], and a closure run under a
    lock runs on the lock's contents.  An early [return] is a branch.  Board features are a match
    on the board.

    An assembly file is the list of its labels and instructions.  A run is a sequence of steps of the processor, each
    of which fetches the instruction at an offset and changes registers and memory; the calls into Rust and the
    addresses of Rust's items are parameters, of which the theorems ask what the other files prove: the frame
    a handler returns, the layout of the image ([BootAsm.linked], which [BootAsm.link_linked] shows of the
    linker script).

    Integers are [Z] kept in the range of their type, with wrap-around ([add64] and the like) where
    the code can overflow, as release builds of Rust do; array and slice accesses check their
    bounds and panic; the bit tricks of the code are written with the operations of [Z].  Memory
    is a function from addresses to bytes; page tables and the frame bitmap, which the code holds in
    static arrays or behind a pointer, are lists in the state of their module.

    Outside the program, and so parameters: the devices ([Hardware], [Dma], [Clock]: any type with
    register reads and writes that may change it; [Pl011] is the documented behaviour of the serial
    port where a theorem needs it; [Boot.Platform] and [Session.Devices] say which registers leave memory and
    the serial port alone), the heap algorithm of the crate linked_list_allocator ([KernelHeap]: its contract
    speaks of live blocks with their layouts only, and of requests a free hole is large enough for), which
    addresses EL1 can access when a system call reads or writes user memory ([Syscall.AddressSpace]; any
    other address is a fault, which parks the core), the addresses the linker chooses.  Every interface has a concrete instance, on which
    the witnesses of the theorems are evaluated.

    ** Loops and fuel

    A loop over a range or a list is structural.  Other loops run on fuel: the token loop of the device
    tree on the length of its block, scans on the length of what they scan, the mailbox and the
    Pi 5's UART on their spin limits, the search for contiguous frames on the number of frames, the
    run queue on its length, the mapping of a range on its number of blocks.  For these the fuel is
    part of the definition and the theorems show it is enough, since they claim [returns] or exclude
    [NoFuel].  Three waits have no limit in the code: QEMU's UART, [delay_ms] and QEMU's retries of
    the console; there the fuel is an argument and the theorems assume the device answers within it.
    On a counter that moves on, the delay is shown to end within the fuel ([Timer.delay_returns]).
    The shell never ends: it is a step function, one step per system call, and its theorem is about any
    number of steps.  Its line is a [String]: pushing a character that does not fit doubles the buffer through
    the global allocator, and a request that is not served parks the core ([Shell.grow], [Heap.oom]).

    ** Several cores

    The boot sequence releases the other cores and goes on.  What they have made of the shared state when CPU 0
    takes the process table's lock is an argument of [Main.start_kernel]: in [Boot.kernel_main_boots]
    anything their own code can do in any order ([Main.other_move]), in [PowerOn.power_on] only what they
    do before they take a process themselves ([Main.other_announces]), as otherwise the shell may run on another
    core first ([Main.shell_on_another_core]).  In a session they come up, enter processes and are interrupted
    between the shell's calls ([Session.kernel_event]).

    ** What is shown

    - From power-on: a machine as the firmware leaves it boots and from then on displays the transcript
      of the keys typed ([PowerOn.power_on]).
    - Booting: from a machine as the firmware leaves it [kernel_main] enters its first process on both boards,
      the shell if no other core was first, with descriptors wired and a blank screen
      ([Boot.kernel_main_boots]); memory that is handed out is usable RAM that nothing
      else claims, and is mapped ([MmInit.init_memory_safe]); every core finds a process whatever
      interrupts come first ([Main.every_core_starts]).
    - Below Rust: from reset the first core reaches [kernel_main] and the others [secondary_rust_entry], at EL1,
      each on its stack, with a zeroed BSS and exactly the boot map in force ([BootAsm.first_core_boots],
      [BootAsm.secondary_core_boots], [BootAsm.secondary_core_waits]); the kernel's tables replace the boot tables
      without moving RAM ([Switch.kernel_tables_take_over]); an exception hands its handler the frame of what
      it interrupted and leaves into the state of the frame it gets back, so that processes start, resume
      and return from system calls as [Process], [Scheduler] and [Syscall] say ([Vectors],
      [Preempt.process_resumes]).
    - Scheduling: an invariant of all operations on the process table, in any order and on any
      cores; no process on two cores; the scheduler refines a FIFO queue; round robin; a preempted
      process resumes from the frame it was interrupted with ([Scheduler]); cores share a stack only
      while a handler that gave its process up has not returned ([Handover]).
    - Concurrency: mutual exclusion of the spin lock and serializability of its critical sections, of
      any number of accesses each, under any interleaving ([Sync.Smp]).  On the devices cut into single
      accesses: input is neither lost, doubled nor reordered, log lines are whole, a poll never waits, a
      core alone does what the sequential models compute ([Cores]); the screen shows whole writes
      ([Screen]).
    - System calls, interrupts, user code: what each call does to registers and devices, that calls
      return, that a timer interrupt composes keyboard, timer and scheduler, that malformed calls are refused without effect, that the allocator seen
      through system calls is the kernel's ([Syscall], [Interrupts], [User]).
    - Memory: normalization is safe, complete and exact; allocators hand out what is free, once;
      the hardware walk of the tables yields exactly the mappings meant ([Region], [BootAlloc],
      [Frame], [Paging], [Heap]).
    - Log output: printed numbers read back as themselves, and lines change the device only ([Log]).
    - Device tree: on every image the parsers end; on the encoding of a tree they compute what
      recursive functions on that tree say ([Dtb], [DtbUart]).
    - Console and shell: the framebuffer displays a terminal's grid, and the shell prints the
      transcript of the keys it has been given ([Framebuffer], [Vfs], [Shell]); the kernel is the
      terminal the shell needs, through system calls, heap, keyboard, timer and scheduler, with keys, timer
      interrupts on any core and cores that come up between any two calls ([Session.kernel_shell]).

    Some theorems record where the code does not do what it means to: [Dtb.parse_cells_overflow],
    [Dtb.parse_memory_prefix], [Dtb.parse_deep_nesting], [Dtb.parse_own_cells], [Paging.qemu_peripherals_normal],
    [MmInit.dtb_after_kernel_no_memory], [MmInit.fallback_device_frames],
    [MmInit.rpi5_unmapped_frames], [Main.interrupted_start_hangs], [Main.start_drops_context],
    [Boot.no_uart_no_shell], [Handover.resumed_under_handler], [Cores.write_splits_line],
    [Heap.allocator_needs_el1], [Shell.no_memory_parks], [Syscall.realloc_size_unchecked],
    [Syscall.close_closed_succeeds], [Switch.boot_devices_become_normal],
    [Vectors.vector_registers_lost], [BootAsm.rebuilding_unmaps], [BootAsm.el3_needs_rw],
    [Screen.contended_write_off_screen], [Shell.crlf_ends_two_lines] (the keyboard driver turns carriage
    returns into line feeds before the shell could see them).

    ** Not modelled

    Single instructions inside Rust functions ([asm!] for barriers, system registers and [svc]) beyond their effect on
    the state of the module that uses them; of the processor, permissions of pages, caches and the TLB, the time an
    instruction takes and the fetch of instructions and literals through the tables; the mark of a core that parks because the page table pool is empty, and the
    logging that constants disable; memory barriers, TLB maintenance, cache effects and delays by
    counting nops, on which the model, having sequentially consistent memory, does not depend;
    the panic handler and the out-of-memory handler beyond parking the core; timer interrupts that CPU 0 takes
    between [init_per_cpu] and the end of [start_on_cpu] (what they lead to: [Main.interrupted_before_start],
    [Main.interrupted_start_hangs]).  Interleavings of
    cores are modelled access by access for the lock ([Sync.Smp]), the serial port and the keyboard
    buffer ([Cores]), and byte by byte for the console ([Screen]); operations on the process table, each under
    one lock, are steps, and so are the shell's calls in [Session], between which interrupts, arriving bytes and
    the start of other cores fall.  A handler and the return from it are one step there: [Vectors.svc_returns] shows what the vector's code
    makes of it, and [Handover] is about the window that leaves out.  The allocators' locks are the same lock, and not cut further. *)

From stdpp Require Export base decidable list numbers option sets relations strings.
From Stdlib Require Export ZArith Lia.

#[export] Set Default Goal Selector "!".

Declare Scope ralix_scope.
Delimit Scope ralix_scope with ralix.
Open Scope ralix_scope.
Open Scope Z_scope.

(** ** Outcomes of Rust code

    [Ret a]: the code returns [a].  [Panic]: a Rust panic (slice or array index
    out of range, [unwrap] of [None], [panic!]).  [Halt]: the code parks the CPU for
    ever ([loop { wfe }]) or spins on a lock nobody will release.  [NoFuel]: the
    fuel given to a loop of the model ran out; every theorem about a loop shows that the
    fuel it is run with is enough. *)
Inductive outcome (A : Type) : Type :=
| Ret (a : A)
| Panic
| Halt
| NoFuel.
Arguments Ret {A} a.
Arguments Panic {A}.
Arguments Halt {A}.
Arguments NoFuel {A}.

#[export] Instance outcome_ret : MRet outcome := λ A a, Ret a.
#[export] Instance outcome_bind : MBind outcome := λ A B f m,
  match m with
  | Ret a => f a
  | Panic => Panic
  | Halt => Halt
  | NoFuel => NoFuel
  end.
#[export] Instance outcome_fmap : FMap outcome := λ A B f m,
  match m with
  | Ret a => Ret (f a)
  | Panic => Panic
  | Halt => Halt
  | NoFuel => NoFuel
  end.
#[export] Instance outcome_eq_dec {A} `{EqDecision A} : EqDecision (outcome A).
Proof. solve_decision. Defined.

(** [unwrap]/[expect] on an [Option]. *)
Definition unwrap {A} (o : option A) : outcome A :=
  match o with Some a => Ret a | None => Panic end.

(** ** Machine integers

    Integers are [Z]; every operation of the code that can leave the range of its type is
    written with its wrap-around (the kernel is built in release mode, where Rust's integer
    arithmetic wraps). *)
Abbreviation U64 := 18446744073709551616 (only parsing).
Abbreviation U64_MAX := 18446744073709551615 (only parsing).
Abbreviation U32 := 4294967296 (only parsing).
Abbreviation U32_MAX := 4294967295 (only parsing).

Definition wrap64 (x : Z) : Z := x mod U64.
Definition wrap32 (x : Z) : Z := x mod U32.
Definition wrap8 (x : Z) : Z := x mod 256.
Definition add64 (a b : Z) : Z := wrap64 (a + b).
Definition sub64 (a b : Z) : Z := wrap64 (a - b).
Definition mul64 (a b : Z) : Z := wrap64 (a * b).
Definition add32 (a b : Z) : Z := wrap32 (a + b).
Definition mul32 (a b : Z) : Z := wrap32 (a * b).
Definition sat_add64 (a b : Z) : Z := Z.min (a + b) U64_MAX.
Definition sat_sub64 (a b : Z) : Z := Z.max (a - b) 0.
(** Bitwise complement of a 64-bit and a 32-bit value. *)
Definition not64 (x : Z) : Z := U64_MAX - x.
Definition not32 (x : Z) : Z := U32_MAX - x.
(** Left shift in 64 bits; Rust's release build masks the shift amount. *)
Definition shl64 (x s : Z) : Z := wrap64 (Z.shiftl x (s mod 64)).
Definition shl32 (x s : Z) : Z := wrap32 (Z.shiftl x (s mod 32)).

Definition is_u64 (x : Z) : Prop := 0 ≤ x < U64.
Definition is_u32 (x : Z) : Prop := 0 ≤ x < U32.
Definition is_u8 (x : Z) : Prop := 0 ≤ x < 256.

(** ** Arrays and slices *)
Definition len {A} (l : list A) : Z := Z.of_nat (length l).

(** [l[i]] with Rust's bounds check. *)
Definition aget {A} (l : list A) (i : Z) : outcome A :=
  if decide (0 ≤ i < len l) then unwrap (l !! Z.to_nat i) else Panic.

(** [l[i] = x] with Rust's bounds check. *)
Definition aset {A} (l : list A) (i : Z) (x : A) : outcome (list A) :=
  if decide (0 ≤ i < len l) then Ret (<[Z.to_nat i := x]> l) else Panic.

(** [&l[a..b]] with Rust's bounds check. *)
Definition slice {A} (l : list A) (a b : Z) : outcome (list A) :=
  if decide (0 ≤ a ≤ b ∧ b ≤ len l)
  then Ret (take (Z.to_nat (b - a)) (drop (Z.to_nat a) l)) else Panic.

(** The byte string literals of the code. *)
Definition bytes (s : string) : list Z :=
  (λ c, Z.of_N (Ascii.N_of_ascii c)) <$> String.list_ascii_of_string s.

(** ** Loops *)
Section loops.
Context {S R : Type}.

(** [loop { .. }]: one iteration either continues with a new state or breaks with a
    result. *)
Fixpoint loop (fuel : nat) (body : S → outcome (S + R)) (s : S) : outcome R :=
  match fuel with
  | O => NoFuel
  | Datatypes.S n =>
      r ← body s;
      match r with
      | inl s' => loop n body s'
      | inr r => Ret r
      end
  end.

(** [n] iterations of [body i s; i += 1] starting at [i = lo]. *)
Fixpoint iter_from (n : nat) (lo : Z) (body : Z → S → outcome S) (s : S) : outcome S :=
  match n with
  | O => Ret s
  | Datatypes.S n => s' ← body lo s; iter_from n (lo + 1) body s'
  end.

(** [while i < hi { body; i += 1 }], also [for i in lo..hi]. *)
Definition while_range (lo hi : Z) (body : Z → S → outcome S) (s : S) : outcome S :=
  iter_from (Z.to_nat (hi - lo)) lo body s.

(** [for x in l { body }]. *)
Fixpoint for_each_in {A} (l : list A) (body : A → S → outcome S) (s : S) : outcome S :=
  match l with
  | [] => Ret s
  | x :: l => s' ← body x s; for_each_in l body s'
  end.
End loops.

(** First [i] in [lo .. lo+n-1] with [p i]. *)
Fixpoint find_from (n : nat) (lo : Z) (p : Z → outcome bool) : outcome (option Z) :=
  match n with
  | O => Ret None
  | S n => b ← p lo; if (b : bool) then Ret (Some lo) else find_from n (lo + 1) p
  end.

(** [while i < hi { if p(i) { return Some(i) } i += 1 } None]. *)
Definition find_range (lo hi : Z) (p : Z → outcome bool) : outcome (option Z) :=
  find_from (Z.to_nat (hi - lo)) lo p.

(** ** Total correctness

    [returns m Q]: [m] returns (no panic, no halt, enough fuel) a value satisfying [Q]. *)
Definition returns {A} (m : outcome A) (Q : A → Prop) : Prop :=
  match m with Ret a => Q a | _ => False end.

(** [m] does not run out of fuel. *)
Definition fuelled {A} (m : outcome A) : Prop := m ≠ NoFuel.

Section returns_rules.
Context {A B : Type}.
Implicit Types (m : outcome A) (f : A → outcome B) (Q : A → Prop).

Lemma returns_ret (a : A) Q : Q a → returns (Ret a) Q.
Proof. done. Qed.

Lemma returns_eq m Q : returns m Q ↔ ∃ a, m = Ret a ∧ Q a.
Proof. destruct m; simpl; naive_solver. Qed.

Lemma returns_mono m Q Q' : returns m Q → (∀ a, Q a → Q' a) → returns m Q'.
Proof. destruct m; simpl; naive_solver. Qed.

Lemma returns_bind m f (R : B → Prop) :
  returns m (λ a, returns (f a) R) → returns (a ← m; f a) R.
Proof. by destruct m. Qed.

Lemma returns_bind_inv m f (R : B → Prop) :
  returns (a ← m; f a) R → returns m (λ a, returns (f a) R).
Proof. by destruct m. Qed.

Lemma returns_conj m Q Q' : returns m Q → returns m Q' → returns m (λ a, Q a ∧ Q' a).
Proof. by destruct m. Qed.

Lemma returns_and m Q Q' : returns m Q → (∀ a, m = Ret a → Q' a) → returns m (λ a, Q a ∧ Q' a).
Proof. destruct m; simpl; naive_solver. Qed.

Lemma returns_det m Q (a : A) : returns m Q → m = Ret a → Q a.
Proof. by intros H ->. Qed.

Lemma bind_ret_inv m f b : (a ← m; f a) = Ret b → ∃ a, m = Ret a ∧ f a = Ret b.
Proof. destruct m; simpl; intros; simplify_eq; eauto. Qed.

Lemma bind_ret (a : A) f : (x ← Ret a; f x) = f a.
Proof. done. Qed.

Lemma fuelled_bind m f : fuelled m → (∀ a, m = Ret a → fuelled (f a)) → fuelled (a ← m; f a).
Proof. unfold fuelled. destruct m; simpl; intros H Hf; try done. by apply Hf. Qed.

Lemma returns_fuelled m Q : returns m Q → fuelled m.
Proof. by destruct m. Qed.
End returns_rules.

Create HintDb ralix.
#[export] Hint Resolve returns_ret returns_fuelled : ralix.

Section loop_rules.
Context {S R : Type}.
Implicit Types (body : S → outcome (S + R)) (I : S → Prop).

(** Total correctness of a loop: an invariant and a measure below the fuel. *)
Lemma returns_loop I (mu : S → nat) body (Q : R → Prop) :
  (∀ s, I s → returns (body s) (λ r,
     match r with inl s' => I s' ∧ (mu s' < mu s)%nat | inr r => Q r end)) →
  ∀ fuel s, I s → (mu s < fuel)%nat → returns (loop fuel body s) Q.
Proof.
  intros Hbody. induction fuel as [|n IH]; intros s HI Hmu; [lia|]. simpl.
  apply returns_bind. eapply returns_mono; [by apply Hbody|].
  intros [s'|r]; [|done]. intros [HI' Hlt]. apply IH; [done|lia].
Qed.

(** A loop whose measure decreases never runs out of fuel. *)
Lemma loop_fuelled I (mu : S → nat) body :
  (∀ s, I s → fuelled (body s)) →
  (∀ s s', I s → body s = Ret (inl s') → I s' ∧ (mu s' < mu s)%nat) →
  ∀ fuel s, I s → (mu s < fuel)%nat → fuelled (loop fuel body s).
Proof.
  intros Hb Hstep. induction fuel as [|n IH]; intros s HI Hmu; [lia|]. simpl.
  apply fuelled_bind; [by apply Hb|].
  intros [s'|r] Hs; [|done]. destruct (Hstep s s') as [? ?]; [done..|]. apply IH; [done|lia].
Qed.

(** More fuel does not change a result. *)
Lemma loop_fuel_mono body n m s :
  (n ≤ m)%nat → fuelled (loop n body s) → loop m body s = loop n body s.
Proof.
  revert m s. induction n as [|n IH]; intros m s Hle Hf; [done|].
  destruct m as [|m]; [lia|]. simpl in *.
  destruct (body s) as [[s'|r]| | |]; simpl in *; try done. apply IH; [lia|done].
Qed.

(** A loop that breaks at once. *)
Lemma loop_exit body fuel s r : (0 < fuel)%nat → body s = Ret (inr r) → loop fuel body s = Ret r.
Proof. intros Hf Hb. destruct fuel; [lia|]. simpl. by rewrite Hb. Qed.

(** Whatever a loop returns, it returns from a state satisfying the invariant. *)
Lemma loop_inv I body (Q : R → Prop) :
  (∀ s r, I s → body s = Ret r → match r with inl s' => I s' | inr r => Q r end) →
  ∀ fuel s r, I s → loop fuel body s = Ret r → Q r.
Proof.
  intros Hb. induction fuel as [|n IH]; intros s r HI; simpl; [done|].
  intros (x & Hx & Hr)%bind_ret_inv. specialize (Hb _ _ HI Hx).
  destruct x as [s'|r']; simpl in *; [by apply (IH s')|]. by injection Hr as ->.
Qed.
End loop_rules.

Section range_rules.
Context {S : Type}.
Implicit Types (body : Z → S → outcome S).

Lemma returns_iter_from (I : Z → S → Prop) body n lo s :
  I lo s →
  (∀ i s, lo ≤ i < lo + Z.of_nat n → I i s → returns (body i s) (I (i + 1))) →
  returns (iter_from n lo body s) (I (lo + Z.of_nat n)).
Proof.
  revert lo s. induction n as [|n IH]; intros lo s HI Hb; simpl.
  { by rewrite Z.add_0_r. }
  apply returns_bind. eapply returns_mono; [apply Hb; [lia|done]|].
  intros s' HI'. replace (lo + Z.of_nat (Datatypes.S n)) with ((lo + 1) + Z.of_nat n) by lia.
  apply IH; [done|]. intros; apply Hb; [lia|done].
Qed.

Lemma returns_while_range (I : Z → S → Prop) body lo hi s :
  lo ≤ hi →
  I lo s →
  (∀ i s, lo ≤ i < hi → I i s → returns (body i s) (I (i + 1))) →
  returns (while_range lo hi body s) (I hi).
Proof.
  intros Hle HI Hb. unfold while_range.
  replace hi with (lo + Z.of_nat (Z.to_nat (hi - lo))) at 2 by lia.
  apply returns_iter_from; [done|]. intros; apply Hb; [lia|done].
Qed.

Lemma while_range_empty body lo hi s : hi ≤ lo → while_range lo hi body s = Ret s.
Proof. intros. unfold while_range. by replace (Z.to_nat (hi - lo)) with O by lia. Qed.

(** The invariant rule for [for x in l]: the invariant speaks of the elements done. *)
Lemma returns_for_each_in {A} (I : list A → S → Prop) (l : list A) (body : A → S → outcome S) s :
  I [] s →
  (∀ done x rest s, l = done ++ x :: rest → I done s → returns (body x s) (I (done ++ [x]))) →
  returns (for_each_in l body s) (I l).
Proof.
  intros HI Hb.
  cut (∀ rest dn s, l = dn ++ rest → I dn s → returns (for_each_in rest body s) (I l)).
  { intros Hc. by apply (Hc l []). }
  clear HI s. induction rest as [|x rest IH]; intros dn s -> HI; simpl.
  { by rewrite app_nil_r. }
  apply returns_bind. eapply returns_mono; [by eapply Hb|]. intros s' HI'.
  apply (IH (dn ++ [x])); [by rewrite <-app_assoc|done].
Qed.
End range_rules.

(** [find_range] finds the least index satisfying the test. *)
Lemma find_from_spec n lo (p : Z → outcome bool) (f : Z → bool) :
  (∀ i, lo ≤ i < lo + Z.of_nat n → p i = Ret (f i)) →
  ∃ r, find_from n lo p = Ret r ∧
    match r with
    | Some i => lo ≤ i < lo + Z.of_nat n ∧ f i = true ∧ ∀ j, lo ≤ j < i → f j = false
    | None => ∀ j, lo ≤ j < lo + Z.of_nat n → f j = false
    end.
Proof.
  revert lo. induction n as [|n IH]; intros lo Hp; simpl.
  { exists None. split; [done|]. intros; lia. }
  rewrite (Hp lo) by lia. simpl. destruct (f lo) eqn:Hf.
  { exists (Some lo). split; [done|]. split; [lia|]. split; [done|]. intros; lia. }
  destruct (IH (lo + 1)) as (r & -> & Hr).
  { intros; apply Hp; lia. }
  exists r. split; [done|]. destruct r as [i|].
  - destruct Hr as (? & ? & Hmin). split; [lia|]. split; [done|]. intros j ?.
    destruct (decide (j = lo)) as [->|]; [done|]. apply Hmin; lia.
  - intros j ?. destruct (decide (j = lo)) as [->|]; [done|]. apply Hr; lia.
Qed.

Lemma find_range_spec lo hi (p : Z → outcome bool) (f : Z → bool) :
  (∀ i, lo ≤ i < hi → p i = Ret (f i)) →
  ∃ r, find_range lo hi p = Ret r ∧
    match r with
    | Some i => lo ≤ i < hi ∧ f i = true ∧ ∀ j, lo ≤ j < i → f j = false
    | None => ∀ j, lo ≤ j < hi → f j = false
    end.
Proof.
  intros Hp. unfold find_range.
  destruct (find_from_spec (Z.to_nat (hi - lo)) lo p f) as (r & -> & Hr).
  { intros; apply Hp; lia. }
  exists r. split; [done|]. destruct r as [i|]; [|intros; apply Hr; lia].
  destruct Hr as (? & ? & ?). split; [lia|done].
Qed.

(** ** Arrays *)
Section arrays.
Context {A : Type}.
Implicit Types (l : list A) (i : Z) (x : A).

Lemma len_nonneg l : 0 ≤ len l.
Proof. unfold len; lia. Qed.

Lemma aget_total l i : 0 ≤ i < len l → ∃ x, aget l i = Ret x ∧ l !! Z.to_nat i = Some x.
Proof.
  intros H. unfold aget. rewrite decide_True by done.
  destruct (lookup_lt_is_Some_2 l (Z.to_nat i)) as [x Hx]; [unfold len in H; lia|].
  exists x. by rewrite Hx.
Qed.

Lemma aget_ret l i x : aget l i = Ret x ↔ 0 ≤ i ∧ l !! Z.to_nat i = Some x.
Proof.
  unfold aget. case_decide as Hd.
  - destruct (l !! Z.to_nat i); simpl; naive_solver.
  - split; [done|]. intros [? Hl%lookup_lt_Some]. unfold len in Hd. lia.
Qed.

Lemma aget_panic l i : ¬ (0 ≤ i < len l) → aget l i = Panic.
Proof. intros. unfold aget. by rewrite decide_False. Qed.

Lemma aset_ret l i x : 0 ≤ i < len l → aset l i x = Ret (<[Z.to_nat i := x]> l).
Proof. intros. unfold aset. by rewrite decide_True. Qed.

Lemma aset_inv l i x l' : aset l i x = Ret l' → 0 ≤ i < len l ∧ l' = <[Z.to_nat i := x]> l.
Proof. unfold aset. case_decide; naive_solver. Qed.

Lemma slice_ret l a b : 0 ≤ a ≤ b → b ≤ len l →
  slice l a b = Ret (take (Z.to_nat (b - a)) (drop (Z.to_nat a) l)).
Proof. intros. unfold slice. by rewrite decide_True. Qed.

Lemma len_insert l n x : len (<[n := x]> l) = len l.
Proof. unfold len. by rewrite length_insert. Qed.

Lemma len_app l l' : len (l ++ l') = len l + len l'.
Proof. unfold len. rewrite length_app. lia. Qed.

Lemma slice_len l a b s : slice l a b = Ret s → len s = b - a.
Proof.
  unfold slice. case_decide as H; [|done]. intros [= <-]. unfold len in *.
  rewrite length_take, length_drop. lia.
Qed.
End arrays.

Lemma elem_of_snoc {A} (l : list A) (x y : A) : x ∈ l ++ [y] ↔ x ∈ l ∨ x = y.
Proof. set_solver. Qed.

(** Distinct indices below [n] are at most [n] many. *)
Lemma nodup_below (l : list Z) n : NoDup l → (∀ x, x ∈ l → 0 ≤ x < Z.of_nat n) →
  (length l ≤ n)%nat.
Proof.
  intros Hn Hb.
  assert (l ⊆+ (Z.of_nat <$> seq 0 n)) as Hs%submseteq_length.
  - apply NoDup_submseteq; [done|]. intros x Hx. specialize (Hb x Hx).
    apply list_elem_of_fmap. exists (Z.to_nat x). rewrite elem_of_seq. lia.
  - by rewrite length_fmap, length_seq in Hs.
Qed.

(** A decidable fact about concrete data. *)
Ltac decide_by_computation := apply (bool_decide_unpack _); vm_compute; exact I.
#[export] Instance is_u8_dec x : Decision (is_u8 x).
Proof. unfold is_u8. apply _. Defined.
#[export] Instance is_u32_dec x : Decision (is_u32 x).
Proof. unfold is_u32. apply _. Defined.
#[export] Instance is_u64_dec x : Decision (is_u64 x).
Proof. unfold is_u64. apply _. Defined.

#[export] Hint Rewrite @len_insert @len_app : ralix.
#[export] Hint Resolve len_nonneg : ralix.
