(* ===== verification/Bits.v ===== *)
(** * Bit-level facts about 64-bit words

    The masks the kernel uses ([!(align - 1)], [1 << bit], field extraction) in terms of
    arithmetic and of [Z.testbit].  Shared by the allocators, the page tables and the
    drivers. *)
From S2P Require Import Prelude.
Local Open Scope Z_scope.

(** A 64-bit word has no bit above 63. *)
Lemma u64_testbit_high x i : is_u64 x → 64 ≤ i → Z.testbit x i = false.
Proof.
  intros [? ?] Hi. rewrite <-(Z.mod_small x (2 ^ 64)) by lia.
  by apply Z.mod_pow2_bits_high.
Qed.

(** Non-negative and no bit above 63: a 64-bit word. *)
Lemma testbit_is_u64 x : 0 ≤ x → (∀ i, 64 ≤ i → Z.testbit x i = false) → is_u64 x.
Proof.
  intros Hx Hi. split; [done|]. replace x with (x mod 2 ^ 64).
  { apply (Z.mod_pos_bound x (2 ^ 64)). lia. }
  apply Z.bits_inj'. intros n Hn. destruct (decide (n < 64)).
  - by rewrite Z.mod_pow2_bits_low by lia.
  - rewrite Z.mod_pow2_bits_high by lia. symmetry. apply Hi. lia.
Qed.

Lemma not64_testbit x i : is_u64 x → 0 ≤ i →
  Z.testbit (not64 x) i = (i <? 64) && negb (Z.testbit x i).
Proof.
  intros Hx Hi. unfold not64.
  replace (U64_MAX - x) with (Z.lxor (Z.ones 64) x).
  - rewrite Z.lxor_spec. destruct (Z.ltb_spec i 64).
    + rewrite Z.ones_spec_low by lia. by destruct (Z.testbit x i).
    + rewrite Z.ones_spec_high by lia. by rewrite u64_testbit_high.
  - change U64_MAX with (Z.ones 64). rewrite Z.sub_nocarry_ldiff.
    + apply Z.bits_inj'. intros n Hn. rewrite Z.lxor_spec, Z.ldiff_spec.
      destruct (Z.ltb_spec n 64).
      * rewrite Z.ones_spec_low by lia. by destruct (Z.testbit x n).
      * rewrite Z.ones_spec_high by lia. by rewrite u64_testbit_high.
    + apply Z.bits_inj'. intros n Hn. rewrite Z.ldiff_spec, Z.bits_0.
      destruct (Z.ltb_spec n 64).
      * rewrite Z.ones_spec_low by lia. by rewrite andb_false_r.
      * by rewrite u64_testbit_high.
Qed.

Lemma is_u64_not64 x : is_u64 x → is_u64 (not64 x).
Proof. unfold is_u64, not64. lia. Qed.

Lemma is_u64_land x y : is_u64 x → 0 ≤ y → is_u64 (Z.land x y).
Proof.
  intros Hx Hy. apply testbit_is_u64; [apply Z.land_nonneg; lia|].
  intros i Hi. by rewrite Z.land_spec, u64_testbit_high.
Qed.

Lemma is_u64_lor x y : is_u64 x → is_u64 y → is_u64 (Z.lor x y).
Proof.
  intros Hx Hy. apply testbit_is_u64; [apply Z.lor_nonneg; unfold is_u64 in *; lia|].
  intros i Hi. by rewrite Z.lor_spec, !u64_testbit_high.
Qed.

Lemma pow2_is_u64 k : 0 ≤ k < 64 → is_u64 (2 ^ k).
Proof.
  intros. unfold is_u64. split; [lia|]. change U64 with (2 ^ 64).
  apply Z.pow_lt_mono_r; lia.
Qed.

(** [1u64 << k]. *)
Lemma shl64_1 k : 0 ≤ k < 64 → shl64 1 k = 2 ^ k.
Proof.
  intros. unfold shl64, wrap64. rewrite (Z.mod_small k 64), Z.shiftl_1_l by lia.
  apply Z.mod_small. by apply pow2_is_u64.
Qed.

(** [v & !(2^k - 1)] rounds [v] down to a multiple of [2^k]. *)
Lemma land_not64_pow2 v k : 0 ≤ k < 64 → is_u64 v →
  Z.land v (not64 (2 ^ k - 1)) = v - v mod 2 ^ k.
Proof.
  intros Hk Hv. pose proof (pow2_is_u64 k Hk) as Hp.
  assert (is_u64 (2 ^ k - 1)) by (unfold is_u64 in *; lia).
  replace (v - v mod 2 ^ k) with (Z.ldiff v (Z.ones k)).
  - apply Z.bits_inj'. intros n Hn. rewrite Z.land_spec, Z.ldiff_spec.
    rewrite not64_testbit by done.
    replace (2 ^ k - 1) with (Z.ones k) by (rewrite Z.ones_equiv; lia).
    destruct (Z.ltb_spec n 64); [done|]. by rewrite u64_testbit_high.
  - rewrite Z.ldiff_ones_r by lia. rewrite Z.shiftl_mul_pow2, Z.shiftr_div_pow2 by lia.
    pose proof (Z.div_mod v (2 ^ k)). lia.
Qed.

(** Masking with [2^k - 1] keeps the low bits. *)
Lemma land_mask v k : 0 ≤ k → Z.land v (2 ^ k - 1) = v mod 2 ^ k.
Proof. intros. rewrite <-Z.land_ones by done. by rewrite Z.ones_equiv. Qed.

(** ** Single bits of a 64-bit word *)
Definition bit_set (w b : Z) : Z := Z.lor w (shl64 1 b).
Definition bit_clear (w b : Z) : Z := Z.land w (not64 (shl64 1 b)).
Definition bit_test (w b : Z) : bool := negb (Z.land w (shl64 1 b) =? 0).

Section bits.
Context (w b : Z) (Hw : is_u64 w) (Hb : 0 ≤ b < 64).

Lemma bit_set_u64 : is_u64 (bit_set w b).
Proof. unfold bit_set. rewrite shl64_1 by done. by apply is_u64_lor, pow2_is_u64. Qed.

Lemma bit_clear_u64 : is_u64 (bit_clear w b).
Proof.
  unfold bit_clear. rewrite shl64_1 by done. apply is_u64_land; [done|].
  apply is_u64_not64. by apply pow2_is_u64.
Qed.

Lemma bit_test_testbit : bit_test w b = Z.testbit w b.
Proof.
  unfold bit_test. rewrite shl64_1 by done. destruct (Z.testbit w b) eqn:Ht.
  - apply negb_true_iff, Z.eqb_neq. intros H0.
    assert (Z.testbit (Z.land w (2 ^ b)) b = false) as Hf by (rewrite H0; apply Z.bits_0).
    rewrite Z.land_spec, Ht, Z.pow2_bits_true in Hf by lia. done.
  - apply negb_false_iff, Z.eqb_eq. apply Z.bits_inj'. intros n Hn.
    rewrite Z.land_spec, Z.bits_0. destruct (decide (n = b)) as [->|].
    + by rewrite Ht.
    + rewrite Z.pow2_bits_false by lia. by rewrite andb_false_r.
Qed.

Lemma bit_set_testbit i : 0 ≤ i →
  Z.testbit (bit_set w b) i = if decide (i = b) then true else Z.testbit w i.
Proof.
  intros. unfold bit_set. rewrite shl64_1 by done. rewrite Z.lor_spec. case_decide.
  - subst. rewrite Z.pow2_bits_true by lia. by rewrite orb_true_r.
  - rewrite Z.pow2_bits_false by lia. by rewrite orb_false_r.
Qed.

Lemma bit_clear_testbit i : 0 ≤ i →
  Z.testbit (bit_clear w b) i = if decide (i = b) then false else Z.testbit w i.
Proof.
  intros. unfold bit_clear. rewrite shl64_1 by done.
  rewrite Z.land_spec, not64_testbit by (by try apply pow2_is_u64). case_decide.
  - subst. rewrite Z.pow2_bits_true by lia. by rewrite !andb_false_r.
  - rewrite Z.pow2_bits_false by lia. destruct (Z.ltb_spec i 64); simpl.
    + by rewrite andb_true_r.
    + by rewrite u64_testbit_high.
Qed.
End bits.

#[export] Hint Resolve is_u64_not64 is_u64_land is_u64_lor pow2_is_u64
  bit_set_u64 bit_clear_u64 : ralix.

(** ** Fields: the bits [lo .. hi) of a word *)
Definition bit_range (lo hi : Z) : Z := Z.shiftl (Z.ones (hi - lo)) lo.

Lemma bit_range_testbit lo hi n : 0 ≤ lo ≤ hi → 0 ≤ n →
  Z.testbit (bit_range lo hi) n = (lo <=? n) && (n <? hi).
Proof.
  intros Hl Hn. unfold bit_range. rewrite Z.shiftl_spec by done.
  destruct (Z.leb_spec lo n); simpl.
  - destruct (Z.ltb_spec n hi); [apply Z.ones_spec_low|apply Z.ones_spec_high]; lia.
  - apply Z.testbit_neg_r. lia.
Qed.

(** A word whose bits all lie in [lo .. hi). *)
Definition within (lo hi x : Z) : Prop :=
  0 ≤ x ∧ ∀ n, 0 ≤ n → (n < lo ∨ hi ≤ n) → Z.testbit x n = false.

Lemma within_aligned lo hi x : 0 ≤ lo ≤ hi → 0 ≤ x < 2 ^ hi → x mod 2 ^ lo = 0 → within lo hi x.
Proof.
  intros Hl Hx Hm. split; [lia|]. intros n Hn [Hlo|Hhi].
  - rewrite (Z.div_mod x (2 ^ lo)), Hm, Z.add_0_r, Z.mul_comm by lia.
    by rewrite Z.mul_pow2_bits_low.
  - rewrite <-(Z.mod_small x (2 ^ hi)) by done. apply Z.mod_pow2_bits_high; lia.
Qed.

Lemma land_bit_range_within lo hi x : 0 ≤ lo ≤ hi → within lo hi x →
  Z.land x (bit_range lo hi) = x.
Proof.
  intros Hl [Hx Hb]. apply Z.bits_inj'. intros n Hn. rewrite Z.land_spec, bit_range_testbit by done.
  destruct (Z.leb_spec lo n), (Z.ltb_spec n hi); simpl; rewrite ?andb_true_r, ?andb_false_r;
    try done; symmetry; apply Hb; lia.
Qed.

Lemma land_bit_range_outside lo hi lo' hi' x : 0 ≤ lo ≤ hi → within lo' hi' x →
  hi' ≤ lo ∨ hi ≤ lo' → Z.land x (bit_range lo hi) = 0.
Proof.
  intros Hl [Hx Hb] Hd. apply Z.bits_inj'. intros n Hn.
  rewrite Z.land_spec, bit_range_testbit, Z.bits_0 by done.
  destruct (Z.leb_spec lo n), (Z.ltb_spec n hi); simpl; rewrite ?andb_true_r, ?andb_false_r;
    try done; apply Hb; lia.
Qed.

(** Bits of an index field: [(x >> s) & 0x1ff]. *)
Lemma index_field x s : 0 ≤ s → Z.land (Z.shiftr x s) 0x1ff = (x / 2 ^ s) mod 512.
Proof.
  intros. change 0x1ff with (2 ^ 9 - 1). rewrite land_mask by lia.
  by rewrite Z.shiftr_div_pow2.
Qed.
