(* ===== verification/Layout.v ===== *)
(** * Address arithmetic and the memory layout constants

    [src/mm/layout.rs]: page size, the higher-half base, [align_up]/[align_down] and the
    physical/virtual address conversions, at 64 bits with their wrap-around.
    [src/platform/board.rs]: the constants of the two boards. *)
From S2P Require Import Prelude Bits.
Local Open Scope Z_scope.

(** ** src/mm/layout.rs *)
Definition PAGE_SIZE : Z := 4096.
Definition PAGE_MASK : Z := PAGE_SIZE - 1.
Definition KERNEL_PHYS_BASE : Z := 0x80000.
Definition KERNEL_VIRT_BASE : Z := 0xFFFF800000000000.
Definition PHYS_MAP_BASE : Z := KERNEL_VIRT_BASE.

Definition align_up (value align : Z) : Z :=
  Z.land (sub64 (add64 value align) 1) (not64 (sub64 align 1)).

Definition align_down (value align : Z) : Z :=
  Z.land value (not64 (sub64 align 1)).

Definition phys_to_virt (paddr : Z) : Z := add64 paddr PHYS_MAP_BASE.
Definition virt_to_phys (vaddr : Z) : Z := sub64 vaddr PHYS_MAP_BASE.

(** ** src/platform/board.rs: the board is a build feature *)
Inductive board := Rpi5 | Qemu.
#[export] Instance board_eq_dec : EqDecision board.
Proof. solve_decision. Defined.

Definition SOC_BASE : Z := 0x107c000000.
Definition SOC_MMIO_SIZE : Z := 0x80000000.
Definition PERIPHERAL_BASE : Z := 0x3F000000.
Definition PERIPHERAL_SIZE : Z := 0x01000000.
Definition GICD_BASE : Z := SOC_BASE + 0x7fff9000.
Definition GICC_BASE : Z := SOC_BASE + 0x7fffc000.
Definition MBOX_BASE (b : board) : Z :=
  match b with Rpi5 => SOC_BASE + 0x7c013880 | Qemu => PERIPHERAL_BASE + 0xB880 end.
Definition UART_BASE (b : board) : Z :=
  match b with Rpi5 => SOC_BASE + 0x7d001000 | Qemu => PERIPHERAL_BASE + 0x201000 end.
Definition GPIO_BASE : Z := PERIPHERAL_BASE + 0x200000.
Definition VC_MEM_BASE (b : board) : Z :=
  match b with Rpi5 => 0 | Qemu => 0x40000000 end.
Definition VC_MEM_MASK (b : board) : Z :=
  match b with Rpi5 => 0xFFFFFFFF | Qemu => 0x3FFFFFFF end.
Definition QEMU_RAM_SIZE : Z := 8 * 1024 * 1024 * 1024.

(** ** Facts shared by the components *)

Lemma align_down_eq v k : 0 ≤ k < 64 → is_u64 v →
  align_down v (2 ^ k) = v - v mod 2 ^ k.
Proof.
  intros Hk Hv. unfold align_down, sub64, wrap64.
  pose proof (pow2_is_u64 k Hk). rewrite Z.mod_small by (unfold is_u64 in *; lia).
  by apply land_not64_pow2.
Qed.

Lemma align_up_eq v k : 0 ≤ k < 64 → is_u64 v → v + 2 ^ k - 1 < U64 →
  align_up v (2 ^ k) = (v + 2 ^ k - 1) - (v + 2 ^ k - 1) mod 2 ^ k.
Proof.
  intros Hk Hv Hno. unfold align_up, add64, sub64, wrap64.
  pose proof (pow2_is_u64 k Hk). unfold is_u64 in *.
  rewrite Zminus_mod_idemp_l. rewrite (Z.mod_small (v + 2 ^ k - 1)) by lia.
  rewrite (Z.mod_small (2 ^ k - 1)) by lia. apply land_not64_pow2; [done|].
  unfold is_u64. lia.
Qed.

Lemma align_up_page v : is_u64 v → v + 4095 < U64 →
  v ≤ align_up v PAGE_SIZE < v + 4096 ∧ align_up v PAGE_SIZE mod 4096 = 0.
Proof.
  intros Hv Hno. change PAGE_SIZE with (2 ^ 12). rewrite align_up_eq by (done || lia).
  change (2 ^ 12) with 4096. Z.to_euclidean_division_equations. lia.
Qed.

Lemma align_down_page v : is_u64 v →
  align_down v PAGE_SIZE ≤ v < align_down v PAGE_SIZE + 4096 ∧
  align_down v PAGE_SIZE mod 4096 = 0 ∧ 0 ≤ align_down v PAGE_SIZE.
Proof.
  unfold is_u64. intros Hv. change PAGE_SIZE with (2 ^ 12). rewrite align_down_eq by done || lia.
  change (2 ^ 12) with 4096. Z.to_euclidean_division_equations. lia.
Qed.
