(* ===== verification/Memory.v ===== *)
(** * Byte-addressed memory

    What the kernel does through raw pointers ([core::ptr::copy], [read_volatile],
    [write_volatile], [slice::from_raw_parts]) as operations on a memory of bytes,
    little-endian for words.  Which addresses are backed by memory is not recorded: the
    theorems state which addresses an operation leaves alone. *)
From S2P Require Import Prelude.
Local Open Scope Z_scope.

Definition mem := Z → Z.

Definition store8 (a v : Z) (m : mem) : mem := λ x, if decide (x = a) then v else m x.

(** Byte [i] of a word. *)
Definition byte_of (v i : Z) : Z := (v / 2 ^ (8 * i)) mod 256.

Definition store32 (a v : Z) (m : mem) : mem :=
  store8 (a + 3) (byte_of v 3) (store8 (a + 2) (byte_of v 2)
    (store8 (a + 1) (byte_of v 1) (store8 a (byte_of v 0) m))).

Definition load32 (m : mem) (a : Z) : Z :=
  m a + 2 ^ 8 * m (a + 1) + 2 ^ 16 * m (a + 2) + 2 ^ 24 * m (a + 3).

(** [core::ptr::copy(src, dst, n)]: the ranges may overlap. *)
Definition copy (src dst n : Z) (m : mem) : mem := λ x,
  if decide (dst ≤ x < dst + n) then m (x - dst + src) else m x.

(** The bytes of [slice::from_raw_parts(ptr, len)], and writing through the [_mut] one. *)
Fixpoint load_bytes (m : mem) (a : Z) (n : nat) : list Z :=
  match n with O => [] | S n => m a :: load_bytes m (a + 1) n end.

Fixpoint store_bytes (a : Z) (bs : list Z) (m : mem) : mem :=
  match bs with [] => m | b :: bs => store_bytes (a + 1) bs (store8 a b m) end.

Lemma byte_of_range v i : 0 ≤ byte_of v i < 256.
Proof. apply Z.mod_pos_bound. lia. Qed.

(** A 32-bit word is its four bytes. *)
Lemma word_bytes v : is_u32 v →
  byte_of v 0 + 2 ^ 8 * byte_of v 1 + 2 ^ 16 * byte_of v 2 + 2 ^ 24 * byte_of v 3 = v.
Proof.
  unfold is_u32, byte_of. intros Hv. change (2 ^ (8 * 0)) with 1. change (2 ^ (8 * 1)) with 256.
  change (2 ^ (8 * 2)) with 65536. change (2 ^ (8 * 3)) with 16777216.
  change (2 ^ 8) with 256. change (2 ^ 16) with 65536. change (2 ^ 24) with 16777216.
  Z.to_euclidean_division_equations. lia.
Qed.

Lemma store32_out a v m x : x < a ∨ a + 4 ≤ x → store32 a v m x = m x.
Proof. intros H. unfold store32, store8. repeat (rewrite decide_False by lia). done. Qed.

Lemma load32_store32 a v m : is_u32 v → load32 (store32 a v m) a = v.
Proof.
  intros Hv. rewrite <-(word_bytes v Hv) at 2. unfold load32, store32, store8.
  repeat case_decide; try lia.
Qed.

Lemma load32_store32_other a b v m : b + 4 ≤ a ∨ a + 4 ≤ b →
  load32 (store32 a v m) b = load32 m b.
Proof. intros H. unfold load32. by rewrite !store32_out by lia. Qed.

Lemma load32_ext m m' a : (∀ x, a ≤ x < a + 4 → m x = m' x) → load32 m a = load32 m' a.
Proof. intros H. unfold load32. by rewrite !H by lia. Qed.

Lemma load32_copy src dst n m a : dst ≤ a → a + 4 ≤ dst + n →
  load32 (copy src dst n m) a = load32 m (a - dst + src).
Proof.
  intros. unfold load32, copy. repeat (rewrite decide_True by lia).
  replace (a + 1 - dst + src) with (a - dst + src + 1) by lia.
  replace (a + 2 - dst + src) with (a - dst + src + 2) by lia.
  by replace (a + 3 - dst + src) with (a - dst + src + 3) by lia.
Qed.

Lemma copy_out src dst n m x : x < dst ∨ dst + n ≤ x → copy src dst n m x = m x.
Proof. intros. unfold copy. by rewrite decide_False by lia. Qed.

Lemma length_load_bytes m a n : length (load_bytes m a n) = n.
Proof. revert a. induction n; intros; simpl; [done|]. by f_equal. Qed.

Lemma store_bytes_out a bs m x : x < a ∨ a + len bs ≤ x → store_bytes a bs m x = m x.
Proof.
  revert a m. induction bs as [|b bs IH]; intros a m H; [done|]. simpl.
  unfold len in *. simpl in H. rewrite IH by lia. unfold store8. by rewrite decide_False by lia.
Qed.

Lemma load_store_bytes a bs m : load_bytes (store_bytes a bs m) a (length bs) = bs.
Proof.
  revert a m. induction bs as [|b bs IH]; intros a m; [done|]. simpl. f_equal; [|apply IH].
  rewrite store_bytes_out by (unfold len; lia). unfold store8. by rewrite decide_True.
Qed.

(** *** 64-bit words *)
Definition store64 (a v : Z) (m : mem) : mem := store32 (a + 4) (v / U32) (store32 a (v mod U32) m).
Definition load64 (m : mem) (a : Z) : Z := load32 m a + U32 * load32 m (a + 4).

Lemma load64_store64 a v m : is_u64 v → load64 (store64 a v m) a = v.
Proof.
  intros Hv. unfold load64, store64.
  assert (is_u32 (v / U32) ∧ is_u32 (v mod U32)) as [Hh Hl].
  { unfold is_u64, is_u32 in *. split; [|apply Z.mod_pos_bound; lia].
    split; [apply Z.div_pos; lia|apply Z.div_lt_upper_bound; lia]. }
  rewrite load32_store32_other, !load32_store32 by (done || lia).
  pose proof (Z.div_mod v U32 ltac:(lia)). lia.
Qed.

Lemma store64_out a v m x : x < a ∨ a + 8 ≤ x → store64 a v m x = m x.
Proof. intros H. unfold store64. by rewrite !store32_out by lia. Qed.

Lemma load64_ext m m' a : (∀ x, a ≤ x < a + 8 → m x = m' x) → load64 m a = load64 m' a.
Proof. intros H. unfold load64. by rewrite !(load32_ext m m') by (intros; apply H; lia). Qed.

Lemma load64_store64_other a b v m : b + 8 ≤ a ∨ a + 8 ≤ b → load64 (store64 a v m) b = load64 m b.
Proof. intros H. apply load64_ext. intros x Hx. apply store64_out. lia. Qed.

Lemma load64_store32_other a b v m : b + 8 ≤ a ∨ a + 4 ≤ b → load64 (store32 a v m) b = load64 m b.
Proof. intros H. apply load64_ext. intros x Hx. apply store32_out. lia. Qed.

(** Words one after the other. *)
Fixpoint store_words (a : Z) (ws : list Z) (m : mem) : mem :=
  match ws with [] => m | w :: ws => store_words (a + 8) ws (store64 a w m) end.
Fixpoint load_words (m : mem) (a : Z) (n : nat) : list Z :=
  match n with O => [] | S n => load64 m a :: load_words m (a + 8) n end.

Lemma store_words_out a ws m x : x < a ∨ a + 8 * len ws ≤ x → store_words a ws m x = m x.
Proof.
  revert a m. induction ws as [|w ws IH]; intros a m H; [done|]. unfold len in *. simpl in *.
  rewrite IH by lia. apply store64_out. lia.
Qed.

Lemma load64_words m a n i w : load_words m a n !! i = Some w → load64 m (a + 8 * Z.of_nat i) = w.
Proof.
  revert a i. induction n as [|n IH]; intros a i; [done|]. destruct i as [|i]; simpl.
  - intros [= <-]. f_equal. lia.
  - intros Hi. rewrite <-(IH _ _ Hi). f_equal. lia.
Qed.

Lemma load_words_ext m m' a n : (∀ x, a ≤ x < a + 8 * Z.of_nat n → m x = m' x) → load_words m a n = load_words m' a n.
Proof.
  revert a. induction n as [|n IH]; intros a H; [done|]. simpl. f_equal.
  - apply load64_ext. intros. apply H. lia.
  - apply IH. intros. apply H. lia.
Qed.

Lemma load_words_app m a n k : load_words m a (n + k) = load_words m a n ++ load_words m (a + 8 * Z.of_nat n) k.
Proof.
  revert a. induction n as [|n IH]; intros a; cbn [Nat.add load_words app].
  - by replace (a + 8 * Z.of_nat 0) with a by lia.
  - rewrite IH. by replace (a + 8 + 8 * Z.of_nat n) with (a + 8 * Z.of_nat (S n)) by lia.
Qed.

Lemma load_store_words a ws m : Forall is_u64 ws → load_words (store_words a ws m) a (length ws) = ws.
Proof.
  revert a m. induction ws as [|w ws IH]; intros a m Hw; [done|]. apply Forall_cons in Hw as [Hw Hws]. simpl. f_equal; [|by apply IH].
  rewrite (load64_ext _ (store64 a w m)); [by apply load64_store64|].
  intros x Hx. apply store_words_out. lia.
Qed.

Lemma store_words_app a ws ws' m : store_words a (ws ++ ws') m = store_words (a + 8 * len ws) ws' (store_words a ws m).
Proof.
  revert a m. induction ws as [|w ws IH]; intros a m; unfold len in *; simpl.
  - f_equal. lia.
  - rewrite IH. f_equal. lia.
Qed.

Lemma load64_store_words a ws m i w : Forall is_u64 ws → ws !! i = Some w →
  load64 (store_words a ws m) (a + 8 * Z.of_nat i) = w.
Proof. intros Hw Hi. apply (load64_words _ _ (length ws)). by rewrite load_store_words. Qed.

Lemma load64_store_words_other a ws m b : b + 8 ≤ a ∨ a + 8 * len ws ≤ b →
  load64 (store_words a ws m) b = load64 m b.
Proof. intros H. apply load64_ext. intros x Hx. apply store_words_out. lia. Qed.

Lemma words_u64 l : forallb (λ w, bool_decide (is_u64 w)) l = true → Forall is_u64 l.
Proof.
  intros Hf. apply Forall_forall. intros w Hw. rewrite forallb_forall in Hf.
  by eapply bool_decide_eq_true_1, Hf, list_elem_of_In.
Qed.

Lemma store64_zero a m x : a ≤ x < a + 8 → store64 a 0 m x = 0.
Proof. intros H. unfold store64, store32, store8, byte_of. repeat case_decide; try done; lia. Qed.
#[export] Hint Rewrite length_load_bytes : ralix.
