(* ===== verification/Aarch64.v ===== *)
(** * The processor the assembly runs on

    The instructions that [src/arch/aarch64/boot.S] and [src/arch/aarch64/exception.S] use, with their
    architectural effect on the general registers, the stack pointers, PSTATE, the system registers and
    memory; programs as lists of labels and instructions laid out in memory; and runs of a program.

    PSTATE is kept in the format of SPSR_ELx: NZCV in bits 31 to 28, DAIF in bits 9 to 6, the exception level
    in bits 3 and 2, SPSel in bit 0.  Rust functions the assembly calls, the values of the linker's symbols and
    the translation of addresses are parameters.  Barriers have no effect, and [wfe] is over at once. *)
From S2P Require Import Prelude Memory.
Local Open Scope Z_scope.

Inductive reg := X (n : nat) | XZR | SP.
#[export] Instance reg_eq_dec : EqDecision reg.
Proof. solve_decision. Defined.

Inductive sysreg :=
| CurrentEL | MPIDR_EL1 | SPSel
| SP_EL0 | SP_EL1 | SP_EL2 | SP_EL3
| ELR_EL1 | ELR_EL2 | ELR_EL3 | SPSR_EL1 | SPSR_EL2 | SPSR_EL3
| SCR_EL3 | CPTR_EL3 | HCR_EL2 | CPTR_EL2 | CNTHCTL_EL2 | CNTVOFF_EL2
| SCTLR_EL1 | CPACR_EL1 | VBAR_EL1 | MAIR_EL1 | TCR_EL1 | TTBR0_EL1 | TTBR1_EL1.
#[export] Instance sysreg_eq_dec : EqDecision sysreg.
Proof. solve_decision. Defined.

Inductive cond := EQ | NE | HS | LT.
#[export] Instance cond_eq_dec : EqDecision cond.
Proof. solve_decision. Defined.

(** [MovW] and [StrW] are the 32-bit forms; [Idx] a register offset with [lsl #3]; [Post] the post-indexed
    form; [LdrSym] is [ldr rd, =symbol]; [Barrier] is [isb] or [dsb]. *)
Inductive instr :=
| MovI (rd : reg) (imm : Z) | Mov (rd rn : reg) | MovW (rd rn : reg)
| Add (rd rn rm : reg) | Sub (rd rn rm : reg) | Mul (rd rn rm : reg) | Orr (rd rn rm : reg)
| AddI (rd rn : reg) (imm : Z) | SubI (rd rn : reg) (imm : Z) | SubsI (rd rn : reg) (imm : Z)
| AndI (rd rn : reg) (imm : Z) | BicI (rd rn : reg) (imm : Z) | OrrI (rd rn : reg) (imm : Z)
| LslI (rd rn : reg) (s : Z) | LsrI (rd rn : reg) (s : Z)
| Cmp (rn rm : reg) | CmpI (rn : reg) (imm : Z)
| Ldr (rt rn : reg) (off : Z) | Str (rt rn : reg) (off : Z) | StrW (rt rn : reg) (off : Z)
| LdrIdx (rt rn rm : reg) | StrIdx (rt rn rm : reg) | StrPost (rt rn : reg) (inc : Z)
| Stp (rt1 rt2 rn : reg) (off : Z) | Ldp (rt1 rt2 rn : reg) (off : Z)
| Adr (rd : reg) (l : string) | LdrSym (rd : reg) (l : string)
| Mrs (rt : reg) (s : sysreg) | Msr (s : sysreg) (rt : reg)
| Wfe | Barrier
| B (l : string) | Bc (c : cond) (l : string) | Cbz (rt : reg) (l : string) | Bl (l : string)
| Br (rt : reg) | RetI | Eret.
#[export] Instance instr_eq_dec : EqDecision instr.
Proof. solve_decision. Defined.

(** A source file: labels, instructions of four bytes, and [.space]. *)
Inductive line := Lbl (l : string) | Op (i : instr) | Space (n : Z).

(** [xs]: x0 to x30.  [vs]: the 128-bit registers v0 to v31, which no instruction here touches. *)
Record cpu := mkCpu { xs : list Z; sys : sysreg → Z; pstate : Z; vs : list Z; memory : mem }.

Definition with_xs (l : list Z) (c : cpu) : cpu := mkCpu l (sys c) (pstate c) (vs c) (memory c).
Definition with_pstate (p : Z) (c : cpu) : cpu := mkCpu (xs c) (sys c) p (vs c) (memory c).
Definition with_memory (m : mem) (c : cpu) : cpu := mkCpu (xs c) (sys c) (pstate c) (vs c) m.

Definition set_sysf (s : sysreg) (v : Z) (f : sysreg → Z) : sysreg → Z := λ r, if decide (r = s) then v else f r.
Definition set_sys (s : sysreg) (v : Z) (c : cpu) : cpu :=
  mkCpu (xs c) (set_sysf s v (sys c)) (pstate c) (vs c) (memory c).

(** ** PSTATE *)
Definition el (p : Z) : Z := Z.land (Z.shiftr p 2) 3.
Definition sp_sel (p : Z) : Z := Z.land p 1.

(** The stack pointer in use. *)
Definition sp_reg (p : Z) : sysreg :=
  if decide (sp_sel p = 0) then SP_EL0
  else if decide (el p = 1) then SP_EL1 else if decide (el p = 2) then SP_EL2
  else if decide (el p = 3) then SP_EL3 else SP_EL0.

(** The flags of the comparison of [a] with [b], and what the conditions ask of them. *)
Definition signed64 (a : Z) : Z := if decide (a < 2 ^ 63) then a else a - U64.
Definition nzcv (a b : Z) : Z :=
  Z.b2z (Z.testbit (sub64 a b) 63) * 2 ^ 31 + Z.b2z (bool_decide (a = b)) * 2 ^ 30 +
  Z.b2z (bool_decide (b ≤ a)) * 2 ^ 29 +
  Z.b2z (bool_decide (signed64 a - signed64 b ≠ signed64 (sub64 a b))) * 2 ^ 28.
Definition compare (a b p : Z) : Z := Z.lor (Z.land p 0x0FFFFFFF) (nzcv a b).
Definition holds_cond (k : cond) (p : Z) : bool :=
  match k with
  | EQ => Z.testbit p 30
  | NE => negb (Z.testbit p 30)
  | HS => Z.testbit p 29
  | LT => xorb (Z.testbit p 31) (Z.testbit p 28)
  end.

(** ** Registers *)
Definition get (r : reg) (c : cpu) : Z :=
  match r with
  | X n => default 0 (xs c !! n)
  | XZR => 0
  | SP => sys c (sp_reg (pstate c))
  end.
Definition set (r : reg) (v : Z) (c : cpu) : cpu :=
  match r with
  | X n => with_xs (<[n := v]> (xs c)) c
  | XZR => c
  | SP => set_sys (sp_reg (pstate c)) v c
  end.

Definition read_sys (s : sysreg) (c : cpu) : Z :=
  match s with
  | CurrentEL => Z.shiftl (el (pstate c)) 2
  | SPSel => sp_sel (pstate c)
  | _ => sys c s
  end.
Definition write_sys (s : sysreg) (v : Z) (c : cpu) : cpu :=
  match s with
  | SPSel => with_pstate (Z.lor (Z.land (pstate c) (not64 1)) (Z.land v 1)) c
  | _ => set_sys s v c
  end.

(** Where a core is: at an offset of the program, or at an address outside it. *)
Inductive loc := At (off : Z) | Gone (a : Z).

(** [eret] from EL1, EL2 or EL3: the registers it takes the state from.  A return to EL1 in AArch64 state from
    above needs HCR_EL2.RW, and from EL3 also SCR_EL3.RW; no return goes to a higher level or to AArch32. *)
Definition elr_of (e : Z) : sysreg := if decide (e = 1) then ELR_EL1 else if decide (e = 2) then ELR_EL2 else ELR_EL3.
Definition spsr_of (e : Z) : sysreg := if decide (e = 1) then SPSR_EL1 else if decide (e = 2) then SPSR_EL2 else SPSR_EL3.
Definition legal_return (e : Z) (c : cpu) : bool :=
  let v := sys c (spsr_of e) in
  bool_decide (1 ≤ e) && bool_decide (el v ≤ e) && negb (Z.testbit v 4) &&
  (bool_decide (e = 1) || bool_decide (1 < el v) || Z.testbit (sys c HCR_EL2) 31) &&
  (negb (bool_decide (e = 3)) || Z.testbit (sys c SCR_EL3) 10).

(** An interrupt or synchronous exception taken to EL1 by the code at [a]: the state is saved, interrupts
    are masked and the core continues at the offset of the vector. *)
Definition take_exception (a : Z) (vector : Z) (c : cpu) : loc * cpu :=
  (At vector,
   with_pstate (Z.lor (Z.land (pstate c) 0xF0000000) 0x3C5)
     (set_sys SPSR_EL1 (pstate c) (set_sys ELR_EL1 a c))).

(** ** Address translation

    The walk of EL1's two tables with 4 KiB granules and 48-bit addresses, as the fields of TCR_EL1 select it;
    other granules and sizes have no translation here.  A descriptor without the access flag faults.  The result
    is the physical address and the index of the attribute in MAIR_EL1; permissions are not checked, and there is
    no TLB. *)
Definition table_of (d : Z) : Z := Z.land d 0x0000FFFFFFFFF000.
Definition attr_of (d : Z) : Z := Z.land (Z.shiftr d 2) 7.
Definition index_at (shift va : Z) : Z := Z.land (Z.shiftr va shift) 0x1FF.

(** [n] counts the levels below this one. *)
Fixpoint walk (m : mem) (n : nat) (table va : Z) : option (Z * Z) :=
  let shift := 12 + 9 * Z.of_nat n in
  let d := load64 m (table + 8 * index_at shift va) in
  let leaf := if Z.testbit d 10
    then Some (Z.lor (Z.land (table_of d) (not64 (Z.ones shift))) (Z.land va (Z.ones shift)), attr_of d) else None in
  if Z.testbit d 0 then
    match n with
    | O => if Z.testbit d 1 then leaf else None
    | S n' => if Z.testbit d 1 then walk m n' (table_of d) va else if decide (n = 3%nat) then None else leaf
    end
  else None.

Definition regime (tcr : Z) : bool :=
  bool_decide (Z.land tcr 0x3F = 16) && bool_decide (Z.land (Z.shiftr tcr 16) 0x3F = 16) &&
  bool_decide (Z.land (Z.shiftr tcr 14) 3 = 0) && bool_decide (Z.land (Z.shiftr tcr 30) 3 = 2) &&
  negb (Z.testbit tcr 7) && negb (Z.testbit tcr 23).

Definition mapped (s : sysreg → Z) (m : mem) (va : Z) : option (Z * Z) :=
  let top := Z.shiftr va 48 in
  if negb (regime (s TCR_EL1)) then None
  else if decide (top = 0) then walk m 3 (table_of (s TTBR0_EL1)) va
  else if decide (top = 0xFFFF) then walk m 3 (table_of (s TTBR1_EL1)) va
  else None.

(** With the MMU off an address is its own translation. *)
Definition translate (s : sysreg → Z) (m : mem) (va : Z) : option Z :=
  if Z.testbit (s SCTLR_EL1) 0 then fst <$> mapped s m va else Some va.

(** ** Programs *)
Fixpoint fetch (code : list line) (o : Z) : option instr :=
  match code with
  | [] => None
  | Lbl _ :: code => fetch code o
  | Space n :: code => if decide (o < n) then None else fetch code (o - n)
  | Op i :: code => if decide (o = 0) then Some i else fetch code (o - 4)
  end.

Fixpoint label_from (o : Z) (code : list line) (l : string) : option Z :=
  match code with
  | [] => None
  | Lbl l' :: code => if decide (l = l') then Some o else label_from o code l
  | Space n :: code => label_from (o + n) code l
  | Op _ :: code => label_from (o + 4) code l
  end.

Fixpoint size (code : list line) : Z :=
  match code with
  | [] => 0
  | Lbl _ :: code => size code
  | Space n :: code => Z.max 0 n + size code
  | Op _ :: code => 4 + size code
  end.

Lemma size_nonneg code : 0 ≤ size code.
Proof. induction code as [|[l|i|n] code IH]; cbn [size]; lia. Qed.

Lemma fetch_past code o : size code ≤ o → fetch code o = None.
Proof.
  revert o. induction code as [|[l|i|n] code IH]; intros o Ho; [done|by apply IH|..]; cbn [fetch size] in *;
    pose proof (size_nonneg code); rewrite decide_False by lia; apply IH; lia.
Qed.

(** The straight-line code from an offset, at most [n] instructions. *)
Fixpoint block_from (code : list line) (o : Z) (n : nat) : list instr :=
  match n with
  | O => []
  | S n => match fetch code o with Some i => i :: block_from code (o + 4) n | None => [] end
  end.

Section machine.
(** The program and where it is; the linker's symbols; the functions it calls; the translation of an address
    under the system registers and the tables in memory. *)
Context (code : list line) (org : Z) (sym : string → Z) (ext : string → cpu → outcome cpu).
Context (tr : (sysreg → Z) → mem → Z → option Z).

Definition label (l : string) : option Z := label_from 0 code l.
Definition value (l : string) : Z := match label l with Some o => org + o | None => sym l end.
Definition target (l : string) : loc := match label l with Some o => At o | None => Gone (sym l) end.
Definition goto (a : Z) : loc := match fetch code (a - org) with Some _ => At (a - org) | None => Gone a end.

(** The physical address of an access; an address without translation faults. *)
Definition phys (c : cpu) (a : Z) : outcome Z :=
  match tr (sys c) (memory c) a with Some pa => Ret pa | None => Panic end.
Definition load (c : cpu) (a : Z) : outcome Z := pa ← phys c a; Ret (load64 (memory c) pa).
Definition store (a v : Z) (c : cpu) : outcome cpu :=
  pa ← phys c a; Ret (with_memory (store64 pa v (memory c)) c).

(** The instructions that do not jump. *)
Definition exec (i : instr) (c : cpu) : outcome cpu :=
  match i with
  | MovI rd imm => Ret (set rd imm c)
  | Mov rd rn => Ret (set rd (get rn c) c)
  | MovW rd rn => Ret (set rd (wrap32 (get rn c)) c)
  | Add rd rn rm => Ret (set rd (add64 (get rn c) (get rm c)) c)
  | Sub rd rn rm => Ret (set rd (sub64 (get rn c) (get rm c)) c)
  | Mul rd rn rm => Ret (set rd (mul64 (get rn c) (get rm c)) c)
  | Orr rd rn rm => Ret (set rd (Z.lor (get rn c) (get rm c)) c)
  | AddI rd rn imm => Ret (set rd (add64 (get rn c) imm) c)
  | SubI rd rn imm => Ret (set rd (sub64 (get rn c) imm) c)
  | SubsI rd rn imm => Ret (set rd (sub64 (get rn c) imm) (with_pstate (compare (get rn c) imm (pstate c)) c))
  | AndI rd rn imm => Ret (set rd (Z.land (get rn c) imm) c)
  | BicI rd rn imm => Ret (set rd (Z.land (get rn c) (not64 imm)) c)
  | OrrI rd rn imm => Ret (set rd (Z.lor (get rn c) imm) c)
  | LslI rd rn s => Ret (set rd (shl64 (get rn c) s) c)
  | LsrI rd rn s => Ret (set rd (Z.shiftr (get rn c) s) c)
  | Cmp rn rm => Ret (with_pstate (compare (get rn c) (get rm c) (pstate c)) c)
  | CmpI rn imm => Ret (with_pstate (compare (get rn c) imm (pstate c)) c)
  | Ldr rt rn off => v ← load c (add64 (get rn c) off); Ret (set rt v c)
  | Str rt rn off => store (add64 (get rn c) off) (get rt c) c
  | StrW rt rn off =>
      pa ← phys c (add64 (get rn c) off); Ret (with_memory (store32 pa (wrap32 (get rt c)) (memory c)) c)
  | LdrIdx rt rn rm => v ← load c (add64 (get rn c) (shl64 (get rm c) 3)); Ret (set rt v c)
  | StrIdx rt rn rm => store (add64 (get rn c) (shl64 (get rm c) 3)) (get rt c) c
  | StrPost rt rn inc => c' ← store (get rn c) (get rt c) c; Ret (set rn (add64 (get rn c) inc) c')
  | Stp rt1 rt2 rn off =>
      let a := add64 (get rn c) off in
      c' ← store a (get rt1 c) c; store (add64 a 8) (get rt2 c) c'
  | Ldp rt1 rt2 rn off =>
      let a := add64 (get rn c) off in
      v1 ← load c a; v2 ← load c (add64 a 8); Ret (set rt2 v2 (set rt1 v1 c))
  | Adr rd l | LdrSym rd l => Ret (set rd (value l) c)
  | Mrs rt s => Ret (set rt (read_sys s c) c)
  | Msr s rt => Ret (write_sys s (get rt c) c)
  | Wfe | Barrier => Ret c
  | B _ | Bc _ _ | Cbz _ _ | Bl _ | Br _ | RetI | Eret => Panic
  end.

Definition straight (i : instr) : bool :=
  match i with B _ | Bc _ _ | Cbz _ _ | Bl _ | Br _ | RetI | Eret => false | _ => true end.

(** One instruction.  A call of a function outside the program returns behind the call. *)
Definition step (s : loc * cpu) : outcome (loc * cpu) :=
  match s.1 with
  | Gone _ => Halt
  | At o =>
      let c := s.2 in
      match fetch code o with
      | None => Panic
      | Some i =>
          match i with
          | B l => Ret (target l, c)
          | Bc k l => Ret (if holds_cond k (pstate c) then target l else At (o + 4), c)
          | Cbz rt l => Ret (if decide (get rt c = 0) then target l else At (o + 4), c)
          | Bl l =>
              let c := set (X 30) (org + o + 4) c in
              match label l with
              | Some o' => Ret (At o', c)
              | None => c ← ext l c; Ret (At (o + 4), c)
              end
          | Br rt => Ret (goto (get rt c), c)
          | RetI => Ret (goto (get (X 30) c), c)
          | Eret =>
              let e := el (pstate c) in
              if legal_return e c then Ret (goto (sys c (elr_of e)), with_pstate (sys c (spsr_of e)) c) else Panic
          | _ => c ← exec i c; Ret (At (o + 4), c)
          end
      end
  end.

Definition moves (s s' : loc * cpu) : Prop := step s = Ret s'.
Definition steps : loc * cpu → loc * cpu → Prop := rtc moves.

(** For running programs on concrete states. *)
Fixpoint run (n : nat) (s : loc * cpu) : outcome (loc * cpu) :=
  match n with
  | O => NoFuel
  | S n => match s.1 with Gone _ => Ret s | At _ => s ← step s; run n s end
  end.

Lemma steps_trans s s1 s2 : steps s s1 → steps s1 s2 → steps s s2.
Proof. apply rtc_trans. Qed.

Lemma steps_one s s' : step s = Ret s' → steps s s'.
Proof. intros H. by apply rtc_once. Qed.

Lemma steps_next s s1 s2 : step s = Ret s1 → steps s1 s2 → steps s s2.
Proof. intros H. by apply rtc_l. Qed.

Lemma run_steps n s s' : run n s = Ret s' → steps s s'.
Proof.
  revert s. induction n as [|n IH]; intros s; [done|]. cbn [run].
  destruct s as [[o|a] c]; cbn [fst]; [|intros [= <-]; apply rtc_refl].
  intros (s1 & Hs & Hr)%bind_ret_inv. eapply steps_next; [done|]. by apply IH.
Qed.

(** The program comes to [l] in a state of [Q]. *)
Definition reaches (s : loc * cpu) (l : loc) (Q : cpu → Prop) : Prop := ∃ c, steps s (l, c) ∧ Q c.

Lemma reaches_steps s s1 l Q : steps s s1 → reaches s1 l Q → reaches s l Q.
Proof. intros H (c & Hs & Hc). exists c. split; [by eapply steps_trans|done]. Qed.

Lemma reaches_next s s1 l Q : step s = Ret s1 → reaches s1 l Q → reaches s l Q.
Proof. intros H. apply reaches_steps. by apply steps_one. Qed.

Lemma reaches_now l c Q : Q c → reaches (l, c) l Q.
Proof. intros H. exists c. split; [apply rtc_refl|done]. Qed.

Lemma reaches_then s l l' (P Q : cpu → Prop) : reaches s l P → (∀ c, P c → reaches (l, c) l' Q) → reaches s l' Q.
Proof. intros (c & Hs & Hc) H. eapply reaches_steps; [done|]. by apply H. Qed.

(** ** Blocks *)
Fixpoint exec_block (blk : list instr) (c : cpu) : outcome cpu :=
  match blk with [] => Ret c | i :: blk => c ← exec i c; exec_block blk c end.

Fixpoint block_at (o : Z) (blk : list instr) : bool :=
  match blk with
  | [] => true
  | i :: blk => bool_decide (fetch code o = Some i) && straight i && block_at (o + 4) blk
  end.

Lemma step_straight o i c : fetch code o = Some i → straight i = true →
  step (At o, c) = (c' ← exec i c; Ret (At (o + 4), c')).
Proof. intros Hf Hs. unfold step. cbn [fst snd]. rewrite Hf. by destruct i. Qed.

Lemma block_steps o blk c c' : block_at o blk = true → exec_block blk c = Ret c' →
  steps (At o, c) (At (o + 4 * len blk), c').
Proof.
  revert o c. induction blk as [|i blk IH]; intros o c; cbn [block_at exec_block].
  - intros _ [= <-]. unfold len. simpl. rewrite Z.add_0_r. apply rtc_refl.
  - rewrite !andb_true_iff, bool_decide_eq_true. intros [[Hf Hs] Hb] (c1 & He & Hr)%bind_ret_inv.
    eapply steps_next; [rewrite (step_straight o i) by done; by rewrite He|]. cbn [mbind outcome_bind].
    replace (o + 4 * len (i :: blk)) with (o + 4 + 4 * len blk) by (unfold len; simpl; lia). by apply IH.
Qed.

(** *** Jumps *)
Lemma step_b o l c : fetch code o = Some (B l) → step (At o, c) = Ret (target l, c).
Proof. intros Hf. unfold step. cbn [fst snd]. by rewrite Hf. Qed.

Lemma step_bc o k l c : fetch code o = Some (Bc k l) →
  step (At o, c) = Ret (if holds_cond k (pstate c) then target l else At (o + 4), c).
Proof. intros Hf. unfold step. cbn [fst snd]. by rewrite Hf. Qed.

Lemma step_cbz o r l c : fetch code o = Some (Cbz r l) →
  step (At o, c) = Ret (if decide (get r c = 0) then target l else At (o + 4), c).
Proof. intros Hf. unfold step. cbn [fst snd]. by rewrite Hf. Qed.

Lemma step_bl o l o' c : fetch code o = Some (Bl l) → label l = Some o' →
  step (At o, c) = Ret (At o', set (X 30) (org + o + 4) c).
Proof. intros Hf Hl. unfold step. cbn [fst snd]. by rewrite Hf, Hl. Qed.

Lemma step_br o r c : fetch code o = Some (Br r) → step (At o, c) = Ret (goto (get r c), c).
Proof. intros Hf. unfold step. cbn [fst snd]. by rewrite Hf. Qed.

Lemma step_ret o c : fetch code o = Some RetI → step (At o, c) = Ret (goto (get (X 30) c), c).
Proof. intros Hf. unfold step. cbn [fst snd]. by rewrite Hf. Qed.

Lemma step_eret o c : fetch code o = Some Eret → legal_return (el (pstate c)) c = true →
  step (At o, c) = Ret (goto (sys c (elr_of (el (pstate c)))), with_pstate (sys c (spsr_of (el (pstate c)))) c).
Proof. intros Hf Hl. unfold step. cbn [fst snd]. by rewrite Hf, Hl. Qed.

Lemma goto_at o i : fetch code o = Some i → goto (org + o) = At o.
Proof. intros Hf. unfold goto. replace (org + o - org) with o by lia. by rewrite Hf. Qed.

Lemma goto_out a : fetch code (a - org) = None → goto a = Gone a.
Proof. intros Hf. unfold goto. by rewrite Hf. Qed.

Lemma reaches_block o blk c c' l Q : block_at o blk = true → exec_block blk c = Ret c' →
  reaches (At (o + 4 * len blk), c') l Q → reaches (At o, c) l Q.
Proof. intros Hb He. apply reaches_steps. by apply block_steps. Qed.

Lemma exec_block_app blk1 blk2 c : exec_block (blk1 ++ blk2) c = (c ← exec_block blk1 c; exec_block blk2 c).
Proof. revert c. induction blk1 as [|i blk1 IH]; intros c; [done|]. simpl. destruct (exec i c); simpl; [apply IH|done..]. Qed.
End machine.

(** ** What comparisons decide *)
Lemma compare_testbit a b p i : 28 ≤ i < 32 → Z.testbit (compare a b p) i = Z.testbit (nzcv a b) i.
Proof.
  intros Hi. unfold compare. rewrite Z.lor_spec, Z.land_spec.
  change 0x0FFFFFFF with (Z.ones 28). by rewrite Z.ones_spec_high, andb_false_r by lia.
Qed.

Lemma flag_bits n z k v :
  let w := Z.b2z n * 2 ^ 31 + Z.b2z z * 2 ^ 30 + Z.b2z k * 2 ^ 29 + Z.b2z v * 2 ^ 28 in
  Z.testbit w 31 = n ∧ Z.testbit w 30 = z ∧ Z.testbit w 29 = k ∧ Z.testbit w 28 = v.
Proof. by destruct n, z, k, v. Qed.

Lemma nzcv_bits a b : Z.testbit (nzcv a b) 31 = Z.testbit (sub64 a b) 63 ∧ Z.testbit (nzcv a b) 30 = bool_decide (a = b) ∧
  Z.testbit (nzcv a b) 29 = bool_decide (b ≤ a) ∧
  Z.testbit (nzcv a b) 28 = bool_decide (signed64 a - signed64 b ≠ signed64 (sub64 a b)).
Proof. apply flag_bits. Qed.

Lemma cond_eq a b p : holds_cond EQ (compare a b p) = bool_decide (a = b).
Proof. unfold holds_cond. rewrite compare_testbit by lia. apply nzcv_bits. Qed.

Lemma cond_ne a b p : holds_cond NE (compare a b p) = negb (bool_decide (a = b)).
Proof. change (holds_cond NE ?q) with (negb (holds_cond EQ q)). by rewrite cond_eq. Qed.

Lemma cond_hs a b p : holds_cond HS (compare a b p) = bool_decide (b ≤ a).
Proof. unfold holds_cond. rewrite compare_testbit by lia. apply nzcv_bits. Qed.

(** Signed, for values below 2^63. *)
Lemma cond_lt a b p : 0 ≤ a < 2 ^ 63 → 0 ≤ b < 2 ^ 63 → holds_cond LT (compare a b p) = bool_decide (a < b).
Proof.
  intros Ha Hb. unfold holds_cond. rewrite !compare_testbit by lia. destruct (nzcv_bits a b) as (-> & _ & _ & ->).
  unfold signed64. rewrite !decide_True by lia. unfold sub64, wrap64.
  destruct (decide (a < b)) as [Hlt|Hge].
  - rewrite (bool_decide_eq_true_2 (a < b)) by done.
    assert ((a - b) mod U64 = a - b + U64) as -> by (symmetry; apply (Z.mod_unique _ _ (-1)); lia).
    rewrite decide_False by lia. rewrite bool_decide_eq_false_2 by lia. rewrite xorb_false_r.
    apply Z.testbit_true; [lia|]. change U64 with (2 * 2 ^ 63).
    replace ((a - b + 2 * 2 ^ 63) / 2 ^ 63) with 1; [done|]. apply (Z.div_unique _ _ _ (a - b + 2 ^ 63)); lia.
  - rewrite (bool_decide_eq_false_2 (a < b)) by done. rewrite Z.mod_small by lia.
    rewrite decide_True by lia. rewrite bool_decide_eq_false_2 by lia. rewrite xorb_false_r.
    apply Z.testbit_false; [lia|]. by rewrite Z.div_small by lia.
Qed.

Lemma compare_low a b p m : 0 ≤ m < 2 ^ 28 → Z.land (compare a b p) m = Z.land p m.
Proof.
  intros Hm. unfold compare. rewrite Z.land_lor_distr_l, <-Z.land_assoc.
  assert (Z.land 0x0FFFFFFF m = m) as ->.
  { rewrite Z.land_comm. change 0x0FFFFFFF with (Z.ones 28). rewrite Z.land_ones by lia. by apply Z.mod_small. }
  assert (Z.land (nzcv a b) m = 0) as ->; [|by rewrite Z.lor_0_r].
  assert (∃ k, nzcv a b = Z.shiftl k 28) as [k ->].
  { eexists (Z.b2z (Z.testbit (sub64 a b) 63) * 2 ^ 3 + Z.b2z (bool_decide (a = b)) * 2 ^ 2 +
      Z.b2z (bool_decide (b ≤ a)) * 2 + Z.b2z (bool_decide (signed64 a - signed64 b ≠ signed64 (sub64 a b)))).
    rewrite Z.shiftl_mul_pow2 by lia. unfold nzcv. lia. }
  apply Z.bits_inj'. intros i Hi. rewrite Z.land_spec, Z.bits_0. destruct (decide (i < 28)).
  - by rewrite Z.shiftl_spec_low.
  - destruct (decide (m = 0)) as [->|]; [by rewrite Z.bits_0, andb_false_r|].
    rewrite (Z.bits_above_log2 m), andb_false_r; [done|lia|].
    assert (Z.log2 m < 28) by (apply Z.log2_lt_pow2; lia). lia.
Qed.

Lemma compare_el a b p : el (compare a b p) = el p.
Proof.
  assert (∀ q, el q = Z.shiftr (Z.land q 12) 2) as Hel.
  { intros q. unfold el. rewrite Z.shiftr_land. done. }
  by rewrite !Hel, compare_low by lia.
Qed.

Lemma compare_sp_sel a b p : sp_sel (compare a b p) = sp_sel p.
Proof. unfold sp_sel. by rewrite compare_low by lia. Qed.

Lemma compare_sp_reg a b p : sp_reg (compare a b p) = sp_reg p.
Proof. unfold sp_reg. by rewrite compare_el, compare_sp_sel. Qed.

#[export] Hint Rewrite cond_eq cond_ne cond_hs compare_el compare_sp_sel compare_sp_reg : aarch64.
