(* ===== verification/Ring.v ===== *)
(** * Ring buffers

    The contents of an array used as a ring, oldest element first, and the effect on them of
    writing at the tail and of advancing the head.  Shared by the keyboard buffer and the run
    queue, which are both an array with [head], [tail] and [len]. *)
From S2P Require Import Prelude.
Local Open Scope Z_scope.

Section ring.
Context (N : Z) (HN : 0 < N).

Definition ring_list (buf : list Z) (head n : Z) : list Z :=
  (λ i : nat, buf !!! Z.to_nat ((head + Z.of_nat i) mod N)) <$> seq 0 (Z.to_nat n).

(** The indices are consistent: [tail] is [n] past [head]. *)
Record ring_ok (buf : list Z) (head tail n : Z) : Prop := {
  ring_size : len buf = N;
  ring_head : 0 ≤ head < N;
  ring_len : 0 ≤ n ≤ N;
  ring_tail : tail = (head + n) mod N
}.

Lemma ring_list_length buf head n : 0 ≤ n → len (ring_list buf head n) = n.
Proof. intros. unfold len, ring_list. rewrite length_fmap, length_seq. lia. Qed.

Lemma mod_shift_ne a i j : 0 ≤ i < j → j < N → (a + i) mod N ≠ (a + j) mod N.
Proof.
  intros Hij Hj Heq.
  assert ((j - i) mod N = 0) as Hz.
  { replace (j - i) with ((a + j) - (a + i)) by lia.
    rewrite Zminus_mod, Heq, Z.sub_diag. apply Z.mod_0_l. lia. }
  rewrite Z.mod_small in Hz by lia. lia.
Qed.

Lemma ring_push buf head tail n x : ring_ok buf head tail n → n < N →
  let buf' := <[Z.to_nat tail := x]> buf in
  ring_ok buf' head ((tail + 1) mod N) (n + 1) ∧
  ring_list buf' head (n + 1) = ring_list buf head n ++ [x].
Proof.
  intros [Hs Hh Hl Ht] Hn buf'. split.
  - split; [unfold buf'; by rewrite len_insert|done|lia|].
    subst tail. rewrite Zplus_mod_idemp_l. f_equal. lia.
  - unfold ring_list. replace (Z.to_nat (n + 1)) with (S (Z.to_nat n)) by lia.
    rewrite seq_S, fmap_app. simpl. f_equal.
    + apply list_fmap_ext. intros i k Hk%lookup_seq. unfold buf'.
      rewrite list_lookup_total_insert_ne; [done|]. subst tail.
      pose proof (mod_shift_ne head (Z.of_nat k) n).
      pose proof (Z.mod_pos_bound (head + n) N). pose proof (Z.mod_pos_bound (head + Z.of_nat k) N).
      lia.
    + unfold buf'. replace (head + Z.of_nat (Z.to_nat n)) with (head + n) by lia. rewrite <-Ht.
      rewrite list_lookup_total_insert_eq; [done|].
      pose proof (Z.mod_pos_bound (head + n) N). unfold len in Hs. subst tail. lia.
Qed.

Lemma ring_pop buf head tail n : ring_ok buf head tail n → 0 < n →
  ring_ok buf ((head + 1) mod N) tail (n - 1) ∧
  ring_list buf head n = buf !!! Z.to_nat head :: ring_list buf ((head + 1) mod N) (n - 1).
Proof.
  intros [Hs Hh Hl Ht] Hn. split.
  - split; [done|apply Z.mod_pos_bound; lia|lia|].
    subst tail. rewrite Zplus_mod_idemp_l. f_equal. lia.
  - unfold ring_list. replace (Z.to_nat n) with (S (Z.to_nat (n - 1))) by lia.
    simpl. f_equal.
    + rewrite Z.add_0_r, Z.mod_small by lia. done.
    + rewrite <-seq_shift, <-list_fmap_compose. apply list_fmap_ext. intros i k _. simpl.
      rewrite Zplus_mod_idemp_l. f_equal. f_equal. f_equal. lia.
Qed.

Lemma ring_empty buf head : ring_list buf head 0 = [].
Proof. done. Qed.
End ring.
