(* ===== verification/Sync.v ===== *)
(** * The spin lock

    [src/util/sync.rs].  Module [SpinLock]: the lock as one CPU sees it while no other CPU
    runs, used by the components that keep their state in a [static SpinLock<T>].  Module
    [Smp]: the lock under interleaving, as a step relation over any number of CPUs whose
    atomic steps are the atomic operations of the code ([compare_exchange], [load],
    [store]) and whose critical sections read and write the protected data in separate
    steps. *)
From S2P Require Import Prelude.
Local Open Scope Z_scope.

Record SpinLock (T : Type) := mkLock { locked : bool; data : T }.
Arguments mkLock {T} locked data.
Arguments locked {T} s.
Arguments data {T} s.

(** [SpinLock::new]. *)
Definition lock_new {T} (x : T) : SpinLock T := mkLock false x.

(** [SpinLock::lock] when no other CPU will release the lock meanwhile: a lock that is held
    spins for ever. *)
Definition lock {T} (l : SpinLock T) : outcome (SpinLock T) :=
  if locked l then Halt else Ret (mkLock true (data l)).

Definition try_lock {T} (l : SpinLock T) : option (SpinLock T) :=
  if locked l then None else Some (mkLock true (data l)).

(** Assignment through the guard ([DerefMut]). *)
Definition guard_set {T} (l : SpinLock T) (x : T) : SpinLock T := mkLock (locked l) x.

(** [Drop for SpinLockGuard]. *)
Definition unlock {T} (l : SpinLock T) : SpinLock T := mkLock false (data l).

(** A function body run under a guard that is dropped when it returns. *)
Definition with_lock {T A} (l : SpinLock T) (f : T → outcome (A * T)) :
    outcome (A * SpinLock T) :=
  g ← lock l;
  r ← f (data g);
  Ret (r.1, unlock (guard_set g r.2)).

Lemma with_lock_ret {T A} (l : SpinLock T) (f : T → outcome (A * T)) a x :
  locked l = false → f (data l) = Ret (a, x) → with_lock l f = Ret (a, mkLock false x).
Proof. intros Hl Hf. unfold with_lock, lock. rewrite Hl. simpl. by rewrite Hf. Qed.

Lemma with_lock_inv {T A} (l : SpinLock T) (f : T → outcome (A * T)) a l' :
  with_lock l f = Ret (a, l') →
  locked l = false ∧ ∃ x, f (data l) = Ret (a, x) ∧ l' = mkLock false x.
Proof.
  unfold with_lock, lock. destruct (locked l); [done|]. simpl.
  destruct (f (data l)) as [[a' x']| | |]; simpl; try done. intros [= <- <-]. eauto.
Qed.

Lemma with_lock_held {T A} (l : SpinLock T) (f : T → outcome (A * T)) :
  locked l = true → with_lock l f = Halt.
Proof. intros Hl. unfold with_lock, lock. by rewrite Hl. Qed.

(** ** The lock under interleaving *)
Module Smp.
Section smp.
(** [T]: the protected data.  [L]: the program points of the critical sections; a section is named by
    the point it starts at.  [turn l x o y]: the access at [l] changes the data from [x] to [y] and goes
    on at [o], or finishes the section ([None]). *)
Context {T L : Type} (turn : L → T → option L → T → Prop).

(** Where a CPU is in [lock] or [try_lock], the section that started at [l0], and [drop].  Each
    constructor is between two atomic accesses. *)
Inductive pc :=
| Out
| Cas (l : L)             (* about to compare_exchange in [lock] *)
| Load (l : L)            (* in the inner loop, about to load [locked] *)
| TryCas (l : L)          (* about to compare_exchange in [try_lock] *)
| Held (l0 l : L)         (* has the guard *)
| Leaving.                (* about to drop the guard *)

Definition in_critical (p : pc) : Prop :=
  match p with Held _ _ | Leaving => True | _ => False end.

(** The shared lock, what each CPU does, and the sections completed so far (a ghost). *)
Record config := mkConfig { cell : SpinLock T; pcs : list pc; log : list L }.

Definition start_config (n : nat) (x : T) : config :=
  mkConfig (lock_new x) (replicate n Out) [].

(** One atomic access of the CPU at [p]: the new lock, program point and completed section. *)
Inductive access : pc → SpinLock T → pc → SpinLock T → list L → Prop :=
| a_call l k : access Out k (Cas l) k []
| a_call_try l k : access Out k (TryCas l) k []
| a_cas_ok l x : access (Cas l) (mkLock false x) (Held l l) (mkLock true x) []
| a_cas_fail l x : access (Cas l) (mkLock true x) (Load l) (mkLock true x) []
| a_spin l x : access (Load l) (mkLock true x) (Load l) (mkLock true x) []
| a_retry l x : access (Load l) (mkLock false x) (Cas l) (mkLock false x) []
| a_try_ok l x : access (TryCas l) (mkLock false x) (Held l l) (mkLock true x) []
| a_try_fail l x : access (TryCas l) (mkLock true x) Out (mkLock true x) []
| a_turn l0 l l' k y : turn l (data k) (Some l') y → access (Held l0 l) k (Held l0 l') (guard_set k y) []
| a_last l0 l k y : turn l (data k) None y → access (Held l0 l) k Leaving (guard_set k y) [l0]
| a_unlock k : access Leaving k Out (unlock k) [].

Inductive step : config → config → Prop :=
| step_cpu c cpu p p' k' ls :
    pcs c !! cpu = Some p → access p (cell c) p' k' ls →
    step c (mkConfig k' (<[cpu := p']> (pcs c)) (log c ++ ls)).

(** A section run alone, up to the point [l'] and to its end; sections one after another. *)
Inductive upto : L → T → L → T → Prop :=
| upto_start l x : upto l x l x
| upto_turn l0 x l y l' z : upto l0 x l y → turn l y (Some l') z → upto l0 x l' z.

Definition runs (l0 : L) (x z : T) : Prop := ∃ l y, upto l0 x l y ∧ turn l y None z.

Inductive history : list L → T → T → Prop :=
| history_nil x : history [] x x
| history_snoc ls l x y z : history ls x y → runs l y z → history (ls ++ [l]) x z.

(** The invariant: a CPU inside means the lock is taken, and by that CPU alone; the data is what the
    completed sections have made of it, one after another, followed by the part of the section in
    progress that has been run. *)
Record inv (x0 : T) (c : config) : Prop := {
  inv_locked : ∀ i p, pcs c !! i = Some p → in_critical p → locked (cell c) = true;
  inv_one : ∀ i j p q, pcs c !! i = Some p → pcs c !! j = Some q →
    in_critical p → in_critical q → i = j;
  inv_data : ∃ y, history (log c) x0 y ∧
    (∀ i l0 l, pcs c !! i = Some (Held l0 l) → upto l0 y l (data (cell c))) ∧
    ((∀ i l0 l, pcs c !! i ≠ Some (Held l0 l)) → data (cell c) = y)
}.

Lemma inv_start n x : inv x (start_config n x).
Proof.
  split; simpl; try done.
  - intros i p Hp. apply lookup_replicate in Hp as [-> _]. done.
  - intros i j p q Hp. apply lookup_replicate in Hp as [-> _]. done.
  - exists x. split_and!; [constructor| |done]. intros i l0 l Hp. by apply lookup_replicate in Hp as [? _].
Qed.

(** Only a section changes the data or is completed. *)
Lemma access_data p k p' k' ls : access p k p' k' ls → (∀ l0 l, p ≠ Held l0 l) → data k' = data k ∧ ls = [].
Proof. inversion 1; subst; intros Hp; try done; by destruct (Hp l0 l). Qed.

Lemma inv_step x0 c c' : inv x0 c → step c c' → inv x0 c'.
Proof.
  intros [Hl Ho (y & Hh & Hheld & Hfree)] Hstep. destruct Hstep as [c cpu p p' k' ls Hp Ha].
  destruct c as [k ps lg]. cbn [cell pcs log] in *.
  assert (∀ i q, <[cpu:=p']> ps !! i = Some q →
    (i = cpu ∧ q = p') ∨ (i ≠ cpu ∧ ps !! i = Some q)) as Hlk.
  { intros i q Hq. apply list_lookup_insert_Some in Hq as [(-> & <- & _)|[? ?]]; auto. }
  assert (<[cpu:=p']> ps !! cpu = Some p') as Hcpu by (by eapply list_lookup_insert_eq, lookup_lt_Some).
  assert (in_critical p ∨ locked k = false → ∀ i q, i ≠ cpu → ps !! i = Some q → ¬ in_critical q)
    as Halone.
  { intros [Hcp|Hf] i q Hi Hq Hcq; [by apply Hi, (Ho i cpu q p)|]. specialize (Hl i q Hq Hcq). congruence. }
  assert (in_critical p' → in_critical p ∨ locked k = false) as Hin.
  { inversion Ha; subst; simpl; try done; auto; by right. }
  split; cbn [pcs cell log].
  - intros i q [[-> ->]|[Hi Hq]]%Hlk Hcq.
    + inversion Ha; subst; simpl in *; try done; by eapply Hl.
    + pose proof (Hl i q Hq Hcq) as Ht.
      inversion Ha; subst; simpl in *; try done; by destruct (Halone (or_introl I) i q Hi Hq).
  - intros i j q r [[-> ->]|[Hi Hq]]%Hlk [[-> ->]|[Hj Hr]]%Hlk Hcq Hcr; try done.
    + by destruct (Halone (Hin Hcq) j r Hj Hr).
    + by destruct (Halone (Hin Hcr) i q Hi Hq).
    + by eapply Ho.
  - assert ((∃ l0 l, p = Held l0 l) ∨ ∀ l0 l, p ≠ Held l0 l) as [(l0 & l & ->)|Hout].
    { destruct p; (by right) || (left; eauto). }
    + pose proof (Hheld _ _ _ Hp) as Hup. inversion Ha; subst; cbn [data guard_set].
      * exists y. rewrite app_nil_r. split_and!; [done| |].
        -- intros i m0 m [[-> [= -> ->]]|[Hi Hq]]%Hlk; [by eapply upto_turn|].
           by destruct (Halone (or_introl I) i _ Hi Hq).
        -- intros Hno. by destruct (Hno _ _ _ Hcpu).
      * eexists. split_and!; [eapply history_snoc; [done|]; by exists l, (data k)| |done].
        intros i m0 m [[_ ?]|[Hi Hq]]%Hlk; [done|]. by destruct (Halone (or_introl I) i _ Hi Hq).
    + destruct (access_data _ _ _ _ _ Ha) as [-> ->]; [done|].
      rewrite app_nil_r. exists y.
      assert ((∀ i m0 m, <[cpu:=p']> ps !! i ≠ Some (Held m0 m)) → data k = y) as Hnone.
      { intros Hno. apply Hfree. intros i m0 m Hq. destruct (decide (i = cpu)) as [->|Hi].
        - rewrite Hp in Hq. injection Hq as ->. by destruct (Hout m0 m).
        - apply (Hno i m0 m). by rewrite list_lookup_insert_ne. }
      split_and!; [done| |done]. intros i m0 m [[-> Hq]|[Hi Hq]]%Hlk; [|by eapply Hheld].
      assert (in_critical p') as Hcp by (by rewrite <-Hq). subst p'.
      assert (data k = y) as ->.
      { apply Hfree. intros j n0 n Hj. destruct (decide (j = cpu)) as [->|Hne].
        - rewrite Hp in Hj. injection Hj as ->. by destruct (Hout n0 n).
        - by destruct (Halone (Hin Hcp) j _ Hne Hj). }
      inversion Ha; subst; try constructor. by destruct (Hout m0 l).
Qed.

Lemma inv_reachable x0 n c : rtc step (start_config n x0) c → inv x0 c.
Proof.
  intros H. remember (start_config n x0) as c0 eqn:H0.
  assert (inv x0 c0) as Hi by (subst; apply inv_start). clear H0.
  induction H; [done|]. eauto using inv_step.
Qed.

(** While the lock is free no section is in progress. *)
Lemma history_unlocked x n c : rtc step (start_config n x) c → locked (cell c) = false →
  history (log c) x (data (cell c)).
Proof.
  intros Hr Hf. destruct (inv_reachable _ _ _ Hr) as [Hl _ (y & Hh & _ & Hy)].
  rewrite Hy; [done|]. intros i l0 l Hp. specialize (Hl i _ Hp I). congruence.
Qed.

(** Sections in program order: each returns, from the data the one before it has left. *)
Lemma history_fold (f : L → T → T) ls x y : (∀ l x z, runs l x z → z = f l x) →
  history ls x y → y = fold_left (λ x l, f l x) ls x.
Proof.
  intros Hf. induction 1 as [|ls l x y z _ -> Hz]; [done|]. rewrite fold_left_app. by apply Hf.
Qed.
End smp.
Arguments pc L : clear implicits.
Arguments config T L : clear implicits.
Arguments Out {L}.
Arguments Leaving {L}.

(** C15. Mutual exclusion: on any number of CPUs and under any interleaving of their atomic
    accesses, at most one CPU holds a guard, and while one does the lock word is set. *)
Theorem mutual_exclusion {T L} (turn : L → T → option L → T → Prop) (x : T) n c i j p q :
  rtc (step turn) (start_config n x) c → pcs c !! i = Some p → pcs c !! j = Some q →
  in_critical p → in_critical q → i = j ∧ locked (cell c) = true.
Proof.
  intros Hr Hp Hq Hcp Hcq. apply inv_reachable in Hr. split.
  - by eapply inv_one.
  - by eapply inv_locked.
Qed.

(** C28. Critical sections are atomic: whatever the interleaving of their accesses, when the lock is free
    the protected data is what the completed sections make of the initial value run one after
    another; where they are functions of the data, it is what [with_lock] for each of them in
    turn gives. *)
Theorem sections_serialize {T L} (turn : L → T → option L → T → Prop) (x : T) n c :
  rtc (step turn) (start_config n x) c → locked (cell c) = false →
  history turn (log c) x (data (cell c)) ∧
  ∀ f : L → T → T, (∀ l y z, runs turn l y z → z = f l y) →
    for_each_in (log c) (λ l k, r ← with_lock k (λ y, Ret (tt, f l y)); Ret r.2) (lock_new x) = Ret (cell c).
Proof.
  intros Hr Hl. pose proof (history_unlocked turn _ _ _ Hr Hl) as Hh. split; [done|].
  intros f Hf. apply (history_fold turn f) in Hh; [|done].
  destruct (cell c) as [b d]. simpl in *. subst b d. clear Hr n. revert x.
  induction (log c) as [|l ls IH]; intros x; [done|]. simpl. apply IH.
Qed.

(** A counter that is read and written in separate accesses. *)
Inductive counter_turn : option nat → nat → option (option nat) → nat → Prop :=
| counter_read x : counter_turn None x (Some (Some x)) x
| counter_write v x : counter_turn (Some v) x None (S v).

Definition demo_step (c : config nat (option nat)) (i : nat) (p' : pc (option nat)) (k' : SpinLock nat) ls :
    config nat (option nat) :=
  mkConfig k' (<[i := p']> (pcs c)) (log c ++ ls).

(** Two CPUs contend for the counter: CPU 0 increments it while CPU 1 spins. *)
Definition demo_held : config nat (option nat) :=
  let c := start_config 2 5%nat in
  let c := demo_step c 0 (Cas None) (cell c) [] in
  let c := demo_step c 1 (Cas None) (cell c) [] in
  let c := demo_step c 0 (Held None None) (mkLock true 5%nat) [] in
  let c := demo_step c 1 (Load None) (mkLock true 5%nat) [] in
  let c := demo_step c 0 (Held None (Some 5%nat)) (mkLock true 5%nat) [] in
  demo_step c 0 Leaving (mkLock true 6%nat) [None].
Definition demo_done : config nat (option nat) := demo_step demo_held 0 Out (mkLock false 6%nat) [].

Lemma rtc_demo a c i p p' k' ls : rtc (step counter_turn) a c →
  pcs c !! i = Some p → access counter_turn p (cell c) p' k' ls → rtc (step counter_turn) a (demo_step c i p' k' ls).
Proof. intros Hr Hp Ha. eapply rtc_r; [done|]. by eapply step_cpu. Qed.

Lemma demo_held_reachable : rtc (step counter_turn) (start_config 2 5%nat) demo_held.
Proof.
  unfold demo_held. cbv zeta.
  eapply rtc_demo; [|reflexivity|apply (a_last counter_turn None (Some 5%nat) (mkLock true 5%nat) 6%nat); constructor].
  eapply rtc_demo; [|reflexivity|apply (a_turn counter_turn None None (Some 5%nat) (mkLock true 5%nat) 5%nat); constructor].
  do 4 (eapply rtc_demo; [|reflexivity|constructor]). apply rtc_refl.
Qed.

Lemma mutual_exclusion_witness : 0%nat = 0%nat ∧ locked (cell demo_held) = true.
Proof.
  apply (mutual_exclusion counter_turn 5%nat 2 demo_held 0 0 Leaving Leaving);
    [apply demo_held_reachable|done..].
Defined.

Lemma sections_serialize_witness : history counter_turn [None] 5%nat 6%nat.
Proof.
  destruct (sections_serialize counter_turn 5%nat 2 demo_done) as [H _]; [|reflexivity|exact H].
  eapply rtc_demo; [apply demo_held_reachable|reflexivity|]. apply (a_unlock counter_turn (mkLock true 6%nat)).
Defined.
End Smp.
