(* ===== verification/Region.v ===== *)
(** * The physical memory map and its normalization

    [src/mm/region.rs]: the raw map the boot code collects from the device tree
    ([MemoryMap]), and [normalize], which turns possibly overlapping regions into a sorted,
    non-overlapping map in which every address has the kind of highest priority.

    A map's fixed array and its [len] are modelled by the list of the entries below [len]
    (no entry at or above [len] is ever read); the capacity check against [MAX_REGIONS] is
    kept. *)
From S2P Require Import Prelude Bits Layout.
From Stdlib Require Import Sorting.Sorted.
From stdpp Require Import sorting.
Local Open Scope Z_scope.

Inductive RegionKind :=
  UsableRam | Reserved | Mmio | KernelImage | BootStack | BootInfo.
#[export] Instance RegionKind_eq_dec : EqDecision RegionKind.
Proof. solve_decision. Defined.

Record PhysRegion := mkRegion { start : Z; end_ : Z; kind : RegionKind }.
#[export] Instance PhysRegion_eq_dec : EqDecision PhysRegion.
Proof. solve_decision. Defined.

Record PhysRange := mkRange { r_start : Z; r_end : Z }.

Definition MAX_REGIONS : Z := 128.

(** ** MemoryMap *)
Definition MemoryMap := list PhysRegion.
Definition MemoryMap_new : MemoryMap := [].

Definition add_region (m : MemoryMap) (st size : Z) (k : RegionKind) : MemoryMap :=
  if decide (size = 0 ∨ MAX_REGIONS ≤ len m) then m
  else m ++ [mkRegion st (sat_add64 st size) k].

Definition add_range (m : MemoryMap) (range : PhysRange) (k : RegionKind) : MemoryMap :=
  if decide (r_end range ≤ r_start range) then m
  else add_region m (r_start range) (r_end range - r_start range) k.

Definition kind_priority (k : RegionKind) : Z :=
  match k with
  | KernelImage => 6
  | BootStack => 5
  | BootInfo => 4
  | Reserved => 3
  | Mmio => 2
  | UsableRam => 1
  end.

(** [values.swap(i, j)]. *)
Definition swap (vs : list Z) (i j : Z) : outcome (list Z) :=
  vi ← aget vs i; vj ← aget vs j; vs ← aset vs i vj; aset vs j vi.

Definition sort_u64 (values : list Z) : outcome (list Z) :=
  let n := len values in
  while_range 0 n (λ i vs,
    while_range (i + 1) n (λ j vs,
      vj ← aget vs j;
      vi ← aget vs i;
      if vj <? vi then swap vs i j else Ret vs) vs) values.

(** ** NormalizedMap *)
Definition NormalizedMap := list PhysRegion.

Definition nm_push (m : NormalizedMap) (region : PhysRegion) : NormalizedMap :=
  if decide (MAX_REGIONS ≤ len m) then m else m ++ [region].

Definition usable_regions (m : NormalizedMap) : list PhysRange :=
  (λ r, mkRange (start r) (end_ r)) <$> filter (λ r, kind r = UsableRam) m.

Definition max_phys_end (m : NormalizedMap) : Z :=
  foldr Z.max 0 (end_ <$> m).

(** The scan of [merge_adjacent]: [out] is the output so far, [current] the region being
    extended. *)
Fixpoint merge_scan (out : list PhysRegion) (current : PhysRegion) (rest : list PhysRegion) :
    list PhysRegion :=
  match rest with
  | [] => out ++ [current]
  | region :: rest =>
      if decide (kind region = kind current ∧ start region = end_ current)
      then merge_scan out (mkRegion (start current) (end_ region) (kind current)) rest
      else merge_scan (out ++ [current]) region rest
  end.

Definition merge_adjacent (m : NormalizedMap) : NormalizedMap :=
  match m with
  | [] => []
  | r0 :: rest => merge_scan [] r0 rest
  end.

Definition align_region (region : PhysRegion) : PhysRegion :=
  if decide (kind region ≠ UsableRam) then region
  else
    let st := align_up (start region) PAGE_SIZE in
    let en := align_down (end_ region) PAGE_SIZE in
    if decide (en ≤ st) then mkRegion 0 0 Reserved
    else mkRegion st en UsableRam.

Definition align_usable (m : NormalizedMap) : NormalizedMap := align_region <$> m.

(** The inner loop of [normalize]: the kind of highest priority among the regions that
    cover [st, en). *)
Definition best_step (st en : Z) (acc : Z * option RegionKind) (region : PhysRegion) :
    Z * option RegionKind :=
  if decide (start region ≤ st ∧ en ≤ end_ region) then
    let prio := kind_priority (kind region) in
    if decide (acc.1 < prio) then (prio, Some (kind region)) else acc
  else acc.

Definition best_kind (m : MemoryMap) (st en : Z) : option RegionKind :=
  (foldl (best_step st en) (0, None) m).2.

Definition boundaries (m : MemoryMap) : list Z :=
  foldl (λ bs region, (bs ++ [start region]) ++ [end_ region]) [] m.

Definition normalize (m : MemoryMap) : outcome NormalizedMap :=
  bs ← sort_u64 (boundaries m);
  out ← while_range 0 (len bs - 1) (λ i out,
    st ← aget bs i;
    en ← aget bs (i + 1);
    if decide (st = en) then Ret out
    else match best_kind m st en with
         | Some k => Ret (nm_push out (mkRegion st en k))
         | None => Ret out
         end) [];
  Ret (align_usable (merge_adjacent out)).

(** ** Specification

    [kind_at m a]: the kind address [a] ought to have: the highest-priority kind among the
    raw regions containing [a]. *)
Definition contains (r : PhysRegion) (a : Z) : Prop := start r ≤ a < end_ r.
#[export] Instance contains_dec r a : Decision (contains r a).
Proof. unfold contains. apply _. Defined.

Definition claims (m : list PhysRegion) (a : Z) (k : RegionKind) : Prop :=
  ∃ r, r ∈ m ∧ contains r a ∧ kind r = k.

(** [k] is claimed at [a], and no kind of higher priority is. *)
Definition kind_at (m : MemoryMap) (a : Z) (k : RegionKind) : Prop :=
  claims m a k ∧ ∀ k', claims m a k' → kind_priority k' ≤ kind_priority k.

(** Well-formed raw map: what [add_region] builds from u64 arguments. *)
Definition wf_region (r : PhysRegion) : Prop := 0 ≤ start r ∧ start r ≤ end_ r ∧ end_ r < U64.
Definition wf_map (m : MemoryMap) : Prop := Forall wf_region m ∧ len m ≤ MAX_REGIONS.

(** Every region ends before the later ones start. *)
Definition sorted_disjoint (m : list PhysRegion) : Prop :=
  StronglySorted (λ r1 r2, end_ r1 ≤ start r2) m.

(** The regions that contain an address at all ([align_usable] turns a usable region that
    holds no whole page into the empty placeholder [0, 0)). *)
Definition live (m : list PhysRegion) : list PhysRegion := filter (λ r, start r < end_ r) m.

Example normalize_example :
  normalize [mkRegion 0 0x10000 UsableRam; mkRegion 0x2800 0x4000 KernelImage]
  = Ret [mkRegion 0 0x2000 UsableRam; mkRegion 0x2800 0x4000 KernelImage;
         mkRegion 0x4000 0x10000 UsableRam].
Proof. vm_compute. reflexivity. Qed.

(** ** [sort_u64] sorts *)
Definition sorted_upto (i : Z) (vs : list Z) : Prop :=
  ∀ p q x y, (p < q)%nat → Z.of_nat p < i → vs !! p = Some x → vs !! q = Some y → x ≤ y.

Definition least_upto (i j : Z) (vs : list Z) : Prop :=
  ∀ q x y, i < Z.of_nat q < j → vs !! Z.to_nat i = Some x → vs !! q = Some y → x ≤ y.

Lemma swap_permutation (vs : list Z) i j x y :
  vs !! i = Some x → vs !! j = Some y → <[j := x]> (<[i := y]> vs) ≡ₚ vs.
Proof.
  intros Hi Hj. pose proof (lookup_lt_Some _ _ _ Hi). pose proof (lookup_lt_Some _ _ _ Hj).
  apply Permutation_inj. split; [by rewrite !length_insert|].
  exists (λ n, if decide (n = i) then j else if decide (n = j) then i else n). split.
  - intros n1 n2. repeat case_decide; congruence.
  - intros n. destruct (decide (n = j)) as [->|].
    + rewrite list_lookup_insert_eq by (by rewrite length_insert). repeat case_decide; congruence.
    + rewrite list_lookup_insert_ne by done. destruct (decide (n = i)) as [->|].
      * by rewrite list_lookup_insert_eq.
      * by rewrite list_lookup_insert_ne.
Qed.

Lemma swap_total vs i j :
  0 ≤ i < len vs → 0 ≤ j < len vs →
  ∃ x y, vs !! Z.to_nat i = Some x ∧ vs !! Z.to_nat j = Some y ∧
    swap vs i j = Ret (<[Z.to_nat j := x]> (<[Z.to_nat i := y]> vs)).
Proof.
  intros Hi Hj. destruct (aget_total vs i Hi) as (x & Hx & Hix).
  destruct (aget_total vs j Hj) as (y & Hy & Hjy). exists x, y. split_and!; [done..|].
  unfold swap. rewrite Hx; simpl. rewrite Hy; simpl. rewrite aset_ret by done; simpl.
  apply aset_ret. by rewrite len_insert.
Qed.

Section exchange_step.
Context (vs : list Z) (i j : Z) (x y : Z).
Context (Hi : 0 ≤ i) (Hj : i < j).
Context (Hx : vs !! Z.to_nat i = Some x) (Hy : vs !! Z.to_nat j = Some y) (Hlt : y < x).

Let vs' := <[Z.to_nat j := x]> (<[Z.to_nat i := y]> vs).

Lemma exchange_lookup n :
  vs' !! n = if decide (n = Z.to_nat j) then Some x
             else if decide (n = Z.to_nat i) then Some y else vs !! n.
Proof.
  apply lookup_lt_Some in Hx as ?. apply lookup_lt_Some in Hy as ?. unfold vs'.
  case_decide as Hd.
  { subst n. apply list_lookup_insert_eq. by rewrite length_insert. }
  rewrite list_lookup_insert_ne by done. case_decide as Hd'.
  - subst n. by apply list_lookup_insert_eq.
  - by rewrite list_lookup_insert_ne.
Qed.

Lemma exchange_sorted_upto : sorted_upto i vs → sorted_upto i vs'.
Proof.
  intros Hs p q a b Hpq Hp. rewrite !exchange_lookup.
  destruct (decide (p = Z.to_nat j)); [lia|]. destruct (decide (p = Z.to_nat i)); [lia|].
  intros Ha. assert (∀ r c, (p < r)%nat → vs !! r = Some c → a ≤ c) as Hle.
  { intros r c ? ?. by apply (Hs p r). }
  repeat case_decide; intros [= <-] || intros Hb; [eapply (Hle (Z.to_nat i))|
    eapply (Hle (Z.to_nat j))|eapply (Hle q)]; by try lia.
Qed.

Lemma exchange_least_upto : least_upto i j vs → least_upto i (j + 1) vs'.
Proof.
  intros Hs q a b Hq. rewrite !exchange_lookup.
  destruct (decide (Z.to_nat i = Z.to_nat j)); [lia|].
  destruct (decide (Z.to_nat i = Z.to_nat i)); [|done].
  intros [= <-]. case_decide; [intros [= <-]; lia|]. case_decide; [lia|].
  intros Hb. assert (x ≤ b); [|lia]. apply (Hs q x b); [lia|done..].
Qed.
End exchange_step.

Lemma sort_inner values i vs :
  0 ≤ i < len values → vs ≡ₚ values → sorted_upto i vs →
  returns (while_range (i + 1) (len values) (λ j vs,
      vj ← aget vs j; vi ← aget vs i; if vj <? vi then swap vs i j else Ret vs) vs)
    (λ vs', vs' ≡ₚ values ∧ sorted_upto (i + 1) vs').
Proof.
  intros Hi Hperm Hs.
  eapply returns_mono.
  - apply (returns_while_range (λ j vs, vs ≡ₚ values ∧ sorted_upto i vs ∧ least_upto i j vs));
      [lia| |].
    + split_and!; [done..|]. intros q x y. lia.
    + clear vs Hperm Hs. intros j vs Hj (Hperm & Hs & Hl).
      assert (len vs = len values) as Hlen by (unfold len; by rewrite Hperm).
      destruct (swap_total vs i j) as (x & y & Hx & Hy & Hsw); [lia..|].
      rewrite (proj2 (aget_ret vs j y)) by (split; [lia|done]). simpl.
      rewrite (proj2 (aget_ret vs i x)) by (split; [lia|done]). simpl.
      destruct (Z.ltb_spec y x).
      * rewrite Hsw. simpl. split_and!.
        -- etrans; [by apply swap_permutation|done].
        -- apply exchange_sorted_upto; [lia|lia|done..].
        -- apply exchange_least_upto; [lia|lia|done..].
      * simpl. split_and!; [done..|]. intros q a b Hq Ha Hb.
        destruct (decide (Z.of_nat q = j)) as [Hqj|].
        -- assert (q = Z.to_nat j) as -> by lia. simplify_eq. lia.
        -- apply (Hl q); [lia|done..].
  - intros vs' (Hp & Hs' & Hl). split; [done|]. intros p q x y Hpq Hp1 Hx Hy.
    destruct (decide (Z.of_nat p = i)).
    + assert (p = Z.to_nat i) as -> by lia. apply (Hl q); [|done..].
      apply lookup_lt_Some in Hy. rewrite Hp in Hy. unfold len. lia.
    + apply (Hs' p q); [done|lia|done..].
Qed.

Lemma sort_u64_spec values :
  returns (sort_u64 values) (λ vs, vs ≡ₚ values ∧ sorted_upto (len values) vs).
Proof.
  unfold sort_u64. simpl.
  apply (returns_while_range (λ i vs, vs ≡ₚ values ∧ sorted_upto i vs)); [apply len_nonneg| |].
  - split; [done|]. intros p q x y; lia.
  - intros i vs Hi [Hp Hs]. by apply sort_inner.
Qed.

(** ** The spans between consecutive boundaries *)
Definition span (m : MemoryMap) (st en : Z) : list PhysRegion :=
  if decide (st = en) then []
  else match best_kind m st en with Some k => [mkRegion st en k] | None => [] end.

Fixpoint spans (m : MemoryMap) (bs : list Z) : list PhysRegion :=
  match bs with
  | st :: ((en :: _) as rest) => span m st en ++ spans m rest
  | _ => []
  end.

Arguments spans : simpl never.

Lemma spans_drop m bs n x y : bs !! n = Some x → bs !! S n = Some y →
  spans m (drop n bs) = span m x y ++ spans m (drop (S n) bs).
Proof.
  intros Hx Hy. rewrite (drop_S _ _ _ Hx).
  by rewrite (drop_S _ _ _ Hy).
Qed.

Lemma length_span m st en : (length (span m st en) ≤ 1)%nat.
Proof. unfold span. case_decide; [simpl; lia|]. destruct (best_kind m st en); simpl; lia. Qed.

Lemma length_spans m bs : (length (spans m bs) ≤ length bs - 1)%nat.
Proof.
  induction bs as [|st [|en bs] IH]; [simpl; lia..|].
  change (spans m (st :: en :: bs)) with (span m st en ++ spans m (en :: bs)).
  rewrite length_app. pose proof (length_span m st en). simpl in *. lia.
Qed.

(** Appending one span the way the loop body does, with the capacity check. *)
Lemma push_span (m : MemoryMap) (out : list PhysRegion) st en tail :
  take 128 ((if decide (st = en) then take 128 out
     else match best_kind m st en with
          | Some k => nm_push (take 128 out) (mkRegion st en k)
          | None => take 128 out
          end) ++ tail) = take 128 (out ++ span m st en ++ tail).
Proof.
  assert (∀ tl : list PhysRegion, take 128 (take 128 out ++ tl) = take 128 (out ++ tl)) as Ht.
  { intros tl. rewrite !take_app, take_take, length_take, Nat.min_id. f_equal. f_equal. lia. }
  unfold span. case_decide; [apply Ht|]. destruct (best_kind m st en) as [k|]; [|apply Ht].
  unfold nm_push, MAX_REGIONS, len. rewrite length_take. case_decide.
  - rewrite Ht, !take_app. by replace (128 - length out)%nat with 0%nat by lia.
  - rewrite (take_ge out) by lia. by rewrite <-app_assoc.
Qed.

Definition normalize_body (m : MemoryMap) (bs : list Z) (i : Z) (out : NormalizedMap) :
    outcome NormalizedMap :=
  st ← aget bs i;
  en ← aget bs (i + 1);
  if decide (st = en) then Ret out
  else match best_kind m st en with
       | Some k => Ret (nm_push out (mkRegion st en k))
       | None => Ret out
       end.

Lemma take_take_128 {A} (l : list A) : take 128 (take 128 l) = take 128 l.
Proof. rewrite take_take. by rewrite Nat.min_id. Qed.

Lemma normalize_loop m bs :
  while_range 0 (len bs - 1) (normalize_body m bs) [] = Ret (take 128 (spans m bs)).
Proof.
  destruct bs as [|b bs']; [by rewrite while_range_empty|]. set (bs := b :: bs').
  assert (∃ r, while_range 0 (len bs - 1) (normalize_body m bs) [] = Ret r ∧
    r = take 128 r ∧
    take 128 (r ++ spans m (drop (Z.to_nat (len bs - 1)) bs)) = take 128 (spans m bs))
    as (r & -> & Hr & Hs).
  - apply returns_eq, (returns_while_range (λ i out, out = take 128 out ∧
      take 128 (out ++ spans m (drop (Z.to_nat i) bs)) = take 128 (spans m bs))).
    + unfold len. simpl. lia.
    + split; [done|]. by rewrite drop_0.
    + intros i out Hi [Hcap Hout]. unfold normalize_body.
      destruct (aget_total bs i) as (x & Hx & Hbx); [lia|].
      destruct (aget_total bs (i + 1)) as (y & Hy & Hby); [lia|].
      rewrite Hx; simpl; rewrite Hy; simpl.
      replace (Z.to_nat (i + 1)) with (S (Z.to_nat i)) in * by lia.
      rewrite (spans_drop m bs _ x y) in Hout by done.
      pose proof (push_span m out x y (spans m (drop (S (Z.to_nat i)) bs))) as Hp.
      rewrite <-Hcap in Hp. rewrite Hout in Hp.
      case_decide; [by simpl|]. destruct (best_kind m x y) as [k|]; simpl; [|by split].
      split; [|done]. unfold nm_push, MAX_REGIONS, len in *. case_decide; [done|].
      symmetry. apply take_ge. rewrite length_app. simpl. lia.
  - f_equal. rewrite <-Hs.
    assert (spans m (drop (Z.to_nat (len bs - 1)) bs) = []) as ->; [|by rewrite app_nil_r].
    assert (length (drop (Z.to_nat (len bs - 1)) bs) = 1%nat) as Hl.
    { rewrite length_drop. unfold len, bs. simpl. lia. }
    by destruct (drop _ _) as [|? [|? ?]].
Qed.

Lemma length_boundaries m : length (boundaries m) = (2 * length m)%nat.
Proof.
  unfold boundaries.
  cut (∀ acc, length (foldl (λ bs region, (bs ++ [start region]) ++ [end_ region]) acc m)
              = (length acc + 2 * length m)%nat); [intros H; by rewrite H|].
  induction m as [|r m IH]; intros acc; simpl; [lia|]. rewrite IH, !length_app. simpl. lia.
Qed.

Lemma elem_of_boundaries m b : b ∈ boundaries m ↔ ∃ r, r ∈ m ∧ (b = start r ∨ b = end_ r).
Proof.
  unfold boundaries.
  cut (∀ acc, b ∈ foldl (λ bs region, (bs ++ [start region]) ++ [end_ region]) acc m ↔
    b ∈ acc ∨ ∃ r, r ∈ m ∧ (b = start r ∨ b = end_ r)).
  { intros H. rewrite H. set_solver. }
  induction m as [|r m IH]; intros acc; simpl; [set_solver|]. rewrite IH. set_solver.
Qed.

(** ** What [normalize] computes, as a pure function *)
Lemma normalize_eq m : ∃ bs, bs ≡ₚ boundaries m ∧ sorted_upto (len bs) bs ∧
  normalize m = Ret (align_usable (merge_adjacent (take 128 (spans m bs)))).
Proof.
  destruct (proj1 (returns_eq _ _) (sort_u64_spec (boundaries m))) as (bs & Hbs & Hp & Hs).
  exists bs. assert (len bs = len (boundaries m)) as Hl by (unfold len; by rewrite Hp).
  rewrite Hl. split_and!; [done..|]. unfold normalize. rewrite Hbs. simpl.
  pose proof (normalize_loop m bs) as Hn. unfold normalize_body in Hn. rewrite Hn. done.
Qed.

(** ** The winning kind *)
Definition covers (r : PhysRegion) (st en : Z) : Prop := start r ≤ st ∧ en ≤ end_ r.

Lemma kind_priority_inj k k' : kind_priority k = kind_priority k' → k = k'.
Proof. by destruct k, k'. Qed.

Lemma kind_priority_pos k : 0 < kind_priority k.
Proof. by destruct k. Qed.

Definition best_inv (m : list PhysRegion) (st en : Z) (acc : Z * option RegionKind) : Prop :=
  match acc.2 with
  | None => acc.1 = 0 ∧ ∀ r, r ∈ m → ¬ covers r st en
  | Some k => acc.1 = kind_priority k ∧ (∃ r, r ∈ m ∧ covers r st en ∧ kind r = k) ∧
      ∀ r, r ∈ m → covers r st en → kind_priority (kind r) ≤ kind_priority k
  end.

Lemma best_step_inv m st en acc r :
  best_inv m st en acc → best_inv (m ++ [r]) st en (best_step st en acc r).
Proof.
  unfold best_step. fold (covers r st en). intros Hinv. unfold best_inv in Hinv. case_decide as Hc.
  - case_decide as Hlt; unfold best_inv; simpl.
    + split; [done|]. split; [set_solver|]. intros r' [Hr'| ->]%elem_of_snoc Hc'; [|done].
      destruct acc as [p [k|]]; simpl in *; [|by destruct (proj2 Hinv r' Hr')].
      destruct Hinv as (-> & _ & Hmax). specialize (Hmax r' Hr' Hc'). lia.
    + destruct acc as [p [k|]]; simpl in *.
      * destruct Hinv as (-> & Hex & Hmax). split; [done|]. split; [set_solver|].
        intros r' [Hr'| ->]%elem_of_snoc Hc'; [by apply Hmax|lia].
      * destruct Hinv as [-> _]. pose proof (kind_priority_pos (kind r)). lia.
  - unfold best_inv in *. destruct (acc.2) as [k|].
    + destruct Hinv as (Hp & Hex & Hmax). split; [done|]. split; [set_solver|].
      intros r' [Hr'| ->]%elem_of_snoc Hc'; [by apply Hmax|done].
    + destruct Hinv as [Hp Hn]. split; [done|].
      intros r' [Hr'| ->]%elem_of_snoc; [by apply Hn|done].
Qed.

Lemma best_kind_spec m st en : best_inv m st en (foldl (best_step st en) (0, None) m).
Proof.
  cut (∀ m' acc, best_inv m' st en acc →
       best_inv (m' ++ m) st en (foldl (best_step st en) acc m)).
  { intros H. apply (H [] (0, None)). split; [done|]. set_solver. }
  induction m as [|r m IH]; intros m' acc Hinv; simpl; [by rewrite app_nil_r|].
  replace (m' ++ r :: m) with ((m' ++ [r]) ++ m) by (by rewrite <-app_assoc).
  apply IH. by apply best_step_inv.
Qed.

Section spans_facts.
Context (m : MemoryMap) (bs : list Z).
Context (Hbs : sorted_upto (len bs) bs).

Lemma sorted_le p q x y : (p ≤ q)%nat → bs !! p = Some x → bs !! q = Some y → x ≤ y.
Proof.
  intros Hpq Hx Hy. destruct (decide (p = q)) as [->|]; [simplify_eq; lia|].
  apply (Hbs p q); [lia| |done..]. apply lookup_lt_Some in Hx. unfold len. lia.
Qed.

Lemma elem_of_spans r : r ∈ spans m bs ↔ ∃ n x y k,
  bs !! n = Some x ∧ bs !! S n = Some y ∧ x ≠ y ∧ best_kind m x y = Some k ∧ r = mkRegion x y k.
Proof.
  clear Hbs. induction bs as [|st [|en rest] IH].
  - split; [set_solver|]. intros (n & x & y & k & [=] & _).
  - split; [set_solver|]. by intros (n & x & y & k & _ & [=] & _).
  - change (spans m (st :: en :: rest)) with (span m st en ++ spans m (en :: rest)).
    rewrite elem_of_app, IH. split.
    + intros [Hr|(n & x & y & k & ?)]; [|by exists (S n), x, y, k].
      unfold span in Hr. case_decide; [set_solver|].
      destruct (best_kind m st en) as [k|] eqn:Hk; [|set_solver].
      apply list_elem_of_singleton in Hr. by exists 0%nat, st, en, k.
    + intros ([|n] & x & y & k & Hx & Hy & Hne & Hk & ->).
      * left. simpl in *. simplify_eq. unfold span. rewrite decide_False by done.
        rewrite Hk. set_solver.
      * right. by exists n, x, y, k.
Qed.

Lemma spans_nonempty r : r ∈ spans m bs → start r < end_ r.
Proof.
  intros (n & x & y & k & Hx & Hy & Hne & _ & ->)%elem_of_spans. simpl.
  assert (x ≤ y) by (by apply (sorted_le n (S n)); [lia|..]). lia.
Qed.
End spans_facts.

Lemma sorted_upto_tail b bs : sorted_upto (len (b :: bs)) (b :: bs) → sorted_upto (len bs) bs.
Proof.
  intros Hs p q x y Hpq Hp Hx Hy. apply (Hs (S p) (S q)); [lia| |done..].
  unfold len in *. simpl. lia.
Qed.

Lemma spans_sorted m bs : sorted_upto (len bs) bs → sorted_disjoint (spans m bs).
Proof.
  induction bs as [|st [|en rest] IH]; intros Hs; [constructor..|].
  change (spans m (st :: en :: rest)) with (span m st en ++ spans m (en :: rest)).
  specialize (IH (sorted_upto_tail _ _ Hs)). unfold span. case_decide; [done|].
  destruct (best_kind m st en) as [k|]; [|done]. simpl. constructor; [done|].
  apply Forall_forall. simpl. intros r (n & x & y & k' & Hx & _ & _ & _ & ->)%elem_of_spans.
  simpl. by apply (sorted_le _ Hs 1 (S n)); [lia|..].
Qed.

(** Between two consecutive boundaries, containing one address is covering the span. *)
Lemma span_contains m bs n x y a r :
  sorted_upto (len bs) bs → bs ≡ₚ boundaries m →
  bs !! n = Some x → bs !! S n = Some y → x ≤ a < y → r ∈ m →
  covers r x y ↔ contains r a.
Proof.
  intros Hs Hp Hx Hy Ha Hr. unfold covers, contains. split; [lia|]. intros [Hst Hen].
  assert (∀ b, b ∈ boundaries m → b ≤ a → b ≤ x) as Hlo.
  { intros b Hb Hba. rewrite <-Hp in Hb. apply list_elem_of_lookup in Hb as [p Hb].
    destruct (decide (p ≤ n)%nat); [by apply (sorted_le bs Hs p n)|].
    assert (y ≤ b) by (by apply (sorted_le bs Hs (S n) p); [lia|..]). lia. }
  assert (∀ b, b ∈ boundaries m → a < b → y ≤ b) as Hhi.
  { intros b Hb Hba. rewrite <-Hp in Hb. apply list_elem_of_lookup in Hb as [p Hb].
    destruct (decide (S n ≤ p)%nat); [by apply (sorted_le bs Hs (S n) p)|].
    assert (b ≤ x) by (by apply (sorted_le bs Hs p n); [lia|..]). lia. }
  split; [apply Hlo|apply Hhi]; try done; apply elem_of_boundaries; eauto.
Qed.

Lemma find_span (bs : list Z) a d : ∀ p x y, bs !! p = Some x → x ≤ a →
  bs !! (p + d)%nat = Some y → a < y →
  ∃ n x' y', bs !! n = Some x' ∧ bs !! S n = Some y' ∧ x' ≤ a < y'.
Proof.
  induction d as [|d IH]; intros p x y Hx Hxa Hy Hya.
  { rewrite Nat.add_0_r in Hy. simplify_eq. lia. }
  destruct (lookup_lt_is_Some_2 bs (S p)) as [z Hz].
  { apply lookup_lt_Some in Hy. lia. }
  destruct (decide (a < z)); [by exists p, x, z|].
  apply (IH (S p) z y); [done|lia| |done]. by replace (S p + d)%nat with (p + S d)%nat by lia.
Qed.

Lemma best_kind_kind_at m bs n x y a k :
  sorted_upto (len bs) bs → bs ≡ₚ boundaries m →
  bs !! n = Some x → bs !! S n = Some y → x ≤ a < y →
  best_kind m x y = Some k ↔ kind_at m a k.
Proof.
  intros Hs Hp Hx Hy Ha. pose proof (best_kind_spec m x y) as Hb.
  pose proof (span_contains m bs n x y a) as Hc. unfold best_inv in Hb.
  fold (best_kind m x y) in Hb. unfold kind_at, claims.
  destruct (best_kind m x y) as [k0|] eqn:Hk.
  - destruct Hb as (_ & (r0 & Hr0 & Hc0 & <-) & Hmax). split.
    + intros [= <-]. split; [exists r0; split_and!; [done| |done]; by apply Hc|].
      intros k' (r & Hr & Hra & <-). apply Hmax; [done|]. by apply Hc.
    + intros [(r & Hr & Hra & <-) Hm]. f_equal. apply kind_priority_inj.
      apply Z.le_antisymm; [apply Hm|apply Hmax; [done|by apply Hc]].
      exists r0. split_and!; [done|by apply Hc|done].
  - destruct Hb as [_ Hn]. split; [done|]. intros [(r & Hr & Hra & <-) _].
    destruct (Hn r Hr). by apply Hc.
Qed.

(** The spans claim at every address exactly the kind of highest priority. *)
Lemma spans_claims m bs a k :
  sorted_upto (len bs) bs → bs ≡ₚ boundaries m →
  claims (spans m bs) a k ↔ kind_at m a k.
Proof.
  intros Hs Hp. split.
  - intros (r & (n & x & y & k' & Hx & Hy & _ & Hk & ->)%elem_of_spans & Ha & <-). simpl in *.
    by apply (best_kind_kind_at m bs n x y a).
  - intros Hk. destruct Hk as [(r & Hr & [Hst Hen] & Hkr) Hmax] eqn:HK. clear HK.
    assert (start r ∈ bs ∧ end_ r ∈ bs) as [[p Hpx]%list_elem_of_lookup
      [q Hqy]%list_elem_of_lookup].
    { split; rewrite Hp; apply elem_of_boundaries; exists r; auto. }
    assert (p ≤ q)%nat.
    { destruct (decide (p ≤ q)%nat); [done|]. pose proof (sorted_le bs Hs q p _ _ ltac:(lia) Hqy Hpx).
      lia. }
    destruct (find_span bs a (q - p) p (start r) (end_ r)) as (n & x & y & Hx & Hy & Ha); try done.
    { by replace (p + (q - p))%nat with q by lia. }
    exists (mkRegion x y k). split_and!; [|done|done]. apply elem_of_spans.
    exists n, x, y, k. split_and!; [done|done|lia| |done].
    by apply (best_kind_kind_at m bs n x y a).
Qed.

(** ** Merging *)
Fixpoint merge_from (current : PhysRegion) (rest : list PhysRegion) : list PhysRegion :=
  match rest with
  | [] => [current]
  | region :: rest =>
      if decide (kind region = kind current ∧ start region = end_ current)
      then merge_from (mkRegion (start current) (end_ region) (kind current)) rest
      else current :: merge_from region rest
  end.

Lemma merge_scan_from out c rest : merge_scan out c rest = out ++ merge_from c rest.
Proof.
  revert out c. induction rest as [|r rest IH]; intros out c; simpl; [done|].
  case_decide; [apply IH|]. by rewrite IH, <-app_assoc.
Qed.

(** Nothing is left to merge. *)
Definition unmergeable (r1 r2 : PhysRegion) : Prop :=
  ¬ (kind r2 = kind r1 ∧ start r2 = end_ r1).

Definition nonempty_regions (l : list PhysRegion) : Prop := Forall (λ r, start r < end_ r) l.

Lemma claims_cons r l a k : claims (r :: l) a k ↔ (contains r a ∧ kind r = k) ∨ claims l a k.
Proof. unfold claims. set_solver. Qed.

Lemma merge_from_head c rest :
  ∃ e tl, merge_from c rest = mkRegion (start c) e (kind c) :: tl.
Proof.
  revert c. induction rest as [|r rest IH]; intros c; simpl.
  { by exists (end_ c), []; destruct c. }
  case_decide; [apply (IH (mkRegion (start c) (end_ r) (kind c)))|].
  exists (end_ c), (merge_from r rest). by destruct c.
Qed.

Lemma merge_from_spec c rest :
  nonempty_regions (c :: rest) → sorted_disjoint (c :: rest) →
  (∀ a k, claims (merge_from c rest) a k ↔ claims (c :: rest) a k) ∧
  sorted_disjoint (merge_from c rest) ∧ Sorted unmergeable (merge_from c rest) ∧
  nonempty_regions (merge_from c rest).
Proof.
  revert c. induction rest as [|r rest IH]; intros c Hne Hs; simpl.
  { split_and!; [done|done| |done]. repeat constructor. }
  inversion_clear Hne as [|? ? Hc Hne']. inversion_clear Hs as [|? ? Hs' Hall].
  inversion Hne' as [|? ? Hr Hne'']; subst. inversion Hs' as [|? ? Hs'' Hall']; subst.
  inversion Hall as [|? ? Hcr Hall'']; subst.
  case_decide as Hm.
  - destruct Hm as [Hk He]. destruct (IH (mkRegion (start c) (end_ r) (kind c)))
      as (Hcl & ? & ? & ?).
    + constructor; [simpl; lia|done].
    + constructor; [done|]. by simpl.
    + split_and!; [|done..]. intros a k. rewrite Hcl, !claims_cons.
      unfold contains. simpl. rewrite Hk.
      destruct (decide (kind c = k)); [|naive_solver].
      split; [intros [[? _]|?]; [|auto]|intros [[? _]|[[? _]|?]]; [left..|auto]].
      * destruct (decide (a < end_ c)); [left|right; left]; split; [lia|done|lia|done].
      * split; [lia|done].
      * split; [lia|done].
  - destruct (IH r) as (Hcl & Hsd & Hun & Hnn); [done..|].
    split_and!.
    + intros a k. rewrite claims_cons, Hcl. by rewrite (claims_cons c).
    + constructor; [done|]. apply Forall_forall. intros x Hx.
      assert (∃ a, contains x a) as [a Ha].
      { exists (start x). unfold contains. pose proof (proj1 (Forall_forall _ _) Hnn x Hx).
        simpl in *. lia. }
      pose proof (proj1 (Forall_forall _ _) Hall) as Hge. simpl in Hge.
      assert (claims (r :: rest) (start x) (kind x)) as (y & Hy & [Hy1 _] & _).
      { apply Hcl. exists x. split_and!; [done| |done]. split; [lia|].
        by apply (proj1 (Forall_forall _ _) Hnn x Hx). }
      specialize (Hge y Hy). lia.
    + constructor; [done|]. destruct (merge_from_head r rest) as (e & tl & ->).
      constructor. intros [Hk He]. by apply Hm.
    + by constructor.
Qed.

Lemma merge_adjacent_spec l :
  nonempty_regions l → sorted_disjoint l →
  (∀ a k, claims (merge_adjacent l) a k ↔ claims l a k) ∧
  sorted_disjoint (merge_adjacent l) ∧ Sorted unmergeable (merge_adjacent l) ∧
  nonempty_regions (merge_adjacent l).
Proof.
  destruct l as [|c rest]; intros Hne Hs; simpl.
  { split_and!; [done|done|constructor|done]. }
  rewrite merge_scan_from. by apply merge_from_spec.
Qed.

(** ** The stages of [normalize], put together *)
Lemma sorted_disjoint_take n l : sorted_disjoint l → sorted_disjoint (take n l).
Proof.
  unfold sorted_disjoint. revert n. induction l as [|r l IH]; intros [|n] Hs; simpl;
    [constructor..|]. inversion_clear Hs as [|? ? Hs' Hall]. constructor; [by apply IH|].
  by apply Forall_take.
Qed.

Definition below_top (m : MemoryMap) : Prop := Forall (λ r, end_ r ≤ U64 - 4096) m.

Lemma kind_at_bounds m a k : Forall wf_region m → below_top m →
  kind_at m a k → 0 ≤ a < U64 - 4096.
Proof.
  intros Hwf Ht [(r & Hr & [Hst Hen] & _) _].
  pose proof (proj1 (Forall_forall _ _) Hwf r Hr) as (? & ? & ?).
  pose proof (proj1 (Forall_forall _ _) Ht r Hr) as ?. simpl in *. lia.
Qed.

(** The map just before usable regions are page-aligned. *)
Lemma normalize_stages m : ∃ mg,
  normalize m = Ret (align_usable mg) ∧
  sorted_disjoint mg ∧ Sorted unmergeable mg ∧ nonempty_regions mg ∧
  (∀ a k, claims mg a k → kind_at m a k) ∧
  (len m ≤ 64 → ∀ a k, kind_at m a k → claims mg a k).
Proof.
  destruct (normalize_eq m) as (bs & Hp & Hs & Hn).
  assert (nonempty_regions (take 128 (spans m bs))) as Hne.
  { apply Forall_take, Forall_forall. intros r Hr. by eapply spans_nonempty. }
  destruct (merge_adjacent_spec (take 128 (spans m bs))) as (Hcl & ? & ? & ?); [done| |].
  { by apply sorted_disjoint_take, spans_sorted. }
  exists (merge_adjacent (take 128 (spans m bs))). split_and!; [done..| |].
  - intros a k (r & Hr%elem_of_take & ? & ?)%Hcl. apply (spans_claims m bs); [done..|].
    destruct Hr as (i & Hi & _). exists r. split; [|done]. by eapply list_elem_of_lookup_2.
  - intros Hlen a k Hk%(spans_claims m bs a k Hs Hp). apply Hcl.
    rewrite take_ge; [done|]. etrans; [apply length_spans|].
    rewrite (Permutation_length Hp), length_boundaries. unfold len in Hlen. lia.
Qed.

Lemma align_region_usable r :
  0 ≤ start r → start r < end_ r → end_ r < U64 - 4095 → kind r = UsableRam →
  kind (align_region r) = UsableRam →
  start r ≤ start (align_region r) < start r + 4096 ∧ start (align_region r) mod 4096 = 0 ∧
  end_ (align_region r) ≤ end_ r < end_ (align_region r) + 4096 ∧
  end_ (align_region r) mod 4096 = 0 ∧ start (align_region r) < end_ (align_region r).
Proof.
  intros H0 H1 H2 Hk. unfold align_region. rewrite decide_False by tauto.
  pose proof (align_up_page (start r)) as Hu. pose proof (align_down_page (end_ r)) as Hd.
  unfold is_u64 in *. case_decide; simpl; [done|]. intros _.
  destruct Hu as [? ?]; [lia..|]. destruct Hd as (? & ? & ?); [lia|].
  split_and!; lia.
Qed.

Lemma align_region_other r : kind r ≠ UsableRam → align_region r = r.
Proof. intros. unfold align_region. by rewrite decide_True. Qed.

Lemma align_region_kind r : kind (align_region r) = UsableRam → kind r = UsableRam.
Proof. unfold align_region. repeat case_decide; simpl; try done. Qed.

Lemma align_region_bounds r :
  0 ≤ start r → start r < end_ r → end_ r < U64 - 4095 →
  start (align_region r) < end_ (align_region r) →
  start r ≤ start (align_region r) ∧ end_ (align_region r) ≤ end_ r ∧
  kind (align_region r) = kind r.
Proof.
  intros H0 H1 H2 Hne. destruct (decide (kind r = UsableRam)) as [Hk|Hk].
  - assert (kind (align_region r) = UsableRam) as Hk'.
    { revert Hne. unfold align_region. repeat case_decide; simpl; [tauto|lia|done]. }
    pose proof (align_region_usable r H0 H1 H2 Hk Hk') as Ha. rewrite Hk, Hk'.
    split_and!; [lia|lia|done].
  - rewrite align_region_other by done. split_and!; [lia|lia|done].
Qed.

Section normalize_facts.
Context (m : MemoryMap) (Hwf : Forall wf_region m) (Htop : below_top m).

Lemma stage_bounds mg r :
  nonempty_regions mg → (∀ a k, claims mg a k → kind_at m a k) → r ∈ mg →
  0 ≤ start r ∧ start r < end_ r ∧ end_ r < U64 - 4095.
Proof.
  intros Hne Hcl Hr. pose proof (proj1 (Forall_forall _ _) Hne r Hr) as Hlt. simpl in Hlt.
  assert (∀ a, contains r a → 0 ≤ a < U64 - 4096) as Hb.
  { intros a Ha. apply (kind_at_bounds m a (kind r)); [done..|]. apply Hcl. by exists r. }
  unfold contains in Hb. pose proof (Hb (start r)). pose proof (Hb (end_ r - 1)). lia.
Qed.
End normalize_facts.

(** ** The theorems *)

Lemma usable_safe (m : MemoryMap) (out : NormalizedMap) (r : PhysRegion) :
  Forall wf_region m → below_top m → normalize m = Ret out →
  r ∈ out → kind r = UsableRam →
  start r mod 4096 = 0 ∧ end_ r mod 4096 = 0 ∧
  ∀ a, contains r a →
    claims m a UsableRam ∧ ∀ k, k ≠ UsableRam → ¬ claims m a k.
Proof.
  intros Hwf Htop Hn Hr Hk. destruct (normalize_stages m) as (mg & Hn' & _ & _ & Hne & Hcl & _).
  rewrite Hn in Hn'. injection Hn' as ->. apply list_elem_of_fmap in Hr as (r0 & -> & Hr0).
  pose proof (align_region_kind r0 Hk) as Hk0.
  destruct (stage_bounds m Hwf Htop mg r0) as (? & ? & ?); [done..|].
  destruct (align_region_usable r0) as (? & ? & ? & ? & ?); [done..|].
  split_and!; [done..|]. intros a [Ha1 Ha2].
  assert (kind_at m a UsableRam) as [Hcu Hmax].
  { apply Hcl. exists r0. split_and!; [done| |done]. split; lia. }
  split; [done|]. intros k Hne' Hk'%Hmax. apply Hne', kind_priority_inj.
  pose proof (kind_priority_pos k). simpl in *. lia.
Qed.

(** C19. Usable RAM is safe to hand out: for well-formed regions that end at or below 2^64 - 4096
    ([below_top]; rounding a region in the last page wraps), every address of a usable region of the normalized
    map is claimed by a usable-RAM region of the raw map and by no region of any other kind
    (kernel image, boot stack, boot info, reserved, MMIO); the region is page-aligned. *)
Theorem normalize_usable_safe (m : MemoryMap) (out : NormalizedMap) (r : PhysRegion) :
  Forall wf_region m → below_top m → normalize m = Ret out →
  r ∈ out → kind r = UsableRam →
  start r mod 4096 = 0 ∧ end_ r mod 4096 = 0 ∧
  ∀ a, contains r a →
    claims m a UsableRam ∧ ∀ k, k ≠ UsableRam → ¬ claims m a k.
Proof. apply usable_safe. Qed.

Lemma normalize_usable_safe_witness :
  let out := [mkRegion 0 0x2000 UsableRam; mkRegion 0x2800 0x4000 KernelImage;
              mkRegion 0x4000 0x10000 UsableRam] in
  let m := [mkRegion 0 0x10000 UsableRam; mkRegion 0x2800 0x4000 KernelImage] in
  normalize m = Ret out ∧ ∀ a, 0x4000 ≤ a < 0x10000 → ¬ claims m a KernelImage.
Proof.
  intros out m. split; [vm_compute; reflexivity|]. intros a Ha.
  apply (normalize_usable_safe m out (mkRegion 0x4000 0x10000 UsableRam)); try done.
  - repeat constructor; simpl; lia.
  - repeat constructor; simpl; lia.
  - set_solver.
Defined.

(** C35. For well-formed regions that end at or below 2^64 - 4096 ([below_top]), the live regions of the
    normalized map are sorted and pairwise disjoint, and
    [normalize] never panics. *)
Theorem normalize_sorted_disjoint (m : MemoryMap) :
  Forall wf_region m → below_top m →
  ∃ out, normalize m = Ret out ∧ sorted_disjoint (live out).
Proof.
  intros Hwf Htop. destruct (normalize_stages m) as (mg & Hn & Hs & _ & Hne & Hcl & _).
  exists (align_usable mg). split; [done|].
  assert (∀ r, r ∈ mg → 0 ≤ start r ∧ start r < end_ r ∧ end_ r < U64 - 4095) as Hb.
  { intros r Hr. by eapply stage_bounds. }
  clear Hn Hcl Hne. induction mg as [|r mg IH]; [constructor|]. unfold align_usable, live.
  inversion_clear Hs as [|? ? Hs' Hall]. rewrite fmap_cons, filter_cons.
  assert (sorted_disjoint (live (align_usable mg))) as Hrest.
  { apply IH; [done|]. intros; apply Hb; set_solver. }
  case_decide as Hlt; [|done]. constructor; [done|].
  apply Forall_forall. intros r' [Hlt' (r0 & -> & Hr0)%list_elem_of_fmap]%list_elem_of_filter.
  destruct (Hb r) as (? & ? & ?); [set_solver|]. destruct (Hb r0) as (? & ? & ?); [set_solver|].
  pose proof (proj1 (Forall_forall _ _) Hall r0 Hr0) as Hle. simpl in Hle.
  destruct (align_region_bounds r) as (? & ? & _); [done..|].
  destruct (align_region_bounds r0) as (? & ? & _); [done..|]. simpl. lia.
Qed.

Lemma normalize_sorted_disjoint_witness :
  ∃ out, normalize [mkRegion 0x5000 0x9000 Reserved; mkRegion 0 0x10000 UsableRam] = Ret out ∧
    sorted_disjoint (live out).
Proof.
  apply normalize_sorted_disjoint; repeat constructor; simpl; lia.
Defined.

(** Two neighbours of the merged list that touch have different kinds. *)
Lemma sorted_next l i (r r' : PhysRegion) :
  sorted_disjoint l → nonempty_regions l → l !! i = Some r → r' ∈ l →
  start r' = end_ r → l !! S i = Some r'.
Proof.
  revert i. induction l as [|x l IH]; intros i Hs Hne Hi Hr' He; [done|].
  inversion_clear Hs as [|? ? Hs' Hall]. inversion_clear Hne as [|? ? Hx Hne'].
  assert (∀ y, y ∈ l → end_ x ≤ start y) as Hge by (by apply Forall_forall).
  destruct i as [|i]; simpl in *.
  - injection Hi as ->. apply elem_of_cons in Hr' as [->|Hr']; [lia|].
    destruct l as [|y l]; [set_solver|]. simpl. f_equal.
    apply elem_of_cons in Hr' as [->|Hr']; [done|]. exfalso.
    inversion_clear Hs' as [|? ? _ Hally]. inversion_clear Hne' as [|? ? Hy _].
    pose proof (proj1 (Forall_forall _ _) Hally r' Hr') as Hle. simpl in Hle.
    assert (end_ r ≤ start y) by (apply Hge; set_solver). lia.
  - apply elem_of_cons in Hr' as [->|Hr']; [|by apply IH]. exfalso.
    assert (r ∈ l) as Hr by (by eapply list_elem_of_lookup_2).
    pose proof (Hge r Hr). pose proof (proj1 (Forall_forall _ _) Hne' r Hr). simpl in *. lia.
Qed.

Lemma Sorted_lookup (R : PhysRegion → PhysRegion → Prop) l i r r' :
  Sorted R l → l !! i = Some r → l !! S i = Some r' → R r r'.
Proof.
  revert i. induction l as [|x l IH]; intros i Hs Hi Hi'; [done|].
  inversion_clear Hs as [|? ? Hs' Hhd]. destruct i as [|i]; simpl in *.
  - destruct l as [|y l]; [done|]. simpl in *. simplify_eq. by inversion Hhd.
  - by apply (IH i).
Qed.

Lemma sorted_disjoint_lookup l i j ri rj :
  sorted_disjoint l → (i < j)%nat → l !! i = Some ri → l !! j = Some rj → end_ ri ≤ start rj.
Proof.
  intros Hs. revert i j. induction Hs as [|x l Hs IH Hall]; intros [|i] [|j] Hij Hi Hj;
    simpl in *; [done..|lia| |lia|].
  - simplify_eq. apply (proj1 (Forall_forall _ _) Hall). by eapply list_elem_of_lookup_2.
  - apply (IH i j); [lia|done..].
Qed.

(** C34. No usable page is lost: when the raw map has at most 64 regions, every aligned page
    whose addresses all have usable RAM as their highest-priority kind lies inside one
    usable region of the normalized map. *)
Theorem normalize_usable_complete (m : MemoryMap) (out : NormalizedMap) (p : Z) :
  Forall wf_region m → below_top m → len m ≤ 64 → normalize m = Ret out →
  p mod 4096 = 0 → (∀ a, p ≤ a < p + 4096 → kind_at m a UsableRam) →
  ∃ r, r ∈ out ∧ kind r = UsableRam ∧ start r ≤ p ∧ p + 4096 ≤ end_ r.
Proof.
  intros Hwf Htop Hlen Hn Hp Hpage.
  destruct (normalize_stages m) as (mg & Hn' & Hs & Hun & Hne & Hcl & Hcl').
  rewrite Hn in Hn'. injection Hn' as ->. specialize (Hcl' Hlen).
  destruct (Hcl' p UsableRam) as (r & Hr & [Hst Hen] & Hk); [apply Hpage; lia|].
  destruct (stage_bounds m Hwf Htop mg r) as (Hb1 & Hb2 & Hb3); [done..|].
  assert (p + 4096 ≤ end_ r) as Hfit.
  { destruct (decide (p + 4096 ≤ end_ r)); [done|]. exfalso.
    destruct (Hcl' (end_ r) UsableRam) as (r' & Hr' & [Hst' Hen'] & Hk'); [apply Hpage; lia|].
    apply list_elem_of_lookup in Hr as [i Hi]. apply list_elem_of_lookup in Hr' as [j Hj].
    assert (start r' = end_ r) as He.
    { destruct (lt_eq_lt_dec i j) as [[Hij| ->]|Hij].
      - assert (end_ r ≤ start r') by (by apply (sorted_disjoint_lookup mg i j)). lia.
      - simplify_eq. lia.
      - assert (end_ r' ≤ start r) by (by apply (sorted_disjoint_lookup mg j i)). lia. }
    pose proof (sorted_next mg i r r' Hs Hne Hi) as Hnext.
    apply (Sorted_lookup _ mg i r r' Hun Hi).
    - apply Hnext; [by eapply list_elem_of_lookup_2|done].
    - split; [congruence|done]. }
  exists (align_region r). split; [apply list_elem_of_fmap; eauto|].
  unfold align_region. rewrite decide_False by tauto.
  destruct (align_up_page (start r)) as [Hu Hum]; [unfold is_u64; lia|lia|].
  destruct (align_down_page (end_ r)) as (Hd & Hdm & _); [unfold is_u64; lia|].
  assert (align_up (start r) PAGE_SIZE ≤ p ∧ p + 4096 ≤ align_down (end_ r) PAGE_SIZE).
  { Z.to_euclidean_division_equations. lia. }
  rewrite decide_False by lia. simpl. split_and!; [done|lia|lia].
Qed.

Lemma normalize_usable_complete_witness :
  let m := [mkRegion 0 0x10000 UsableRam; mkRegion 0x2800 0x4000 KernelImage] in
  let out := [mkRegion 0 0x2000 UsableRam; mkRegion 0x2800 0x4000 KernelImage;
              mkRegion 0x4000 0x10000 UsableRam] in
  normalize m = Ret out ∧
  ∃ r, r ∈ out ∧ kind r = UsableRam ∧ start r ≤ 0x5000 ∧ 0x5000 + 4096 ≤ end_ r.
Proof.
  intros m out. split; [vm_compute; reflexivity|].
  apply (normalize_usable_complete m out 0x5000); try done.
  - repeat constructor; simpl; lia.
  - repeat constructor; simpl; lia.
  - intros a Ha. split.
    + exists (mkRegion 0 0x10000 UsableRam). split_and!; [set_solver|split; simpl; lia|done].
    + intros k (r & Hr & [Hst Hen] & <-). unfold m in Hr.
      apply elem_of_cons in Hr as [->|Hr%list_elem_of_singleton]; [done|subst].
      simpl in *. lia.
Defined.

(** Every other kind is reported exactly: for a raw map of at most 64 regions the
    normalized map holds kind [k] (other than usable RAM) at an address precisely when [k] is
    the highest-priority kind claimed there, so no reserved, MMIO or kernel address is lost
    or invented. *)
Theorem normalize_other_exact (m : MemoryMap) (out : NormalizedMap) (a : Z) (k : RegionKind) :
  len m ≤ 64 → normalize m = Ret out → k ≠ UsableRam →
  claims out a k ↔ kind_at m a k.
Proof.
  intros Hlen Hn Hk. destruct (normalize_stages m) as (mg & Hn' & _ & _ & _ & Hcl & Hcl').
  rewrite Hn in Hn'. injection Hn' as ->. specialize (Hcl' Hlen). split.
  - intros (r & (r0 & -> & Hr0)%list_elem_of_fmap & Ha & <-).
    destruct (decide (kind r0 = UsableRam)) as [Hu|Hu].
    + exfalso. revert Hk Ha. unfold align_region, contains.
      repeat case_decide; simpl; [tauto|lia|tauto].
    + rewrite align_region_other in * by done. apply Hcl. by exists r0.
  - intros (r & Hr & Ha & <-)%Hcl'. exists (align_region r).
    split; [apply list_elem_of_fmap; eauto|]. by rewrite align_region_other.
Qed.

Lemma normalize_other_exact_witness :
  let m := [mkRegion 0 0x10000 UsableRam; mkRegion 0x2800 0x4000 KernelImage] in
  let out := [mkRegion 0 0x2000 UsableRam; mkRegion 0x2800 0x4000 KernelImage;
              mkRegion 0x4000 0x10000 UsableRam] in
  normalize m = Ret out ∧ (claims out 0x3000 KernelImage ↔ kind_at m 0x3000 KernelImage).
Proof.
  intros m out. split; [vm_compute; reflexivity|].
  by apply (normalize_other_exact m out 0x3000 KernelImage).
Defined.
