(* ===== verification/BootAlloc.v ===== *)
(** * The boot allocator

    [src/mm/bootalloc.rs]: the bump allocator used before the frame allocator exists.  Its
    three statics are the record [state]. *)
From S2P Require Import Prelude Bits Layout.
Local Open Scope Z_scope.

Record state := mkState { BOOT_START : Z; BOOT_CURRENT : Z; BOOT_END : Z }.

Definition boot_zero : state := mkState 0 0 0.

Definition init (st en : Z) (s : state) : state :=
  let aligned := align_up st PAGE_SIZE in
  mkState aligned aligned en.

Definition alloc (size align : Z) (s : state) : option Z * state :=
  let align := Z.max align 1 in
  let current := align_up (BOOT_CURRENT s) align in
  let next := sat_add64 current size in
  if decide (current = 0 ∨ BOOT_END s < next) then (None, s)
  else (Some current, mkState (BOOT_START s) next (BOOT_END s)).

Definition alloc_pages (pages : Z) (s : state) : option Z * state :=
  alloc (mul64 pages PAGE_SIZE) PAGE_SIZE s.

Definition used_range (s : state) : Z * Z := (BOOT_START s, BOOT_CURRENT s).

(** ** Correctness

    A sequence of requests [(size, alignment exponent)] and the blocks it is given. *)
Fixpoint run (reqs : list (Z * Z)) (s : state) : list (Z * Z) * state :=
  match reqs with
  | [] => ([], s)
  | (size, k) :: reqs =>
      let '(r, s1) := alloc size (2 ^ k) s in
      let '(bs, s2) := run reqs s1 in
      match r with
      | Some p => ((p, size) :: bs, s2)
      | None => (bs, s2)
      end
  end.

Definition request_ok (q : Z * Z) : Prop := 0 ≤ q.1 < U64 ∧ 0 ≤ q.2 < 63.

(** The allocator's addresses leave room for the alignment. *)
Definition wf (s : state) : Prop :=
  0 ≤ BOOT_START s ∧ BOOT_START s ≤ BOOT_CURRENT s ∧ BOOT_CURRENT s < 2 ^ 63 ∧
  BOOT_END s < 2 ^ 63.

Lemma alloc_spec size k s :
  wf s → request_ok (size, k) →
  match alloc size (2 ^ k) s with
  | (Some p, s') =>
      p mod 2 ^ k = 0 ∧ BOOT_CURRENT s ≤ p < BOOT_CURRENT s + 2 ^ k ∧ p ≠ 0 ∧
      p + size ≤ BOOT_END s ∧
      s' = mkState (BOOT_START s) (p + size) (BOOT_END s) ∧ wf s'
  | (None, s') =>
      s' = s ∧ (BOOT_CURRENT s = 0 ∨ BOOT_END s < align_up (BOOT_CURRENT s) (2 ^ k) + size)
  end.
Proof.
  intros (H1 & H2 & H3 & H4) [Hsz Hk]. simpl in *. unfold alloc.
  assert (2 ^ 63 = 9223372036854775808) as H63 by done.
  assert (0 < 2 ^ k) by lia. assert (2 ^ k ≤ 2 ^ 63) by (apply Z.pow_le_mono_r; lia).
  rewrite Z.max_l by lia.
  pose proof (align_up_eq (BOOT_CURRENT s) k) as Ha. rewrite Ha by (unfold is_u64; lia). clear Ha.
  pose proof (Z.div_mod (BOOT_CURRENT s + 2 ^ k - 1) (2 ^ k)) as Hdm.
  pose proof (Z.mod_pos_bound (BOOT_CURRENT s + 2 ^ k - 1) (2 ^ k)) as Hmb.
  set (c := BOOT_CURRENT s + 2 ^ k - 1) in *.
  assert (c - c mod 2 ^ k = 2 ^ k * (c / 2 ^ k)) as Hc by lia.
  unfold sat_add64. case_decide as Hd.
  - split; [done|]. destruct Hd as [Hz|Hd]; [left; lia|]. right. lia.
  - apply Decidable.not_or in Hd as [Hnz Hnd].
    assert (c - c mod 2 ^ k + size ≤ BOOT_END s) by lia.
    rewrite Z.min_l in * by lia.
    assert ((c - c mod 2 ^ k) mod 2 ^ k = 0) by (rewrite Hc, Z.mul_comm; apply Z.mod_mul; lia).
    unfold wf; simpl. split_and!; done || lia.
Qed.

(** Blocks in the order they were handed out, from [lo]: each begins at or after the end of
    the one before. *)
Fixpoint stacked (lo : Z) (bs : list (Z * Z)) (hi : Z) : Prop :=
  match bs with
  | [] => lo ≤ hi
  | (p, size) :: bs => lo ≤ p ∧ stacked (p + size) bs hi
  end.

(** The boot allocator is a bump allocator: any sequence of requests is given
    non-overlapping blocks, in increasing order, all inside the range [used_range] reports
    afterwards and below the end of the boot region. *)
Theorem run_stacked (reqs : list (Z * Z)) (s : state) :
  wf s → Forall request_ok reqs → BOOT_CURRENT s ≤ BOOT_END s →
  let '(bs, s') := run reqs s in
  stacked (BOOT_CURRENT s) bs (used_range s').2 ∧
  (used_range s').1 = BOOT_START s ∧ (used_range s').2 ≤ BOOT_END s.
Proof.
  intros Hwf Hr. revert s Hwf. induction Hr as [|[size k] reqs Hq Hr IH]; intros s Hwf Hle;
    simpl; [split_and!; done || lia|].
  pose proof (alloc_spec size k s Hwf Hq) as Ha.
  destruct (alloc size (2 ^ k) s) as [[p|] s1].
  - destruct Ha as (_ & Hp & _ & Hend & -> & Hwf1). specialize (IH _ Hwf1). simpl in IH.
    destruct (run reqs _) as [bs s2]. simpl. destruct IH as (? & ? & ?); [lia|].
    split_and!; [lia|done..].
  - destruct Ha as [-> _]. specialize (IH _ Hwf Hle). by destruct (run reqs s) as [bs s2].
Qed.

Lemma run_stacked_witness :
  let '(bs, s') := run [(100, 3); (8192, 12); (1, 0)] (init 0x80123 0x100000 boot_zero) in
  stacked 0x81000 bs (used_range s').2 ∧
  (used_range s').1 = 0x81000 ∧ (used_range s').2 ≤ 0x100000.
Proof.
  apply (run_stacked [(100, 3); (8192, 12); (1, 0)] (init 0x80123 0x100000 boot_zero)).
  - vm_compute. intuition discriminate.
  - repeat constructor; simpl; lia.
  - vm_compute. discriminate.
Defined.
