(* ===== verification/Frame.v ===== *)
(** * The physical frame allocator

    [src/mm/frame.rs]: a bitmap over all 4 KiB frames up to the end of usable RAM (bit set =
    frame in use).  [bitmap] carries the address the slice points to, because the bitmap
    itself lives in memory the boot allocator handed out and must never be handed out again.
    The static [FRAME_ALLOC] is a spin lock around an optional allocator. *)
From S2P Require Import Prelude Bits Layout Region Sync.
From S2P Require BootAlloc.
Local Open Scope Z_scope.

Record FrameAllocator := mkFA { frame_count : Z; bitmap_addr : Z; bitmap : list Z }.

Definition test_bit (fa : FrameAllocator) (idx : Z) : outcome bool :=
  let word := idx / 64 in
  let bit := idx mod 64 in
  w ← aget (bitmap fa) word;
  Ret (negb (Z.land w (shl64 1 bit) =? 0)).

Definition set_bit (fa : FrameAllocator) (idx : Z) : outcome FrameAllocator :=
  let word := idx / 64 in
  let bit := idx mod 64 in
  w ← aget (bitmap fa) word;
  bm ← aset (bitmap fa) word (Z.lor w (shl64 1 bit));
  Ret (mkFA (frame_count fa) (bitmap_addr fa) bm).

Definition clear_bit (fa : FrameAllocator) (idx : Z) : outcome FrameAllocator :=
  let word := idx / 64 in
  let bit := idx mod 64 in
  w ← aget (bitmap fa) word;
  bm ← aset (bitmap fa) word (Z.land w (not64 (shl64 1 bit)));
  Ret (mkFA (frame_count fa) (bitmap_addr fa) bm).

Definition mark_free (st en : Z) (fa : FrameAllocator) : outcome FrameAllocator :=
  while_range (st / PAGE_SIZE) (en / PAGE_SIZE) (λ idx fa, clear_bit fa idx) fa.

Definition mark_used (st en : Z) (fa : FrameAllocator) : outcome FrameAllocator :=
  while_range (st / PAGE_SIZE) (align_up en PAGE_SIZE / PAGE_SIZE)
    (λ idx fa, set_bit fa idx) fa.

(** [FrameAllocator::alloc_frame]. *)
Definition fa_alloc_frame (fa : FrameAllocator) : outcome (option Z * FrameAllocator) :=
  r ← find_range 0 (frame_count fa) (λ idx, b ← test_bit fa idx; Ret (negb b));
  match r with
  | Some idx => fa' ← set_bit fa idx; Ret (Some (mul64 idx PAGE_SIZE), fa')
  | None => Ret (None, fa)
  end.

(** One iteration of the search of [FrameAllocator::alloc_contiguous]: [inr] is the return
    of the function, [inl] the next index. *)
Definition contiguous_body (fa : FrameAllocator) (pages idx : Z) :
    outcome (Z + (option Z * FrameAllocator)) :=
  if decide (add64 idx pages ≤ frame_count fa) then
    bad ← find_range idx (add64 idx pages) (test_bit fa);
    match bad with
    | None =>
        fa' ← while_range idx (add64 idx pages) (λ bit fa, set_bit fa bit) fa;
        Ret (inr (Some (mul64 idx PAGE_SIZE), fa'))
    | Some _ => Ret (inl (add64 idx 1))
    end
  else Ret (inr (None, fa)).

(** [FrameAllocator::alloc_contiguous]. *)
Definition fa_alloc_contiguous (fa : FrameAllocator) (pages : Z) :
    outcome (option Z * FrameAllocator) :=
  if decide (pages = 0) then Ret (None, fa)
  else loop (Z.to_nat (frame_count fa) + 2) (contiguous_body fa pages) 0.

(** [FrameAllocator::free_frame]. *)
Definition fa_free_frame (fa : FrameAllocator) (paddr : Z) : outcome FrameAllocator :=
  let idx := paddr / PAGE_SIZE in
  if decide (idx < frame_count fa) then clear_bit fa idx else Ret fa.

(** ** The global allocator *)
Definition FRAME_ALLOC_new : SpinLock (option FrameAllocator) := lock_new None.

(** End of the highest usable region, as the first loop of [init] computes it. *)
Definition max_usable_end (map : NormalizedMap) : Z :=
  foldl (λ max_end region,
    if decide (kind region = UsableRam ∧ max_end < end_ region) then end_ region else max_end)
    0 map.

(** [init] also gives the marks it prints on the Pi 5, whose printing touches nothing it works on. *)
Definition init (map : NormalizedMap) (boot : BootAlloc.state)
    (glob : SpinLock (option FrameAllocator)) :
    outcome (list (list Z) * BootAlloc.state * SpinLock (option FrameAllocator)) :=
  let max_end := max_usable_end map in
  if decide (max_end = 0) then Ret ([], boot, glob)
  else
    let frame_count := align_up max_end PAGE_SIZE / PAGE_SIZE in
    let words := (frame_count + 63) / 64 in
    let bytes := words * 8 in
    let marks := [Prelude.bytes "F0"] in
    match BootAlloc.alloc bytes 8 boot with
    | (None, boot) => Ret (marks, boot, glob)
    | (Some bitmap_paddr, boot) =>
        let marks := marks ++ [Prelude.bytes "F1"] in
        let fa := mkFA frame_count bitmap_paddr (replicate (Z.to_nat words) U64_MAX) in
        let marks := marks ++ [Prelude.bytes "F2"] in
        fa ← for_each_in map (λ region fa,
          if decide (kind region ≠ UsableRam) then Ret fa
          else mark_free (start region) (end_ region) fa) fa;
        let marks := marks ++ [Prelude.bytes "F3"] in
        let '(boot_start, boot_end) := BootAlloc.used_range boot in
        fa ← mark_used boot_start boot_end fa;
        let marks := marks ++ [Prelude.bytes "F4"] in
        g ← lock glob;
        let g := guard_set g (Some fa) in
        Ret (marks ++ [Prelude.bytes "F5"], boot, unlock g)
    end.

Definition alloc_frame (glob : SpinLock (option FrameAllocator)) :
    outcome (option Z * SpinLock (option FrameAllocator)) :=
  with_lock glob (λ st,
    match st with
    | None => Ret (None, None)
    | Some fa => r ← fa_alloc_frame fa; Ret (r.1, Some r.2)
    end).

Definition alloc_contiguous (pages : Z) (glob : SpinLock (option FrameAllocator)) :
    outcome (option Z * SpinLock (option FrameAllocator)) :=
  with_lock glob (λ st,
    match st with
    | None => Ret (None, None)
    | Some fa => r ← fa_alloc_contiguous fa pages; Ret (r.1, Some r.2)
    end).

Definition free_frame (paddr : Z) (glob : SpinLock (option FrameAllocator)) :
    outcome (unit * SpinLock (option FrameAllocator)) :=
  with_lock glob (λ st,
    match st with
    | None => Ret (tt, None)
    | Some fa => fa ← fa_free_frame fa paddr; Ret (tt, Some fa)
    end).

(** ** Abstract view: which frames are in use *)
Definition bit (fa : FrameAllocator) (idx : Z) : bool :=
  Z.testbit (bitmap fa !!! Z.to_nat (idx / 64)) (idx mod 64).

Definition free (fa : FrameAllocator) (idx : Z) : Prop :=
  0 ≤ idx < frame_count fa ∧ bit fa idx = false.

Definition wf (fa : FrameAllocator) : Prop :=
  0 ≤ frame_count fa < 2 ^ 52 ∧ len (bitmap fa) = (frame_count fa + 63) / 64 ∧
  Forall is_u64 (bitmap fa).

(** Same shape, different bits. *)
Definition same_shape (fa fa' : FrameAllocator) : Prop :=
  frame_count fa' = frame_count fa ∧ bitmap_addr fa' = bitmap_addr fa ∧
  len (bitmap fa') = len (bitmap fa).

Definition capacity (fa : FrameAllocator) : Z := 64 * len (bitmap fa).

Example frame_example :
  let fa := mkFA 3 0x1000 [Z.lor (U64_MAX - 7) 1] in
  fa_alloc_frame fa = Ret (Some 0x1000, mkFA 3 0x1000 [U64_MAX - 4]).
Proof. vm_compute. reflexivity. Qed.

(** ** Single bits *)
Section single_bits.
Context (fa : FrameAllocator) (Hu : Forall is_u64 (bitmap fa)).
Context (idx : Z) (Hidx : 0 ≤ idx < capacity fa).

Lemma word_in_range : 0 ≤ idx / 64 < len (bitmap fa).
Proof. unfold capacity in Hidx. Z.to_euclidean_division_equations. lia. Qed.

Lemma word_lookup : ∃ w, aget (bitmap fa) (idx / 64) = Ret w ∧ is_u64 w ∧
  bitmap fa !! Z.to_nat (idx / 64) = Some w ∧ bitmap fa !!! Z.to_nat (idx / 64) = w.
Proof.
  destruct (aget_total (bitmap fa) (idx / 64) word_in_range) as (w & Hw & Hl).
  exists w. split_and!; [done| |done|by apply list_lookup_total_correct].
  by eapply Forall_lookup_1.
Qed.

Lemma bit_pos : 0 ≤ idx mod 64 < 64.
Proof. apply Z.mod_pos_bound. lia. Qed.

Lemma test_bit_spec : test_bit fa idx = Ret (bit fa idx).
Proof.
  destruct word_lookup as (w & Hw & Hwu & _ & Ht). unfold test_bit, bit. rewrite Hw, Ht. simpl.
  f_equal. apply (bit_test_testbit w (idx mod 64) bit_pos).
Qed.

(** Writing one word whose bits are those of the old one but for [idx mod 64]. *)
Lemma write_word (w w' : Z) (v : bool) :
  bitmap fa !! Z.to_nat (idx / 64) = Some w → is_u64 w' →
  (∀ i, 0 ≤ i → Z.testbit w' i = if decide (i = idx mod 64) then v else Z.testbit w i) →
  ∃ bm, aset (bitmap fa) (idx / 64) w' = Ret bm ∧
    let fa' := mkFA (frame_count fa) (bitmap_addr fa) bm in
    same_shape fa fa' ∧ Forall is_u64 bm ∧
    ∀ j, 0 ≤ j → bit fa' j = if decide (j = idx) then v else bit fa j.
Proof.
  intros Hw Hu' Hbits. exists (<[Z.to_nat (idx / 64) := w']> (bitmap fa)).
  pose proof word_in_range as Hr. split; [by apply aset_ret|]. split_and!.
  - unfold same_shape. simpl. by rewrite len_insert.
  - by apply Forall_insert.
  - intros j Hj. unfold bit. simpl.
    destruct (decide (j / 64 = idx / 64)) as [He|He].
    + rewrite He. rewrite list_lookup_total_insert_eq by (unfold len in Hr; lia).
      rewrite Hbits by (apply Z.mod_pos_bound; lia).
      rewrite (list_lookup_total_correct _ _ _ Hw).
      assert (j = idx ↔ j mod 64 = idx mod 64) as Heq.
      { pose proof (Z.div_mod j 64). pose proof (Z.div_mod idx 64). lia. }
      repeat case_decide; tauto.
    + rewrite list_lookup_total_insert_ne
        by (pose proof (Z.div_pos j 64); pose proof (Z.div_pos idx 64); lia).
      case_decide; [congruence|done].
Qed.

Lemma set_bit_spec :
  ∃ fa', set_bit fa idx = Ret fa' ∧ same_shape fa fa' ∧ Forall is_u64 (bitmap fa') ∧
    ∀ j, 0 ≤ j → bit fa' j = if decide (j = idx) then true else bit fa j.
Proof.
  destruct word_lookup as (w & Hw & Hwu & Hl & _). unfold set_bit. rewrite Hw. simpl.
  destruct (write_word w (bit_set w (idx mod 64)) true) as (bm & Hbm & ? & ? & ?); [done| | |].
  - apply bit_set_u64; [done|apply bit_pos].
  - intros i Hi. apply bit_set_testbit; [apply bit_pos|done].
  - unfold bit_set in Hbm. rewrite Hbm. simpl. eauto.
Qed.

Lemma clear_bit_spec :
  ∃ fa', clear_bit fa idx = Ret fa' ∧ same_shape fa fa' ∧ Forall is_u64 (bitmap fa') ∧
    ∀ j, 0 ≤ j → bit fa' j = if decide (j = idx) then false else bit fa j.
Proof.
  destruct word_lookup as (w & Hw & Hwu & Hl & _). unfold clear_bit. rewrite Hw. simpl.
  destruct (write_word w (bit_clear w (idx mod 64)) false) as (bm & Hbm & ? & ? & ?); [done| | |].
  - apply bit_clear_u64; [done|apply bit_pos].
  - intros i Hi. by apply bit_clear_testbit; [|apply bit_pos|].
  - unfold bit_clear in Hbm. rewrite Hbm. simpl. eauto.
Qed.
End single_bits.

(** ** Ranges of bits *)
Section ranges.
Context (op : FrameAllocator → Z → outcome FrameAllocator) (v : bool).
Context (Hop : ∀ fa, Forall is_u64 (bitmap fa) → ∀ idx, 0 ≤ idx < capacity fa →
  ∃ fa', op fa idx = Ret fa' ∧ same_shape fa fa' ∧ Forall is_u64 (bitmap fa') ∧
    ∀ j, 0 ≤ j → bit fa' j = if decide (j = idx) then v else bit fa j).

Lemma range_update fa lo hi :
  Forall is_u64 (bitmap fa) → 0 ≤ lo → hi ≤ capacity fa →
  ∃ fa', while_range lo hi (λ i fa, op fa i) fa = Ret fa' ∧ same_shape fa fa' ∧
    Forall is_u64 (bitmap fa') ∧
    ∀ j, 0 ≤ j → bit fa' j = if decide (lo ≤ j < hi) then v else bit fa j.
Proof.
  intros Hu Hlo Hhi. destruct (decide (lo ≤ hi)) as [Hle|].
  2:{ exists fa. rewrite while_range_empty by lia. split_and!; try done.
      intros. by rewrite decide_False by lia. }
  apply returns_eq, (returns_while_range (λ i fa', same_shape fa fa' ∧
    Forall is_u64 (bitmap fa') ∧
    ∀ j, 0 ≤ j → bit fa' j = if decide (lo ≤ j < i) then v else bit fa j) _ lo hi fa);
    [done| |].
  - split_and!; try done. intros. by rewrite decide_False by lia.
  - intros i fa' Hi ((Hs1 & Hs2 & Hs3) & Hu' & Hb).
    destruct (Hop fa' Hu' i) as (fa'' & -> & (? & ? & ?) & Hu'' & Hb'').
    { unfold capacity in *. lia. }
    simpl. split_and!; [unfold same_shape; split_and!; congruence|done|].
    intros j Hj. rewrite Hb'', Hb by done. repeat case_decide; done || lia.
Qed.
End ranges.

(** ** The operations, on the set of free frames *)
Lemma wf_capacity fa : wf fa → frame_count fa ≤ capacity fa.
Proof. intros (? & Hl & _). unfold capacity. rewrite Hl. Z.to_euclidean_division_equations. lia. Qed.

Lemma wf_same_shape fa fa' :
  wf fa → same_shape fa fa' → Forall is_u64 (bitmap fa') → wf fa'.
Proof. intros (? & ? & ?) (Hc & _ & Hl) ?. unfold wf. by rewrite Hc, Hl. Qed.

Lemma page_addr idx : 0 ≤ idx < 2 ^ 52 → mul64 idx PAGE_SIZE = idx * 4096.
Proof.
  intros. unfold mul64, wrap64, PAGE_SIZE. apply Z.mod_small.
  change (2 ^ 52) with 4503599627370496 in *. lia.
Qed.

Lemma find_free fa : wf fa →
  ∃ r, find_range 0 (frame_count fa) (λ idx, b ← test_bit fa idx; Ret (negb b)) = Ret r ∧
    match r with
    | Some idx => free fa idx ∧ ∀ j, free fa j → idx ≤ j
    | None => ∀ j, ¬ free fa j
    end.
Proof.
  intros Hwf. pose proof (wf_capacity fa Hwf). destruct Hwf as (? & _ & Hu).
  destruct (find_range_spec 0 (frame_count fa) (λ idx, b ← test_bit fa idx; Ret (negb b))
    (λ idx, negb (bit fa idx))) as (r & Hr & Hspec).
  { intros i Hi. rewrite test_bit_spec by (done || lia). done. }
  exists r. split; [done|]. unfold free. destruct r as [idx|].
  - destruct Hspec as (? & Hf & Hmin). split.
    { split; [lia|]. by destruct (bit fa idx). }
    intros j [Hj Hb]. destruct (decide (idx ≤ j)); [done|].
    specialize (Hmin j ltac:(lia)). by rewrite Hb in Hmin.
  - intros j [Hj Hb]. specialize (Hspec j). rewrite Hb in Hspec. by specialize (Hspec Hj).
Qed.

Lemma fa_alloc_frame_spec (fa : FrameAllocator) :
  wf fa →
  ∃ r fa', fa_alloc_frame fa = Ret (r, fa') ∧ wf fa' ∧
    match r with
    | Some p => ∃ idx, p = idx * 4096 ∧ free fa idx ∧ (∀ j, free fa j → idx ≤ j) ∧
        ∀ j, free fa' j ↔ free fa j ∧ j ≠ idx
    | None => fa' = fa ∧ ∀ j, ¬ free fa j
    end.
Proof.
  intros Hwf. destruct (find_free fa Hwf) as (r & Hr & Hspec).
  pose proof (wf_capacity fa Hwf). pose proof Hwf as (? & _ & Hu).
  unfold fa_alloc_frame. rewrite Hr. simpl. destruct r as [idx|]; [|by eexists None, fa].
  destruct Hspec as [Hfree Hmin]. pose proof Hfree as [Hidx _].
  destruct (set_bit_spec fa Hu idx ltac:(lia)) as (fa' & -> & Hs & Hu' & Hb). simpl.
  eexists _, fa'. split; [done|]. split; [by eapply wf_same_shape|].
  exists idx. rewrite page_addr by lia. split_and!; [done..|].
  intros j. unfold free. destruct Hs as (-> & _). split.
  - intros [Hj Hbj]. rewrite Hb in Hbj by lia. case_decide; done.
  - intros [[Hj Hbj] Hne]. split; [done|]. rewrite Hb by lia. by rewrite decide_False.
Qed.

Lemma find_used fa lo hi : wf fa → 0 ≤ lo → hi ≤ frame_count fa →
  ∃ r, find_range lo hi (test_bit fa) = Ret r ∧
    match r with
    | Some idx => lo ≤ idx < hi ∧ ¬ free fa idx
    | None => ∀ j, lo ≤ j < hi → free fa j
    end.
Proof.
  intros Hwf Hlo Hhi. pose proof (wf_capacity fa Hwf). destruct Hwf as (? & _ & Hu).
  destruct (find_range_spec lo hi (test_bit fa) (bit fa)) as (r & Hr & Hspec).
  { intros i Hi. apply test_bit_spec; [done|lia]. }
  exists r. split; [done|]. unfold free. destruct r as [idx|].
  - destruct Hspec as (? & Hb & _). split; [done|]. rewrite Hb. by intros [_ ?].
  - intros j Hj. split; [lia|by apply Hspec].
Qed.

Definition run_free (fa : FrameAllocator) (idx pages : Z) : Prop :=
  ∀ j, idx ≤ j < idx + pages → free fa j.

Lemma contiguous_body_spec fa pages idx :
  wf fa → 0 < pages < U64 → 0 ≤ idx ≤ frame_count fa →
  (idx = 0 ∨ pages ≤ frame_count fa) →
  ∃ r, contiguous_body fa pages idx = Ret r ∧
    match r with
    | inl idx' => idx' = idx + 1 ∧ idx + pages ≤ frame_count fa ∧ ¬ run_free fa idx pages
    | inr (Some p, fa') => p = idx * 4096 ∧ run_free fa idx pages ∧ wf fa' ∧
        ∀ j, free fa' j ↔ free fa j ∧ ¬ (idx ≤ j < idx + pages)
    | inr (None, fa') => fa' = fa ∧ frame_count fa < idx + pages
    end.
Proof.
  intros Hwf Hp Hidx Hno. pose proof (wf_capacity fa Hwf). pose proof Hwf as (Hc & _ & Hu).
  change (2 ^ 52) with 4503599627370496 in *.
  assert (add64 idx pages = idx + pages) as Ha.
  { unfold add64, wrap64. apply Z.mod_small. lia. }
  unfold contiguous_body. rewrite Ha. case_decide as Hfit.
  2:{ eexists. split; [done|]. simpl. split; [done|lia]. }
  destruct (find_used fa idx (idx + pages)) as (r & -> & Hr); [done|lia|lia|]. simpl.
  destruct r as [i|].
  - eexists. split; [done|]. simpl. unfold add64, wrap64. rewrite Z.mod_small by lia.
    split_and!; [lia|done|]. intros Hrf. destruct Hr as [? []]. by apply Hrf.
  - destruct (range_update set_bit true set_bit_spec fa idx (idx + pages))
      as (fa' & -> & Hs & Hu' & Hb); [done|lia|lia|]. simpl. eexists. split; [done|]. simpl.
    rewrite page_addr by (change (2 ^ 52) with 4503599627370496; lia).
    split_and!; [done|done|by eapply wf_same_shape|]. intros j. unfold free.
    destruct Hs as (-> & _). split.
    + intros [Hj Hbj]. rewrite Hb in Hbj by lia. case_decide; done.
    + intros [[Hj Hbj] Hne]. split; [done|]. rewrite Hb by lia. by rewrite decide_False.
Qed.

Lemma fa_alloc_contiguous_spec (fa : FrameAllocator) (pages : Z) :
  wf fa → 0 < pages < U64 →
  ∃ r fa', fa_alloc_contiguous fa pages = Ret (r, fa') ∧ wf fa' ∧
    match r with
    | Some p => ∃ idx, p = idx * 4096 ∧ 0 ≤ idx ∧ run_free fa idx pages ∧
        (∀ i, 0 ≤ i < idx → ¬ run_free fa i pages) ∧
        ∀ j, free fa' j ↔ free fa j ∧ ¬ (idx ≤ j < idx + pages)
    | None => fa' = fa ∧ ∀ i, 0 ≤ i → ¬ run_free fa i pages
    end.
Proof.
  intros Hwf Hp. unfold fa_alloc_contiguous. rewrite decide_False by lia.
  pose proof Hwf as (Hc & _). change (2 ^ 52) with 4503599627370496 in Hc.
  pose (Q := λ res : option Z * FrameAllocator, wf res.2 ∧
    match res.1 with
    | Some p => ∃ idx, p = idx * 4096 ∧ 0 ≤ idx ∧ run_free fa idx pages ∧
        (∀ i, 0 ≤ i < idx → ¬ run_free fa i pages) ∧
        ∀ j, free res.2 j ↔ free fa j ∧ ¬ (idx ≤ j < idx + pages)
    | None => res.2 = fa ∧ ∀ i, 0 ≤ i → ¬ run_free fa i pages
    end).
  assert (returns (loop (Z.to_nat (frame_count fa) + 2) (contiguous_body fa pages) 0) Q)
    as ([r fa'] & Hr & HQ)%returns_eq; [|by exists r, fa'].
  apply (returns_loop (λ idx, 0 ≤ idx ≤ frame_count fa ∧ (idx = 0 ∨ pages ≤ frame_count fa) ∧
      ∀ i, 0 ≤ i < idx → ¬ run_free fa i pages)
    (λ idx, Z.to_nat (frame_count fa + 1 - idx))); [|split_and!; lia|lia].
  intros idx (Hidx & Hno & Hmin).
  destruct (contiguous_body_spec fa pages idx Hwf Hp Hidx Hno) as (r & -> & Hr). simpl.
  destruct r as [idx'|[[p|] fa']].
  - destruct Hr as (-> & Hfit & Hnr). split; [|lia]. split_and!; [lia..|].
    intros i Hi. destruct (decide (i = idx)) as [->|]; [done|]. apply Hmin. lia.
  - destruct Hr as (-> & Hrf & Hwf' & Hfree). split; [done|]. exists idx. by split_and!; [|lia|..].
  - destruct Hr as (-> & Hbig). split; [done|]. split; [done|]. intros i Hi Hrf.
    destruct (decide (i < idx)); [apply (Hmin i); [lia|done]|].
    destruct (Hrf (i + pages - 1)) as [? _]; lia.
Qed.

(** [free_frame] adds exactly the frame of the given address; an address at or above the end
    of the managed range is ignored. *)
Lemma free_frame_spec (fa : FrameAllocator) (paddr : Z) :
  wf fa → 0 ≤ paddr →
  ∃ fa', fa_free_frame fa paddr = Ret fa' ∧ wf fa' ∧
    ∀ j, free fa' j ↔ free fa j ∨ (j = paddr / 4096 ∧ j < frame_count fa).
Proof.
  intros Hwf Hp. pose proof (wf_capacity fa Hwf). pose proof Hwf as (Hc & _ & Hu).
  assert (0 ≤ paddr / 4096) by (apply Z.div_pos; lia).
  unfold fa_free_frame, PAGE_SIZE. case_decide as Hd.
  - destruct (clear_bit_spec fa Hu (paddr / 4096) ltac:(lia)) as (fa' & -> & Hs & Hu' & Hb).
    exists fa'. split; [done|]. split; [by eapply wf_same_shape|]. intros j. unfold free.
    destruct Hs as (-> & _). split.
    + intros [Hj Hbj]. rewrite Hb in Hbj by lia. case_decide; [right; lia|by left].
    + intros [[Hj Hbj]|[-> Hj]]; (split; [lia|]); rewrite Hb by lia; by case_decide.
  - exists fa. split; [done|]. split; [done|]. intros j. split; [auto|]. intros [?|[-> ?]]; [done|lia].
Qed.

(** ** Histories: no frame is handed out twice *)
Inductive op := OpAlloc | OpContiguous (pages : Z) | OpFree (frame : Z).

(** The allocator together with the frames its clients own.  Clients free only frames they
    own. *)
Record history := mkHist { alloc_st : FrameAllocator; owned : list Z }.

Inductive history_step : history → history → Prop :=
| step_alloc fa fa' p own :
    fa_alloc_frame fa = Ret (Some p, fa') →
    history_step (mkHist fa own) (mkHist fa' (p / 4096 :: own))
| step_alloc_none fa fa' own :
    fa_alloc_frame fa = Ret (None, fa') →
    history_step (mkHist fa own) (mkHist fa' own)
| step_contiguous fa fa' p pages own :
    0 < pages < U64 →
    fa_alloc_contiguous fa pages = Ret (Some p, fa') →
    history_step (mkHist fa own) (mkHist fa' (seqZ (p / 4096) pages ++ own))
| step_contiguous_none fa fa' pages own :
    0 < pages < U64 →
    fa_alloc_contiguous fa pages = Ret (None, fa') →
    history_step (mkHist fa own) (mkHist fa' own)
| step_free fa fa' i own1 own2 :
    fa_free_frame fa (i * 4096) = Ret fa' →
    history_step (mkHist fa (own1 ++ i :: own2)) (mkHist fa' (own1 ++ own2)).

Definition history_inv (h : history) : Prop :=
  wf (alloc_st h) ∧ NoDup (owned h) ∧
  (∀ i, i ∈ owned h → 0 ≤ i < frame_count (alloc_st h) ∧ ¬ free (alloc_st h) i).

Lemma free_in_range fa j : free fa j → 0 ≤ j.
Proof. intros [? _]. lia. Qed.

Lemma frame_count_preserved fa fa' :
  (∀ r, fa_alloc_frame fa = Ret (r, fa') → frame_count fa' = frame_count fa) ∧
  (∀ p, fa_free_frame fa p = Ret fa' → frame_count fa' = frame_count fa).
Proof.
  assert (∀ fa idx fa', set_bit fa idx = Ret fa' → frame_count fa' = frame_count fa) as Hset.
  { intros a idx a' (w & _ & (bm & _ & [= <-])%bind_ret_inv)%bind_ret_inv. done. }
  assert (∀ fa idx fa', clear_bit fa idx = Ret fa' → frame_count fa' = frame_count fa) as Hclr.
  { intros a idx a' (w & _ & (bm & _ & [= <-])%bind_ret_inv)%bind_ret_inv. done. }
  split.
  - intros r ([i|] & _ & H)%bind_ret_inv; [|by simplify_eq].
    apply bind_ret_inv in H as (x & Hx & [= _ <-]). by eapply Hset.
  - intros p. unfold fa_free_frame. case_decide; [apply Hclr|by intros [= <-]].
Qed.

Lemma iter_set_count n lo fa fa' :
  iter_from n lo (λ bit fa, set_bit fa bit) fa = Ret fa' → frame_count fa' = frame_count fa.
Proof.
  revert lo fa. induction n as [|n IH]; intros lo fa; simpl; [by intros [= <-]|].
  intros (x & (w & _ & (bm & _ & [= <-])%bind_ret_inv)%bind_ret_inv & Hx)%bind_ret_inv.
  by apply IH in Hx.
Qed.

Lemma contiguous_count fa pages r fa' :
  fa_alloc_contiguous fa pages = Ret (r, fa') → frame_count fa' = frame_count fa.
Proof.
  unfold fa_alloc_contiguous. case_decide; [by intros [= _ <-]|]. intros Hl.
  apply (loop_inv (λ _, True) _ (λ res, frame_count res.2 = frame_count fa)) in Hl; [done| |done].
  intros idx res _. unfold contiguous_body. case_decide; [|by intros [= <-]].
  intros ([i|] & _ & Hres)%bind_ret_inv; [by simplify_eq|].
  apply bind_ret_inv in Hres as (x & Hx & [= <-]). by apply iter_set_count in Hx.
Qed.

Lemma history_step_inv h h' : history_step h h' → history_inv h → history_inv h'.
Proof.
  destruct 1 as [fa fa' p own Hop|fa fa' own Hop|fa fa' p pages own Hpg Hop
    |fa fa' pages own Hpg Hop|fa fa' i own1 own2 Hop]; intros (Hwf & Hnd & Hown); simpl in *.
  - destruct (fa_alloc_frame_spec fa Hwf) as (r & fa'' & Hr & Hwf' & Hspec).
    rewrite Hop in Hr. injection Hr as <- <-. destruct Hspec as (idx & -> & Hfree & _ & Hch).
    rewrite Z.div_mul by lia. pose proof (proj1 (frame_count_preserved fa fa') _ Hop) as Hc.
    split_and!; [done| |]; simpl.
    + constructor; [|done]. intros Hin. by apply Hown in Hin as [_ []].
    + intros i Hi. rewrite Hc, Hch. apply elem_of_cons in Hi as [->|Hi].
      * split; [by destruct Hfree|]. by intros [_ ?].
      * destruct (Hown i Hi). split; [done|]. by intros [? _].
  - destruct (fa_alloc_frame_spec fa Hwf) as (r & fa'' & Hr & Hwf' & Hspec).
    rewrite Hop in Hr. injection Hr as <- <-. destruct Hspec as [-> _]. by split_and!.
  - destruct (fa_alloc_contiguous_spec fa pages Hwf Hpg) as (r & fa'' & Hr & Hwf' & Hspec).
    rewrite Hop in Hr. injection Hr as <- <-.
    destruct Hspec as (idx & -> & Hidx & Hrun & _ & Hch).
    rewrite Z.div_mul by lia. pose proof (contiguous_count _ _ _ _ Hop) as Hc.
    split_and!; [done| |]; simpl.
    + apply NoDup_app. split_and!; [apply NoDup_seqZ| |done].
      intros i Hi%elem_of_seqZ Hin. apply Hown in Hin as [_ []]. by apply Hrun.
    + intros i Hi. rewrite Hc, Hch. apply elem_of_app in Hi as [Hi%elem_of_seqZ|Hi].
      * split; [by destruct (Hrun i)|]. by intros [_ ?].
      * destruct (Hown i Hi). split; [done|]. by intros [? _].
  - destruct (fa_alloc_contiguous_spec fa pages Hwf Hpg) as (r & fa'' & Hr & Hwf' & Hspec).
    rewrite Hop in Hr. injection Hr as <- <-. destruct Hspec as [-> _]. by split_and!.
  - assert (0 ≤ i < frame_count fa) as Hi by (apply Hown; set_solver).
    destruct (free_frame_spec fa (i * 4096) Hwf ltac:(lia)) as (fa'' & Hr & Hwf' & Hch).
    rewrite Hop in Hr. injection Hr as <-. rewrite Z.div_mul in Hch by lia.
    pose proof (proj2 (frame_count_preserved fa fa') _ Hop) as Hc.
    apply NoDup_app in Hnd as (Hn1 & Hdis & [Hni Hn2]%NoDup_cons).
    split_and!; [done| |]; simpl.
    + apply NoDup_app. split_and!; [done| |done]. intros j ? ?. apply (Hdis j); set_solver.
    + intros j Hj. rewrite Hc, Hch. destruct (Hown j ltac:(set_solver)) as [? Hnf].
      split; [done|]. intros [?|[-> _]]; [done|]. apply elem_of_app in Hj as [Hj|Hj]; [|done].
      apply (Hdis i Hj). set_solver.
Qed.

Lemma history_steps_inv h h' : rtc history_step h h' → history_inv h → history_inv h'.
Proof. induction 1; eauto using history_step_inv. Qed.

Definition demo_fa : FrameAllocator := mkFA 70 0x1000 [U64_MAX - 6; U64_MAX].

Lemma demo_fa_wf : wf demo_fa.
Proof. repeat split; repeat constructor; done. Qed.

(** [alloc_frame] is a lowest-first allocator over the set of free frames: it returns the
    physical address of the lowest free frame and takes exactly that frame out of the free
    set, or, when no frame is free, returns [None] and changes nothing.  It never panics and
    leaves the lock released. *)
Theorem alloc_frame_lowest (fa : FrameAllocator) :
  wf fa →
  ∃ r fa', alloc_frame (mkLock false (Some fa)) = Ret (r, mkLock false (Some fa')) ∧ wf fa' ∧
    match r with
    | Some p => ∃ idx, p = idx * 4096 ∧ free fa idx ∧ (∀ j, free fa j → idx ≤ j) ∧
        ∀ j, free fa' j ↔ free fa j ∧ j ≠ idx
    | None => fa' = fa ∧ ∀ j, ¬ free fa j
    end.
Proof.
  intros Hwf. destruct (fa_alloc_frame_spec fa Hwf) as (r & fa' & Ha & Hwf' & Hspec).
  exists r, fa'. split; [|done]. apply with_lock_ret; [done|]. simpl. by rewrite Ha.
Qed.

Lemma alloc_frame_lowest_witness :
  ∃ r fa', alloc_frame (mkLock false (Some demo_fa)) = Ret (r, mkLock false (Some fa')) ∧
    r = Some 0x1000 ∧ wf fa'.
Proof.
  destruct (alloc_frame_lowest demo_fa demo_fa_wf) as (r & fa' & Ha & Hwf & _).
  exists r, fa'. split; [exact Ha|]. split; [|exact Hwf].
  vm_compute in Ha. congruence.
Defined.

(** [alloc_contiguous] is first-fit: it returns the start of the first run of [pages]
    free frames and takes exactly that run out of the free set; it returns [None], changing
    nothing, only when no such run exists.  The search always ends, for every positive
    [pages] a [usize] can hold, never panics and leaves the lock released. *)
Theorem alloc_contiguous_first_fit (fa : FrameAllocator) (pages : Z) :
  wf fa → 0 < pages < U64 →
  ∃ r fa', alloc_contiguous pages (mkLock false (Some fa))
           = Ret (r, mkLock false (Some fa')) ∧ wf fa' ∧
    match r with
    | Some p => ∃ idx, p = idx * 4096 ∧ 0 ≤ idx ∧ run_free fa idx pages ∧
        (∀ i, 0 ≤ i < idx → ¬ run_free fa i pages) ∧
        ∀ j, free fa' j ↔ free fa j ∧ ¬ (idx ≤ j < idx + pages)
    | None => fa' = fa ∧ ∀ i, 0 ≤ i → ¬ run_free fa i pages
    end.
Proof.
  intros Hwf Hp. destruct (fa_alloc_contiguous_spec fa pages Hwf Hp)
    as (r & fa' & Ha & Hwf' & Hspec).
  exists r, fa'. split; [|done]. apply with_lock_ret; [done|]. simpl. by rewrite Ha.
Qed.

Lemma alloc_contiguous_first_fit_witness :
  ∃ r fa', alloc_contiguous 2 (mkLock false (Some demo_fa))
           = Ret (r, mkLock false (Some fa')) ∧ r = Some 0x1000 ∧ wf fa'.
Proof.
  destruct (alloc_contiguous_first_fit demo_fa 2 demo_fa_wf ltac:(lia))
    as (r & fa' & Ha & Hwf & _).
  exists r, fa'. split; [exact Ha|]. split; [|exact Hwf].
  vm_compute in Ha. congruence.
Defined.

(** C33. No frame is ever owned twice: starting from a well-formed allocator with no owner,
    after any sequence of allocations (single or contiguous) and frees of owned frames, the
    owned frames are pairwise distinct, in range, and none of them is free. *)
Theorem history_no_double_alloc (fa : FrameAllocator) (h : history) :
  wf fa → rtc history_step (mkHist fa []) h →
  NoDup (owned h) ∧ ∀ i, i ∈ owned h → 0 ≤ i < frame_count (alloc_st h) ∧ ¬ free (alloc_st h) i.
Proof.
  intros Hwf Hsteps. cut (history_inv h); [by intros (_ & ? & ?)|].
  assert (history_inv (mkHist fa [])) as Hinv.
  { split_and!; [done|constructor|set_solver]. }
  by eapply history_steps_inv.
Qed.

Lemma history_no_double_alloc_witness :
  ∃ h, rtc history_step (mkHist demo_fa []) h ∧ owned h = [2; 1] ∧ NoDup (owned h).
Proof.
  eexists. assert (rtc history_step (mkHist demo_fa [])
    (mkHist (mkFA 70 0x1000 [U64_MAX; U64_MAX]) [2; 1])) as Hr.
  { eapply rtc_l; [apply (step_alloc _ (mkFA 70 0x1000 [U64_MAX - 4; U64_MAX]) 0x1000);
      vm_compute; reflexivity|].
    eapply rtc_l; [apply (step_alloc _ (mkFA 70 0x1000 [U64_MAX; U64_MAX]) 0x2000);
      vm_compute; reflexivity|]. apply rtc_refl. }
  split; [exact Hr|]. split; [reflexivity|].
  exact (proj1 (history_no_double_alloc demo_fa _ demo_fa_wf Hr)).
Defined.

(** ** Initialization *)

(** Frame [idx] lies in a usable region. *)
Definition usable_frame (map : NormalizedMap) (idx : Z) : Prop :=
  ∃ r, r ∈ map ∧ kind r = UsableRam ∧ start r / 4096 ≤ idx < end_ r / 4096.
#[export] Instance usable_frame_dec map idx : Decision (usable_frame map idx).
Proof.
  destruct (decide (Exists (λ r, kind r = UsableRam ∧
    start r / 4096 ≤ idx < end_ r / 4096) map)) as [H|H].
  - left. apply Exists_exists in H as (r & ? & ? & ?). by exists r.
  - right. intros (r & ? & ? & ?). apply H, Exists_exists. by exists r.
Defined.

(** What [init] needs of the map: [normalize] page-aligns usable regions, and physical
    addresses stay below 2^63. *)
Definition map_ok (map : NormalizedMap) : Prop :=
  Forall (λ r, kind r = UsableRam →
    0 ≤ start r ∧ end_ r < 2 ^ 63 ∧ start r mod 4096 = 0 ∧ end_ r mod 4096 = 0) map.

Lemma max_usable_end_spec map :
  map_ok map →
  0 ≤ max_usable_end map < 2 ^ 63 ∧ max_usable_end map mod 4096 = 0 ∧
  ∀ r, r ∈ map → kind r = UsableRam → end_ r ≤ max_usable_end map.
Proof.
  unfold max_usable_end. intros Hok.
  cut (∀ acc, 0 ≤ acc < 2 ^ 63 → acc mod 4096 = 0 →
    let e := foldl (λ max_end region,
      if decide (kind region = UsableRam ∧ max_end < end_ region) then end_ region
      else max_end) acc map in
    0 ≤ e < 2 ^ 63 ∧ e mod 4096 = 0 ∧ acc ≤ e ∧
    ∀ r, r ∈ map → kind r = UsableRam → end_ r ≤ e).
  { intros Hc. destruct (Hc 0) as (? & ? & _ & ?); [lia|done|]. done. }
  induction Hok as [|r map Hr Hok IH]; intros acc Ha Hm; simpl.
  { split_and!; [lia..|done|lia|set_solver]. }
  case_decide as Hd.
  - destruct Hd as [Hk Hlt]. destruct Hr as (? & ? & ? & ?); [done|].
    destruct (IH (end_ r)) as (? & ? & ? & Hall); [lia|done|]. split_and!; [lia..|done|lia|].
    intros r' [->|Hr']%elem_of_cons Hk'; [lia|by apply Hall].
  - destruct (IH acc) as (? & ? & ? & Hall); [done..|]. split_and!; [lia..|done|lia|].
    intros r' [->|Hr']%elem_of_cons Hk'; [|by apply Hall].
    destruct (decide (acc < end_ r)); [tauto|lia].
Qed.

Lemma bit_replicate n c a words j :
  0 ≤ j < 64 * Z.of_nat words → n = words →
  bit (mkFA c a (replicate n U64_MAX)) j = true.
Proof.
  intros Hj ->. unfold bit. simpl. rewrite lookup_total_replicate_2.
  - change U64_MAX with (Z.ones 64). apply Z.ones_spec_low. apply Z.mod_pos_bound. lia.
  - Z.to_euclidean_division_equations. lia.
Qed.

Lemma mark_free_map fa0 map :
  map_ok map → Forall is_u64 (bitmap fa0) →
  (∀ r, r ∈ map → kind r = UsableRam → end_ r / 4096 ≤ capacity fa0) →
  ∃ fa, for_each_in map (λ region fa,
      if decide (kind region ≠ UsableRam) then Ret fa
      else mark_free (start region) (end_ region) fa) fa0 = Ret fa ∧
    same_shape fa0 fa ∧ Forall is_u64 (bitmap fa) ∧
    ∀ j, 0 ≤ j → bit fa j = if decide (usable_frame map j) then false else bit fa0 j.
Proof.
  intros Hok Hu Hcap. apply returns_eq, (returns_for_each_in (λ dn fa,
    same_shape fa0 fa ∧ Forall is_u64 (bitmap fa) ∧
    ∀ j, 0 ≤ j → bit fa j = if decide (usable_frame dn j) then false else bit fa0 j)
    map _ fa0).
  { split_and!; [done..|]. intros j Hj. rewrite decide_False; [done|].
    intros (r & ? & _). set_solver. }
  intros dn r rest fa Hmap ((Hs1 & Hs2 & Hs3) & Hu' & Hb).
  assert (∀ j, usable_frame (dn ++ [r]) j ↔ usable_frame dn j ∨
    (kind r = UsableRam ∧ start r / 4096 ≤ j < end_ r / 4096)) as Hsnoc.
  { intros j. unfold usable_frame. split.
    - intros (x & [?| ->]%elem_of_snoc & ?); [left; by exists x|by right].
    - intros [(x & ? & ?)|?]; [exists x|exists r]; rewrite elem_of_snoc; auto. }
  case_decide as Hk.
  - simpl. split_and!; [done..|]. intros j Hj. rewrite Hb by done.
    pose proof (Hsnoc j). repeat case_decide; done || tauto.
  - assert (kind r = UsableRam) as Hk' by (by destruct (kind r)). clear Hk.
    assert (r ∈ map) as Hr by (subst map; set_solver).
    pose proof (proj1 (Forall_forall _ _) Hok r Hr Hk') as (? & _). pose proof (Hcap r Hr Hk').
    destruct (range_update clear_bit false clear_bit_spec fa (start r / 4096) (end_ r / 4096))
      as (fa' & Hw & (? & ? & ?) & Hu'' & Hb'); [done|by apply Z.div_pos|unfold capacity in *; lia|].
    unfold mark_free, PAGE_SIZE. rewrite Hw. simpl.
    split_and!; [unfold same_shape; split_and!; congruence|done|].
    intros j Hj. rewrite Hb', Hb by done. pose proof (Hsnoc j). repeat case_decide; done || tauto.
Qed.

Lemma align_up_aligned v : 0 ≤ v < 2 ^ 63 → v mod 4096 = 0 → align_up v PAGE_SIZE = v.
Proof.
  intros Hv Hm. change (2 ^ 63) with 9223372036854775808 in Hv.
  destruct (align_up_page v) as [Hb Hm']; [unfold is_u64; lia|lia|].
  Z.to_euclidean_division_equations. lia.
Qed.

Lemma align_up_below v e : 0 ≤ v ≤ e → e < 2 ^ 63 → e mod 4096 = 0 →
  v ≤ align_up v PAGE_SIZE ≤ e ∧ align_up v PAGE_SIZE / PAGE_SIZE = (v + 4095) / 4096.
Proof.
  intros Hv He Hm. change (2 ^ 63) with 9223372036854775808 in He.
  destruct (align_up_page v) as [Hb Hm']; [unfold is_u64; lia|lia|].
  change (_ / PAGE_SIZE) with (align_up v PAGE_SIZE / 4096).
  Z.to_euclidean_division_equations. lia.
Qed.

(** The bookkeeping after a successful boot allocation of the bitmap. *)
Lemma init_bits map boot cur fc addr :
  map_ok map → fc = max_usable_end map / 4096 →
  0 ≤ BootAlloc.BOOT_START boot → BootAlloc.BOOT_START boot ≤ cur → cur ≤ max_usable_end map →
  ∃ fa, (fa ← for_each_in map (λ region fa,
          if decide (kind region ≠ UsableRam) then Ret fa
          else mark_free (start region) (end_ region) fa)
          (mkFA fc addr (replicate (Z.to_nat ((fc + 63) / 64)) U64_MAX));
        mark_used (BootAlloc.BOOT_START boot) cur fa) = Ret fa ∧
    wf fa ∧ bitmap_addr fa = addr ∧ frame_count fa = fc ∧
    ∀ idx, free fa idx ↔ usable_frame map idx ∧
      ¬ (BootAlloc.BOOT_START boot / 4096 ≤ idx < (cur + 4095) / 4096).
Proof.
  intros Hok Hfc Hs Hsc Hce. destruct (max_usable_end_spec map Hok) as (Hme & Hmm & Hmax).
  change (2 ^ 63) with 9223372036854775808 in *.
  set (fa0 := mkFA fc addr (replicate (Z.to_nat ((fc + 63) / 64)) U64_MAX)).
  assert (0 ≤ fc < 2 ^ 52 ∧ 4096 * fc = max_usable_end map) as [Hfcr Hfc'].
  { change (2 ^ 52) with 4503599627370496. Z.to_euclidean_division_equations. lia. }
  assert (len (bitmap fa0) = (fc + 63) / 64) as Hlen.
  { unfold len, fa0. simpl. rewrite length_replicate. Z.to_euclidean_division_equations. lia. }
  assert (Forall is_u64 (bitmap fa0)) as Hu0 by (apply Forall_replicate; done).
  assert (wf fa0) as Hwf0 by done. pose proof (wf_capacity fa0 Hwf0) as Hcap. simpl in Hcap.
  destruct (mark_free_map fa0 map Hok Hu0) as (fa1 & -> & Hsh1 & Hu1 & Hb1).
  { intros r Hr Hk. specialize (Hmax r Hr Hk). Z.to_euclidean_division_equations. lia. }
  simpl. unfold mark_used.
  destruct (align_up_below cur (max_usable_end map)) as [Hau Hdiv];
    [lia|change (2 ^ 63) with 9223372036854775808; lia|done|]. rewrite Hdiv.
  assert ((cur + 4095) / 4096 ≤ fc) by (Z.to_euclidean_division_equations; lia).
  destruct (range_update set_bit true set_bit_spec fa1 (BootAlloc.BOOT_START boot / PAGE_SIZE)
    ((cur + 4095) / 4096)) as (fa2 & Hfa2 & Hsh2 & Hu2 & Hb2); [done|by apply Z.div_pos| |].
  { destruct Hsh1 as (_ & _ & Hl). unfold capacity in *. lia. }
  exists fa2. rewrite Hfa2. change PAGE_SIZE with 4096 in Hb2.
  assert (frame_count fa2 = fc ∧ bitmap_addr fa2 = addr) as [Hc2 Ha2].
  { destruct Hsh1 as (? & ? & _), Hsh2 as (? & ? & _). simpl in *. split; congruence. }
  split_and!; [done| |done|done|].
  { by apply (wf_same_shape fa1); [apply (wf_same_shape fa0)|..]. }
  intros idx. unfold free. rewrite Hc2. split.
  - intros [Hi Hb]. rewrite Hb2, Hb1 in Hb by lia.
    case_decide; [done|]. case_decide; [done|].
    unfold fa0 in Hb. rewrite (bit_replicate _ _ _ (Z.to_nat ((fc + 63) / 64))) in Hb; [done| |done].
    Z.to_euclidean_division_equations. lia.
  - intros [Hus Hnb]. pose proof Hus as (r & Hr & Hk & Hri). specialize (Hmax r Hr Hk).
    pose proof (proj1 (Forall_forall _ _) Hok r Hr Hk) as (Hst & _).
    assert (0 ≤ idx < fc).
    { split; [|Z.to_euclidean_division_equations; lia].
      pose proof (Z.div_pos (start r) 4096 Hst). lia. }
    split; [done|]. rewrite Hb2, Hb1 by lia. by rewrite decide_False, decide_True.
Qed.

(** The bitmap's size, and the boot region holding it. *)
Definition bitmap_bytes (map : NormalizedMap) : Z := (max_usable_end map / 4096 + 63) / 64 * 8.
Definition bitmap_fits (map : NormalizedMap) (boot : BootAlloc.state) : Prop :=
  let p := align_up (BootAlloc.BOOT_CURRENT boot) 8 in p ≠ 0 ∧ p + bitmap_bytes map ≤ BootAlloc.BOOT_END boot.
Definition has_usable (map : NormalizedMap) : Prop := ∃ r, r ∈ map ∧ kind r = UsableRam ∧ 0 < end_ r.

Lemma max_usable_zero map : map_ok map → max_usable_end map ≠ 0 ↔ has_usable map.
Proof.
  intros Hok. destruct (max_usable_end_spec map Hok) as ([H0 _] & _ & Hmax). split.
  - clear H0 Hmax. unfold max_usable_end.
    cut (∀ acc, let e := foldl (λ max_end region,
      if decide (kind region = UsableRam ∧ max_end < end_ region) then end_ region else max_end) acc map in
      0 ≤ acc → e = acc ∨ has_usable map).
    { intros Hc Hne. by destruct (Hc 0) as [?|]. }
    induction map as [|r map IH]; intros acc e Ha; [by left|]. apply Forall_cons in Hok as [_ Hok].
    assert (has_usable map → has_usable (r :: map)) as Hcons.
    { intros (r' & ? & ?). exists r'. by split; [right|]. }
    subst e. cbn [foldl]. case_decide as Hd; [|destruct (IH Hok acc Ha); auto].
    right. exists r. split; [by left|]. split; [apply Hd|lia].
  - intros (r & Hr & Hk & He). specialize (Hmax r Hr Hk). lia.
Qed.

Lemma boot_alloc_bitmap bytes boot : BootAlloc.wf boot → 0 ≤ bytes < U64 →
  let '(r, boot') := BootAlloc.alloc bytes 8 boot in
  match r with
  | Some p => p = align_up (BootAlloc.BOOT_CURRENT boot) 8 ∧ p ≠ 0 ∧ p + bytes ≤ BootAlloc.BOOT_END boot ∧
      BootAlloc.BOOT_START boot ≤ p < BootAlloc.BOOT_CURRENT boot + 8 ∧ p mod 8 = 0 ∧
      boot' = BootAlloc.mkState (BootAlloc.BOOT_START boot) (p + bytes) (BootAlloc.BOOT_END boot)
  | None => boot' = boot ∧
      ¬ (align_up (BootAlloc.BOOT_CURRENT boot) 8 ≠ 0 ∧
         align_up (BootAlloc.BOOT_CURRENT boot) 8 + bytes ≤ BootAlloc.BOOT_END boot)
  end.
Proof.
  intros Hboot Hb. assert (BootAlloc.request_ok (bytes, 3)) as Hreq by (split; simpl; lia).
  pose proof (BootAlloc.alloc_spec _ _ boot Hboot Hreq) as Ha. change (2 ^ 3) with 8 in Ha.
  pose proof Hboot as (? & ? & Hc & _). change (2 ^ 63) with 9223372036854775808 in Hc.
  pose proof (align_up_eq (BootAlloc.BOOT_CURRENT boot) 3) as Hal. change (2 ^ 3) with 8 in Hal.
  rewrite Hal in * by (unfold is_u64; lia). destruct (BootAlloc.alloc bytes 8 boot) as [[p|] boot'].
  - destruct Ha as (Hm & Hp & Hp0 & Hpe & -> & _). split_and!; try done; try lia.
    Z.to_euclidean_division_equations. lia.
  - destruct Ha as [-> Ha]. split; [done|]. intros [Hne Hle]. destruct Ha as [Hz|Ha]; [|lia].
    apply Hne. rewrite Hz. done.
Qed.

Lemma init_free (map : NormalizedMap) (boot : BootAlloc.state) :
  map_ok map → BootAlloc.wf boot → BootAlloc.BOOT_END boot ≤ max_usable_end map →
  ∃ marks boot' glob', init map boot FRAME_ALLOC_new = Ret (marks, boot', glob') ∧ locked glob' = false ∧
    (data glob' ≠ None ↔ has_usable map ∧ bitmap_fits map boot) ∧
    match data glob' with
    | None => boot' = boot
    | Some fa => wf fa ∧
        boot' = BootAlloc.mkState (BootAlloc.BOOT_START boot)
          (align_up (BootAlloc.BOOT_CURRENT boot) 8 + bitmap_bytes map) (BootAlloc.BOOT_END boot) ∧
        (∀ idx, free fa idx ↔ usable_frame map idx ∧
           ¬ (BootAlloc.BOOT_START boot / 4096 ≤ idx
              < (BootAlloc.BOOT_CURRENT boot' + 4095) / 4096)) ∧
        ∀ a, bitmap_addr fa ≤ a < bitmap_addr fa + 8 * len (bitmap fa) → ¬ free fa (a / 4096)
    end.
Proof.
  intros Hok Hboot Hend. pose proof (max_usable_zero map Hok) as Hus. unfold init.
  case_decide as Hz.
  { exists [], boot, FRAME_ALLOC_new. split_and!; [done..| |done]. cbn [data FRAME_ALLOC_new lock_new].
    split; [done|]. intros [Hu _]. by apply Hus in Hu. }
  destruct (max_usable_end_spec map Hok) as (Hme & Hmm & _).
  rewrite align_up_aligned by done. set (fc := max_usable_end map / PAGE_SIZE).
  change (2 ^ 63) with 9223372036854775808 in *.
  assert (0 ≤ fc ∧ 4096 * fc = max_usable_end map) as [Hfc0 Hfc].
  { unfold fc, PAGE_SIZE. Z.to_euclidean_division_equations. lia. }
  pose proof (boot_alloc_bitmap (bitmap_bytes map) boot Hboot) as Ha.
  change ((fc + 63) / 64 * 8) with (bitmap_bytes map).
  assert (0 ≤ bitmap_bytes map < U64) as Hbr.
  { unfold bitmap_bytes. change (max_usable_end map / 4096) with fc. Z.to_euclidean_division_equations. lia. }
  specialize (Ha Hbr). destruct (BootAlloc.alloc _ 8 boot) as [[p|] boot'].
  2:{ destruct Ha as [-> Ha]. eexists _, boot, FRAME_ALLOC_new. split_and!; [done..| |done].
      cbn [data FRAME_ALLOC_new lock_new]. split; [done|]. by intros [_ ?]. }
  destruct Ha as (Hpe & Hp0 & Hfit & Hp & _ & ->). simpl. pose proof Hboot as (? & ? & ? & ?).
  destruct (init_bits map boot (p + bitmap_bytes map) fc p) as
    (fa & Hfa & Hwf & Hba & Hcnt & Hfree); [done..|lia|lia|lia|].
  apply bind_ret_inv in Hfa as (fa1 & Hfa1 & Hfa). rewrite Hfa1. simpl. rewrite Hfa. simpl.
  eexists _, _, _. split; [done|]. split; [done|]. simpl. split_and!.
  - split; [|done]. intros _. split; [by apply Hus|]. unfold bitmap_fits. by rewrite <-Hpe.
  - done.
  - by rewrite <-Hpe.
  - done.
  - destruct Hwf as (_ & Hl & _). rewrite Hba, Hl, Hcnt. intros a Ha Hf.
    apply Hfree in Hf as [_ []]. unfold bitmap_bytes. change (max_usable_end map / 4096) with fc.
    Z.to_euclidean_division_equations. lia.
Qed.

(** C20. On a normalized map, with a well-formed boot region that ends at or below the end of usable RAM, [init]
    never panics.  It sets the allocator up exactly when there is usable RAM and the boot
    region can hold the bitmap (from the next multiple of 8, which must not be the null address); then it
    takes the bitmap's bytes from the boot region, exactly the usable frames that the boot allocator has
    not consumed are free, and in particular the frames that hold the bitmap are not.  Otherwise
    allocator and boot region stay as they were. *)
Theorem init_free_frames (map : NormalizedMap) (boot : BootAlloc.state) :
  map_ok map → BootAlloc.wf boot → BootAlloc.BOOT_END boot ≤ max_usable_end map →
  ∃ marks boot' glob', init map boot FRAME_ALLOC_new = Ret (marks, boot', glob') ∧ locked glob' = false ∧
    (data glob' ≠ None ↔ has_usable map ∧ bitmap_fits map boot) ∧
    match data glob' with
    | None => boot' = boot
    | Some fa => wf fa ∧
        boot' = BootAlloc.mkState (BootAlloc.BOOT_START boot)
          (align_up (BootAlloc.BOOT_CURRENT boot) 8 + bitmap_bytes map) (BootAlloc.BOOT_END boot) ∧
        (∀ idx, free fa idx ↔ usable_frame map idx ∧
           ¬ (BootAlloc.BOOT_START boot / 4096 ≤ idx
              < (BootAlloc.BOOT_CURRENT boot' + 4095) / 4096)) ∧
        ∀ a, bitmap_addr fa ≤ a < bitmap_addr fa + 8 * len (bitmap fa) → ¬ free fa (a / 4096)
    end.
Proof. apply init_free. Qed.

(** 256 KiB are usable after a kernel of 512 KiB: the bitmap takes 40 bytes, and the frame it lies in is the one
    not free. *)
Lemma init_free_frames_witness :
  let map := [mkRegion 0x80000 0x100000 KernelImage; mkRegion 0x100000 0x140000 UsableRam] in
  ∃ marks boot' fa, init map (BootAlloc.init 0x100000 0x140000 BootAlloc.boot_zero) FRAME_ALLOC_new
    = Ret (marks, boot', lock_new (Some fa)) ∧ BootAlloc.BOOT_CURRENT boot' = 0x100028 ∧
    ∀ idx, free fa idx ↔ 0x101 ≤ idx < 0x140.
Proof.
  intros map.
  destruct (init_free_frames map (BootAlloc.init 0x100000 0x140000 BootAlloc.boot_zero))
    as (marks & boot' & [l [fa|]] & Hi & Hl & Hs & Hfa).
  - repeat constructor; simpl; (done || lia).
  - vm_compute. intuition discriminate.
  - vm_compute. discriminate.
  - destruct Hfa as (_ & Hb & Hf & _). cbn [locked] in Hl. subst l. exists marks, boot', fa.
    split; [exact Hi|]. rewrite Hb in *. split; [reflexivity|]. intros idx. rewrite Hf.
    change (BootAlloc.BOOT_START _ / 4096) with 0x100. change ((_ + 4095) / 4096) with 0x101.
    split.
    + intros [(r & Hr & Hk & Hin) Hout]. unfold map in Hr. apply elem_of_cons in Hr as [->|Hr]; [done|].
      apply list_elem_of_singleton in Hr as ->. change (0x100000 / 4096) with 0x100 in Hin.
      change (0x140000 / 4096) with 0x140 in Hin. cbn [start end_] in Hin.
      change (0x100000 / 4096) with 0x100 in Hin. change (0x140000 / 4096) with 0x140 in Hin. lia.
    + intros Hin. split; [|lia]. exists (mkRegion 0x100000 0x140000 UsableRam).
      split; [right; by left|]. split; [done|]. cbn [start end_]. change (0x100000 / 4096) with 0x100.
      change (0x140000 / 4096) with 0x140. lia.
  - exfalso. apply (proj2 Hs); [|done]. split.
    + exists (mkRegion 0x100000 0x140000 UsableRam). split; [right; by left|]. split; [done|]. simpl. lia.
    + vm_compute. intuition discriminate.
Defined.

(** ** The interface the rest of the kernel allocates frames through *)
Class PageSource (S : Type) := {
  ps_wf : S → Prop;
  ps_free : S → Z → Prop;
  ps_alloc : Z → S → outcome (option Z * S);
  ps_alloc_ok : ∀ s pages, ps_wf s → 0 < pages < U64 →
    ∃ r s', ps_alloc pages s = Ret (r, s') ∧ ps_wf s' ∧
      match r with
      | Some p => p mod 4096 = 0 ∧ 0 ≤ p < 2 ^ 64 ∧
          (∀ j, p / 4096 ≤ j < p / 4096 + pages → ps_free s j ∧ ¬ ps_free s' j) ∧
          ∀ j, ps_free s' j → ps_free s j
      | None => (∀ j, ps_free s' j ↔ ps_free s j) ∧
          ∀ i, 0 ≤ i → ¬ ∀ j, i ≤ j < i + pages → ps_free s j
      end
}.

(** The global frame allocator, while its lock is free, is such a source. *)
Definition glob_free (g : SpinLock (option FrameAllocator)) (j : Z) : Prop :=
  match data g with Some fa => free fa j | None => False end.
Definition glob_wf (g : SpinLock (option FrameAllocator)) : Prop :=
  locked g = false ∧ match data g with Some fa => wf fa | None => True end.

#[export] Program Instance frame_page_source : PageSource (SpinLock (option FrameAllocator)) := {|
  ps_wf := glob_wf; ps_free := glob_free; ps_alloc := alloc_contiguous
|}.
Next Obligation.
  intros [l [fa|]] pages [Hl Hwf] Hp; simpl in *; subst l.
  - destruct (fa_alloc_contiguous_spec fa pages Hwf Hp) as (r & fa' & Hr & Hwf' & Hspec).
    exists r, (mkLock false (Some fa')). split.
    { apply with_lock_ret; [done|]. simpl. by rewrite Hr. }
    split; [done|]. unfold glob_free. simpl. destruct r as [p|].
    + destruct Hspec as (idx & -> & Hidx & Hrun & _ & Hch). rewrite Z.div_mul by lia.
      destruct (Hrun idx) as [Hb _]; [lia|]. destruct Hwf as ((? & ?) & _).
      change (2 ^ 52) with 4503599627370496 in *. change (2 ^ 64) with U64.
      split_and!; [by apply Z.mod_mul|lia|lia| |].
      * intros j Hj. split; [by apply Hrun|]. rewrite Hch. by intros [_ ?].
      * intros j Hj. by apply Hch in Hj as [? _].
    + destruct Hspec as [-> Hno]. split; [done|]. intros i Hi Hrun. exact (Hno i Hi Hrun).
  - exists None, (mkLock false None). split_and!; [done..|]. intros i _ Hrun. apply (Hrun i). lia.
Qed.
