(* ===== verification/Mmu.v ===== *)
(** * MMU system registers

    [src/arch/aarch64/mmu.rs]: the values written to MAIR, TCR, TTBR0/1 and SCTLR.  A
    [regs] record stands for the registers; barriers and TLB maintenance have no effect on
    it. *)
From S2P Require Import Prelude Bits.
Local Open Scope Z_scope.

Record regs := mkRegs { mair_el1 : Z; tcr_el1 : Z; ttbr0_el1 : Z; ttbr1_el1 : Z; sctlr_el1 : Z }.

Definition IPS : Z := 2.
Definition VADDR_BITS : Z := 48.

Definition mair_value : Z := Z.lor 0x00 (Z.shiftl 0xFF 8).

Definition tcr_value : Z :=
  let t0sz := 64 - VADDR_BITS in
  let t1sz := 64 - VADDR_BITS in
  Z.lor (Z.lor (Z.lor (Z.lor (Z.lor (Z.lor (Z.lor (Z.lor (Z.lor (Z.lor
    t0sz
    (Z.shiftl t1sz 16))
    (Z.shiftl 1 8))
    (Z.shiftl 1 10))
    (Z.shiftl 3 12))
    (Z.shiftl 0 14))
    (Z.shiftl 1 24))
    (Z.shiftl 1 26))
    (Z.shiftl 3 28))
    (Z.shiftl 2 30))
    (Z.shiftl IPS 32).

Definition enable_mmu (ttbr0_pa ttbr1_pa : Z) (r : regs) : regs :=
  mkRegs mair_value tcr_value ttbr0_pa ttbr1_pa (Z.lor (sctlr_el1 r) (Z.shiftl 1 0)).

Definition set_ttbr0 (ttbr0_pa : Z) (r : regs) : regs :=
  mkRegs (mair_el1 r) (tcr_el1 r) ttbr0_pa (ttbr1_el1 r) (sctlr_el1 r).

Definition set_ttbr1 (ttbr1_pa : Z) (r : regs) : regs :=
  mkRegs (mair_el1 r) (tcr_el1 r) (ttbr0_el1 r) ttbr1_pa (sctlr_el1 r).

Definition enable_caches (r : regs) : regs :=
  mkRegs (mair_el1 r) (tcr_el1 r) (ttbr0_el1 r) (ttbr1_el1 r)
    (Z.lor (Z.lor (sctlr_el1 r) (Z.shiftl 1 2)) (Z.shiftl 1 12)).

(** Fields of TCR_EL1 as the architecture reads them. *)
Definition field (x lo width : Z) : Z := Z.land (Z.shiftr x lo) (Z.ones width).

(** The translation regime the kernel relies on: 48-bit virtual addresses in both halves
    (T0SZ = T1SZ = 16), 4 KiB granules (TG0 = 0, TG1 = 2), 40-bit physical addresses, and
    MAIR attribute 0 = Device-nGnRnE, attribute 1 = Normal write-back. *)
Lemma tcr_fields :
  field tcr_value 0 6 = 16 ∧ field tcr_value 16 6 = 16 ∧
  field tcr_value 14 2 = 0 ∧ field tcr_value 30 2 = 2 ∧ field tcr_value 32 3 = 2 ∧
  field mair_value 0 8 = 0x00 ∧ field mair_value 8 8 = 0xFF.
Proof. vm_compute. intuition. Qed.
