(* ===== verification/Paging.v ===== *)
(** * Page tables

    [src/mm/paging.rs]: the two address spaces the kernel builds at boot (TTBR1: the
    higher-half map, TTBR0: the identity map), with 2 MiB blocks.

    The level-1 table and the pool of level-2 tables of one address space are a [tables]
    record; a pool table is also reachable through its physical address, as in the code,
    which masks the descriptor and dereferences [phys_to_virt pa].  The addresses the linker
    gives the static tables are parameters. *)
From S2P Require Import Prelude Bits Layout Region Mmu.
From Stdlib Require Import Btauto.
Local Open Scope Z_scope.

Definition L2_TABLES : Z := 1024.
Definition BLOCK_SIZE : Z := 0x200000.
Definition KERNEL_L0_INDEX : Z := Z.land (Z.shiftr KERNEL_VIRT_BASE 39) 0x1ff.
Definition RP1_BASE : Z := 0x1c00000000.
Definition RP1_SIZE : Z := 0x40000000.

Abbreviation PageTable := (list Z).
Definition PageTable_new : PageTable := replicate 512 0.
Definition PageTable_zero (t : PageTable) : PageTable := (λ _, 0) <$> t.

Definition DESC_BLOCK : Z := 1.
Definition DESC_TABLE : Z := 3.
Definition AF_BIT : Z := Z.shiftl 1 10.
Definition UXN_BIT : Z := Z.shiftl 1 54.
Definition PXN_BIT : Z := Z.shiftl 1 53.
Definition ATTR_DEVICE : Z := 0.
Definition ATTR_NORMAL : Z := 1.
Definition AP_EL1_RW : Z := 0.
Definition AP_EL0_RW : Z := 1.
Definition SH_NONE : Z := 0.
Definition SH_INNER : Z := 3.

Definition table_desc (pa : Z) : Z := Z.lor (Z.land pa 0x0000FFFFFFFFF000) DESC_TABLE.

Definition block_desc (pa attr ap sh : Z) (xn : bool) : Z :=
  let desc := DESC_BLOCK in
  let desc := Z.lor desc (Z.shiftl (Z.land attr 0x7) 2) in
  let desc := Z.lor desc (Z.shiftl (Z.land ap 0x3) 6) in
  let desc := Z.lor desc (Z.shiftl (Z.land sh 0x3) 8) in
  let desc := Z.lor desc AF_BIT in
  let desc := Z.lor desc (Z.land pa 0x0000FFFFFFE00000) in
  if xn then Z.lor desc (Z.lor UXN_BIT PXN_BIT) else desc.

(** One address space: [K_L1, K_L2_POOL, K_NEXT_L2] or [U_L1, U_L2_POOL, U_NEXT_L2]. *)
Record tables := mkTables { l1 : PageTable; l2_pool : list PageTable; next_l2 : Z }.

(** Dereferencing a pointer that the descriptors claim to be a pool table, for a pool placed at
    [pool_va]: the index of the table.  Any other pointer would be undefined behaviour; the
    model panics there, and no theorem below allows that. *)
Definition pool_index (pool_va va : Z) : outcome Z :=
  let off := va - pool_va in
  if decide (0 ≤ off < L2_TABLES * PAGE_SIZE ∧ off mod PAGE_SIZE = 0)
  then Ret (off / PAGE_SIZE) else Panic.

(** The index in the pool of the level-2 table for [l1_idx], allocating it if needed. *)
Definition get_l2_table_with (pool_va : Z) (ts : tables) (l1_idx : Z) : outcome (Z * tables) :=
  e ← aget (l1 ts) l1_idx;
  if decide (Z.land e 3 = DESC_TABLE) then
    let pa := Z.land e 0x0000FFFFFFFFF000 in
    let va := phys_to_virt pa in
    i ← pool_index pool_va va;
    Ret (i, ts)
  else
    let idx := next_l2 ts in
    if decide (L2_TABLES ≤ idx) then Halt
    else
      table ← aget (l2_pool ts) idx;
      pool ← aset (l2_pool ts) idx (PageTable_zero table);
      let pa := virt_to_phys (pool_va + idx * PAGE_SIZE) in
      l1' ← aset (l1 ts) l1_idx (table_desc pa);
      Ret (idx, mkTables l1' pool (idx + 1)).

Definition map_block_with (pool_va : Z) (ts : tables) (vaddr paddr attr ap sh : Z) (xn : bool) :
    outcome tables :=
  let l1_idx := Z.land (Z.shiftr vaddr 30) 0x1ff in
  let l2_idx := Z.land (Z.shiftr vaddr 21) 0x1ff in
  r ← get_l2_table_with pool_va ts l1_idx;
  let '(i, ts) := r in
  l2 ← aget (l2_pool ts) i;
  l2 ← aset l2 l2_idx (block_desc paddr attr ap sh xn);
  pool ← aset (l2_pool ts) i l2;
  Ret (mkTables (l1 ts) pool (next_l2 ts)).

Definition map_range_body (pool_va attr ap sh : Z) (xn : bool) (end_ : Z)
    (s : Z * Z * tables) : outcome (Z * Z * tables + tables) :=
  let '(vaddr, paddr, ts) := s in
  if decide (vaddr < end_) then
    ts ← map_block_with pool_va ts vaddr paddr attr ap sh xn;
    Ret (inl (add64 vaddr BLOCK_SIZE, add64 paddr BLOCK_SIZE, ts))
  else Ret (inr ts).

Definition map_range_with (pool_va : Z) (ts : tables) (vstart pstart size attr ap sh : Z)
    (xn : bool) : outcome tables :=
  if decide (size = 0) then Ret ts
  else
    let vaddr := align_down vstart BLOCK_SIZE in
    let paddr := align_down pstart BLOCK_SIZE in
    let end_ := align_up (add64 vstart size) BLOCK_SIZE in
    loop (Z.to_nat ((end_ - vaddr) / BLOCK_SIZE) + 1)
      (map_range_body pool_va attr ap sh xn end_) (vaddr, paddr, ts).

(** The statics of the module. *)
Record state := mkState {
  K_L0 : PageTable; K : tables;
  U_L0 : PageTable; U : tables;
  KERNEL_ROOT_PA : Z; USER_ROOT_PA : Z;
  EXTRA_MMIO_BASE : Z; EXTRA_MMIO_SIZE : Z
}.

(** Where the linker put the static tables. *)
Record addresses := mkAddresses {
  K_L0_va : Z; K_L1_va : Z; K_POOL_va : Z;
  U_L0_va : Z; U_L1_va : Z; U_POOL_va : Z
}.

Definition state_new : state :=
  let ts := mkTables PageTable_new (replicate 1024 PageTable_new) 0 in
  mkState PageTable_new ts PageTable_new ts 0 0 0 0.

Definition set_extra_mmio (base size : Z) (s : state) : state :=
  mkState (K_L0 s) (K s) (U_L0 s) (U s) (KERNEL_ROOT_PA s) (USER_ROOT_PA s) base size.

Definition user_root_pa (s : state) : Z := USER_ROOT_PA s.
Definition kernel_root_pa (s : state) : Z := KERNEL_ROOT_PA s.

Definition with_K (s : state) (ts : tables) : state :=
  mkState (K_L0 s) ts (U_L0 s) (U s) (KERNEL_ROOT_PA s) (USER_ROOT_PA s)
    (EXTRA_MMIO_BASE s) (EXTRA_MMIO_SIZE s).
Definition with_U (s : state) (ts : tables) : state :=
  mkState (K_L0 s) (K s) (U_L0 s) ts (KERNEL_ROOT_PA s) (USER_ROOT_PA s)
    (EXTRA_MMIO_BASE s) (EXTRA_MMIO_SIZE s).

Section operations.
Context (a : addresses).

(** [map_range_with(&mut K_L1, &mut K_L2_POOL, &mut K_NEXT_L2, ..)] and the same for [U]. *)
Definition map_K (s : state) (vstart pstart size attr ap sh : Z) (xn : bool) : outcome state :=
  ts ← map_range_with (K_POOL_va a) (K s) vstart pstart size attr ap sh xn;
  Ret (with_K s ts).
Definition map_U (s : state) (vstart pstart size attr ap sh : Z) (xn : bool) : outcome state :=
  ts ← map_range_with (U_POOL_va a) (U s) vstart pstart size attr ap sh xn;
  Ret (with_U s ts).

(** The identity and higher-half mapping of one window, as [map_mmio] does for each. *)
Definition map_window (s : state) (base size attr sh : Z) : outcome state :=
  s ← map_U s base base size attr AP_EL1_RW sh true;
  map_K s (add64 KERNEL_VIRT_BASE base) base size attr AP_EL1_RW sh true.

Definition map_mmio (b : board) (s : state) : outcome state :=
  s ← match b with
      | Qemu =>
          s ← map_window s PERIPHERAL_BASE PERIPHERAL_SIZE ATTR_DEVICE SH_NONE;
          s ← map_window s 0x40000000 0x00200000 ATTR_DEVICE SH_NONE;
          map_window s 0x3c000000 0x04000000 ATTR_NORMAL SH_INNER
      | Rpi5 =>
          s ← map_window s SOC_BASE SOC_MMIO_SIZE ATTR_DEVICE SH_NONE;
          map_window s RP1_BASE RP1_SIZE ATTR_DEVICE SH_NONE
      end;
  if decide (EXTRA_MMIO_SIZE s ≠ 0) then
    map_window s (EXTRA_MMIO_BASE s) (EXTRA_MMIO_SIZE s) ATTR_DEVICE SH_NONE
  else Ret s.

(** The end of a region as the loop of [init] caps it. *)
Definition capped_end (b : board) (region : PhysRegion) : Z :=
  match b with
  | Rpi5 =>
      if decide (kind region = UsableRam) then
        let cap := sat_add64 (start region) 0x40000000 in
        if decide (cap < end_ region) then cap else end_ region
      else end_ region
  | Qemu => end_ region
  end.

(** One iteration of the loop of [init] over the regions. *)
Definition map_region (b : board) (region : PhysRegion) (s : state) : outcome state :=
  if decide (kind region = Mmio) then Ret s
  else
    let size := sat_sub64 (capped_end b region) (start region) in
    if decide (size = 0) then Ret s
    else
      s ← map_K s (add64 KERNEL_VIRT_BASE (start region)) (start region) size
            ATTR_NORMAL AP_EL1_RW SH_INNER false;
      map_U s (start region) (start region) size ATTR_NORMAL AP_EL0_RW SH_INNER false.

(** [init], up to turning the MMU on. *)
Definition build (b : board) (map : NormalizedMap) (s : state) : outcome state :=
  kl0 ← aset (PageTable_zero (K_L0 s)) KERNEL_L0_INDEX (table_desc (virt_to_phys (K_L1_va a)));
  ul0 ← aset (PageTable_zero (U_L0 s)) 0 (table_desc (virt_to_phys (U_L1_va a)));
  let s := mkState
    kl0 (mkTables (PageTable_zero (l1 (K s))) (l2_pool (K s)) 0)
    ul0 (mkTables (PageTable_zero (l1 (U s))) (l2_pool (U s)) 0)
    (KERNEL_ROOT_PA s) (USER_ROOT_PA s) (EXTRA_MMIO_BASE s) (EXTRA_MMIO_SIZE s) in
  s ← for_each_in map (map_region b) s;
  s ← map_mmio b s;
  Ret (mkState (K_L0 s) (K s) (U_L0 s) (U s)
    (virt_to_phys (K_L0_va a)) (virt_to_phys (U_L0_va a))
    (EXTRA_MMIO_BASE s) (EXTRA_MMIO_SIZE s)).

Definition init (b : board) (map : NormalizedMap) (s : state) (r : regs) :
    outcome (state * regs) :=
  s ← build b map s;
  Ret (s, enable_mmu (USER_ROOT_PA s) (KERNEL_ROOT_PA s) r).

(** ** The hardware's view: a table walk *)

(** The table at a physical address. *)
Definition table_at (s : state) (pa : Z) : option PageTable :=
  if decide (pa = virt_to_phys (K_L0_va a)) then Some (K_L0 s)
  else if decide (pa = virt_to_phys (K_L1_va a)) then Some (l1 (K s))
  else if decide (pa = virt_to_phys (U_L0_va a)) then Some (U_L0 s)
  else if decide (pa = virt_to_phys (U_L1_va a)) then Some (l1 (U s))
  else match pool_index (K_POOL_va a) (phys_to_virt pa) with
       | Ret i => l2_pool (K s) !! Z.to_nat i
       | _ => match pool_index (U_POOL_va a) (phys_to_virt pa) with
              | Ret i => l2_pool (U s) !! Z.to_nat i
              | _ => None
              end
       end.

(** Descriptor [i] of the table at [pa]. *)
Definition read_desc (s : state) (pa i : Z) : option Z :=
  t ← table_at s pa; t !! Z.to_nat i.

(** Follow a table descriptor. *)
Definition next_table (d : Z) : option Z :=
  if decide (Z.land d 3 = DESC_TABLE) then Some (Z.land d 0x0000FFFFFFFFF000) else None.

(** Stage-1 walk of a 48-bit virtual address with a 4 KiB granule down to a level-2 block:
    the physical address and the block descriptor. *)
Definition walk (s : state) (r : regs) (va : Z) : option (Z * Z) :=
  root ← (if decide (va < 2 ^ 48) then Some (ttbr0_el1 r)
          else if decide (2 ^ 64 - 2 ^ 48 ≤ va) then Some (ttbr1_el1 r) else None);
  d0 ← read_desc s root (Z.land (Z.shiftr va 39) 0x1ff);
  t1 ← next_table d0;
  d1 ← read_desc s t1 (Z.land (Z.shiftr va 30) 0x1ff);
  t2 ← next_table d1;
  d2 ← read_desc s t2 (Z.land (Z.shiftr va 21) 0x1ff);
  if decide (Z.land d2 3 = DESC_BLOCK)
  then Some (Z.lor (Z.land d2 0x0000FFFFFFE00000) (Z.land va 0x1fffff), d2)
  else None.
End operations.

Definition demo_addresses : addresses :=
  mkAddresses 0xFFFF800000200000 0xFFFF800000201000 0xFFFF800000400000
              0xFFFF800000202000 0xFFFF800000203000 0xFFFF800000800000.

Example walk_example :
  (r ← init demo_addresses Qemu [mkRegion 0x100000 0x3c000000 UsableRam] state_new
         (mkRegs 0 0 0 0 0);
   Ret (fst <$> walk demo_addresses r.1 r.2 0xFFFF800001234567,
        fst <$> walk demo_addresses r.1 r.2 0x1234567,
        fst <$> walk demo_addresses r.1 r.2 0x50000000))
  = Ret (Some 0x1234567, Some 0x1234567, None).
Proof. vm_compute. reflexivity. Qed.

(** ** Descriptors *)
Lemma table_desc_decode pa : 0 ≤ pa < 2 ^ 48 → pa mod 4096 = 0 →
  Z.land (table_desc pa) 3 = DESC_TABLE ∧ Z.land (table_desc pa) 0x0000FFFFFFFFF000 = pa.
Proof.
  intros Hp Hm. change 0x0000FFFFFFFFF000 with (bit_range 12 48). unfold table_desc, DESC_TABLE.
  assert (within 12 48 pa) as Hw by (apply within_aligned; (lia || done)).
  change 0x0000FFFFFFFFF000 with (bit_range 12 48).
  rewrite (land_bit_range_within 12 48 pa) by (done || lia). rewrite !Z.land_lor_distr_l. split.
  - change 3 with (bit_range 0 2) at 1. rewrite (land_bit_range_outside 0 2 12 48) by (done || lia).
    done.
  - rewrite (land_bit_range_within 12 48 pa) by (done || lia).
    change (Z.land 3 (bit_range 12 48)) with 0. by rewrite Z.lor_0_r.
Qed.

(** What the hardware reads from a block descriptor. *)
Record block_attrs := mkAttrs {
  d_block : bool; d_attr : Z; d_ap : Z; d_sh : Z; d_af : bool; d_pa : Z; d_pxn : bool; d_uxn : bool
}.

Definition decode_block (d : Z) : block_attrs :=
  mkAttrs (Z.land d 3 =? DESC_BLOCK) (field d 2 3) (field d 6 2) (field d 8 2)
    (Z.testbit d 10) (Z.land d 0x0000FFFFFFE00000) (Z.testbit d 53) (Z.testbit d 54).

Section block_bits.
Context (pa attr ap sh : Z) (xn : bool).
Context (Hpa : 0 ≤ pa < 2 ^ 48) (Hal : pa mod BLOCK_SIZE = 0).

Lemma block_desc_eq : block_desc pa attr ap sh xn =
  Z.lor pa (block_desc 0 attr ap sh xn).
Proof.
  unfold block_desc. change 0x0000FFFFFFE00000 with (bit_range 21 48).
  rewrite (land_bit_range_within 21 48 pa);
    [|lia|apply within_aligned; [lia|done|exact Hal]].
  rewrite Z.land_0_l, Z.lor_0_r. apply Z.bits_inj'. intros n Hn.
  destruct xn; rewrite !Z.lor_spec; btauto.
Qed.
End block_bits.

(** ** The tables as a map from 2 MiB blocks to descriptors *)

(** The 2^18 blocks of the 512 GiB one level-1 table covers. *)
Definition BLOCKS : Z := 2 ^ 18.

(** What the tables say about block [b]: its descriptor, 0 when unmapped. *)
Definition blk (pool_va : Z) (ts : tables) (b : Z) : Z :=
  default 0 (e ← l1 ts !! Z.to_nat (b / 512);
             pa ← next_table e;
             match pool_index pool_va (phys_to_virt pa) with
             | Ret i => t ← l2_pool ts !! Z.to_nat i; t !! Z.to_nat (b mod 512)
             | _ => None
             end).

(** The abstract address space: block number to descriptor. *)
Definition space := Z → Z.
Definition space_empty : space := λ _, 0.
(** Map the blocks [lo .. hi) of the window to the identical physical blocks. *)
Definition paint (lo hi attr ap sh : Z) (xn : bool) (sp : space) : space := λ b,
  if decide (lo ≤ b < hi) then block_desc (b * BLOCK_SIZE) attr ap sh xn else sp b.
Definition space_eq (s1 s2 : space) : Prop := ∀ b, 0 ≤ b < BLOCKS → s1 b = s2 b.

#[export] Instance space_eq_equiv : Equivalence space_eq.
Proof.
  split.
  - by intros s b Hb.
  - intros s t H b Hb. symmetry. by apply H.
  - intros s t u H1 H2 b Hb. rewrite H1 by done. by apply H2.
Qed.

#[export] Instance paint_proper lo hi attr ap sh xn :
  Proper (space_eq ==> space_eq) (paint lo hi attr ap sh xn).
Proof. intros s t H b Hb. unfold paint. case_decide; [done|]. by apply H. Qed.

(** Where a static pool of tables may live. *)
Definition pool_placed (pva : Z) : Prop :=
  KERNEL_VIRT_BASE ≤ pva ∧ pva + L2_TABLES * PAGE_SIZE ≤ U64 ∧ pva mod PAGE_SIZE = 0.

(** The representation invariant: the level-1 entries in use, in allocation order. *)
Record wf_with (pva : Z) (ts : tables) (order : list Z) : Prop := {
  wf_l1 : length (l1 ts) = 512%nat;
  wf_pool : length (l2_pool ts) = 1024%nat;
  wf_tables : ∀ i t, l2_pool ts !! i = Some t → length t = 512%nat;
  wf_next : next_l2 ts = len order;
  wf_nodup : NoDup order;
  wf_order : ∀ k j, order !! k = Some j →
    0 ≤ j < 512 ∧
    l1 ts !! Z.to_nat j = Some (table_desc (virt_to_phys (pva + Z.of_nat k * PAGE_SIZE)));
  wf_free : ∀ j, 0 ≤ j < 512 → j ∉ order → l1 ts !! Z.to_nat j = Some 0
}.
Definition wf (pva : Z) (ts : tables) : Prop := ∃ order, wf_with pva ts order.

Section pool.
Context (pva : Z) (Hpva : pool_placed pva).

(** The level-1 entries in use are at most 512: the pool of 1024 tables is never exhausted. *)
Lemma wf_order_short ts order : wf_with pva ts order → (length order ≤ 512)%nat.
Proof.
  intros H. apply nodup_below; [apply H|]. intros x [k Hk]%list_elem_of_lookup.
  by apply (wf_order _ _ _ H) in Hk as [? _].
Qed.

Lemma pool_desc k : 0 ≤ k < 1024 →
  let d := table_desc (virt_to_phys (pva + k * PAGE_SIZE)) in
  Z.land d 3 = DESC_TABLE ∧
  pool_index pva (phys_to_virt (Z.land d 0x0000FFFFFFFFF000)) = Ret k.
Proof.
  intros Hk d. unfold d. destruct Hpva as (Hlo & Hhi & Hal).
  change L2_TABLES with 1024 in *. change PAGE_SIZE with 4096 in *.
  change KERNEL_VIRT_BASE with 0xFFFF800000000000 in *.
  set (pa := virt_to_phys _).
  assert (pa = pva + k * 4096 - 0xFFFF800000000000) as Hpa.
  { unfold pa, virt_to_phys, sub64, wrap64, PHYS_MAP_BASE, KERNEL_VIRT_BASE.
    apply Z.mod_small. lia. }
  assert (0 ≤ pa < 2 ^ 48) by lia.
  assert (pa mod 4096 = 0) as Hpm.
  { rewrite Hpa. Z.to_euclidean_division_equations. lia. }
  destruct (table_desc_decode pa) as [-> ->]; [done..|].
  split; [done|]. unfold pool_index.
  assert (phys_to_virt pa = pva + k * 4096) as ->.
  { unfold phys_to_virt, add64, wrap64, PHYS_MAP_BASE, KERNEL_VIRT_BASE.
    rewrite Z.mod_small by lia. lia. }
  change L2_TABLES with 1024. change PAGE_SIZE with 4096.
  replace (pva + k * 4096 - pva) with (k * 4096) by lia.
  rewrite decide_True by (split; [lia|apply Z.mod_mul; lia]).
  by rewrite Z.div_mul by lia.
Qed.

(** A level-1 entry is in use or free; its blocks are those of its pool table or unmapped. *)
Lemma blk_used ts order k j c : wf_with pva ts order → order !! k = Some j → 0 ≤ c < 512 →
  ∃ t, l2_pool ts !! k = Some t ∧ length t = 512%nat ∧
    blk pva ts (j * 512 + c) = default 0 (t !! Z.to_nat c).
Proof.
  intros Hw Hk Hc. pose proof (wf_order_short _ _ Hw). pose proof (lookup_lt_Some _ _ _ Hk).
  destruct (wf_order _ _ _ Hw k j Hk) as [Hj He].
  destruct (lookup_lt_is_Some_2 (l2_pool ts) k) as [t Ht].
  { rewrite (wf_pool _ _ _ Hw). lia. }
  exists t. split; [done|]. split; [by eapply wf_tables|]. unfold blk.
  replace ((j * 512 + c) / 512) with j by (Z.to_euclidean_division_equations; lia).
  replace ((j * 512 + c) mod 512) with c by (Z.to_euclidean_division_equations; lia).
  rewrite He. simpl. destruct (pool_desc (Z.of_nat k)) as [H3 Hi]; [lia|].
  unfold next_table. rewrite decide_True by done. simpl. rewrite Hi.
  rewrite Nat2Z.id, Ht. done.
Qed.

Lemma blk_free ts order j c : wf_with pva ts order → 0 ≤ j < 512 → j ∉ order → 0 ≤ c < 512 →
  blk pva ts (j * 512 + c) = 0.
Proof.
  intros Hw Hj Hn Hc. unfold blk.
  replace ((j * 512 + c) / 512) with j by (Z.to_euclidean_division_equations; lia).
  by rewrite (wf_free _ _ _ Hw).
Qed.

Lemma PageTable_zero_replicate t : PageTable_zero t = replicate (length t) 0.
Proof. unfold PageTable_zero. induction t; simpl; [done|]. by f_equal. Qed.

(** The tables after pool table [n], which held [t], is taken for the level-1 entry [j]. *)
Definition taken ts j n t : tables :=
  mkTables (<[Z.to_nat j := table_desc (virt_to_phys (pva + n * PAGE_SIZE))]> (l1 ts))
    (<[Z.to_nat n := PageTable_zero t]> (l2_pool ts)) (n + 1).

Lemma taken_wf ts order j t : wf_with pva ts order → 0 ≤ j < 512 → j ∉ order →
  l2_pool ts !! length order = Some t → wf_with pva (taken ts j (len order) t) (order ++ [j]).
Proof.
  intros Hw Hj Hfree Ht. split; simpl.
  - by rewrite length_insert, (wf_l1 _ _ _ Hw).
  - by rewrite length_insert, (wf_pool _ _ _ Hw).
  - intros i u. rewrite list_lookup_insert_Some.
    intros [(_ & <- & _)|[_ Hu]]; [|by eapply wf_tables].
    rewrite PageTable_zero_replicate, length_replicate. by eapply wf_tables.
  - by rewrite len_app.
  - apply NoDup_app. split; [apply Hw|]. split; [set_solver|apply NoDup_singleton].
  - intros k x. rewrite lookup_app_Some, list_lookup_singleton_Some.
    intros [Hk|(Hge & Hk & <-)].
    + destruct (wf_order _ _ _ Hw k x Hk) as [Hx Hd]. split; [done|].
      rewrite list_lookup_insert_ne; [done|]. apply list_elem_of_lookup_2 in Hk.
      intros Heq. by assert (j = x) as -> by lia.
    + split; [done|]. rewrite list_lookup_insert_eq by (rewrite (wf_l1 _ _ _ Hw); lia).
      by replace (Z.of_nat k) with (len order) by (unfold len; lia).
  - intros x Hx Hnx. rewrite list_lookup_insert_ne.
    + apply (wf_free _ _ _ Hw); [done|]. set_solver.
    + intros Heq. assert (j = x) as -> by lia. set_solver.
Qed.

Lemma block_split b : 0 ≤ b < BLOCKS →
  0 ≤ b / 512 < 512 ∧ 0 ≤ b mod 512 < 512 ∧ b = b / 512 * 512 + b mod 512.
Proof.
  unfold BLOCKS. change (2 ^ 18) with 262144. intros Hb. Z.to_euclidean_division_equations. lia.
Qed.

Lemma taken_space ts order j t : wf_with pva ts order → 0 ≤ j < 512 → j ∉ order →
  l2_pool ts !! length order = Some t → space_eq (blk pva (taken ts j (len order) t)) (blk pva ts).
Proof.
  intros Hw Hj Hfree Ht b Hb. pose proof (taken_wf ts order j t Hw Hj Hfree Ht) as Hw'.
  set (ts' := taken _ _ _ _) in *. destruct (block_split b Hb) as (Hb1 & Hb2 & ->).
  assert (Z.to_nat (len order) = length order) as Hlo by (unfold len; lia).
  destruct (decide (b / 512 ∈ order)) as [[k Hk]%list_elem_of_lookup|Hno].
  - pose proof (lookup_lt_Some _ _ _ Hk).
    destruct (blk_used ts order k (b / 512) (b mod 512)) as (u & Hu & _ & ->); [done..|].
    destruct (blk_used ts' (order ++ [j]) k (b / 512) (b mod 512)) as (u' & Hu' & _ & ->);
      [done| |done|].
    { by apply lookup_app_l_Some. }
    simpl in Hu'. rewrite list_lookup_insert_ne in Hu' by lia. congruence.
  - rewrite (blk_free ts order) by done. destruct (decide (b / 512 = j)) as [->|Hne].
    + destruct (blk_used ts' (order ++ [j]) (length order) j (b mod 512))
        as (u & Hu & _ & ->); [done|by apply list_lookup_middle|done|].
      simpl in Hu. rewrite Hlo, list_lookup_insert_eq in Hu by (by eapply lookup_lt_Some).
      injection Hu as <-. rewrite PageTable_zero_replicate, (wf_tables _ _ _ Hw _ _ Ht).
      by rewrite lookup_replicate_2 by lia.
    + apply (blk_free ts' (order ++ [j])); [done..| |done]. set_solver.
Qed.

(** [get_l2_table_with] returns the table of the entry and changes no mapping; the pool always
    has a table left. *)
Lemma get_l2_ok ts j : wf pva ts → 0 ≤ j < 512 →
  ∃ k ts' order, get_l2_table_with pva ts j = Ret (Z.of_nat k, ts') ∧
    wf_with pva ts' order ∧ order !! k = Some j ∧ space_eq (blk pva ts') (blk pva ts).
Proof.
  intros [order Hw] Hj. pose proof (wf_order_short _ _ Hw). unfold get_l2_table_with.
  destruct (decide (j ∈ order)) as [[k Hk]%list_elem_of_lookup|Hfree].
  - pose proof (lookup_lt_Some _ _ _ Hk). destruct (wf_order _ _ _ Hw k j Hk) as [_ He].
    rewrite (proj2 (aget_ret _ _ _) (conj (proj1 Hj) He)). simpl.
    destruct (pool_desc (Z.of_nat k)) as [-> Hi]; [lia|].
    rewrite decide_True, Hi by done. simpl. exists k, ts, order. by split_and!.
  - rewrite (proj2 (aget_ret _ _ _) (conj (proj1 Hj) (wf_free _ _ _ Hw j Hj Hfree))). simpl.
    rewrite (wf_next _ _ _ Hw), decide_False by (unfold L2_TABLES, len; lia).
    destruct (lookup_lt_is_Some_2 (l2_pool ts) (length order)) as [t Ht].
    { rewrite (wf_pool _ _ _ Hw). lia. }
    rewrite (proj2 (aget_ret (l2_pool ts) (len order) t)) by (split; [unfold len; lia|by unfold len; rewrite Nat2Z.id]). simpl.
    rewrite (aset_ret (l2_pool ts)) by (unfold len; rewrite (wf_pool _ _ _ Hw); lia). simpl.
    rewrite (aset_ret (l1 ts)) by (unfold len; rewrite (wf_l1 _ _ _ Hw); lia). simpl.
    exists (length order), (taken ts j (len order) t), (order ++ [j]).
    split_and!; [done|by apply taken_wf|by apply list_lookup_middle|by apply taken_space].
Qed.

Lemma blk_insert ts order k j c0 t d b :
  wf_with pva ts order → order !! k = Some j → l2_pool ts !! k = Some t → 0 ≤ c0 < 512 →
  let ts' := mkTables (l1 ts) (<[k := <[Z.to_nat c0 := d]> t]> (l2_pool ts)) (next_l2 ts) in
  wf_with pva ts' order ∧
  (0 ≤ b < BLOCKS → blk pva ts' b = if decide (b = j * 512 + c0) then d else blk pva ts b).
Proof.
  intros Hw Hk Ht Hc0 ts'. pose proof (wf_tables _ _ _ Hw _ _ Ht) as Hlen.
  pose proof (lookup_lt_Some _ _ _ Ht) as Hlt.
  assert (wf_with pva ts' order) as Hw'.
  { split; try apply Hw; simpl.
    - by rewrite length_insert, (wf_pool _ _ _ Hw).
    - intros i u. rewrite list_lookup_insert_Some.
      intros [(_ & <- & _)|[_ Hu]]; [by rewrite length_insert|by eapply wf_tables]. }
  split; [done|]. intros Hb.
  destruct (block_split b Hb) as (Hb1 & Hb2 & Hbe).
  rewrite Hbe. set (x := b / 512) in *. set (y := b mod 512) in *.
  destruct (wf_order _ _ _ Hw k j Hk) as [Hj _].
  destruct (decide (x ∈ order)) as [[kx Hkx]%list_elem_of_lookup|Hno].
  - destruct (blk_used ts order kx x y) as (u & Hu & _ & ->); [done..|].
    destruct (blk_used ts' order kx x y) as (u' & Hu' & _ & ->); [done..|]. simpl in Hu'.
    destruct (decide (kx = k)) as [->|Hne].
    + assert (x = j) as -> by congruence. rewrite list_lookup_insert_eq in Hu' by done.
      injection Hu' as <-. assert (u = t) as -> by congruence. case_decide as Hd.
      * assert (y = c0) as -> by lia. rewrite list_lookup_insert_eq; [done|]. lia.
      * rewrite list_lookup_insert_ne; [done|]. lia.
    + rewrite list_lookup_insert_ne in Hu' by done. assert (u' = u) as -> by congruence.
      rewrite decide_False; [done|]. intros Heq. assert (x = j) as -> by lia.
      apply Hne. by eapply NoDup_lookup; [apply Hw| |].
  - rewrite (blk_free ts order) by done. rewrite (blk_free ts' order) by done.
    rewrite decide_False; [done|]. intros Heq. assert (x = j) as -> by lia.
    apply Hno. by eapply list_elem_of_lookup_2.
Qed.

(** [map_block_with] sets one block and no other. *)
Lemma map_block_ok ts v p attr ap sh xn : wf pva ts → 0 ≤ v →
  returns (map_block_with pva ts v p attr ap sh xn) (λ ts', wf pva ts' ∧
    ∀ b, 0 ≤ b < BLOCKS → blk pva ts' b =
      if decide (b = (v / BLOCK_SIZE) mod BLOCKS) then block_desc p attr ap sh xn
      else blk pva ts b).
Proof.
  intros Hw Hv. unfold map_block_with. rewrite !index_field by lia.
  set (j := (v / 2 ^ 30) mod 512). set (c := (v / 2 ^ 21) mod 512).
  assert (0 ≤ j < 512 ∧ 0 ≤ c < 512 ∧ (v / BLOCK_SIZE) mod BLOCKS = j * 512 + c)
    as (Hj & Hc & ->).
  { unfold j, c, BLOCKS. change BLOCK_SIZE with (2 ^ 21).
    change (2 ^ 30) with (2 ^ 21 * 512). rewrite <-Z.div_div by lia.
    change (2 ^ 18) with 262144. generalize (v / 2 ^ 21). intros w.
    Z.to_euclidean_division_equations. lia. }
  clearbody j c. destruct (get_l2_ok ts j Hw Hj) as (k & ts' & order & -> & Hw' & Hk & Heq).
  simpl. destruct (lookup_lt_is_Some_2 (l2_pool ts') k) as [t Ht].
  { rewrite (wf_pool _ _ _ Hw'). pose proof (wf_order_short _ _ Hw').
    pose proof (lookup_lt_Some _ _ _ Hk). lia. }
  rewrite (proj2 (aget_ret (l2_pool ts') (Z.of_nat k) t)) by (rewrite Nat2Z.id; split; [lia|done]).
  simpl. pose proof (wf_tables _ _ _ Hw' _ _ Ht) as Hlen.
  rewrite (aset_ret t) by (unfold len; lia). simpl.
  rewrite (aset_ret (l2_pool ts')) by (apply lookup_lt_Some in Ht; unfold len; lia). simpl.
  rewrite Nat2Z.id. split.
  - exists order. by eapply (blk_insert ts' order k j c t _ 0).
  - intros b Hb. destruct (blk_insert ts' order k j c t (block_desc p attr ap sh xn) b Hw' Hk Ht Hc)
      as [_ Hi]. rewrite Hi by done. case_decide; [done|]. by apply Heq.
Qed.

(** Blocks and offsets from a base that is a multiple of 512 GiB. *)
Lemma base_block base y : base mod 2 ^ 39 = 0 → (base + y) / BLOCK_SIZE = base / BLOCK_SIZE + y / BLOCK_SIZE ∧
  base = base / BLOCK_SIZE * BLOCK_SIZE ∧ (base / BLOCK_SIZE) mod BLOCKS = 0.
Proof.
  unfold BLOCKS. change BLOCK_SIZE with 2097152. change (2 ^ 18) with 262144.
  change (2 ^ 39) with 549755813888. intros Hb. Z.to_euclidean_division_equations. lia.
Qed.

Lemma base_down base y : 0 ≤ base → base mod 2 ^ 39 = 0 → 0 ≤ y → base + y < U64 →
  align_down (base + y) BLOCK_SIZE = base + y / BLOCK_SIZE * BLOCK_SIZE.
Proof.
  intros H0 Hb Hy Hh. destruct (base_block base y Hb) as (Hd & Hbe & _).
  change BLOCK_SIZE with (2 ^ 21) in *. rewrite align_down_eq by (unfold is_u64; lia).
  pose proof (Z.div_mod (base + y) (2 ^ 21)). lia.
Qed.

Lemma base_up base y : 0 ≤ base → base mod 2 ^ 39 = 0 → 0 ≤ y → base + y + BLOCK_SIZE ≤ U64 →
  align_up (base + y) BLOCK_SIZE = base + (y + BLOCK_SIZE - 1) / BLOCK_SIZE * BLOCK_SIZE.
Proof.
  intros H0 Hb Hy Hh. destruct (base_block base (y + BLOCK_SIZE - 1) Hb) as (Hd & Hbe & _).
  change BLOCK_SIZE with (2 ^ 21) in *. rewrite align_up_eq by (unfold is_u64; lia).
  pose proof (Z.div_mod (base + y + 2 ^ 21 - 1) (2 ^ 21)).
  replace (base + y + 2 ^ 21 - 1) with (base + (y + 2 ^ 21 - 1)) in * by lia. lia.
Qed.

Lemma paint_snoc lo i attr ap sh xn sp b : lo ≤ i →
  paint lo (i + 1) attr ap sh xn sp b =
  if decide (b = i) then block_desc (i * BLOCK_SIZE) attr ap sh xn else paint lo i attr ap sh xn sp b.
Proof. intros Hi. unfold paint. repeat case_decide; by (subst; done || lia). Qed.

(** A window of the low 512 GiB mapped at [base + x]: exactly the blocks it touches are
    set, to the identical physical blocks. *)
Lemma map_range_ok ts base x size attr ap sh xn :
  wf pva ts → 0 ≤ base → base mod 2 ^ 39 = 0 → base + 2 ^ 39 + BLOCK_SIZE ≤ U64 →
  0 ≤ x → 0 ≤ size → x + size ≤ 2 ^ 39 →
  returns (map_range_with pva ts (base + x) x size attr ap sh xn) (λ ts', wf pva ts' ∧
    space_eq (blk pva ts')
      (if decide (size = 0) then blk pva ts
       else paint (x / BLOCK_SIZE) ((x + size + BLOCK_SIZE - 1) / BLOCK_SIZE) attr ap sh xn
              (blk pva ts))).
Proof.
  intros Hw Hb0 Hbm Hbh Hx Hs Hxs. unfold map_range_with. case_decide as Hz; [done|]. cbv zeta.
  change (2 ^ 39) with 549755813888 in Hbh, Hxs. change BLOCK_SIZE with 2097152 in Hbh.
  replace (add64 (base + x) size) with (base + (x + size)) by (unfold add64, wrap64; rewrite Z.mod_small; lia).
  rewrite base_up, base_down by (done || change BLOCK_SIZE with 2097152; lia).
  pose proof (base_down 0 x ltac:(done) ltac:(done) Hx ltac:(lia)) as Hdx. rewrite !Z.add_0_l in Hdx. rewrite Hdx. clear Hdx.
  set (lo := x / BLOCK_SIZE). set (hi := (x + size + BLOCK_SIZE - 1) / BLOCK_SIZE).
  assert (0 ≤ lo ∧ lo < hi ∧ hi ≤ 262144) as (Hlo & Hlh & Hhi).
  { unfold lo, hi. change BLOCK_SIZE with 2097152. clear -Hx Hs Hxs Hz.
    Z.to_euclidean_division_equations. lia. }
  clearbody lo hi. change BLOCK_SIZE with 2097152.
  eapply (returns_loop (λ s, ∃ i, lo ≤ i ≤ hi ∧ s.1.1 = base + i * 2097152 ∧
      s.1.2 = i * 2097152 ∧ wf pva s.2 ∧
      space_eq (blk pva s.2) (paint lo i attr ap sh xn (blk pva ts)))
    (λ s, Z.to_nat ((base + hi * 2097152 - s.1.1) / 2097152))).
  - intros [[v p] u] (i & Hi & Hv & Hp & Hu & He).
    cbn [fst snd] in Hv, Hp, Hu, He |- *. unfold map_range_body. case_decide as Hlt.
    + apply returns_bind. eapply returns_mono; [apply map_block_ok; [done|lia]|].
      intros u' [Hw' Hblk]. change BLOCK_SIZE with 2097152. cbn [returns fst snd].
      replace (add64 v 2097152) with (base + (i + 1) * 2097152) by (unfold add64, wrap64; rewrite Z.mod_small; lia).
      split; [|Z.to_euclidean_division_equations; lia].
      exists (i + 1). replace (add64 p 2097152) with ((i + 1) * 2097152)
        by (unfold add64, wrap64; rewrite Z.mod_small; lia).
      split_and!; [lia..|done|]. intros b Hb. rewrite paint_snoc, Hblk by lia.
      destruct (base_block base (i * 2097152) Hbm) as (Hd & _ & Hm).
      replace ((v / BLOCK_SIZE) mod BLOCKS) with i; [subst p; case_decide; [done|by apply He]|].
      rewrite Hv, Hd, Z.add_mod, Hm by done. change BLOCK_SIZE with 2097152. change BLOCKS with 262144.
      rewrite Z.add_0_l, Z.div_mul, Z.mod_mod, Z.mod_small by lia. done.
    + simpl. split; [done|]. by replace hi with i by lia.
  - exists lo. cbn [fst snd]. split_and!; [lia..|done|].
    intros b Hb. unfold paint. by rewrite decide_False by lia.
  - cbn [fst snd]. lia.
Qed.
End pool.

(** ** The address spaces [init] builds *)

(** A window of the identity map; [map_range_with] does nothing when it is empty. *)
Definition span (base size attr ap sh : Z) (xn : bool) (sp : space) : space :=
  if decide (size = 0) then sp
  else paint (base / BLOCK_SIZE) ((base + size + BLOCK_SIZE - 1) / BLOCK_SIZE) attr ap sh xn sp.

(** RAM: every region that is not MMIO, Normal memory, executable. *)
Definition ram_space (b : board) (ap : Z) (map : NormalizedMap) (sp : space) : space :=
  fold_left (λ sp r,
    if decide (kind r = Mmio) then sp
    else span (start r) (sat_sub64 (capped_end b r) (start r)) ATTR_NORMAL ap SH_INNER false sp)
    map sp.

(** The windows of [map_mmio], in its order: base, size, attribute, shareability. *)
Definition windows (b : board) (extra_base extra_size : Z) : list (Z * Z * Z * Z) :=
  match b with
  | Qemu => [(PERIPHERAL_BASE, PERIPHERAL_SIZE, ATTR_DEVICE, SH_NONE);
             (0x40000000, 0x00200000, ATTR_DEVICE, SH_NONE);
             (0x3c000000, 0x04000000, ATTR_NORMAL, SH_INNER)]
  | Rpi5 => [(SOC_BASE, SOC_MMIO_SIZE, ATTR_DEVICE, SH_NONE);
             (RP1_BASE, RP1_SIZE, ATTR_DEVICE, SH_NONE)]
  end ++ (if decide (extra_size = 0) then []
          else [(extra_base, extra_size, ATTR_DEVICE, SH_NONE)]).

Definition windows_space (ws : list (Z * Z * Z * Z)) (sp : space) : space :=
  fold_left (λ sp w, let '(base, size, attr, sh) := w in
    span base size attr AP_EL1_RW sh true sp) ws sp.

Definition address_space (b : board) (ap : Z) (map : NormalizedMap) (eb es : Z) : space :=
  windows_space (windows b eb es) (ram_space b ap map space_empty).

(** What one translation yields: the physical address and the block descriptor. *)
Definition translate (sp : space) (pa : Z) : option (Z * Z) :=
  let d := sp (pa / BLOCK_SIZE) in
  if decide (Z.land d 3 = DESC_BLOCK)
  then Some (Z.lor (Z.land d 0x0000FFFFFFE00000) (pa mod BLOCK_SIZE), d) else None.

#[export] Instance span_proper base size attr ap sh xn :
  Proper (space_eq ==> space_eq) (span base size attr ap sh xn).
Proof. intros s t H. unfold span. case_decide; [done|]. by rewrite H. Qed.

(** Where the linker may put the tables. *)
Definition roots (a : addresses) : list Z := [K_L0_va a; K_L1_va a; U_L0_va a; U_L1_va a].
Definition in_pool (pva va : Z) : Prop := pva ≤ va < pva + L2_TABLES * PAGE_SIZE.
Record placed (a : addresses) : Prop := {
  placed_roots : Forall (λ va, KERNEL_VIRT_BASE ≤ va ∧ va + PAGE_SIZE ≤ U64 ∧
    va mod PAGE_SIZE = 0 ∧ ¬ in_pool (K_POOL_va a) va ∧ ¬ in_pool (U_POOL_va a) va) (roots a);
  placed_nodup : NoDup (roots a);
  placed_K : pool_placed (K_POOL_va a);
  placed_U : pool_placed (U_POOL_va a);
  placed_disjoint : K_POOL_va a + L2_TABLES * PAGE_SIZE ≤ U_POOL_va a ∨
                    U_POOL_va a + L2_TABLES * PAGE_SIZE ≤ K_POOL_va a
}.

(** The shape of the statics: tables of 512 entries, pools of 1024 tables. *)
Definition shaped_tables (ts : tables) : Prop :=
  length (l1 ts) = 512%nat ∧ length (l2_pool ts) = 1024%nat ∧
  Forall (λ t, length t = 512%nat) (l2_pool ts).
Definition shaped (s : state) : Prop :=
  length (K_L0 s) = 512%nat ∧ length (U_L0 s) = 512%nat ∧
  shaped_tables (K s) ∧ shaped_tables (U s).

(** Memory within the 512 GiB the single level-1 table of each half covers. *)
Definition map_in_reach (b : board) (map : NormalizedMap) : Prop :=
  Forall (λ r, 0 ≤ start r ∧ capped_end b r ≤ 2 ^ 39) map.
Definition extra_in_reach (s : state) : Prop :=
  0 ≤ EXTRA_MMIO_BASE s ∧ 0 ≤ EXTRA_MMIO_SIZE s ∧
  EXTRA_MMIO_BASE s + EXTRA_MMIO_SIZE s ≤ 2 ^ 39.

(** The state the operations of [init] keep: both halves well formed, standing for [spK] and
    [spU]; the level-0 tables and the extra window untouched. *)
Record refines (a : addresses) (s0 s : state) (spK spU : space) : Prop := {
  ref_K : wf (K_POOL_va a) (K s);
  ref_U : wf (U_POOL_va a) (U s);
  ref_spK : space_eq (blk (K_POOL_va a) (K s)) spK;
  ref_spU : space_eq (blk (U_POOL_va a) (U s)) spU;
  ref_K0 : K_L0 s = K_L0 s0;
  ref_U0 : U_L0 s = U_L0 s0;
  ref_base : EXTRA_MMIO_BASE s = EXTRA_MMIO_BASE s0;
  ref_size : EXTRA_MMIO_SIZE s = EXTRA_MMIO_SIZE s0
}.

Section build.
Context (a : addresses) (Ha : placed a).

Lemma map_K_ok s0 s spK spU x size attr ap sh xn : refines a s0 s spK spU →
  0 ≤ x → 0 ≤ size → x + size ≤ 2 ^ 39 →
  returns (map_K a s (add64 KERNEL_VIRT_BASE x) x size attr ap sh xn) (λ s',
    refines a s0 s' (span x size attr ap sh xn spK) spU).
Proof.
  intros Hr Hx Hs Hxs. unfold map_K.
  assert (add64 KERNEL_VIRT_BASE x = KERNEL_VIRT_BASE + x) as ->.
  { unfold add64, wrap64, KERNEL_VIRT_BASE. change (2 ^ 39) with 549755813888 in *.
    apply Z.mod_small. lia. }
  apply returns_bind. eapply returns_mono; [apply map_range_ok|].
  1-8: try done; try apply Ha; try apply Hr; lia.
  intros ts [Hw He]. destruct Hr. split; simpl; try done.
  rewrite He. unfold span. case_decide; [done|]. by rewrite ref_spK0.
Qed.

Lemma map_U_ok s0 s spK spU x size attr ap sh xn : refines a s0 s spK spU →
  0 ≤ x → 0 ≤ size → x + size ≤ 2 ^ 39 →
  returns (map_U a s x x size attr ap sh xn) (λ s',
    refines a s0 s' spK (span x size attr ap sh xn spU)).
Proof.
  intros Hr Hx Hs Hxs. unfold map_U. change x with (0 + x) at 1.
  apply returns_bind. eapply returns_mono; [apply map_range_ok|].
  1-8: try done; try apply Ha; try apply Hr; lia.
  intros ts [Hw He]. destruct Hr. split; simpl; try done.
  rewrite He. unfold span. case_decide; [done|]. by rewrite ref_spU0.
Qed.

Lemma map_window_ok s0 s spK spU x size attr sh : refines a s0 s spK spU →
  0 ≤ x → 0 ≤ size → x + size ≤ 2 ^ 39 →
  returns (map_window a s x size attr sh) (λ s',
    refines a s0 s' (span x size attr AP_EL1_RW sh true spK)
                    (span x size attr AP_EL1_RW sh true spU)).
Proof.
  intros Hr Hx Hs Hxs. unfold map_window. apply returns_bind.
  eapply returns_mono; [by apply map_U_ok|]. intros s' Hr'. by apply map_K_ok.
Qed.

Lemma map_mmio_ok b s0 s spK spU : refines a s0 s spK spU → extra_in_reach s0 →
  returns (map_mmio a b s) (λ s',
    let ws := windows b (EXTRA_MMIO_BASE s0) (EXTRA_MMIO_SIZE s0) in
    refines a s0 s' (windows_space ws spK) (windows_space ws spU)).
Proof.
  intros Hr (Hb & Hs & Hbs). unfold map_mmio, windows. apply returns_bind.
  eapply (returns_mono _ (λ s', refines a s0 s'
    (windows_space (windows b 0 0) spK) (windows_space (windows b 0 0) spU))).
  { destruct b; repeat (apply returns_bind; eapply returns_mono; [by apply map_window_ok|];
      clear Hr; intros ? Hr; cbv beta in Hr); by apply map_window_ok. }
  clear Hr. intros s' Hr. rewrite (ref_base _ _ _ _ _ Hr), (ref_size _ _ _ _ _ Hr).
  case_decide; [rewrite decide_False by done|rewrite decide_True by lia].
  - eapply returns_mono; [by apply map_window_ok|]. intros s2. simpl.
    unfold windows_space. rewrite !fold_left_app. by destruct b.
  - done.
Qed.

Lemma map_region_ok b r s0 s spK spU : refines a s0 s spK spU →
  0 ≤ start r ∧ capped_end b r ≤ 2 ^ 39 →
  returns (map_region a b r s) (λ s',
    refines a s0 s' (ram_space b AP_EL1_RW [r] spK) (ram_space b AP_EL0_RW [r] spU)).
Proof.
  intros Hr [Hs He]. unfold map_region, ram_space. simpl. case_decide; [done|].
  unfold span at 1 2. case_decide as Hz; [done|]. unfold sat_sub64 in *.
  apply returns_bind. eapply returns_mono; [apply map_K_ok; [done|lia..]|].
  clear Hr. intros s' Hr. eapply returns_mono; [apply map_U_ok; [exact Hr|lia..]|].
  intros s2. unfold span. by rewrite !(decide_False (P := Z.max _ _ = 0)) by done.
Qed.

Lemma shaped_wf pva ts : pool_placed pva → shaped_tables ts →
  let ts' := mkTables (PageTable_zero (l1 ts)) (l2_pool ts) 0 in
  wf pva ts' ∧ space_eq (blk pva ts') space_empty.
Proof.
  intros Hp (H1 & H2 & H3) ts'. assert (wf_with pva ts' []) as Hw.
  { subst ts'. split; simpl; try done.
    - unfold PageTable_zero. by rewrite length_fmap.
    - by rewrite Forall_lookup in H3.
    - constructor.
    - intros j Hj _. rewrite PageTable_zero_replicate, H1. by rewrite lookup_replicate_2 by lia. }
  split; [by exists []|]. intros b Hb. unfold space_empty.
  unfold BLOCKS in Hb. change (2 ^ 18) with 262144 in Hb.
  rewrite (Z.div_mod b 512), Z.mul_comm by lia.
  eapply blk_free; [done| | |]; [|apply not_elem_of_nil|]; Z.to_euclidean_division_equations; lia.
Qed.

(** [build] returns, whatever the memory map, and its tables are the specified spaces. *)
Lemma build_ok b map s : shaped s → map_in_reach b map → extra_in_reach s →
  returns (build a b map s) (λ s', ∃ k0 u0,
    K_L0 s' = <[256%nat := table_desc (virt_to_phys (K_L1_va a))]> k0 ∧ length k0 = 512%nat ∧
    U_L0 s' = <[0%nat := table_desc (virt_to_phys (U_L1_va a))]> u0 ∧ length u0 = 512%nat ∧
    KERNEL_ROOT_PA s' = virt_to_phys (K_L0_va a) ∧
    USER_ROOT_PA s' = virt_to_phys (U_L0_va a) ∧
    let space ap := address_space b ap map (EXTRA_MMIO_BASE s) (EXTRA_MMIO_SIZE s) in
    refines a s' s' (space AP_EL1_RW) (space AP_EL0_RW)).
Proof.
  intros (HK0 & HU0 & HK & HU) Hmap Hextra. unfold build.
  assert (length (PageTable_zero (K_L0 s)) = 512%nat) as HK0'
    by (unfold PageTable_zero; by rewrite length_fmap).
  assert (length (PageTable_zero (U_L0 s)) = 512%nat) as HU0'
    by (unfold PageTable_zero; by rewrite length_fmap).
  rewrite (aset_ret (PageTable_zero (K_L0 s))) by (unfold len; rewrite HK0'; done). rewrite bind_ret.
  rewrite (aset_ret (PageTable_zero (U_L0 s))) by (unfold len; rewrite HU0'; done). rewrite bind_ret.
  change (Z.to_nat KERNEL_L0_INDEX) with 256%nat. change (Z.to_nat 0) with 0%nat. cbv zeta.
  set (s0 := mkState _ _ _ _ _ _ _ _).
  destruct (shaped_wf (K_POOL_va a) (K s)) as [HwK HbK]; [apply Ha|done|].
  destruct (shaped_wf (U_POOL_va a) (U s)) as [HwU HbU]; [apply Ha|done|].
  assert (refines a s0 s0 space_empty space_empty) as Hr0 by done.
  apply returns_bind. eapply (returns_mono _ (λ s1,
    refines a s0 s1 (ram_space b AP_EL1_RW map space_empty)
                    (ram_space b AP_EL0_RW map space_empty))).
  { apply (returns_for_each_in (λ dn s1,
      refines a s0 s1 (ram_space b AP_EL1_RW dn space_empty)
                      (ram_space b AP_EL0_RW dn space_empty))); [done|].
    intros dn r rest s1 -> Hr1. eapply returns_mono; [apply map_region_ok; [done|]|].
    - unfold map_in_reach in Hmap. rewrite Forall_forall in Hmap. apply Hmap. set_solver.
    - intros s2. unfold ram_space. by rewrite !fold_left_app. }
  intros s1 Hr1. apply returns_bind. eapply returns_mono; [by apply map_mmio_ok|].
  intros s2 Hr2. simpl. eexists _, _.
  rewrite (ref_K0 _ _ _ _ _ Hr2), (ref_U0 _ _ _ _ _ Hr2). split_and!; try done.
  by destruct Hr2.
Qed.
End build.

(** ** The hardware's walk agrees with the abstract address spaces *)
Section walks.
Context (a : addresses) (Ha : placed a).

(** Static tables have distinct physical addresses. *)
Lemma virt_to_phys_static va : KERNEL_VIRT_BASE ≤ va < U64 →
  virt_to_phys va = va - KERNEL_VIRT_BASE ∧ phys_to_virt (virt_to_phys va) = va.
Proof.
  unfold virt_to_phys, phys_to_virt, sub64, add64, wrap64, PHYS_MAP_BASE, KERNEL_VIRT_BASE.
  intros H. rewrite (Z.mod_small (va - _)) by lia. split; [done|].
  rewrite Z.mod_small; lia.
Qed.

Lemma pool_index_in pva k : 0 ≤ k < 1024 → pool_index pva (pva + k * PAGE_SIZE) = Ret k.
Proof.
  intros Hk. unfold pool_index, L2_TABLES, PAGE_SIZE.
  replace (pva + k * 4096 - pva) with (k * 4096) by lia.
  rewrite decide_True by (split; [lia|apply Z.mod_mul; lia]). by rewrite Z.div_mul.
Qed.

Lemma pool_index_out pva va : ¬ in_pool pva va → pool_index pva va = Panic.
Proof.
  intros H. unfold pool_index. rewrite decide_False; [done|]. intros [? _]. apply H.
  unfold in_pool. lia.
Qed.

Lemma roots_distinct va va' : va ∈ roots a → KERNEL_VIRT_BASE ≤ va' < U64 → va ≠ va' →
  virt_to_phys va' ≠ virt_to_phys va.
Proof.
  intros Hva Hva' Hne. pose proof (placed_roots _ Ha) as Hr. rewrite Forall_forall in Hr.
  destruct (Hr _ Hva) as (? & ? & _). unfold PAGE_SIZE in *.
  destruct (virt_to_phys_static va) as [-> _]; [lia|].
  destruct (virt_to_phys_static va') as [-> _]; [lia|]. lia.
Qed.

Lemma table_at_roots s :
  table_at a s (virt_to_phys (K_L0_va a)) = Some (K_L0 s) ∧
  table_at a s (virt_to_phys (K_L1_va a)) = Some (l1 (K s)) ∧
  table_at a s (virt_to_phys (U_L0_va a)) = Some (U_L0 s) ∧
  table_at a s (virt_to_phys (U_L1_va a)) = Some (l1 (U s)).
Proof.
  pose proof (placed_nodup _ Ha) as Hn. pose proof (placed_roots _ Ha) as Hr.
  rewrite Forall_forall in Hr. unfold roots in *.
  rewrite !NoDup_cons in Hn. rewrite !not_elem_of_cons in Hn.
  assert (∀ va, va ∈ roots a → KERNEL_VIRT_BASE ≤ va < U64) as Hrange.
  { intros va Hva. destruct (Hr va Hva) as (? & ? & _). unfold PAGE_SIZE in *. lia. }
  destruct Hn as ((? & ? & ? & _) & (? & ? & _) & (? & _) & _).
  unfold table_at. split_and!.
  all: repeat (rewrite decide_False;
    [|apply roots_distinct; [set_solver|apply Hrange; set_solver|congruence]]).
  all: by rewrite decide_True.
Qed.

Lemma table_at_pool s va : KERNEL_VIRT_BASE ≤ va < U64 →
  in_pool (K_POOL_va a) va ∨ in_pool (U_POOL_va a) va →
  table_at a s (virt_to_phys va) =
    match pool_index (K_POOL_va a) va with
    | Ret i => l2_pool (K s) !! Z.to_nat i
    | _ => match pool_index (U_POOL_va a) va with
           | Ret i => l2_pool (U s) !! Z.to_nat i
           | _ => None
           end
    end.
Proof.
  intros Hva Hin. pose proof (placed_roots _ Ha) as Hr. rewrite Forall_forall in Hr.
  assert (∀ r, r ∈ roots a → r ≠ va) as Hne.
  { intros r Hri ->. destruct (Hr va Hri) as (_ & _ & _ & ? & ?). tauto. }
  unfold table_at.
  do 4 (rewrite decide_False;
    [|apply roots_distinct; [set_solver|done|apply Hne; set_solver]]).
  by destruct (virt_to_phys_static va) as [_ ->].
Qed.

Lemma table_at_K_pool s k : 0 ≤ k < 1024 →
  table_at a s (virt_to_phys (K_POOL_va a + k * PAGE_SIZE)) = l2_pool (K s) !! Z.to_nat k.
Proof.
  intros Hk. destruct (placed_K _ Ha) as (? & ? & _). unfold L2_TABLES in *.
  rewrite table_at_pool; [by rewrite pool_index_in|unfold PAGE_SIZE in *; lia|].
  left. unfold in_pool, PAGE_SIZE, L2_TABLES in *. lia.
Qed.

Lemma table_at_U_pool s k : 0 ≤ k < 1024 →
  table_at a s (virt_to_phys (U_POOL_va a + k * PAGE_SIZE)) = l2_pool (U s) !! Z.to_nat k.
Proof.
  intros Hk. destruct (placed_U _ Ha) as (? & ? & _). pose proof (placed_disjoint _ Ha).
  unfold L2_TABLES in *.
  rewrite table_at_pool; [|unfold PAGE_SIZE in *; lia|
    right; unfold in_pool, PAGE_SIZE, L2_TABLES in *; lia].
  rewrite pool_index_out; [by rewrite pool_index_in|].
  unfold in_pool, PAGE_SIZE, L2_TABLES in *. lia.
Qed.

Lemma read_desc_at s pa t i : table_at a s pa = Some t → read_desc a s pa i = t !! Z.to_nat i.
Proof. intros H. unfold read_desc. by rewrite H. Qed.

(** The part of the walk below level 0. *)
Definition walk_l1 (s : state) (t1 va : Z) : option (Z * Z) :=
  d1 ← read_desc a s t1 (Z.land (Z.shiftr va 30) 0x1ff);
  t2 ← next_table d1;
  d2 ← read_desc a s t2 (Z.land (Z.shiftr va 21) 0x1ff);
  if decide (Z.land d2 3 = DESC_BLOCK)
  then Some (Z.lor (Z.land d2 0x0000FFFFFFE00000) (Z.land va 0x1fffff), d2)
  else None.

Lemma walk_half s pva ts t1 base pa :
  pool_placed pva → wf pva ts → table_at a s t1 = Some (l1 ts) →
  (∀ k, 0 ≤ k < 1024 → table_at a s (virt_to_phys (pva + k * PAGE_SIZE)) = l2_pool ts !! Z.to_nat k) →
  0 ≤ base → base mod 2 ^ 39 = 0 → 0 ≤ pa < 2 ^ 39 →
  walk_l1 s t1 (base + pa) = translate (blk pva ts) pa.
Proof.
  intros Hp [order Hw] Ht1 Hpool Hb Hbm Hpa. unfold walk_l1.
  rewrite !index_field by lia. change 0x1fffff with (2 ^ 21 - 1). rewrite land_mask by lia.
  unfold translate. change BLOCK_SIZE with (2 ^ 21).
  apply Z.div_exact in Hbm; [|lia]. set (q := base / 2 ^ 39) in *. clearbody q. subst base.
  change (2 ^ 39) with (262144 * 2 ^ 21) in *. change (2 ^ 30) with (2 ^ 21 * 512).
  rewrite <-Z.div_div by lia.
  assert (2 ^ 21 = 2097152) as HB by done. rewrite HB in *. clear HB.
  replace (262144 * 2097152 * q + pa) with (pa + (262144 * q) * 2097152) by lia.
  rewrite Z.mod_add, Z.div_add by lia. set (b := pa / 2097152).
  assert (0 ≤ b < 262144) as Hbb.
  { clear -Hpa. unfold b. Z.to_euclidean_division_equations. lia. }
  clearbody b. set (j := b / 512). set (c := b mod 512).
  assert ((b + 262144 * q) mod 512 = c) as ->.
  { replace (262144 * q) with (512 * q * 512) by lia. by rewrite Z.mod_add. }
  assert (0 ≤ j < 512 ∧ 0 ≤ c < 512 ∧ b = j * 512 + c) as (Hj & Hc & Hbjc).
  { clear -Hbb. unfold j, c. Z.to_euclidean_division_equations. lia. }
  assert (((b + 262144 * q) / 512) mod 512 = j) as ->.
  { replace (262144 * q) with (512 * q * 512) by lia. rewrite Z.div_add by lia. fold j.
    replace (512 * q) with (q * 512) by lia. rewrite Z.mod_add by lia. by apply Z.mod_small. }
  clearbody j c. subst b.
  rewrite (read_desc_at _ _ _ _ Ht1).
  destruct (decide (j ∈ order)) as [[k Hk]%list_elem_of_lookup|Hno].
  - destruct (wf_order _ _ _ Hw k j Hk) as [_ He]. rewrite He. simpl.
    pose proof (wf_order_short pva _ _ Hw). pose proof (lookup_lt_Some _ _ _ Hk).
    destruct (pool_desc pva Hp (Z.of_nat k)) as [H3 Hi]; [lia|].
    unfold next_table. rewrite decide_True by done. simpl.
    assert (Z.land (table_desc (virt_to_phys (pva + Z.of_nat k * PAGE_SIZE))) 281474976706560
      = virt_to_phys (pva + Z.of_nat k * PAGE_SIZE)) as ->.
    { apply table_desc_decode; destruct Hp as (? & ? & Hal);
        unfold L2_TABLES, PAGE_SIZE, KERNEL_VIRT_BASE in *;
        destruct (virt_to_phys_static (pva + Z.of_nat k * 4096)) as [-> _];
        unfold KERNEL_VIRT_BASE; try lia.
      Z.to_euclidean_division_equations. lia. }
    destruct (blk_used pva Hp ts order k j c) as (t & Ht & Hlen & ->); [done..|].
    rewrite (read_desc_at _ _ t) by (by rewrite Hpool, Nat2Z.id by lia).
    destruct (lookup_lt_is_Some_2 t (Z.to_nat c)) as [d Hd]; [lia|]. by rewrite Hd.
  - rewrite (wf_free _ _ _ Hw j Hj Hno). simpl. rewrite (blk_free pva ts order) by done.
    by vm_compute.
Qed.

Lemma translate_proper sp sp' pa : space_eq sp sp' → 0 ≤ pa < 2 ^ 39 →
  translate sp pa = translate sp' pa.
Proof.
  intros H Hpa. unfold translate. rewrite H; [done|].
  unfold BLOCKS, BLOCK_SIZE. change (2 ^ 39) with (2 ^ 18 * 2097152) in Hpa.
  split; [apply Z.div_pos; lia|]. apply Z.div_lt_upper_bound; lia.
Qed.


Lemma virt_index x : 0 ≤ x < 2 ^ 39 →
  Z.land (Z.shiftr (KERNEL_VIRT_BASE + x) 39) 0x1ff = 256 ∧ Z.land (Z.shiftr x 39) 0x1ff = 0.
Proof.
  intros Hx. rewrite !index_field by lia. unfold KERNEL_VIRT_BASE. split.
  - replace (0xFFFF800000000000 + x) with (x + 33554176 * 2 ^ 39) by lia.
    rewrite Z.div_add, Z.div_small by lia. done.
  - by rewrite Z.div_small by lia.
Qed.

(** The state [init] leaves: roots and level-0 entries in place, both halves refined. *)
Record booted (s : state) (spK spU : space) : Prop := {
  boot_K0 : K_L0 s !! 256%nat = Some (table_desc (virt_to_phys (K_L1_va a)));
  boot_U0 : U_L0 s !! 0%nat = Some (table_desc (virt_to_phys (U_L1_va a)));
  boot_refines : refines a s s spK spU
}.

Lemma root_table va : va ∈ roots a →
  next_table (table_desc (virt_to_phys va)) = Some (virt_to_phys va).
Proof.
  intros Hva. pose proof (placed_roots _ Ha) as Hr. rewrite Forall_forall in Hr.
  destruct (Hr _ Hva) as (? & ? & Hm & _). unfold PAGE_SIZE, KERNEL_VIRT_BASE in *.
  destruct (virt_to_phys_static va) as [Hp _]; [unfold KERNEL_VIRT_BASE; lia|].
  unfold KERNEL_VIRT_BASE in Hp.
  destruct (table_desc_decode (virt_to_phys va)) as [H3 Hpa]; [rewrite Hp; lia| |].
  { rewrite Hp. clear -Hm. Z.to_euclidean_division_equations. lia. }
  unfold next_table. rewrite decide_True by done. by rewrite Hpa.
Qed.

Lemma walk_booted s spK spU r x : booted s spK spU →
  ttbr0_el1 r = virt_to_phys (U_L0_va a) → ttbr1_el1 r = virt_to_phys (K_L0_va a) →
  0 ≤ x < 2 ^ 39 →
  walk a s r (KERNEL_VIRT_BASE + x) = translate spK x ∧ walk a s r x = translate spU x.
Proof.
  intros [HK0 HU0 Href] Ht0 Ht1 Hx. destruct (virt_index x Hx) as [HiK HiU].
  destruct (table_at_roots s) as (HtK0 & HtK1 & HtU0 & HtU1). unfold walk.
  rewrite HiK, HiU, Ht0, Ht1. change (2 ^ 39) with 549755813888 in *. split.
  - rewrite decide_False by (unfold KERNEL_VIRT_BASE; lia).
    rewrite decide_True by (unfold KERNEL_VIRT_BASE; lia). simpl.
    rewrite (read_desc_at _ _ _ _ HtK0).
    change (Z.to_nat 256) with 256%nat. rewrite HK0. simpl.
    rewrite root_table by (unfold roots; set_solver). simpl.
    etransitivity; [apply (walk_half s (K_POOL_va a) (K s))|apply translate_proper].
    all: try done; try apply Ha; try apply Href; try apply table_at_K_pool.
  - rewrite decide_True by lia. simpl.
    rewrite (read_desc_at _ _ _ _ HtU0).
    change (Z.to_nat 0) with 0%nat. rewrite HU0. simpl.
    rewrite root_table by (unfold roots; set_solver). simpl.
    etransitivity; [apply (walk_half s (U_POOL_va a) (U s) _ 0)|apply translate_proper].
    all: try done; try apply Ha; try apply Href; try apply table_at_U_pool.
Qed.

(** [init] returns, and the hardware then sees the two specified address spaces. *)
Lemma init_ok b map s r : shaped s → map_in_reach b map → extra_in_reach s →
  returns (init a b map s r) (λ '(s', r'), ∀ x, 0 ≤ x < 2 ^ 39 →
    let space ap := address_space b ap map (EXTRA_MMIO_BASE s) (EXTRA_MMIO_SIZE s) in
    walk a s' r' (KERNEL_VIRT_BASE + x) = translate (space AP_EL1_RW) x ∧
    walk a s' r' x = translate (space AP_EL0_RW) x).
Proof.
  intros Hs Hm He. unfold init. apply returns_bind.
  eapply returns_mono; [by apply (build_ok a Ha b map s)|].
  intros s' (k0 & u0 & HK & Hk0 & HU & Hu0 & HKr & HUr & Href). simpl. intros x Hx.
  apply walk_booted; [|done..]. split; [| |done].
  - rewrite HK. apply list_lookup_insert_eq. lia.
  - rewrite HU. apply list_lookup_insert_eq. lia.
Qed.
End walks.

(** ** What is mapped where *)

(** Block [b] belongs to a window. *)
Definition spans (base size b : Z) : Prop :=
  size ≠ 0 ∧ base / BLOCK_SIZE ≤ b < (base + size + BLOCK_SIZE - 1) / BLOCK_SIZE.
#[export] Instance spans_dec base size b : Decision (spans base size b).
Proof. unfold spans. apply _. Defined.

Definition ram_spans (b : board) (r : PhysRegion) (n : Z) : Prop :=
  kind r ≠ Mmio ∧ spans (start r) (sat_sub64 (capped_end b r) (start r)) n.
#[export] Instance ram_spans_dec b r n : Decision (ram_spans b r n).
Proof. unfold ram_spans. apply _. Defined.

Definition window_spans (n : Z) (w : Z * Z * Z * Z) : Prop :=
  let '(base, size, _, _) := w in spans base size n.
#[export] Instance window_spans_dec n w : Decision (window_spans n w).
Proof. destruct w as [[[base size] attr] sh]. simpl. apply _. Defined.

Lemma span_in base size attr ap sh xn sp n : spans base size n →
  span base size attr ap sh xn sp n = block_desc (n * BLOCK_SIZE) attr ap sh xn.
Proof. intros [? ?]. unfold span, paint. by rewrite decide_False, decide_True. Qed.

Lemma span_out base size attr ap sh xn sp n : ¬ spans base size n →
  span base size attr ap sh xn sp n = sp n.
Proof.
  unfold spans, span, paint. intros H. case_decide; [done|].
  rewrite decide_False; [done|]. tauto.
Qed.

Lemma spans_mem base size x : 0 ≤ base → base ≤ x < base + size → spans base size (x / BLOCK_SIZE).
Proof.
  intros Hb Hx. unfold spans. split; [lia|]. unfold BLOCK_SIZE.
  Z.to_euclidean_division_equations. lia.
Qed.

Lemma ram_space_in b ap map sp n : Exists (λ r, ram_spans b r n) map →
  ram_space b ap map sp n = block_desc (n * BLOCK_SIZE) ATTR_NORMAL ap SH_INNER false.
Proof.
  revert sp. induction map as [|r map IH] using rev_ind; intros sp H.
  { by apply Exists_nil in H. }
  unfold ram_space. rewrite fold_left_app. simpl. fold (ram_space b ap map sp).
  apply Exists_app in H. destruct (decide (ram_spans b r n)) as [[Hk Hs]|Hno].
  - rewrite decide_False by done. by apply span_in.
  - assert (ram_space b ap map sp n = block_desc (n * BLOCK_SIZE) ATTR_NORMAL ap SH_INNER false)
      as Hsp.
    { apply IH. destruct H as [H|H]; [done|]. apply Exists_cons in H.
      destruct H as [?|H]; [done|by apply Exists_nil in H]. }
    case_decide; [done|]. rewrite span_out; [done|]. unfold ram_spans in Hno. tauto.
Qed.

Lemma ram_space_out b ap map sp n : Forall (λ r, ¬ ram_spans b r n) map →
  ram_space b ap map sp n = sp n.
Proof.
  revert sp. induction map as [|r map IH]; intros sp H; [done|].
  apply Forall_cons in H as [Hr H]. unfold ram_space. simpl.
  etransitivity; [by apply IH|]. case_decide; [done|]. apply span_out.
  unfold ram_spans in Hr. tauto.
Qed.

Lemma windows_space_out ws sp n : Forall (λ w, ¬ window_spans n w) ws →
  windows_space ws sp n = sp n.
Proof.
  revert sp. induction ws as [|w ws IH]; intros sp H; [done|].
  apply Forall_cons in H as [Hw H]. unfold windows_space. simpl.
  etransitivity; [by apply IH|]. destruct w as [[[base size] attr] sh]. by apply span_out.
Qed.

(** The last window that spans a block decides. *)
Lemma windows_space_last pre base size attr sh post sp n :
  spans base size n → Forall (λ w, ¬ window_spans n w) post →
  windows_space (pre ++ (base, size, attr, sh) :: post) sp n =
    block_desc (n * BLOCK_SIZE) attr AP_EL1_RW sh true.
Proof.
  intros Hs Hp. unfold windows_space. rewrite fold_left_app. simpl.
  etransitivity; [by apply windows_space_out|]. by apply span_in.
Qed.

(** The fields of a block descriptor. *)
Lemma block_desc_decode pa attr ap sh xn : 0 ≤ pa < 2 ^ 48 → pa mod BLOCK_SIZE = 0 →
  0 ≤ attr < 8 → 0 ≤ ap < 4 → 0 ≤ sh < 4 →
  decode_block (block_desc pa attr ap sh xn) = mkAttrs true attr ap sh true pa xn xn.
Proof.
  intros Hpa Hal Ha Hap Hsh. rewrite (block_desc_eq pa) by done.
  assert (within 21 48 pa) as Hw by (apply within_aligned; [lia|done|exact Hal]).
  assert (∀ lo w, 0 ≤ lo → 0 ≤ w → lo + w ≤ 21 → field pa lo w = 0) as Hlow.
  { intros lo w Hlo Hw0 Hlw. unfold field. apply Z.bits_inj'. intros n Hn.
    rewrite Z.land_spec, Z.shiftr_spec, Z.bits_0 by done.
    destruct (decide (n < w)).
    - destruct Hw as [_ Hw]. by rewrite Hw by lia.
    - rewrite Z.ones_spec_high by lia. apply andb_false_r. }
  unfold decode_block. unfold field in *.
  rewrite !Z.shiftr_lor, !Z.land_lor_distr_l, !Z.lor_spec.
  rewrite !Hlow by lia. change 3 with (Z.ones 2) at 1. rewrite <-(Z.shiftr_0_r pa) at 1.
  rewrite Hlow by lia. change 0x0000FFFFFFE00000 with (bit_range 21 48).
  rewrite land_bit_range_within by (done || lia). rewrite !Z.lor_0_l.
  destruct Hw as [_ Hw]. rewrite (Hw 10), (Hw 53), (Hw 54) by lia. simpl orb.
  assert (attr = 0 ∨ attr = 1 ∨ attr = 2 ∨ attr = 3 ∨ attr = 4 ∨ attr = 5 ∨ attr = 6 ∨ attr = 7)
    as Hattr by lia.
  assert (ap = 0 ∨ ap = 1 ∨ ap = 2 ∨ ap = 3) as Hap' by lia.
  assert (sh = 0 ∨ sh = 1 ∨ sh = 2 ∨ sh = 3) as Hsh' by lia.
  clear -Hattr Hap' Hsh'. f_equal; [..|shelve| |].
  all: destruct xn; repeat destruct Hattr as [->|Hattr]; repeat destruct Hap' as [->|Hap'];
    repeat destruct Hsh' as [->|Hsh']; subst; try reflexivity.
  Unshelve.
  rewrite <-(Z.lor_0_r pa) at 2. f_equal.
  destruct xn; repeat destruct Hattr as [->|Hattr]; repeat destruct Hap' as [->|Hap'];
    repeat destruct Hsh' as [->|Hsh']; subst; reflexivity.
Qed.

Lemma block_offset x : 0 ≤ x → Z.lor (x / BLOCK_SIZE * BLOCK_SIZE) (x mod BLOCK_SIZE) = x.
Proof.
  intros Hx. change BLOCK_SIZE with (2 ^ 21). rewrite <-Z.add_nocarry_lor.
  - pose proof (Z.div_mod x (2 ^ 21)). lia.
  - apply Z.bits_inj'. intros n Hn. rewrite Z.land_spec, Z.bits_0.
    destruct (decide (n < 21)).
    + by rewrite Z.mul_pow2_bits_low by lia.
    + rewrite Z.mod_pow2_bits_high by lia. apply andb_false_r.
Qed.

Lemma translate_block (sp : space) x attr ap sh xn : 0 ≤ x < 2 ^ 39 →
  0 ≤ attr < 8 → 0 ≤ ap < 4 → 0 ≤ sh < 4 →
  sp (x / BLOCK_SIZE) = block_desc (x / BLOCK_SIZE * BLOCK_SIZE) attr ap sh xn →
  ∃ d, translate sp x = Some (x, d) ∧
    decode_block d = mkAttrs true attr ap sh true (x - x mod BLOCK_SIZE) xn xn.
Proof.
  intros Hx Ha Hap Hsh Hsp. exists (sp (x / BLOCK_SIZE)). rewrite Hsp.
  assert (x / BLOCK_SIZE * BLOCK_SIZE = x - x mod BLOCK_SIZE) as Hbl.
  { pose proof (Z.div_mod x BLOCK_SIZE). unfold BLOCK_SIZE in *. lia. }
  assert (0 ≤ x / BLOCK_SIZE * BLOCK_SIZE < 2 ^ 48) as Hb.
  { change (2 ^ 39) with 549755813888 in Hx. change (2 ^ 48) with 281474976710656.
    unfold BLOCK_SIZE in *. Z.to_euclidean_division_equations. lia. }
  pose proof (block_desc_decode _ attr ap sh xn Hb (Z_mod_mult _ _) Ha Hap Hsh) as Hd.
  rewrite <-Hbl. split; [|done]. unfold translate. rewrite Hsp.
  apply (f_equal d_block) in Hd as Hd1. apply (f_equal d_pa) in Hd as Hd2.
  unfold decode_block in Hd1, Hd2. cbn [d_block d_pa] in Hd1, Hd2.
  rewrite decide_True by (by apply Z.eqb_eq). rewrite Hd2. by rewrite block_offset by lia.
Qed.

Lemma translate_unmapped (sp : space) x : sp (x / BLOCK_SIZE) = 0 → translate sp x = None.
Proof. intros H. unfold translate. rewrite H. done. Qed.

(** ** Properties *)
Section boot_map.
Context (a : addresses) (Ha : placed a) (b : board) (map : NormalizedMap) (s : state) (r : regs).
Context (Hs : shaped s) (Hm : map_in_reach b map) (He : extra_in_reach s).
Let ws := windows b (EXTRA_MMIO_BASE s) (EXTRA_MMIO_SIZE s).

(** A RAM address in the address space the regions and windows describe. *)
Lemma ram_translates ap region x : 0 ≤ ap < 4 →
  region ∈ map → kind region ≠ Mmio → start region ≤ x < capped_end b region →
  Forall (λ w, ¬ window_spans (x / BLOCK_SIZE) w) ws →
  0 ≤ x < 2 ^ 39 ∧ ∃ d,
    translate (address_space b ap map (EXTRA_MMIO_BASE s) (EXTRA_MMIO_SIZE s)) x = Some (x, d) ∧
    decode_block d = mkAttrs true ATTR_NORMAL ap SH_INNER true (x - x mod BLOCK_SIZE) false false.
Proof.
  intros Hap Hin Hk Hx Hw. pose proof Hm as Hm'. unfold map_in_reach in Hm'.
  rewrite Forall_forall in Hm'. destruct (Hm' region Hin) as [Hst Hen]. split; [lia|].
  assert (Exists (λ r0, ram_spans b r0 (x / BLOCK_SIZE)) map) as Hex.
  { apply Exists_exists. exists region. split; [done|]. split; [done|].
    apply spans_mem; unfold sat_sub64; lia. }
  apply translate_block; [lia|done..|]. unfold address_space.
  rewrite windows_space_out by done. by apply ram_space_in.
Qed.

(** C21. RAM is mapped: for every memory map and device-tree UART below 512 GiB, as far as the board maps them
    ([map_in_reach], [extra_in_reach]; above, the level-1 index would alias), [init] returns (the pool of
    level-2 tables is never exhausted), and a physical address of a region that is not MMIO, below the cap and
    outside the blocks of the MMIO windows, is reached by the hardware walk both through the
    higher half, as Normal memory only EL1 may access, and through the identity map, as Normal
    memory EL0 may access. *)
Theorem init_maps_ram region x :
  region ∈ map → kind region ≠ Mmio → start region ≤ x < capped_end b region →
  Forall (λ w, ¬ window_spans (x / BLOCK_SIZE) w) ws →
  returns (init a b map s r) (λ '(s', r'), ∃ dk du,
    walk a s' r' (KERNEL_VIRT_BASE + x) = Some (x, dk) ∧
    decode_block dk = mkAttrs true ATTR_NORMAL AP_EL1_RW SH_INNER true (x - x mod BLOCK_SIZE)
                        false false ∧
    walk a s' r' x = Some (x, du) ∧
    decode_block du = mkAttrs true ATTR_NORMAL AP_EL0_RW SH_INNER true (x - x mod BLOCK_SIZE)
                        false false).
Proof.
  intros Hin Hk Hx Hw.
  destruct (ram_translates AP_EL1_RW region x) as (Hr & dk & Hdk & Hdk'); [done..|].
  destruct (ram_translates AP_EL0_RW region x) as (_ & du & Hdu & Hdu'); [done..|].
  eapply returns_mono; [by apply init_ok|]. intros [s' r'] Hwalk. destruct (Hwalk x Hr) as [HK HU].
  exists dk, du. by rewrite HK, HU.
Qed.

(** Devices are mapped: an address of an MMIO window that no later window covers is reached
    through both halves with the attribute and shareability of its window, never executable and
    accessible to EL1 only. *)
Theorem init_maps_windows pre base size attr sh post x :
  ws = pre ++ (base, size, attr, sh) :: post → base ≤ x < base + size →
  Forall (λ w, ¬ window_spans (x / BLOCK_SIZE) w) post →
  returns (init a b map s r) (λ '(s', r'), ∃ d,
    walk a s' r' (KERNEL_VIRT_BASE + x) = Some (x, d) ∧ walk a s' r' x = Some (x, d) ∧
    decode_block d = mkAttrs true attr AP_EL1_RW sh true (x - x mod BLOCK_SIZE) true true).
Proof.
  intros Hws Hx Hpost.
  assert (Forall (λ w : Z * Z * Z * Z, let '(base, size, attr, sh) := w in
    0 ≤ base ∧ base + size ≤ 2 ^ 39 ∧ 0 ≤ attr < 8 ∧ 0 ≤ sh < 4) ws) as Hall.
  { destruct He as (? & ? & ?). unfold ws, windows. apply Forall_app. split.
    - destruct b; repeat (constructor; [done|]); constructor.
    - case_decide; repeat constructor; done. }
  rewrite Hws, Forall_forall in Hall. destruct (Hall (base, size, attr, sh)) as (? & ? & ? & ?).
  { set_solver. }
  eapply returns_mono; [by apply init_ok|]. intros [s' r'] Hwalk.
  destruct (Hwalk x) as [HK HU]; [lia|]. fold ws in HK, HU.
  set (n := x / BLOCK_SIZE) in *.
  assert (∀ ap, address_space b ap map (EXTRA_MMIO_BASE s) (EXTRA_MMIO_SIZE s) n =
    block_desc (n * BLOCK_SIZE) attr AP_EL1_RW sh true) as Hsp.
  { intros ap. unfold address_space. fold ws. rewrite Hws.
    apply windows_space_last; [|done]. by apply spans_mem. }
  destruct (translate_block (address_space b AP_EL1_RW map (EXTRA_MMIO_BASE s)
    (EXTRA_MMIO_SIZE s)) x attr AP_EL1_RW sh true) as (d & Hd & Hd'); [lia|done..|apply Hsp|].
  exists d. rewrite HK, HU. split; [done|]. split; [|done]. rewrite <-Hd.
  unfold translate. fold n. by rewrite !Hsp.
Qed.

(** Nothing else is mapped: an address of the low 512 GiB whose 2 MiB block neither a region
    nor an MMIO window touches faults in both halves. *)
Theorem init_maps_nothing_else x :
  0 ≤ x < 2 ^ 39 → Forall (λ r0, ¬ ram_spans b r0 (x / BLOCK_SIZE)) map →
  Forall (λ w, ¬ window_spans (x / BLOCK_SIZE) w) ws →
  returns (init a b map s r) (λ '(s', r'),
    walk a s' r' (KERNEL_VIRT_BASE + x) = None ∧ walk a s' r' x = None).
Proof.
  intros Hx Hr Hw. eapply returns_mono; [by apply init_ok|]. intros [s' r'] Hwalk.
  destruct (Hwalk x Hx) as [-> ->].
  split; apply translate_unmapped; unfold address_space;
    by rewrite windows_space_out, ram_space_out.
Qed.
End boot_map.

(** On the QEMU board the peripheral window is not Device memory: the VideoCore window
    0x3c000000..0x40000000, mapped after it as Normal memory, covers it entirely. *)
Theorem qemu_peripherals_normal a map s r x :
  placed a → shaped s → map_in_reach Qemu map → EXTRA_MMIO_SIZE s = 0 → 0 ≤ EXTRA_MMIO_BASE s ≤ 2 ^ 39 →
  PERIPHERAL_BASE ≤ x < PERIPHERAL_BASE + PERIPHERAL_SIZE →
  returns (init a Qemu map s r) (λ '(s', r'), ∃ d,
    walk a s' r' (KERNEL_VIRT_BASE + x) = Some (x, d) ∧ d_attr (decode_block d) = ATTR_NORMAL).
Proof.
  intros Ha Hs Hm Hz Hb Hx.
  assert (extra_in_reach s) as He by (unfold extra_in_reach; rewrite Hz; lia).
  unfold PERIPHERAL_BASE, PERIPHERAL_SIZE in Hx.
  eapply returns_mono; [by apply (init_ok a Ha Qemu map s r)|]. intros [s' r'] Hwalk.
  destruct (Hwalk x) as [HK _]; [lia|].
  destruct (translate_block (address_space Qemu AP_EL1_RW map (EXTRA_MMIO_BASE s)
    (EXTRA_MMIO_SIZE s)) x ATTR_NORMAL AP_EL1_RW SH_INNER true) as (d & Hd & Hd'); [lia|done..| |].
  { unfold address_space, windows. rewrite Hz.
    apply (windows_space_last [_; _] _ _ _ _ []); [|done]. apply spans_mem; lia. }
  exists d. rewrite HK, Hd'. done.
Qed.

(** ** Witnesses: 1 GiB of RAM under QEMU *)
Definition demo_map : NormalizedMap := [mkRegion 0x100000 0x3c000000 UsableRam].
Definition demo_regs : regs := mkRegs 0 0 0 0 0.

Lemma demo_placed : placed demo_addresses.
Proof.
  split.
  - unfold roots, in_pool. repeat (constructor; [vm_compute; intuition congruence|]). constructor.
  - apply (bool_decide_unpack _). by vm_compute.
  - by vm_compute.
  - by vm_compute.
  - vm_compute. left. congruence.
Qed.

Lemma demo_shaped : shaped state_new.
Proof.
  unfold shaped, shaped_tables.
  split_and!; try apply length_replicate; apply Forall_replicate, length_replicate.
Qed.

Lemma demo_reach : map_in_reach Qemu demo_map ∧ extra_in_reach state_new.
Proof. split; [repeat constructor; by vm_compute|]. by vm_compute. Qed.

Lemma init_maps_ram_witness :
  returns (init demo_addresses Qemu demo_map state_new demo_regs) (λ '(s', r'), ∃ dk du,
    walk demo_addresses s' r' (KERNEL_VIRT_BASE + 0x1234567) = Some (0x1234567, dk) ∧
    decode_block dk = mkAttrs true ATTR_NORMAL AP_EL1_RW SH_INNER true 0x1200000 false false ∧
    walk demo_addresses s' r' 0x1234567 = Some (0x1234567, du) ∧
    decode_block du = mkAttrs true ATTR_NORMAL AP_EL0_RW SH_INNER true 0x1200000 false false).
Proof.
  apply (init_maps_ram demo_addresses demo_placed Qemu demo_map state_new demo_regs
    demo_shaped (proj1 demo_reach) (proj2 demo_reach) (mkRegion 0x100000 0x3c000000 UsableRam)
    0x1234567).
  - by left.
  - done.
  - by vm_compute.
  - apply (bool_decide_unpack _). by vm_compute.
Defined.

Lemma init_maps_windows_witness :
  returns (init demo_addresses Rpi5 demo_map state_new demo_regs) (λ '(s', r'), ∃ d,
    walk demo_addresses s' r' (KERNEL_VIRT_BASE + 0x1c00030000) = Some (0x1c00030000, d) ∧
    walk demo_addresses s' r' 0x1c00030000 = Some (0x1c00030000, d) ∧
    decode_block d = mkAttrs true ATTR_DEVICE AP_EL1_RW SH_NONE true 0x1c00000000 true true).
Proof.
  apply (init_maps_windows demo_addresses demo_placed Rpi5 demo_map state_new demo_regs
    demo_shaped) with (pre := [(SOC_BASE, SOC_MMIO_SIZE, ATTR_DEVICE, SH_NONE)])
    (base := RP1_BASE) (size := RP1_SIZE) (post := []).
  - repeat constructor; by vm_compute.
  - apply demo_reach.
  - reflexivity.
  - by vm_compute.
  - constructor.
Defined.

Lemma init_maps_nothing_else_witness :
  returns (init demo_addresses Qemu demo_map state_new demo_regs) (λ '(s', r'),
    walk demo_addresses s' r' (KERNEL_VIRT_BASE + 0x50000000) = None ∧
    walk demo_addresses s' r' 0x50000000 = None).
Proof.
  apply (init_maps_nothing_else demo_addresses demo_placed Qemu demo_map state_new demo_regs
    demo_shaped (proj1 demo_reach) (proj2 demo_reach)).
  - by vm_compute.
  - apply (bool_decide_unpack _). by vm_compute.
  - apply (bool_decide_unpack _). by vm_compute.
Defined.

Lemma qemu_peripherals_normal_witness :
  returns (init demo_addresses Qemu demo_map state_new demo_regs) (λ '(s', r'), ∃ d,
    walk demo_addresses s' r' (KERNEL_VIRT_BASE + 0x3f201000) = Some (0x3f201000, d) ∧
    d_attr (decode_block d) = ATTR_NORMAL).
Proof.
  apply (qemu_peripherals_normal demo_addresses demo_map state_new demo_regs 0x3f201000
    demo_placed demo_shaped (proj1 demo_reach)); by vm_compute.
Defined.
