(* ===== verification/Mmio.v ===== *)
(** * Memory-mapped registers

    [src/drivers/mmio.rs].  The devices are outside the program: a type [W] of device states
    and what a 32-bit read and write of a register do to it are parameters of every driver
    model ([Hardware]).  Reads may change the state (a FIFO, a status register that clears).

    [trace_hw] is a concrete instance for evaluation: reads are answered from a script and
    every access is recorded. *)
From S2P Require Import Prelude Memory.
Local Open Scope Z_scope.

Class Hardware (W : Type) := {
  read32 : Z → W → Z * W;
  write32 : Z → Z → W → W
}.

(** Memory the devices share with the CPU: a buffer handed to the VideoCore is rewritten by it,
    so the memory is part of the device state. *)
Class Dma (W : Type) := {
  get_mem : W → mem;
  put_mem : mem → W → W;
  get_put m w : get_mem (put_mem m w) = m;
  put_get w : put_mem (get_mem w) w = w
}.

(** [while read32(reg) & mask != 0 { spins += 1; if spins > limit { break } }] and the
    unbounded form (no limit), as a loop over the number of reads made. *)
Section poll.
Context {W : Type} `{Hardware W}.

(** One iteration of [while read32(reg) & mask != 0 {}]. *)
Definition wait_body (reg mask : Z) (w : W) : outcome (W + W) :=
  let '(v, w) := read32 reg w in
  if decide (Z.land v mask ≠ 0) then Ret (inl w) else Ret (inr w).

(** [n] reads of [reg] in a row, each with [mask] set: the device keeps the CPU waiting. *)
Fixpoint busy_for (n : nat) (reg mask : Z) (w : W) : option W :=
  match n with
  | O => Some w
  | S n => let '(v, w) := read32 reg w in
           if decide (Z.land v mask ≠ 0) then busy_for n reg mask w else None
  end.

(** The device answers without [mask] after [n] reads that had it, in state [w']. *)
Definition ready_after (n : nat) (reg mask : Z) (w w' : W) : Prop :=
  ∃ w1, busy_for n reg mask w = Some w1 ∧
    let '(v, w2) := read32 reg w1 in Z.land v mask = 0 ∧ w2 = w'.

Lemma wait_ready n fuel reg mask w w' : ready_after n reg mask w w' → (n < fuel)%nat →
  loop fuel (wait_body reg mask) w = Ret w'.
Proof.
  revert fuel w. induction n as [|n IH]; intros fuel w (w1 & Hb & Hr) Hf;
    (destruct fuel as [|fuel]; [lia|]); simpl in *; unfold wait_body.
  - injection Hb as ->. destruct (read32 reg w1) as [v w2]. destruct Hr as [Hz ->].
    by rewrite decide_False by lia.
  - destruct (read32 reg w) as [v w2] eqn:Hv. case_decide; [|done].
    apply IH; [|lia]. exists w1. auto.
Qed.
End poll.

(** ** A scripted device *)
Inductive event := Rd (reg v : Z) | Wr (reg v : Z).
Record script := mkScript { replies : list Z; events : list event }.

#[export] Instance trace_hw : Hardware script := {
  read32 reg s := let v := default 0 (head (replies s)) in
    (v, mkScript (tail (replies s)) (events s ++ [Rd reg v]));
  write32 reg v s := mkScript (replies s) (events s ++ [Wr reg v])
}.
