(* ===== verification/Uart.v ===== *)
(** * The PL011 serial port

    [src/drivers/uart.rs]: the driver's statics, initialisation, blocking transmit (bounded on
    the Pi 5, unbounded under QEMU), non-blocking receive and the baud-rate divisors.  The
    device is a parameter ([Hardware]); what the port itself does when its transmit FIFO has
    room is the class [Pl011], which the console and the keyboard use. *)
From S2P Require Import Prelude Bits Layout Sync Mmio.
Local Open Scope Z_scope.

Definition UART_DR : Z := 0x00.
Definition UART_FR : Z := 0x18.
Definition UART_IBRD : Z := 0x24.
Definition UART_FBRD : Z := 0x28.
Definition UART_LCRH : Z := 0x2C.
Definition UART_CR : Z := 0x30.
Definition UART_IMSC : Z := 0x38.
Definition UART_ICR : Z := 0x44.
Definition GPFSEL1 : Z := 0x04.
Definition GPPUD : Z := 0x94.
Definition GPPUDCLK0 : Z := 0x98.

(** The statics. *)
Record state := mkState {
  UART_LOCK : SpinLock unit;
  UART_BASE_ADDR : Z;
  UART_READY : bool;
  UART_SKIP_INIT : bool;
  UART_CLOCK_HZ : Z;
  UART_REG_SHIFT : Z;
  UART_REG_IO_WIDTH : Z
}.

Definition state_new (b : board) : state :=
  mkState (lock_new tt) (UART_BASE b) false false 0 0 4.

Definition uart_base (s : state) : Z := UART_BASE_ADDR s.
Definition set_base (base : Z) (s : state) : state :=
  mkState (UART_LOCK s) base (UART_READY s) (UART_SKIP_INIT s) (UART_CLOCK_HZ s)
    (UART_REG_SHIFT s) (UART_REG_IO_WIDTH s).
Definition set_clock_hz (clock : option Z) (s : state) : state :=
  mkState (UART_LOCK s) (UART_BASE_ADDR s) (UART_READY s) (UART_SKIP_INIT s) (default 0 clock)
    (UART_REG_SHIFT s) (UART_REG_IO_WIDTH s).
Definition set_reg_shift (shift : Z) (s : state) : state :=
  mkState (UART_LOCK s) (UART_BASE_ADDR s) (UART_READY s) (UART_SKIP_INIT s) (UART_CLOCK_HZ s)
    shift (UART_REG_IO_WIDTH s).
Definition set_reg_io_width (width : Z) (s : state) : state :=
  mkState (UART_LOCK s) (UART_BASE_ADDR s) (UART_READY s) (UART_SKIP_INIT s) (UART_CLOCK_HZ s)
    (UART_REG_SHIFT s) width.
Definition set_skip_init (skip : bool) (s : state) : state :=
  mkState (UART_LOCK s) (UART_BASE_ADDR s) (UART_READY s) skip (UART_CLOCK_HZ s)
    (UART_REG_SHIFT s) (UART_REG_IO_WIDTH s).
Definition set_ready (s : state) : state :=
  mkState (UART_LOCK s) (UART_BASE_ADDR s) true (UART_SKIP_INIT s) (UART_CLOCK_HZ s)
    (UART_REG_SHIFT s) (UART_REG_IO_WIDTH s).
Definition is_ready (s : state) : bool := UART_READY s.

Definition reg_addr (s : state) (offset : Z) : Z :=
  add64 (uart_base s) (shl64 offset (UART_REG_SHIFT s)).

Definition baud_divisors (clock_hz baud : Z) : Z * Z :=
  if decide (baud = 0) then (0, 0)
  else
    let denom := mul64 16 baud in
    let ibrd := wrap32 (clock_hz / denom) in
    let rem := clock_hz mod denom in
    let frac := wrap32 (add64 (mul64 rem 64) (denom / 2) / denom) in
    let fbrd := if decide (63 < frac) then 63 else frac in
    (ibrd, fbrd).

(** The wait for room in the FIFO gives up after 1_000_000 spins: at most 1_000_001 reads. *)
Definition TX_FUEL : nat := Z.to_nat 1000001.
Lemma TX_FUEL_eq : TX_FUEL = Z.to_nat 1000001.
Proof. reflexivity. Qed.
#[global] Opaque TX_FUEL.

Section driver.
Context {W : Type} `{Hardware W}.

Definition gpio_setup (w : W) : W :=
  let '(gpfsel1, w) := read32 (GPIO_BASE + GPFSEL1) w in
  let gpfsel1 := Z.land gpfsel1 (not32 (Z.lor (Z.shiftl 7 12) (Z.shiftl 7 15))) in
  let gpfsel1 := Z.lor gpfsel1 (Z.lor (Z.shiftl 4 12) (Z.shiftl 4 15)) in
  let w := write32 (GPIO_BASE + GPFSEL1) gpfsel1 w in
  let w := write32 (GPIO_BASE + GPPUD) 0 w in
  let w := write32 (GPIO_BASE + GPPUDCLK0) (Z.lor (Z.shiftl 1 14) (Z.shiftl 1 15)) w in
  write32 (GPIO_BASE + GPPUDCLK0) 0 w.

Definition divisors (s : state) : Z * Z :=
  let clock_hz := wrap32 (UART_CLOCK_HZ s) in
  if decide (clock_hz ≠ 0) then baud_divisors clock_hz 115200 else (26, 3).

Definition CR_ENABLE : Z := Z.lor (Z.lor (Z.shiftl 1 0) (Z.shiftl 1 8)) (Z.shiftl 1 9).

Definition init (b : board) (s : state) (w : W) : state * W :=
  if decide (uart_base s = 0) then (s, w)
  else if UART_SKIP_INIT s then
    let '(cr, w) := read32 (reg_addr s UART_CR) w in
    let w := write32 (reg_addr s UART_CR) (Z.lor cr CR_ENABLE) w in
    (set_ready s, w)
  else
    let w := write32 (reg_addr s UART_CR) 0 w in
    let w := match b with Qemu => gpio_setup w | Rpi5 => w end in
    let w := write32 (reg_addr s UART_ICR) 0x7FF w in
    let '(ibrd, fbrd) := divisors s in
    let w := write32 (reg_addr s UART_IBRD) ibrd w in
    let w := write32 (reg_addr s UART_FBRD) fbrd w in
    let w := write32 (reg_addr s UART_LCRH) (Z.lor (Z.shiftl 1 4) (Z.shiftl 3 5)) w in
    let w := write32 (reg_addr s UART_IMSC) 0 w in
    let w := write32 (reg_addr s UART_CR) CR_ENABLE w in
    (set_ready s, w).

(** One iteration of the wait for room in the transmit FIFO on the Pi 5, where the number of
    spins is capped; under QEMU the wait is [Mmio.wait_body]. *)
Definition tx_wait_body (s : state) (st : Z * W) : outcome (Z * W + W) :=
  let '(spins, w) := st in
  let '(fr, w) := read32 (reg_addr s UART_FR) w in
  if decide (Z.land fr (Z.shiftl 1 5) ≠ 0) then
    let spins := add32 spins 1 in
    if decide (1000000 < spins) then Ret (inr w) else Ret (inl (spins, w))
  else Ret (inr w).

(** [fuel] bounds the wait under QEMU only. *)
Definition write_byte (b : board) (fuel : nat) (s : state) (byte : Z) (w : W) : outcome W :=
  if negb (is_ready s) then Ret w
  else if decide (b = Rpi5 ∧ UART_SKIP_INIT s = true) then
    Ret (write32 (reg_addr s UART_DR) byte w)
  else
    w ← match b with
        | Rpi5 => loop TX_FUEL (tx_wait_body s) (0, w)
        | Qemu => loop fuel (wait_body (reg_addr s UART_FR) (Z.shiftl 1 5)) w
        end;
    Ret (write32 (reg_addr s UART_DR) byte w).

Definition read_byte_nonblocking (s : state) (w : W) : option Z * W :=
  if negb (is_ready s) then (None, w)
  else
    let '(fr, w) := read32 (reg_addr s UART_FR) w in
    if decide (Z.land fr (Z.shiftl 1 4) ≠ 0) then (None, w)
    else let '(v, w) := read32 (reg_addr s UART_DR) w in (Some (wrap8 v), w).

(** [fmt::Write::write_str]. *)
Definition write_str (b : board) (fuel : nat) (s : state) (str : list Z) (w : W) : outcome W :=
  for_each_in str (λ c w,
    w ← (if decide (c = 10) then write_byte b fuel s 13 w else Ret w);
    write_byte b fuel s c w) w.

Definition with_uart {A} (f : W → outcome (A * W)) (s : state) (w : W) :
    outcome (option A * state * W) :=
  if negb (is_ready s) then Ret (None, s, w)
  else
    g ← lock (UART_LOCK s);
    r ← f w;
    Ret (Some r.1, mkState (unlock g) (UART_BASE_ADDR s) (UART_READY s) (UART_SKIP_INIT s)
                     (UART_CLOCK_HZ s) (UART_REG_SHIFT s) (UART_REG_IO_WIDTH s), r.2).
End driver.

(** ** The port as its users see it

    The documented behaviour of a PL011 whose transmitter keeps up: FR.RXFE (bit 4) is set
    exactly when no received byte waits, FR.TXFF (bit 5) is clear, reading DR takes the oldest
    received byte, writing DR sends one. *)
Class Pl011 (W : Type) `{Hardware W} (s : state) := {
  rx : W → list Z;
  tx : W → list Z;
  fr_read w : let '(v, w') := read32 (reg_addr s UART_FR) w in
    rx w' = rx w ∧ tx w' = tx w ∧ Z.land v (Z.shiftl 1 5) = 0 ∧
    (Z.land v (Z.shiftl 1 4) = 0 ↔ rx w ≠ []);
  dr_read w b bs : rx w = b :: bs →
    let '(v, w') := read32 (reg_addr s UART_DR) w in
    wrap8 v = b ∧ rx w' = bs ∧ tx w' = tx w;
  dr_write w v : rx (write32 (reg_addr s UART_DR) v w) = rx w ∧
    tx (write32 (reg_addr s UART_DR) v w) = tx w ++ [v]
}.

(** What reaches the wire for a string: a carriage return before each line feed. *)
Definition crlf (str : list Z) : list Z :=
  str ≫= (λ c, if decide (c = 10) then [13; 10] else [c]).

Lemma crlf_app s1 s2 : crlf (s1 ++ s2) = crlf s1 ++ crlf s2.
Proof. apply bind_app. Qed.

Section port.
Context {W : Type} `{Hardware W} (s : state) `{!Pl011 W s}.
Context (b : board) (fuel : nat) (Hfuel : (0 < fuel)%nat) (Hready : UART_READY s = true).

(** With room in the FIFO a byte goes out at once. *)
Lemma write_byte_port byte w :
  returns (write_byte b fuel s byte w) (λ w', rx w' = rx w ∧ tx w' = tx w ++ [byte]).
Proof.
  unfold write_byte, is_ready. rewrite Hready. simpl. case_decide.
  { simpl. destruct (dr_write w byte). done. }
  apply returns_bind. pose proof (fr_read w) as Hfr.
  eapply (returns_mono _ (λ w', rx w' = rx w ∧ tx w' = tx w)).
  - destruct b.
    + rewrite (loop_exit _ _ _ (read32 (reg_addr s UART_FR) w).2); [|rewrite TX_FUEL_eq; lia|].
      * destruct (read32 _ w) as [v w1]. by destruct Hfr as (? & ? & _).
      * unfold tx_wait_body. destruct (read32 _ w) as [v w1].
        destruct Hfr as (_ & _ & Hv & _). by rewrite decide_False by lia.
    + rewrite (loop_exit _ _ _ (read32 (reg_addr s UART_FR) w).2); [|lia|].
      * destruct (read32 _ w) as [v w1]. by destruct Hfr as (? & ? & _).
      * unfold wait_body. destruct (read32 _ w) as [v w1].
        destruct Hfr as (_ & _ & Hv & _). by rewrite decide_False by lia.
  - intros w' [Hrx Htx]. simpl. destruct (dr_write w' byte) as [-> ->]. by rewrite Hrx, Htx.
Qed.

(** Serial output: the bytes with line feeds expanded, nothing received is lost. *)
Lemma write_str_port str w :
  returns (write_str b fuel s str w) (λ w', rx w' = rx w ∧ tx w' = tx w ++ crlf str).
Proof.
  unfold write_str.
  apply (returns_for_each_in (λ dn w', rx w' = rx w ∧ tx w' = tx w ++ crlf dn)).
  { split; [done|]. by rewrite app_nil_r. }
  intros dn c rest w1 _ [Hr Ht]. rewrite crlf_app. unfold crlf at 2. simpl. rewrite app_nil_r.
  apply returns_bind. case_decide as Hc.
  - eapply returns_mono; [apply write_byte_port|]. intros w2 [Hr2 Ht2].
    eapply returns_mono; [apply write_byte_port|]. intros w3 [-> ->].
    rewrite Hr2, Ht2, Hr, Ht, <-!app_assoc. subst c. done.
  - simpl. eapply returns_mono; [apply write_byte_port|]. intros w3 [-> ->].
    by rewrite Hr, Ht, <-app_assoc.
Qed.

(** Reception takes the oldest byte. *)
Lemma read_byte_port w : let '(r, w') := read_byte_nonblocking s w in
  r = head (rx w) ∧ rx w' = tail (rx w) ∧ tx w' = tx w.
Proof.
  unfold read_byte_nonblocking, is_ready. rewrite Hready. simpl.
  pose proof (fr_read w) as Hfr. destruct (read32 (reg_addr s UART_FR) w) as [v w1].
  destruct Hfr as (Hrx & Htx & _ & Hv). destruct (rx w) as [|c cs] eqn:Hw.
  - rewrite decide_True by (intros Hz; by apply Hv in Hz). by rewrite Hrx.
  - rewrite decide_False by (intros Hz; by apply Hz, Hv).
    pose proof (dr_read w1 c cs) as Hdr. destruct (read32 (reg_addr s UART_DR) w1) as [v2 w2].
    destruct Hdr as (-> & -> & ->); [done|]. by rewrite Htx.
Qed.
End port.

(** ** The transmit wait on an arbitrary device *)

(** The device after [n] reads of a register. *)
Fixpoint reads {W} `{Hardware W} (n : nat) (reg : Z) (w : W) : W :=
  match n with O => w | S n => reads n reg (read32 reg w).2 end.

Lemma tx_wait_bounded {W} `{Hardware W} (s : state) k spins (w : W) :
  0 ≤ spins → (0 < k)%nat → spins + Z.of_nat k = 1000001 →
  ∃ n, (n ≤ k)%nat ∧
    loop k (tx_wait_body s) (spins, w) = Ret (reads n (reg_addr s UART_FR) w).
Proof.
  revert spins w. induction k as [|k IH]; intros spins w Hs Hk0 Hk; [lia|]. cbn [loop].
  destruct (read32 (reg_addr s UART_FR) w) as [v w1] eqn:Hv.
  assert (tx_wait_body s (spins, w) = if decide (Z.land v (Z.shiftl 1 5) ≠ 0) then
    if decide (1000000 < add32 spins 1) then Ret (inr w1) else Ret (inl (add32 spins 1, w1))
    else Ret (inr w1)) as -> by (unfold tx_wait_body; by rewrite Hv).
  assert (∀ n, reads (S n) (reg_addr s UART_FR) w = reads n (reg_addr s UART_FR) w1) as Hw1
    by (intros; simpl; by rewrite Hv).
  case_decide; [|exists 1%nat; split; [lia|by rewrite Hw1]].
  assert (add32 spins 1 = spins + 1) as ->.
  { unfold add32, wrap32. rewrite Z.mod_small; lia. }
  case_decide; [exists 1%nat; split; [lia|by rewrite Hw1]|].
  destruct (IH (spins + 1) w1) as (n & Hn & Hl); [lia..|].
  exists (S n). split; [lia|]. by rewrite Hw1.
Qed.

Lemma write_bounded {W} `{Hardware W} fuel (s : state) byte (w : W) :
  UART_READY s = true →
  ∃ n, (n ≤ Z.to_nat 1000001)%nat ∧
    write_byte Rpi5 fuel s byte w =
      Ret (write32 (reg_addr s UART_DR) byte (reads n (reg_addr s UART_FR) w)).
Proof.
  intros Hr. unfold write_byte, is_ready. rewrite Hr. cbn [negb]. case_decide.
  { exists O. split; [lia|done]. }
  destruct (tx_wait_bounded s TX_FUEL 0 w) as (n & Hn & Hl); [lia|rewrite TX_FUEL_eq; lia..|].
  exists n. split; [by rewrite <-TX_FUEL_eq|]. by rewrite Hl.
Qed.

(** On the Pi 5 transmission always terminates: whatever the device answers, [write_byte]
    reads the flag register at most 1_000_001 times, then writes the byte to the data
    register, and touches nothing else. *)
Theorem write_byte_bounded {W} `{Hardware W} fuel (s : state) byte (w : W) :
  UART_READY s = true →
  ∃ n, (n ≤ Z.to_nat 1000001)%nat ∧
    write_byte Rpi5 fuel s byte w =
      Ret (write32 (reg_addr s UART_DR) byte (reads n (reg_addr s UART_FR) w)).
Proof. apply write_bounded. Qed.

(** Under QEMU the wait is unbounded: the byte is sent exactly when the device at some point
    reports room; while it does not, [write_byte] keeps reading the flag register. *)
Theorem write_byte_waits {W} `{Hardware W} fuel (s : state) byte (w : W) n :
  UART_READY s = true →
  (∀ w', ready_after n (reg_addr s UART_FR) (Z.shiftl 1 5) w w' → (n < fuel)%nat →
     write_byte Qemu fuel s byte w = Ret (write32 (reg_addr s UART_DR) byte w')) ∧
  (∀ w', busy_for fuel (reg_addr s UART_FR) (Z.shiftl 1 5) w = Some w' →
     write_byte Qemu fuel s byte w = NoFuel).
Proof.
  intros Hr. unfold write_byte, is_ready. rewrite Hr. cbn [negb].
  rewrite decide_False by (intros [? _]; done). split.
  - intros w' Hready Hf. by rewrite (wait_ready n fuel _ _ w w').
  - intros w' Hb. assert (loop fuel (wait_body (reg_addr s UART_FR) (Z.shiftl 1 5)) w = NoFuel)
      as ->; [|done].
    revert w Hb. induction fuel as [|k IH]; intros w Hb; [done|]. simpl in *. unfold wait_body.
    destruct (read32 _ w) as [v w1]. case_decide; [|done]. simpl. by apply IH.
Qed.

(** C40. The baud-rate divisors: for any 32-bit clock and baud rate the fractional divisor fits its
    6 bits, the integer divisor its 32 bits without truncation, and the divisor
    [ibrd + fbrd / 64] differs from the exact [clock / (16 * baud)] by at most 1/64 (by at
    most 1/128 when the fraction did not have to be clamped to 63). *)
Theorem baud_divisors_accurate clock baud : is_u32 clock → is_u32 baud → baud ≠ 0 →
  let '(ibrd, fbrd) := baud_divisors clock baud in
  let exact := 64 * clock in
  let programmed := (64 * ibrd + fbrd) * (16 * baud) in
  is_u32 ibrd ∧ 0 ≤ fbrd ≤ 63 ∧ Z.abs (programmed - exact) ≤ 16 * baud ∧
  (fbrd < 63 → 2 * Z.abs (programmed - exact) ≤ 16 * baud).
Proof.
  unfold is_u32. intros Hc Hb Hb0. unfold baud_divisors. rewrite decide_False by done.
  unfold mul64, add64, wrap64, wrap32. rewrite (Z.mod_small (16 * baud)) by lia.
  set (d := 16 * baud). assert (16 ≤ d < 16 * 4294967296) as Hd by (unfold d; lia). clearbody d.
  pose proof (Z.div_mod clock d ltac:(lia)) as Hdm.
  pose proof (Z.mod_pos_bound clock d ltac:(lia)) as Hr.
  set (q := clock / d) in *. set (r := clock mod d) in *.
  assert (0 ≤ q ≤ clock) as Hq.
  { unfold q. split; [apply Z.div_pos; lia|apply Z.div_le_upper_bound; nia]. }
  clearbody q r.
  rewrite (Z.mod_small (r * 64)) by lia.
  pose proof (Z.div_mod d 2 ltac:(lia)) as Hd2. pose proof (Z.mod_pos_bound d 2 ltac:(lia)).
  set (h := d / 2) in *. clearbody h.
  rewrite (Z.mod_small (r * 64 + h)) by lia.
  pose proof (Z.div_mod (r * 64 + h) d ltac:(lia)) as Hf.
  pose proof (Z.mod_pos_bound (r * 64 + h) d ltac:(lia)).
  set (f := (r * 64 + h) / d) in *.
  assert (0 ≤ f ≤ 64) as Hf64.
  { unfold f. split; [apply Z.div_pos; lia|]. apply Z.lt_succ_r.
    apply Z.div_lt_upper_bound; lia. }
  clearbody f. rewrite !Z.mod_small by lia.
  case_decide as H63.
  - assert (f = 64) as -> by lia. split; [lia|]. split; [lia|]. split; [nia|lia].
  - split; [lia|]. split; [lia|]. split; nia.
Qed.

(** ** Witnesses *)
Definition demo_state : state := set_ready (set_base 0x107d001000 (state_new Rpi5)).
Definition demo_world : script := mkScript [0x20; 0x20; 0] [].

Lemma write_byte_bounded_witness : ∃ n, (n ≤ Z.to_nat 1000001)%nat ∧
  write_byte Rpi5 0 demo_state 65 demo_world =
    Ret (write32 (reg_addr demo_state UART_DR) 65
           (reads n (reg_addr demo_state UART_FR) demo_world)).
Proof. apply (write_byte_bounded 0 demo_state 65 demo_world). reflexivity. Defined.

Lemma write_byte_waits_witness :
  write_byte Qemu 4 demo_state 65 demo_world =
    Ret (mkScript [] [Rd 0x107d001018 0x20; Rd 0x107d001018 0x20; Rd 0x107d001018 0;
                      Wr 0x107d001000 65]).
Proof.
  etransitivity; [apply (proj1 (write_byte_waits 4 demo_state 65 demo_world 2 eq_refl)
    (mkScript [] [Rd 0x107d001018 0x20; Rd 0x107d001018 0x20; Rd 0x107d001018 0]))|reflexivity].
  - eexists. split; [reflexivity|]. split; reflexivity.
  - lia.
Defined.

Lemma baud_divisors_accurate_witness :
  baud_divisors 48000000 115200 = (26, 3) ∧
  2 * Z.abs ((64 * 26 + 3) * (16 * 115200) - 64 * 48000000) ≤ 16 * 115200.
Proof.
  split; [reflexivity|].
  pose proof (baud_divisors_accurate 48000000 115200 ltac:(unfold is_u32; lia)
    ltac:(unfold is_u32; lia) ltac:(lia)) as H.
  change (baud_divisors 48000000 115200) with (26, 3) in H. destruct H as (_ & _ & _ & H).
  apply H. lia.
Defined.

(** A port that keeps up: what is waiting and what was sent. *)
Record port := mkPort { p_rx : list Z; p_tx : list Z }.

Definition port_hw (s : state) : Hardware port := {|
  read32 reg p :=
    if decide (reg = reg_addr s UART_FR) then (if decide (p_rx p = []) then 16 else 0, p)
    else if decide (reg = reg_addr s UART_DR) then
      match p_rx p with b :: bs => (b, mkPort bs (p_tx p)) | [] => (0, p) end
    else (0, p);
  write32 reg v p :=
    if decide (reg = reg_addr s UART_DR) then mkPort (p_rx p) (p_tx p ++ [v]) else p
|}.

(** [port_hw] keeps the contract as long as the flag and data registers do not collide. *)
#[export] Program Instance port_pl011 (s : state)
    (Hne : reg_addr s UART_DR ≠ reg_addr s UART_FR) : @Pl011 port (port_hw s) s := {|
  rx p := wrap8 <$> p_rx p; tx := p_tx
|}.
Next Obligation.
  intros s Hne w. simpl. rewrite decide_True by done.
  split; [done|]. split; [done|]. destruct (p_rx w); case_decide; simpl; done || (split; done).
Qed.
Next Obligation.
  intros s Hne w b bs Hw. simpl. rewrite decide_False, decide_True by done.
  cbv beta in Hw. destruct (p_rx w) as [|c cs]; [done|]. by injection Hw as <- <-.
Qed.
Next Obligation.
  intros s Hne w v. simpl. rewrite decide_True by done. done.
Qed.
