(* ===== verification/Log.v ===== *)
(** * Log output

    The formatting of [core::fmt] that the kernel uses, [uart::with_uart] with a line to write, and
    the prints of the Pi 5 that write to the UART's data register without its driver
    ([early_uart_*] in [src/mm/mod.rs], [src/mm/paging.rs] and [src/main.rs]; their delays
    count nops and are not modelled).

    Shown: a printed number reads back as itself, and on a port whose registers do not
    touch memory (or whatever else is watched) a log line returns and changes nothing but the device. *)
From S2P Require Import Prelude Layout Sync Memory Mmio Uart.
Local Open Scope Z_scope.

(** ** Formatting *)
Definition digit (d : Z) : Z := if decide (d < 10) then 48 + d else 87 + d.

Fixpoint digits (n : nat) (base x : Z) : list Z :=
  match n with
  | O => []
  | S n => if decide (x < base) then [digit x] else digits n base (x / base) ++ [digit (x mod base)]
  end.

(** [{}], [{:#x}] and [{:#010x}] of a [u64]. *)
Definition dec (x : Z) : list Z := digits 20 10 x.
Definition hex (x : Z) : list Z := bytes "0x" ++ digits 16 16 x.
Definition hex_010 (x : Z) : list Z :=
  let ds := digits 16 16 x in bytes "0x" ++ replicate (8 - length ds) 48 ++ ds.

(** [early_uart_hex_u64]: all sixteen digits, from the table [HEX]. *)
Definition HEX : list Z := bytes "0123456789abcdef".
Definition nibbles (v : Z) : list Z :=
  (λ i, HEX !!! Z.to_nat (Z.land (Z.shiftr v (4 * i)) 0xF)) <$> (Z.of_nat <$> rev (seq 0 16)).

(** ** Reading numbers back *)
Definition value_of (c : Z) : Z := if decide (c < 58) then c - 48 else c - 87.
Definition number (base : Z) (ds : list Z) : Z := fold_left (λ acc c, acc * base + value_of c) ds 0.

Lemma value_digit d : 0 ≤ d < 16 → value_of (digit d) = d.
Proof. unfold value_of, digit. intros. repeat case_decide; lia. Qed.

Lemma number_snoc base ds c : number base (ds ++ [c]) = number base ds * base + value_of c.
Proof. unfold number. by rewrite fold_left_app. Qed.

Lemma number_zeros base n ds : number base (replicate n 48 ++ ds) = number base ds.
Proof. unfold number. rewrite fold_left_app. induction n as [|n IH]; [done|]. exact IH. Qed.

Lemma number_digits n base x : 2 ≤ base ≤ 16 → 0 ≤ x < base ^ Z.of_nat n →
  number base (digits n base x) = x.
Proof.
  intros Hb. revert x. induction n as [|n IH]; intros x Hx; [simpl in Hx; cbn; lia|]. cbn [digits].
  rewrite Nat2Z.inj_succ, Z.pow_succ_r in Hx by lia. case_decide as Hlt.
  - unfold number. cbn [fold_left]. rewrite value_digit by lia. lia.
  - rewrite number_snoc, IH, value_digit.
    + pose proof (Z.div_mod x base). lia.
    + pose proof (Z.mod_pos_bound x base). lia.
    + split; [apply Z.div_pos; lia|apply Z.div_lt_upper_bound; lia].
Qed.

Lemma nibble_value v i : 0 ≤ v → 0 ≤ i →
  value_of (HEX !!! Z.to_nat (Z.land (Z.shiftr v (4 * i)) 0xF)) = v / 16 ^ i mod 16.
Proof.
  intros Hv Hi. change 0xF with (Z.ones 4). rewrite Z.land_ones, Z.shiftr_div_pow2 by lia.
  rewrite (Z.pow_mul_r 2 4) by lia. change (2 ^ 4) with 16.
  pose proof (Z.mod_pos_bound (v / 16 ^ i) 16 ltac:(lia)) as Hr.
  set (d := (v / 16 ^ i) mod 16) in *. clearbody d.
  assert (d ∈ seqZ 0 16) as Hd by (apply elem_of_seqZ; lia). revert Hd. clear. revert d.
  apply Forall_forall. vm_compute. repeat constructor.
Qed.

Lemma nibbles_from v n acc : 0 ≤ v →
  fold_left (λ acc c, acc * 16 + value_of c)
    ((λ i, HEX !!! Z.to_nat (Z.land (Z.shiftr v (4 * i)) 0xF)) <$> (Z.of_nat <$> rev (seq 0 n))) acc =
  acc * 16 ^ Z.of_nat n + v mod 16 ^ Z.of_nat n.
Proof.
  intros Hv. revert acc. induction n as [|n IH]; intros acc.
  { cbn. rewrite Z.mod_1_r. lia. }
  rewrite seq_S, rev_unit, !fmap_cons. cbn [fold_left]. rewrite IH, nibble_value by lia.
  rewrite Nat2Z.inj_succ, Z.pow_succ_r by lia. rewrite (Z.mul_comm 16).
  rewrite Z.rem_mul_r by lia. cbn [Nat.add]. lia.
Qed.

(** C39. What the kernel prints of a number can be read back: for every 64-bit value the digits of [{}],
    [{:#x}], [{:#010x}] and of [early_uart_hex_u64] denote that value, in base 10 or 16; the padded form
    is at least 10 characters long and [early_uart_hex_u64] exactly 16 digits. *)
Theorem printed_number v : is_u64 v →
  number 10 (dec v) = v ∧ number 16 (drop 2 (hex v)) = v ∧ number 16 (drop 2 (hex_010 v)) = v ∧
  (10 ≤ length (hex_010 v))%nat ∧ number 16 (nibbles v) = v ∧ length (nibbles v) = 16%nat.
Proof.
  unfold is_u64. intros Hv. unfold dec, hex, hex_010, nibbles.
  assert (number 16 (digits 16 16 v) = v) as H16 by (apply number_digits; [lia|exact Hv]).
  split_and!.
  - apply number_digits; [lia|]. change (10 ^ Z.of_nat 20) with 100000000000000000000. lia.
  - exact H16.
  - change (drop 2 (bytes "0x" ++ ?l)) with l. by rewrite number_zeros.
  - rewrite !length_app, length_replicate. simpl. lia.
  - unfold number. rewrite nibbles_from by lia. apply Z.mod_small. exact Hv.
  - by rewrite !length_fmap, length_rev, length_seq.
Qed.

Lemma printed_number_witness : number 10 (dec 1284) = 1284 ∧ hex_010 0x80000 = bytes "0x00080000".
Proof.
  split; [|reflexivity]. apply (printed_number 1284). split; [lia|reflexivity].
Defined.

(** ** Lines *)
Section log.
Context {W : Type} `{Hardware W} (b : board) (fuel : nat).

(** [writeln!(uart, ...)] of a formatted line, and [uart::with_uart(|uart| writeln!(uart, ...))]. *)
Definition writeln (u : Uart.state) (line : list Z) (w : W) : outcome W := write_str b fuel u (line ++ [10]) w.
Definition log (line : list Z) (u : Uart.state) (w : W) : outcome (Uart.state * W) :=
  '(_, u, w) ← with_uart (λ w, w ← writeln u line w; Ret (tt, w)) u w;
  Ret (u, w).

(** The Pi 5's prints without the driver. *)
Definition early_putc (c : Z) (w : W) : W := write32 0x1c00030000 c w.
Definition early_print (s : list Z) (w : W) : W :=
  fold_left (λ w c, early_putc c (if decide (c = 10) then early_putc 13 w else w)) s w.
Definition early_hex (v : Z) (w : W) : W :=
  fold_left (λ w c, early_putc c w) (nibbles v) (early_print (bytes "0x") w).
End log.

(** ** What logging leaves alone *)

(** What is watched of a device: its memory, and whatever else must not change. *)
Class View (W : Type) `{HD : Dma W} := {
  viewed : Type;
  view : W → viewed;
  view_mem w w' : view w' = view w → get_mem w' = get_mem w
}.
Definition mem_view {W} `{HD : Dma W} : View W := {| view := get_mem; view_mem w w' Hw := Hw |}.

Section quiet.
Context {W : Type} `{HW : Hardware W, HD : Dma W, HV : !View W}.

(** The registers of a log line do not change what is watched. *)
Definition uart_quiet (u : Uart.state) : Prop := ∀ (w : W),
  view (read32 (reg_addr u UART_FR) w).2 = view w ∧
  ∀ v, view (write32 (reg_addr u UART_DR) v w) = view w.
Definition early_quiet (b : board) : Prop := b = Rpi5 → ∀ v (w : W), view (write32 0x1c00030000 v w) = view w.

(** Log lines on this port return, and change nothing but the device. *)
Definition logs (b : board) (fuel : nat) (u : Uart.state) : Prop := ∀ line (w : W),
  returns (log b fuel line u w) (λ '(u', w'), u' = u ∧ view w' = view w).

Lemma log_not_ready b fuel u : is_ready u = false → logs b fuel u.
Proof. intros Hr line w. unfold log, with_uart. by rewrite Hr. Qed.

Lemma unlock_uart u : locked (UART_LOCK u) = false →
  mkState (mkLock false (data (UART_LOCK u))) (UART_BASE_ADDR u) (UART_READY u) (UART_SKIP_INIT u)
    (UART_CLOCK_HZ u) (UART_REG_SHIFT u) (UART_REG_IO_WIDTH u) = u.
Proof. destruct u as [[l x] ? ? ? ? ? ?]. simpl. by intros ->. Qed.

Lemma reads_quiet n u (w : W) : uart_quiet u → view (reads n (reg_addr u UART_FR) w) = view w.
Proof.
  intros Hu. revert w. induction n as [|n IH]; intros w; [done|]. cbn [reads]. rewrite IH. apply Hu.
Qed.

Lemma write_byte_quiet fuel u c (w : W) : uart_quiet u →
  returns (write_byte Rpi5 fuel u c w) (λ w', view w' = view w).
Proof.
  intros Hu. destruct (is_ready u) eqn:Hr; [|unfold write_byte; by rewrite Hr].
  destruct (write_bounded fuel u c w Hr) as (n & _ & ->). cbn [returns].
  destruct (Hu (reads n (reg_addr u UART_FR) w)) as [_ ->]. by apply reads_quiet.
Qed.

(** Lines are written, and what is watched stays as it is. *)
Definition writes (b : board) (fuel : nat) (u : Uart.state) : Prop := ∀ line (w : W),
  returns (writeln b fuel u line w) (λ w', view w' = view w).

Lemma writes_bytes b fuel u : (∀ c (w : W), returns (write_byte b fuel u c w) (λ w', view w' = view w)) →
  writes b fuel u.
Proof.
  intros Hb line w. unfold writeln, write_str.
  apply (returns_for_each_in (λ _ w', view w' = view w)); [done|].
  intros dn c rest w1 _ <-. apply returns_bind. case_decide; [|apply Hb].
  eapply returns_mono; [apply Hb|]. intros w2 <-. apply Hb.
Qed.

(** The port always has room for a byte. *)
Definition drains (u : Uart.state) : Prop := ∀ w : W, Z.land (read32 (reg_addr u UART_FR) w).1 (Z.shiftl 1 5) = 0.

(** On the Pi 5 always, whatever the port answers; on QEMU, which waits without limit, on a port
    that has room. *)
Lemma writes_quiet b fuel u : uart_quiet u → (b = Qemu → (0 < fuel)%nat ∧ drains u) → writes b fuel u.
Proof.
  intros Hu Hq. apply writes_bytes. intros c w. destruct b; [by apply write_byte_quiet|].
  destruct (Hq eq_refl) as [Hf Hd]. unfold write_byte. case_match; [done|]. rewrite decide_False by (by intros [? _]).
  specialize (Hd w). destruct (Hu w) as [Hr _].
  rewrite (loop_exit _ _ _ (read32 (reg_addr u UART_FR) w).2); [|lia|].
  - cbn [mbind outcome_bind returns]. by rewrite (proj2 (Hu _)).
  - unfold wait_body. destruct (read32 _ w) as [v w1]. cbn [fst snd] in *. by rewrite decide_False by lia.
Qed.

(** A closure run by [with_uart] on a ready UART. *)
Lemma with_uart_ok {A} (f : W → outcome (A * W)) u w (Q : A * W → Prop) :
  locked (UART_LOCK u) = false → is_ready u = true → returns (f w) Q →
  returns (with_uart f u w) (λ '(o, u', w'), u' = u ∧ ∃ x, o = Some x ∧ Q (x, w')).
Proof.
  intros Hl Hr Hf. unfold with_uart. rewrite Hr. cbn [negb]. unfold lock. rewrite Hl.
  cbn [mbind outcome_bind]. apply returns_bind. eapply returns_mono; [exact Hf|]. intros [x w'] Hq.
  cbn [returns fst snd unlock data]. split; [by apply unlock_uart|by exists x].
Qed.

Lemma logs_writes b fuel u : locked (UART_LOCK u) = false → (is_ready u = true → writes b fuel u) → logs b fuel u.
Proof.
  intros Hl Hw. destruct (is_ready u) eqn:Hr; [|by apply log_not_ready]. intros line w.
  unfold log. apply returns_bind.
  eapply returns_mono; [apply (with_uart_ok _ u w (λ r, view r.2 = view w) Hl Hr)|].
  - apply returns_bind. eapply returns_mono; [by apply Hw|]. done.
  - intros [[o u'] w'] (-> & x & _ & Hm). done.
Qed.

Lemma early_print_quiet s (w : W) : early_quiet Rpi5 → view (early_print s w) = view w.
Proof.
  intros He. unfold early_print. revert w. induction s as [|c s IH]; intros w; [done|]. cbn [fold_left].
  rewrite IH. unfold early_putc. rewrite He by done. case_decide; [by apply He|done].
Qed.

Lemma early_hex_quiet v (w : W) : early_quiet Rpi5 → view (early_hex v w) = view w.
Proof.
  intros He. unfold early_hex. rewrite <-(early_print_quiet (bytes "0x") w He).
  generalize (early_print (bytes "0x") w). clear w. induction (nibbles v) as [|c l IH]; intros w; [done|].
  cbn [fold_left]. rewrite IH. by apply He.
Qed.
End quiet.

(** What is watched after prints without the driver is what it was before. *)
Ltac quiet_log := repeat first [rewrite early_print_quiet by done | rewrite early_hex_quiet by done].
