(* ===== verification/Keyboard.v ===== *)
(** * Keyboard input

    [src/drivers/keyboard.rs]: the 256-byte ring buffer between the serial port and readers,
    [poll], which drains the port into it (called from the timer interrupt and from [read]),
    and [read].  The buffer is shown to be a bounded FIFO queue, and [poll] and [read] are
    specified on that queue. *)
From S2P Require Import Prelude Layout Sync Mmio Ring Uart.
Local Open Scope Z_scope.

Definition BUF_SIZE : Z := 256.

Record RingBuffer := mkRing { buf : list Z; head : Z; tail : Z; rlen : Z }.

Definition RingBuffer_new : RingBuffer := mkRing (replicate 256 0) 0 0 0.

Definition push (b : Z) (r : RingBuffer) : outcome (bool * RingBuffer) :=
  if decide (rlen r = BUF_SIZE) then Ret (false, r)
  else
    buf' ← aset (buf r) (tail r) b;
    Ret (true, mkRing buf' (head r) ((tail r + 1) mod BUF_SIZE) (rlen r + 1)).

Definition pop (r : RingBuffer) : outcome (option Z * RingBuffer) :=
  if decide (rlen r = 0) then Ret (None, r)
  else
    b ← aget (buf r) (head r);
    Ret (Some b, mkRing (buf r) ((head r + 1) mod BUF_SIZE) (tail r) (rlen r - 1)).

Section operations.
Context {W : Type} `{Hardware W} (u : Uart.state).

(** One iteration of the loop of [poll] on the number of bytes taken, the buffer and the port. *)
Definition poll_body (st : Z * RingBuffer * W) : outcome (Z * RingBuffer * W + RingBuffer * W) :=
  let '(spins, r, w) := st in
  let '(o, w) := read_byte_nonblocking u w in
  match o with
  | None => Ret (inr (r, w))
  | Some byte =>
      let byte := if decide (byte = 13) then 10 else byte in
      p ← push byte r;
      let '(ok, r) := p in
      if negb ok then Ret (inr (r, w))
      else
        let spins := spins + 1 in
        if decide (BUF_SIZE ≤ spins) then Ret (inr (r, w)) else Ret (inl (spins, r, w))
  end.

(** At most 256 iterations. *)
Definition poll (l : SpinLock RingBuffer) (w : W) : outcome (SpinLock RingBuffer * W) :=
  match try_lock l with
  | None => Ret (l, w)
  | Some g =>
      r ← loop 256 poll_body (0, data g, w);
      Ret (unlock (guard_set g r.1), r.2)
  end.

(** One iteration of the loop of [read] over the slots of [out]: the bytes stored so far. *)
Definition read_body (st : nat * list Z * RingBuffer) :
    outcome (nat * list Z * RingBuffer + list Z * RingBuffer) :=
  let '(slots, got, r) := st in
  match slots with
  | O => Ret (inr (got, r))
  | S slots =>
      p ← pop r;
      let '(o, r) := p in
      match o with
      | Some b => Ret (inl (slots, got ++ [b], r))
      | None => Ret (inr (got, r))
      end
  end.

(** The result is the bytes stored at the start of [out] (their number is what the code
    returns) for an [out] of [n] bytes. *)
Definition read (n : nat) (l : SpinLock RingBuffer) (w : W) :
    outcome (list Z * SpinLock RingBuffer * W) :=
  p ← poll l w;
  let '(l, w) := p in
  g ← lock l;
  r ← loop (S n) read_body (n, [], data g);
  Ret (r.1, unlock (guard_set g r.2), w).

(** What reading the port keeps, [poll] and [read] keep. *)
Lemma poll_keeps (P : W → Prop) l w r : (∀ w, P w → P (read_byte_nonblocking u w).2) → P w →
  poll l w = Ret r → P r.2.
Proof.
  intros HP Hw. unfold poll. destruct (try_lock l) as [g|]; [|by intros [= <-]].
  intros ([r1 w1] & Hl & [= <-])%bind_ret_inv. cbn [snd].
  apply (loop_inv (λ st, P st.2) poll_body (λ r, P r.2)) in Hl; [done| |done].
  intros [[sp q] w2] o HPw. unfold poll_body. specialize (HP w2 HPw).
  destruct (read_byte_nonblocking u w2) as [[c|] w3]; [|by intros [= <-]].
  intros ([ok q'] & _ & Ho)%bind_ret_inv. destruct (negb ok); [by injection Ho as <-|].
  case_decide; by injection Ho as <-.
Qed.

Lemma read_keeps (P : W → Prop) n l w r : (∀ w, P w → P (read_byte_nonblocking u w).2) → P w →
  read n l w = Ret r → P r.2.
Proof.
  intros HP Hw. unfold read. intros ([l1 w1] & Hp & Hr)%bind_ret_inv.
  pose proof (poll_keeps P _ _ _ HP Hw Hp) as Hw1.
  apply bind_ret_inv in Hr as (g & _ & Hr). by apply bind_ret_inv in Hr as (r1 & _ & [= <-]).
Qed.
End operations.

(** ** The buffer is a queue *)
Definition queue (r : RingBuffer) : list Z := ring_list BUF_SIZE (buf r) (head r) (rlen r).
Definition wf (r : RingBuffer) : Prop := ring_ok BUF_SIZE (buf r) (head r) (tail r) (rlen r).

Lemma wf_new : wf RingBuffer_new ∧ queue RingBuffer_new = [].
Proof. split; [|done]. by split; vm_compute. Qed.

Lemma queue_len r : wf r → len (queue r) = rlen r.
Proof. intros [_ _ ? _]. apply ring_list_length. lia. Qed.

Lemma push_spec b r : wf r →
  returns (push b r) (λ '(ok, r'), wf r' ∧
    if decide (len (queue r) = BUF_SIZE) then ok = false ∧ r' = r
    else ok = true ∧ queue r' = queue r ++ [b]).
Proof.
  intros Hw. unfold push. rewrite (queue_len r Hw). case_decide; [done|].
  pose proof Hw as [Hs Hh Hl Ht].
  rewrite aset_ret by (rewrite Hs, Ht; apply Z.mod_pos_bound; done). simpl.
  destruct (ring_push BUF_SIZE ltac:(done) (buf r) (head r) (tail r) (rlen r) b) as [H1 H2];
    [done|lia|]. done.
Qed.

Lemma pop_spec r : wf r →
  returns (pop r) (λ '(o, r'), wf r' ∧ o = hd_error (queue r) ∧ queue r' = List.tl (queue r)).
Proof.
  intros Hw. unfold pop. pose proof Hw as [Hs Hh Hl Ht]. case_decide as H0.
  { simpl. split; [done|]. unfold queue. rewrite H0. done. }
  destruct (ring_pop BUF_SIZE ltac:(done) (buf r) (head r) (tail r) (rlen r)) as [H1 H2];
    [done|lia|].
  destruct (aget_total (buf r) (head r)) as (x & -> & Hx); [lia|]. simpl.
  assert (queue r = x :: ring_list BUF_SIZE (buf r) ((head r + 1) mod BUF_SIZE) (rlen r - 1))
    as -> by (unfold queue; by rewrite H2, (list_lookup_total_correct _ _ _ Hx)).
  done.
Qed.

(** ** Polling *)

(** What [poll] stores for a received byte. *)
Definition cook (b : Z) : Z := if decide (b = 13) then 10 else b.

(** The queue and the unread input after a poll: everything waiting when there is room; when the
    buffer fills up, the byte read while it is full is dropped, unless the 256-byte limit ended
    the loop first. *)
Definition poll_spec (q pending : list Z) : list Z * list Z :=
  let room := (256 - length q)%nat in
  (q ++ (cook <$> take room pending),
   if decide (length q = O) then drop room pending else drop (S room) pending).

Section spec.
Context {W : Type} `{Hardware W} (u : Uart.state) `{!Pl011 W u}.
Context (Hready : UART_READY u = true).

Lemma poll_loop_ok (q : list Z) fuel spins r w : wf r →
  (fuel = 256 - Z.to_nat spins)%nat → 0 ≤ spins < 256 →
  (Z.to_nat spins + length q = length (queue r))%nat →
  returns (loop fuel (poll_body u) (spins, r, w)) (λ '(r', w'), wf r' ∧
    let room := (256 - length (queue r))%nat in
    queue r' = queue r ++ (cook <$> take room (rx w)) ∧
    rx w' = (if decide (length q = O) then drop room (rx w) else drop (S room) (rx w)) ∧
    tx w' = tx w).
Proof.
  revert spins r w. induction fuel as [|fuel IH]; intros spins r w Hw Hf Hsp Hq; [lia|].
  cbn [loop]. unfold poll_body at 2. pose proof (read_byte_port u Hready w) as Hrd.
  destruct (read_byte_nonblocking u w) as [o w1]. destruct Hrd as (-> & Hrx1 & Htx1).
  pose proof (queue_len r Hw) as Hql. pose proof (ring_len _ _ _ _ _ Hw) as Hrl.
  unfold BUF_SIZE in Hrl. unfold len in Hql.
  destruct (rx w) as [|b bs] eqn:Hrx; simpl in Hrx1.
  { simpl. rewrite take_nil, !drop_nil. simpl. rewrite app_nil_r, Hrx1.
    split_and!; try done. by case_decide. }
  simpl. fold (cook b). apply returns_bind, returns_bind.
  eapply returns_mono; [by apply push_spec|].
  intros [ok r1] [Hw1 Hpush]. unfold len, BUF_SIZE in Hpush.
  case_decide as Hfull.
  - destruct Hpush as [-> ->]. simpl. replace (256 - length (queue r))%nat with O by lia.
    simpl. rewrite app_nil_r. rewrite decide_False by lia. done.
  - destruct Hpush as [-> Hq1]. simpl.
    assert (256 - length (queue r) = S (256 - S (length (queue r))))%nat as Hroom by lia.
    rewrite Hroom.
    assert (length (queue r1) = S (length (queue r))) as Hlq1.
    { rewrite Hq1, length_app. simpl. lia. }
    unfold BUF_SIZE. destruct (decide (256 ≤ spins + 1)) as [Hlim|Hlim].
    + cbn [returns]. assert (length q = O) as Hq0 by lia.
      assert (256 - S (length (queue r)) = O)%nat as -> by lia.
      rewrite decide_True by done. split; [done|]. by rewrite Hrx1, Hq1.
    + cbn [returns]. eapply returns_mono; [apply (IH (spins + 1) r1 w1 Hw1); lia|].
      intros [r2 w2] (Hw2 & Hq2 & Hrx2 & Htx2). rewrite Hlq1 in Hq2, Hrx2.
      split; [done|]. split; [|split; [by rewrite Hrx2, Hrx1|congruence]].
      rewrite Hq2, Hq1, Hrx1, <-app_assoc. done.
Qed.

(** [poll] with the buffer free: the specified queue, and nothing is sent. *)
Lemma poll_ok l w : locked l = false → wf (data l) →
  returns (poll u l w) (λ '(l', w'), locked l' = false ∧ wf (data l') ∧
    (queue (data l'), rx w') = poll_spec (queue (data l)) (rx w) ∧ tx w' = tx w).
Proof.
  intros Hl Hw. unfold poll, try_lock. rewrite Hl. cbn [data]. apply returns_bind.
  eapply returns_mono; [apply (poll_loop_ok (queue (data l)) 256 0); [done|done|lia|done]|].
  intros [r w'] (Hw' & Hq & Hrx & Htx). simpl. split_and!; try done.
  unfold poll_spec. by rewrite Hq, Hrx.
Qed.

Lemma read_loop_ok n got r : wf r →
  returns (loop (S n) read_body (n, got, r)) (λ '(bs, r'), wf r' ∧
    bs = got ++ take n (queue r) ∧ queue r' = drop n (queue r)).
Proof.
  revert got r. induction n as [|n IH]; intros got r Hw.
  { simpl. by rewrite app_nil_r. }
  change (loop (S (S n)) read_body) with (λ s, x ← read_body s; match x with
    | inl s' => loop (S n) read_body s' | inr v => Ret v end). cbv beta.
  apply returns_bind. unfold read_body at 2. apply returns_bind.
  eapply returns_mono; [by apply pop_spec|]. intros [o r1] (Hw1 & -> & Hq1).
  destruct (queue r) as [|b bs] eqn:Hq; simpl in *.
  - rewrite app_nil_r. done.
  - eapply returns_mono; [by apply IH|]. intros [bs' r2] (Hw2 & -> & ->).
    rewrite Hq1, <-app_assoc. done.
Qed.
End spec.

(** ** Properties *)
Section properties.
Context {W : Type} `{Hardware W} (u : Uart.state) `{!Pl011 W u}.
Context (Hready : UART_READY u = true).

Lemma read_ok n l w : locked l = false → wf (data l) →
  returns (read u n l w) (λ '(bs, l', w'), locked l' = false ∧ wf (data l') ∧ tx w' = tx w ∧
    let '(q, pending) := poll_spec (queue (data l)) (rx w) in
    bs = take n q ∧ queue (data l') = drop n q ∧ rx w' = pending).
Proof.
  intros Hl Hw. unfold read. apply returns_bind.
  eapply returns_mono; [by apply poll_ok|]. intros [l1 w1] (Hl1 & Hw1 & Hq & Htx).
  unfold lock. rewrite Hl1. cbn [mbind outcome_bind data]. apply returns_bind.
  eapply returns_mono; [by apply read_loop_ok|]. intros [bs r] (Hwr & -> & Hqr).
  rewrite <-Hq. simpl. done.
Qed.

(** [read] returns to the reader, in the order received, the buffered bytes followed by what
    the serial port holds, carriage returns turned into line feeds, up to the length asked for;
    whatever is not returned stays buffered or on the port, except that polling a full buffer
    loses one byte.  It always returns, and leaves the buffer unlocked. *)
Theorem read_fifo n l w : locked l = false → wf (data l) →
  returns (read u n l w) (λ '(bs, l', w'), locked l' = false ∧ wf (data l') ∧ tx w' = tx w ∧
    let '(q, pending) := poll_spec (queue (data l)) (rx w) in
    bs = take n q ∧ queue (data l') = drop n q ∧ rx w' = pending).
Proof. apply read_ok. Qed.

(** No input is lost or reordered as long as the buffer has room for all of it: the queue
    grows by exactly the bytes waiting on the port (at most 256 from empty). *)
Theorem poll_lossless l w : locked l = false → wf (data l) →
  (length (queue (data l)) + length (rx w) ≤ 256)%nat →
  returns (poll u l w) (λ '(l', w'),
    queue (data l') = queue (data l) ++ (cook <$> rx w) ∧ rx w' = []).
Proof.
  intros Hl Hw Hroom. eapply returns_mono; [by apply poll_ok|].
  intros [l1 w1] (_ & _ & Hq & _). unfold poll_spec in Hq. injection Hq as -> ->.
  rewrite take_ge by lia. split; [done|]. case_decide; rewrite drop_ge; done || lia.
Qed.

(** A poll of a full buffer reads a byte from the port and loses it. *)
Theorem poll_full_drops l w b bs : locked l = false → wf (data l) →
  length (queue (data l)) = 256%nat → rx w = b :: bs →
  returns (poll u l w) (λ '(l', w'), queue (data l') = queue (data l) ∧ rx w' = bs).
Proof.
  intros Hl Hw Hfull Hrx. eapply returns_mono; [by apply poll_ok|].
  intros [l1 w1] (_ & _ & Hq & _). unfold poll_spec in Hq. rewrite Hfull, Hrx in Hq.
  simpl in Hq. injection Hq as -> ->. by rewrite app_nil_r.
Qed.
End properties.

(** ** Witnesses: a port with two bytes waiting *)
Definition demo_uart : Uart.state := set_ready (Uart.state_new Qemu).
Definition demo_ring : RingBuffer :=
  mkRing (<[255%nat := 104]> (replicate 256 0)) 255 0 1.
Definition demo_port : port := mkPort [105; 13] [].

#[export] Instance demo_hw : Hardware port := port_hw demo_uart.
#[export] Instance demo_pl011 : Pl011 port demo_uart := port_pl011 demo_uart ltac:(done).

Lemma demo_ring_ok : wf demo_ring ∧ queue demo_ring = [104].
Proof. split; [by split; vm_compute|reflexivity]. Qed.

Lemma read_fifo_witness :
  read demo_uart 2 (lock_new demo_ring) demo_port =
    Ret ([104; 105], lock_new (mkRing (<[1%nat := 10]> (<[0%nat := 105]> (buf demo_ring))) 1 2 1),
         mkPort [] []) ∧
  returns (read demo_uart 2 (lock_new demo_ring) demo_port) (λ '(bs, _, _), bs = [104; 105]).
Proof.
  split; [by vm_compute|].
  eapply returns_mono;
    [apply (read_fifo demo_uart eq_refl 2 (lock_new demo_ring) demo_port); [done|]|].
  - apply demo_ring_ok.
  - intros [[bs l'] w'] (_ & _ & _ & Hb). cbn [lock_new data] in Hb.
    rewrite (proj2 demo_ring_ok) in Hb. destruct Hb as [-> _]. reflexivity.
Defined.

Lemma poll_lossless_witness :
  returns (poll demo_uart (lock_new demo_ring) demo_port) (λ '(l', w'),
    queue (data l') = [104; 105; 10] ∧ rx w' = []).
Proof.
  eapply returns_mono;
    [apply (poll_lossless demo_uart eq_refl (lock_new demo_ring) demo_port); [done|..]|].
  - apply demo_ring_ok.
  - cbn [lock_new data]. rewrite (proj2 demo_ring_ok). simpl. lia.
  - intros [l' w']. cbn [lock_new data]. rewrite (proj2 demo_ring_ok). done.
Defined.

Definition full_ring : RingBuffer := mkRing (replicate 256 7) 0 0 256.

Lemma poll_full_drops_witness :
  returns (poll demo_uart (lock_new full_ring) demo_port) (λ '(l', w'),
    queue (data l') = queue full_ring ∧ rx w' = [13]).
Proof.
  apply (poll_full_drops demo_uart eq_refl (lock_new full_ring) demo_port 105 [13]).
  - done.
  - by split; vm_compute.
  - by vm_compute.
  - reflexivity.
Defined.
