(* ===== verification/Cores.v ===== *)
(** * The serial port and the keyboard buffer shared by several cores

    The operations of [src/drivers/uart.rs], [src/drivers/keyboard.rs] and [src/kernel/vfs.rs] that use the
    serial port, cut into single accesses: of a lock word ([src/util/sync.rs]), of a device register, or of
    the ring buffer its lock protects.  Any number of cores run them interleaved in any order, while bytes
    arrive at the port.

    Log lines take [UART_LOCK]; [keyboard::poll] and [keyboard::read] take [INPUT_BUF]'s lock, the former
    only if it is free; what [vfs::write] sends when no console shows it takes no lock.

    Shown: a core that runs alone computes what the sequential models do; log lines are never mixed with
    one another; no byte that arrives is lost, doubled or reordered while the buffer has room; [poll]
    never waits for another core; and text written through [vfs] can split a log line. *)
From S2P Require Import Prelude Layout Sync Mmio Uart Log Keyboard.
Local Open Scope Z_scope.

(** ** Accesses *)

(** What the cores share. *)
Record shared (W : Type) := mkShared { uart_lock : SpinLock unit; input : SpinLock RingBuffer; port : W }.
Arguments mkShared {W}.
Arguments uart_lock {W}.
Arguments input {W}.
Arguments port {W}.

Definition with_uart_lock {W} (l : SpinLock unit) (s : shared W) := mkShared l (input s) (port s).
Definition with_input {W} (l : SpinLock RingBuffer) (s : shared W) := mkShared (uart_lock s) l (port s).
Definition with_port {W} (w : W) (s : shared W) := mkShared (uart_lock s) (input s) w.

(** A byte on its way to the port, about to read FR or to write DR, and the bytes after it. *)
Inductive sending :=
| Wait (spins c : Z) (rest : list Z)
| Put (c : Z) (rest : list Z).

Definition unsent (p : sending) : list Z :=
  match p with Wait _ c rest | Put c rest => c :: rest end.

(** Where a core is: between two operations, or about to make the access named. *)
Inductive pc :=
| Idle
| LogCas (line : list Z) | LogLoad (line : list Z) | LogSend (p : sending) | LogDrop
| WriteSend (p : sending)
| PollCas (next : option nat) | PollFr (next : option nat) (spins : Z) | PollDr (next : option nat) (spins : Z)
| PollPush (next : option nat) (spins c : Z) | PollDrop (next : option nat)
| ReadCas (n : nat) | ReadLoad (n : nat) | ReadPop (n : nat) | ReadDrop.

(** [with_uart] with a line to log; the bytes [vfs::write] sends; [poll]; [read] into [n] bytes. *)
Inductive op := LogLine (line : list Z) | WriteOut (buf : list Z) | Poll | Read (n : nat).

(** What happens, as an observer sees it. *)
Inductive event :=
| Called (cpu : nat) (o : op)
| Begins (line : list Z)                      (* a core has the UART lock for this line *)
| Sent (cpu : nat) (locked : bool) (c : Z)
| Took (c : Z) | Stored (c : Z) | Lost (c : Z) (* from the port; into the buffer, or not *)
| Gave (c : Z)                                (* to a reader *)
| Arrived (c : Z).

Section machine.
Context {W : Type} `{Hardware W} (b : board) (u : Uart.state).

Definition send (bs : list Z) : option sending :=
  match bs with
  | [] => None
  | c :: rest =>
      if is_ready u then
        Some (if decide (b = Rpi5 ∧ UART_SKIP_INIT u = true) then Put c rest else Wait 0 c rest)
      else None
  end.

(** One access of [write_byte]: what is left to do, and the byte sent. *)
Definition send_turn (p : sending) (w : W) : option sending * W * list Z :=
  match p with
  | Wait spins c rest =>
      let '(fr, w) := read32 (reg_addr u UART_FR) w in
      if decide (Z.land fr (Z.shiftl 1 5) ≠ 0) then
        match b with
        | Qemu => (Some (Wait spins c rest), w, [])
        | Rpi5 =>
            let spins := add32 spins 1 in
            if decide (1000000 < spins) then (Some (Put c rest), w, []) else (Some (Wait spins c rest), w, [])
        end
      else (Some (Put c rest), w, [])
  | Put c rest => (send rest, write32 (reg_addr u UART_DR) c w, [c])
  end.

Definition call (o : op) : pc :=
  match o with
  | LogLine line => if is_ready u then LogCas line else Idle
  | WriteOut buf => match send (crlf buf) with Some p => WriteSend p | None => Idle end
  | Poll => PollCas None
  | Read n => PollCas (Some n)
  end.

Definition after_poll (next : option nat) : pc :=
  match next with Some n => ReadCas n | None => Idle end.

(** [with_uart] writing a line. *)
Definition log_access (cpu : nat) (p : pc) (s : shared W) : outcome (pc * shared W * list event) :=
  match p with
  | LogCas line =>
      match try_lock (uart_lock s) with
      | Some g =>
          let p := match send (crlf (line ++ [10])) with Some p => LogSend p | None => LogDrop end in
          Ret (p, with_uart_lock g s, [Begins line])
      | None => Ret (LogLoad line, s, [])
      end
  | LogLoad line => Ret (if locked (uart_lock s) then LogLoad line else LogCas line, s, [])
  | LogSend p =>
      let '(o, w, cs) := send_turn p (port s) in
      Ret (match o with Some p => LogSend p | None => LogDrop end, with_port w s, Sent cpu true <$> cs)
  | LogDrop => Ret (Idle, with_uart_lock (unlock (uart_lock s)) s, [])
  | _ => Ret (p, s, [])
  end.

(** The loop of [vfs::write] that sends to the port. *)
Definition write_access (cpu : nat) (p : sending) (s : shared W) : outcome (pc * shared W * list event) :=
  let '(o, w, cs) := send_turn p (port s) in
  Ret (match o with Some p => WriteSend p | None => Idle end, with_port w s, Sent cpu false <$> cs).

(** [keyboard::poll]. *)
Definition poll_access (p : pc) (s : shared W) : outcome (pc * shared W * list event) :=
  match p with
  | PollCas next =>
      match try_lock (input s) with
      | Some g => Ret (PollFr next 0, with_input g s, [])
      | None => Ret (after_poll next, s, [])
      end
  | PollFr next spins =>
      if negb (is_ready u) then Ret (PollDrop next, s, [])
      else
        let '(fr, w) := read32 (reg_addr u UART_FR) (port s) in
        if decide (Z.land fr (Z.shiftl 1 4) ≠ 0) then Ret (PollDrop next, with_port w s, [])
        else Ret (PollDr next spins, with_port w s, [])
  | PollDr next spins =>
      let '(v, w) := read32 (reg_addr u UART_DR) (port s) in
      Ret (PollPush next spins (wrap8 v), with_port w s, [Took (wrap8 v)])
  | PollPush next spins c =>
      '(ok, r) ← push (cook c) (data (input s));
      if negb ok then Ret (PollDrop next, s, [Lost (cook c)])
      else
        let spins := spins + 1 in
        Ret (if decide (BUF_SIZE ≤ spins) then PollDrop next else PollFr next spins,
             with_input (guard_set (input s) r) s, [Stored (cook c)])
  | PollDrop next => Ret (after_poll next, with_input (unlock (input s)) s, [])
  | _ => Ret (p, s, [])
  end.

(** [keyboard::read] after its poll. *)
Definition read_access (p : pc) (s : shared W) : outcome (pc * shared W * list event) :=
  match p with
  | ReadCas n =>
      match try_lock (input s) with
      | Some g => Ret (ReadPop n, with_input g s, [])
      | None => Ret (ReadLoad n, s, [])
      end
  | ReadLoad n => Ret (if locked (input s) then ReadLoad n else ReadCas n, s, [])
  | ReadPop O => Ret (ReadDrop, s, [])
  | ReadPop (S n) =>
      '(o, r) ← pop (data (input s));
      match o with
      | Some c => Ret (ReadPop n, with_input (guard_set (input s) r) s, [Gave c])
      | None => Ret (ReadDrop, s, [])
      end
  | ReadDrop => Ret (Idle, with_input (unlock (input s)) s, [])
  | _ => Ret (p, s, [])
  end.

(** The access core [cpu] makes at a point. *)
Definition access (cpu : nat) (p : pc) (s : shared W) : outcome (pc * shared W * list event) :=
  match p with
  | Idle => Ret (Idle, s, [])
  | LogCas _ | LogLoad _ | LogSend _ | LogDrop => log_access cpu p s
  | WriteSend p => write_access cpu p s
  | PollCas _ | PollFr _ _ | PollDr _ _ | PollPush _ _ _ | PollDrop _ => poll_access p s
  | ReadCas _ | ReadLoad _ | ReadPop _ | ReadDrop => read_access p s
  end.

(** Which locks a core at a point holds. *)
Definition has_uart (p : pc) : bool := match p with LogSend _ | LogDrop => true | _ => false end.
Definition has_input (p : pc) : bool :=
  match p with
  | PollFr _ _ | PollDr _ _ | PollPush _ _ _ | PollDrop _ | ReadPop _ | ReadDrop => true
  | _ => false
  end.

Record config := mkConfig { sh : shared W; pcs : list pc; trace : list event }.
End machine.
Arguments config W : clear implicits.
Arguments mkConfig {W}.
Arguments sh {W}.
Arguments pcs {W}.
Arguments trace {W}.

(** Computes the access at a point. *)
Tactic Notation "access_simpl" := cbn [access log_access poll_access read_access]; unfold write_access.
Tactic Notation "access_simpl" "in" hyp(Ha) :=
  cbn [access log_access poll_access read_access] in Ha; unfold write_access in Ha.

(** The documented behaviour of a PL011 whatever its transmitter does: FR.RXFE (bit 4) is set exactly when
    no received byte waits, reading DR takes the oldest, writing DR sends a byte. *)
Class SerialLine (W : Type) `{Hardware W} (u : Uart.state) := {
  received : W → list Z;
  sent : W → list Z;
  line_fr w : let '(v, w') := read32 (reg_addr u UART_FR) w in
    received w' = received w ∧ sent w' = sent w ∧ (Z.land v (Z.shiftl 1 4) = 0 ↔ received w ≠ []);
  line_read w c cs : received w = c :: cs →
    let '(v, w') := read32 (reg_addr u UART_DR) w in
    wrap8 v = c ∧ received w' = cs ∧ sent w' = sent w;
  line_write w v : received (write32 (reg_addr u UART_DR) v w) = received w ∧
    sent (write32 (reg_addr u UART_DR) v w) = sent w ++ [v]
}.

Lemma pl011_fr {W} `{Hardware W} u `{!Pl011 W u} w : let '(v, w') := read32 (reg_addr u UART_FR) w in
  rx w' = rx w ∧ tx w' = tx w ∧ (Z.land v (Z.shiftl 1 4) = 0 ↔ rx w ≠ []).
Proof. pose proof (fr_read w) as Hfr. destruct (read32 (reg_addr u UART_FR) w). by destruct Hfr as (? & ? & _ & ?). Qed.

#[export] Instance pl011_line {W} `{Hardware W} u `{!Pl011 W u} : SerialLine W u := {|
  received := rx; sent := tx; line_fr := pl011_fr u; line_read := dr_read; line_write := dr_write
|}.

(** ** Runs *)
Section runs.
Context {W : Type} `{Hardware W} (b : board) (u : Uart.state) `{!SerialLine W u}.
Implicit Types (c : config W).

(** A byte arrives, or the port changes inside (its transmitter drains). *)
Inductive step : config W → config W → Prop :=
| step_access c cpu p p' s' es :
    pcs c !! cpu = Some p → access b u cpu p (sh c) = Ret (p', s', es) →
    step c (mkConfig s' (<[cpu := p']> (pcs c)) (trace c ++ es))
| step_call c cpu o :
    pcs c !! cpu = Some Idle →
    step c (mkConfig (sh c) (<[cpu := call b u o]> (pcs c)) (trace c ++ [Called cpu o]))
| step_arrive c w x :
    received w = received (port (sh c)) ++ [x] → sent w = sent (port (sh c)) →
    step c (mkConfig (with_port w (sh c)) (pcs c) (trace c ++ [Arrived x]))
| step_inside c w :
    received w = received (port (sh c)) → sent w = sent (port (sh c)) →
    step c (mkConfig (with_port w (sh c)) (pcs c) (trace c)).

(** [n] cores between operations, both locks free. *)
Definition start_config (n : nat) (r : RingBuffer) (w : W) : config W :=
  mkConfig (mkShared (lock_new tt) (lock_new r) w) (replicate n Idle) [].
End runs.

(** ** What a trace says *)
Definition arrived (tr : list event) : list Z := omap (λ e, match e with Arrived c => Some c | _ => None end) tr.
Definition took (tr : list event) : list Z := omap (λ e, match e with Took c => Some c | _ => None end) tr.
Definition stored (tr : list event) : list Z := omap (λ e, match e with Stored c => Some c | _ => None end) tr.
Definition lost (tr : list event) : list Z := omap (λ e, match e with Lost c => Some c | _ => None end) tr.
Definition settled (tr : list event) : list Z :=
  omap (λ e, match e with Stored c | Lost c => Some c | _ => None end) tr.
Definition gave (tr : list event) : list Z := omap (λ e, match e with Gave c => Some c | _ => None end) tr.
Definition begun (tr : list event) : list (list Z) :=
  omap (λ e, match e with Begins line => Some line | _ => None end) tr.
Definition transmitted (tr : list event) : list Z :=
  omap (λ e, match e with Sent _ _ c => Some c | _ => None end) tr.
Definition logged (tr : list event) : list Z :=
  omap (λ e, match e with Sent _ true c => Some c | _ => None end) tr.
Definition written (cpu : nat) (tr : list event) : list Z :=
  omap (λ e, match e with Sent i false c => if decide (i = cpu) then Some c else None | _ => None end) tr.
Definition asked (cpu : nat) (tr : list event) : list (list Z) :=
  omap (λ e, match e with Called i (WriteOut buf) => if decide (i = cpu) then Some buf else None | _ => None end) tr.

Lemma arrived_app t1 t2 : arrived (t1 ++ t2) = arrived t1 ++ arrived t2.
Proof. apply omap_app. Qed.
Lemma took_app t1 t2 : took (t1 ++ t2) = took t1 ++ took t2.
Proof. apply omap_app. Qed.
Lemma stored_app t1 t2 : stored (t1 ++ t2) = stored t1 ++ stored t2.
Proof. apply omap_app. Qed.
Lemma lost_app t1 t2 : lost (t1 ++ t2) = lost t1 ++ lost t2.
Proof. apply omap_app. Qed.
Lemma settled_app t1 t2 : settled (t1 ++ t2) = settled t1 ++ settled t2.
Proof. apply omap_app. Qed.
Lemma gave_app t1 t2 : gave (t1 ++ t2) = gave t1 ++ gave t2.
Proof. apply omap_app. Qed.
Lemma begun_app t1 t2 : begun (t1 ++ t2) = begun t1 ++ begun t2.
Proof. apply omap_app. Qed.
Lemma transmitted_app t1 t2 : transmitted (t1 ++ t2) = transmitted t1 ++ transmitted t2.
Proof. apply omap_app. Qed.
Lemma logged_app t1 t2 : logged (t1 ++ t2) = logged t1 ++ logged t2.
Proof. apply omap_app. Qed.
Lemma written_app cpu t1 t2 : written cpu (t1 ++ t2) = written cpu t1 ++ written cpu t2.
Proof. apply omap_app. Qed.
Lemma asked_app cpu t1 t2 : asked cpu (t1 ++ t2) = asked cpu t1 ++ asked cpu t2.
Proof. apply omap_app. Qed.
#[local] Hint Rewrite arrived_app took_app stored_app lost_app settled_app gave_app begun_app transmitted_app logged_app written_app asked_app : trace.

(** What goes on the wire for a log line. *)
Definition wire (line : list Z) : list Z := crlf (line ++ [10]).

(** ** A lock and what its holder carries

    [holder p]: a core at [p] holds the lock, with something in hand: [hand p]. *)
Section guarded.
Context {A : Type} (holder : pc → bool) (hand : pc → list A).

Record guarded (word : bool) (ps : list pc) (v : list A) : Prop := {
  g_word : ∀ i p, ps !! i = Some p → holder p = true → word = true ∧ hand p = v;
  g_one : ∀ i j p q, ps !! i = Some p → ps !! j = Some q → holder p = true → holder q = true → i = j;
  g_none : (∀ i p, ps !! i = Some p → holder p = false) → word = false ∧ v = []
}.

Lemma inserted (ps : list pc) cpu p p' i q : ps !! cpu = Some p → <[cpu := p']> ps !! i = Some q →
  (i = cpu ∧ q = p') ∨ (i ≠ cpu ∧ ps !! i = Some q).
Proof. intros Hp Hq. apply list_lookup_insert_Some in Hq as [(-> & <- & _)|[? ?]]; auto. Qed.

(** A free lock: nothing in hand. *)
Lemma guarded_free ps v : guarded false ps v → v = [] ∧ ∀ i p, ps !! i = Some p → holder p = false.
Proof.
  intros [Hw _ Hn]. assert (∀ i p, ps !! i = Some p → holder p = false) as Hno.
  { intros i p Hp. destruct (holder p) eqn:Hh; [|done]. by destruct (Hw i p Hp Hh). }
  split; [|done]. by apply Hn.
Qed.

Lemma guarded_held word ps v cpu p : guarded word ps v → ps !! cpu = Some p → holder p = true →
  word = true ∧ v = hand p ∧ ∀ i q, i ≠ cpu → ps !! i = Some q → holder q = false.
Proof.
  intros [Hw Ho _] Hp Hh. destruct (Hw _ _ Hp Hh) as [-> <-]. split_and!; [done..|].
  intros i q Hi Hq. destruct (holder q) eqn:Hhq; [|done]. by destruct Hi, (Ho i cpu q p).
Qed.

Lemma guarded_hand word ps v : guarded word ps v →
  v = [] ∨ ∃ i p, ps !! i = Some p ∧ holder p = true ∧ v = hand p.
Proof.
  intros [Hw _ Hn]. destruct (list_find (λ p, holder p = true) ps) as [[i p]|] eqn:Hf.
  - apply list_find_Some in Hf as (Hp & Hh & _). right. exists i, p. split_and!; [done..|].
    by destruct (Hw i p Hp Hh).
  - left. apply list_find_None in Hf. rewrite Forall_lookup in Hf. apply Hn.
    intros i p Hp. specialize (Hf i p Hp). by destruct (holder p).
Qed.

(** Steps outside, into, inside and out of the section. *)
Lemma guarded_outside word ps v cpu p p' : guarded word ps v → ps !! cpu = Some p →
  holder p = false → holder p' = false → guarded word (<[cpu := p']> ps) v.
Proof.
  intros [Hw Ho Hn] Hp Hh Hh'. split.
  - intros i q [[-> ->]|[_ Hq]]%(inserted _ _ _ _ _ _ Hp); [congruence|by eapply Hw].
  - intros i j q r [[-> ->]|[_ Hq]]%(inserted _ _ _ _ _ _ Hp) [[-> ->]|[_ Hr]]%(inserted _ _ _ _ _ _ Hp);
      try congruence. by eapply Ho.
  - intros Hall. apply Hn. intros i q Hq. destruct (decide (i = cpu)) as [->|Hi]; [congruence|].
    apply (Hall i). by rewrite list_lookup_insert_ne.
Qed.

Lemma guarded_alone ps cpu p p' : ps !! cpu = Some p → holder p' = true →
  (∀ i q, i ≠ cpu → ps !! i = Some q → holder q = false) → guarded true (<[cpu := p']> ps) (hand p').
Proof.
  intros Hp Hh Ha. split.
  - intros i q [[-> ->]|[Hi Hq]]%(inserted _ _ _ _ _ _ Hp) Hq'; [done|]. by rewrite (Ha i q Hi Hq) in Hq'.
  - intros i j q r [[-> ->]|[Hi Hq]]%(inserted _ _ _ _ _ _ Hp) [[-> ->]|[Hj Hr]]%(inserted _ _ _ _ _ _ Hp) Hq' Hr';
      try done.
    + by rewrite (Ha j r Hj Hr) in Hr'.
    + by rewrite (Ha i q Hi Hq) in Hq'.
    + by rewrite (Ha i q Hi Hq) in Hq'.
  - intros Hall. rewrite (Hall cpu p') in Hh; [done|]. by eapply list_lookup_insert_eq, lookup_lt_Some.
Qed.

Lemma guarded_acquire ps v cpu p p' : guarded false ps v → ps !! cpu = Some p → holder p' = true →
  guarded true (<[cpu := p']> ps) (hand p') ∧ v = [].
Proof.
  intros Hg Hp Hh. destruct (guarded_free _ _ Hg) as [-> Hno]. split; [|done].
  eapply guarded_alone; [done..|]. intros i q _ Hq. by eapply Hno.
Qed.

Lemma guarded_keep word ps v cpu p p' : guarded word ps v → ps !! cpu = Some p →
  holder p = true → holder p' = true → guarded word (<[cpu := p']> ps) (hand p') ∧ v = hand p.
Proof.
  intros Hg Hp Hh Hh'. destruct (guarded_held _ _ _ _ _ Hg Hp Hh) as (-> & -> & Ha).
  split; [|done]. by eapply guarded_alone.
Qed.

Lemma guarded_release word ps v cpu p p' : guarded word ps v → ps !! cpu = Some p →
  holder p = true → holder p' = false → guarded false (<[cpu := p']> ps) [] ∧ v = hand p.
Proof.
  intros Hg Hp Hh Hh'. destruct (guarded_held _ _ _ _ _ Hg Hp Hh) as (_ & -> & Ha). split; [|done].
  assert (∀ i q, <[cpu := p']> ps !! i = Some q → holder q = false) as Hno.
  { intros i q [[-> ->]|[Hi Hq]]%(inserted _ _ _ _ _ _ Hp); [done|by eapply Ha]. }
  split; [|..|done].
  - intros i q Hq. by rewrite (Hno i q Hq).
  - intros i j q r Hq _. by rewrite (Hno i q Hq).
Qed.
End guarded.

(** ** The invariant *)
Definition hand_uart (p : pc) : list Z := match p with LogSend p => unsent p | _ => [] end.
Definition hand_input (p : pc) : list Z := match p with PollPush _ _ c => [cook c] | _ => [] end.
Definition hand_write (p : pc) : list Z := match p with WriteSend p => unsent p | _ => [] end.

Section access_facts.
Context {W : Type} `{Hardware W} (b : board) (u : Uart.state) `{!SerialLine W u} (Hready : is_ready u = true).
Implicit Types (s : shared W).

Lemma send_ready bs : match send b u bs with Some p => unsent p = bs | None => bs = [] end.
Proof. unfold send. destruct bs; [done|]. rewrite Hready. by case_decide. Qed.

Lemma send_turn_ok p w o w' cs : send_turn b u p w = (o, w', cs) →
  received w' = received w ∧ sent w' = sent w ++ cs ∧
  unsent p = cs ++ match o with Some p => unsent p | None => [] end ∧ (cs = [] ∨ ∃ x, cs = [x]).
Proof.
  destruct p as [k c rest|c rest]; cbn [send_turn].
  - pose proof (line_fr w) as Hfr. destruct (read32 _ w) as [v w1]. destruct Hfr as (Hrx & Htx & _).
    repeat case_decide; repeat case_match; intros [= <- <- <-]; rewrite app_nil_r; auto.
  - intros [= <- <- <-]. destruct (line_write w c) as [-> ->]. split_and!; [done..| |by right; exists c].
    pose proof (send_ready rest) as Hs. by destruct (send b u rest) as [p|]; rewrite Hs.
Qed.

Lemma try_lock_some {T} (l g : SpinLock T) : try_lock l = Some g → locked l = false ∧ g = mkLock true (data l).
Proof. unfold try_lock. destruct (locked l); [done|]. by intros [= <-]. Qed.

(** Takes the access at a point apart. *)
Ltac access_cases Ha :=
  repeat match type of Ha with
  | (x ← ?m; _) = Ret _ => let r := fresh "r" in let Hr := fresh "Hr" in
      apply bind_ret_inv in Ha as (r & Hr & Ha); try destruct r as [? ?]
  | context [send_turn b u ?p ?w] => let E := fresh "Hs" in destruct (send_turn b u p w) as [[? ?] ?] eqn:E
  | context [match ?x with _ => _ end] => let E := fresh "E" in destruct x eqn:E
  end; try (injection Ha as <- <- <-).
(** The UART lock: what is sent under it is what its holder had in hand. *)
Lemma access_uart cpu p s p' s' es ps v : access b u cpu p s = Ret (p', s', es) → ps !! cpu = Some p →
  guarded has_uart hand_uart (locked (uart_lock s)) ps v →
  ∃ v', guarded has_uart hand_uart (locked (uart_lock s')) (<[cpu := p']> ps) v' ∧
    logged es ++ v' = v ++ concat (wire <$> begun es).
Proof.
  intros Ha Hp Hg.
  assert (has_uart p = false → has_uart p' = false → uart_lock s' = uart_lock s → logged es = [] → begun es = [] →
    ∃ v', guarded has_uart hand_uart (locked (uart_lock s')) (<[cpu := p']> ps) v' ∧
      logged es ++ v' = v ++ concat (wire <$> begun es)) as Hout.
  { intros Hh Hh' -> -> ->. exists v. split; [by eapply guarded_outside|]. simpl. by rewrite app_nil_r. }
  destruct p; access_simpl in Ha; access_cases Ha;
    try (apply Hout; solve [done | by repeat case_match | by destruct next]).
  - apply try_lock_some in E as [Hf ->]. rewrite Hf in Hg.
    destruct (guarded_acquire _ _ _ _ _ _ (LogSend s1) Hg Hp) as [Hg' ->]; [done|].
    eexists. split; [exact Hg'|]. pose proof (send_ready (crlf (line ++ [10]))) as Hs. rewrite E0 in Hs.
    simpl. by rewrite Hs, app_nil_r.
  - apply try_lock_some in E as [Hf ->]. rewrite Hf in Hg.
    destruct (guarded_acquire _ _ _ _ _ _ LogDrop Hg Hp) as [Hg' ->]; [done|].
    eexists. split; [exact Hg'|]. pose proof (send_ready (crlf (line ++ [10]))) as Hs. rewrite E0 in Hs.
    simpl. unfold wire. by rewrite Hs.
  - destruct (send_turn_ok _ _ _ _ _ Hs) as (_ & _ & Hu & Hl).
    destruct (guarded_keep _ _ _ _ _ _ _ (LogSend s0) Hg Hp) as [Hg' ->]; [done..|].
    eexists. split; [exact Hg'|]. cbn [hand_uart]. rewrite Hu. destruct Hl as [->|[x ->]]; simpl; by rewrite app_nil_r.
  - destruct (send_turn_ok _ _ _ _ _ Hs) as (_ & _ & Hu & Hl).
    destruct (guarded_keep _ _ _ _ _ _ _ LogDrop Hg Hp) as [Hg' ->]; [done..|].
    eexists. split; [exact Hg'|]. cbn [hand_uart]. rewrite Hu. destruct Hl as [->|[x ->]]; simpl; done.
  - destruct (guarded_release _ _ _ _ _ _ _ Idle Hg Hp) as [Hg' ->]; [done..|].
    exists []. by split.
  - destruct (send_turn_ok _ _ _ _ _ Hs) as (_ & _ & _ & [->|[x ->]]); by apply Hout.
  - destruct (send_turn_ok _ _ _ _ _ Hs) as (_ & _ & _ & [->|[x ->]]); by apply Hout.
Qed.

(** The keyboard lock: a byte taken is in hand until it is stored or lost. *)
Lemma access_input cpu p s p' s' es ps v : access b u cpu p s = Ret (p', s', es) → ps !! cpu = Some p →
  guarded has_input hand_input (locked (input s)) ps v →
  ∃ v', guarded has_input hand_input (locked (input s')) (<[cpu := p']> ps) v' ∧
    settled es ++ v' = v ++ (cook <$> took es).
Proof.
  intros Ha Hp Hg.
  assert (has_input p = false → has_input p' = false → input s' = input s → settled es = [] → took es = [] →
    ∃ v', guarded has_input hand_input (locked (input s')) (<[cpu := p']> ps) v' ∧
      settled es ++ v' = v ++ (cook <$> took es)) as Hout.
  { intros Hh Hh' -> -> ->. exists v. split; [by eapply guarded_outside|]. simpl. by rewrite app_nil_r. }
  assert (has_input p = true → has_input p' = true → locked (input s') = locked (input s) →
    settled es ++ hand_input p' = hand_input p ++ (cook <$> took es) →
    ∃ v', guarded has_input hand_input (locked (input s')) (<[cpu := p']> ps) v' ∧
      settled es ++ v' = v ++ (cook <$> took es)) as Hin.
  { intros Hh Hh' -> He. destruct (guarded_keep _ _ _ _ _ _ _ p' Hg Hp Hh Hh') as [Hg' ->]. eauto. }
  destruct p; access_simpl in Ha; access_cases Ha;
    try (apply Hout; solve [done | by repeat case_match | by destruct next]);
    try (apply Hin; solve [done | by repeat case_match]).
  all: try (destruct (send_turn_ok _ _ _ _ _ Hs) as (_ & _ & _ & [->|[x ->]]); by apply Hout).
  - apply try_lock_some in E as [Hf ->]. rewrite Hf in Hg.
    destruct (guarded_acquire _ _ _ _ _ _ (PollFr next 0) Hg Hp) as [Hg' ->]; [done|]. by exists [].
  - destruct (guarded_release _ _ _ _ _ _ _ (after_poll next) Hg Hp) as [Hg' ->]; [done|by destruct next|]. by exists [].
  - apply try_lock_some in E as [Hf ->]. rewrite Hf in Hg.
    destruct (guarded_acquire _ _ _ _ _ _ (ReadPop n) Hg Hp) as [Hg' ->]; [done|]. by exists [].
  - destruct (guarded_release _ _ _ _ _ _ _ Idle Hg Hp) as [Hg' ->]; [done..|]. by exists [].
Qed.

(** What an access moves between the port, the core's hand, the buffer and the readers. *)
Record moved (p : pc) s (p' : pc) s' (es : list event) : Prop := {
  m_wf : wf (data (input s'));
  m_took : received (port s) = took es ++ received (port s');
  m_sent : sent (port s') = sent (port s) ++ transmitted es;
  m_queue : queue (data (input s)) ++ stored es = gave es ++ queue (data (input s'));
  m_waiting n k : p' = PollDr n k → received (port s') ≠ [];
  m_lost : lost es = [] ∧ settled es = stored es ∨
    length (queue (data (input s))) = 256%nat ∧ ∃ n k c, p = PollPush n k c
}.

Lemma moved_nothing p s p' s' es : wf (data (input s)) →
  data (input s') = data (input s) → port s' = port s → es = [] ∨ (∃ line, es = [Begins line]) →
  (∀ n k, p' ≠ PollDr n k) → moved p s p' s' es.
Proof.
  intros Hw Hd Hp Hes Hp'. assert (took es = [] ∧ transmitted es = [] ∧ stored es = [] ∧ gave es = [] ∧
    lost es = [] ∧ settled es = []) as (E1 & E2 & E3 & E4 & E5 & E6) by (destruct Hes as [->|[line ->]]; done).
  split; rewrite ?Hd, ?Hp, ?E1, ?E2, ?E3, ?E4, ?app_nil_r; try done.
  - intros n k ->. by destruct (Hp' n k).
  - left. by rewrite E5, E6.
Qed.

Lemma moved_sent p s p' cpu l w x w' o q : wf (data (input s)) → send_turn b u q (port s) = (o, w, x) →
  w' = with_port w s → (∀ n k, p' ≠ PollDr n k) → moved p s p' w' (Sent cpu l <$> x).
Proof.
  intros Hw Hs -> Hp'. destruct (send_turn_ok _ _ _ _ _ Hs) as (Hr & Ht & _ & Hx).
  split; cbn [with_port input port]; rewrite ?Hr, ?Ht; try done.
  - by destruct Hx as [->|[y ->]].
  - by destruct Hx as [->|[y ->]].
  - destruct Hx as [->|[y ->]]; by rewrite app_nil_r.
  - intros n k ->. by destruct (Hp' n k).
  - left. by destruct Hx as [->|[y ->]].
Qed.

Lemma stored_ok c r ok r' : wf r → push c r = Ret (ok, r') → negb ok = false → wf r' ∧ queue r' = queue r ++ [c].
Proof.
  intros Hw Hr Hok. destruct (returns_det _ _ _ (push_spec c r Hw) Hr) as [Hw' Hp].
  case_decide; destruct Hp as [-> ?]; done.
Qed.

Lemma access_moves cpu p s p' s' es : access b u cpu p s = Ret (p', s', es) → wf (data (input s)) →
  (∀ n k, p = PollDr n k → received (port s) ≠ []) → moved p s p' s' es.
Proof.
  intros Ha Hw Hdr.
  destruct p; access_simpl in Ha; access_cases Ha;
    try (by eapply moved_sent);
    try (apply moved_nothing; solve [done | by repeat case_match | by destruct next | by left | right; eauto]).
  - apply try_lock_some in E as [_ ->]. apply moved_nothing; by auto.
  - pose proof (line_fr (port s)) as Hfr. rewrite E0 in Hfr. destruct Hfr as (Hr & Ht & _).
    split; cbn [with_port input port]; rewrite ?Hr, ?Ht, ?app_nil_r; by auto.
  - pose proof (line_fr (port s)) as Hfr. rewrite E0 in Hfr. destruct Hfr as (Hr & Ht & Hrx).
    split; cbn [with_port input port]; rewrite ?Hr, ?Ht, ?app_nil_r; try (by auto).
    intros ? ? _. apply Hrx. lia.
  - specialize (Hdr _ _ eq_refl). destruct (received (port s)) as [|x xs] eqn:Hrx; [done|].
    pose proof (line_read _ _ _ Hrx) as Hrd. rewrite E in Hrd. destruct Hrd as (<- & Hr & Ht).
    split; cbn [with_port input port]; rewrite ?Hr, ?Ht, ?Hrx, ?app_nil_r; by auto.
  - pose proof (returns_det _ _ _ (push_spec (cook c) _ Hw) Hr) as [_ Hpush]. cbv beta iota in Hpush.
    case_decide as Hfull; destruct Hpush as [-> _]; [|done].
    split; rewrite ?app_nil_r; try done. right. split; [|by eauto]. unfold len, BUF_SIZE in Hfull. lia.
  - destruct (stored_ok _ _ _ _ Hw Hr) as [Hw' Hq]; [done|]. split; cbn; rewrite ?Hq, ?app_nil_r; by auto.
  - destruct (stored_ok _ _ _ _ Hw Hr) as [Hw' Hq]; [done|]. split; cbn; rewrite ?Hq, ?app_nil_r; by auto.
  - apply try_lock_some in E as [_ ->]. apply moved_nothing; by auto.
  - pose proof (returns_det _ _ _ (pop_spec _ Hw) Hr) as (Hw' & Hh & Hq).
    destruct (queue (data (input s))) as [|x xs] eqn:Hqs; [done|]. injection Hh as ->.
    split; cbn; rewrite ?Hq, ?Hqs, ?app_nil_r; by auto.
Qed.
(** What a core writes without the lock. *)
Lemma access_written cpu p s p' s' es : access b u cpu p s = Ret (p', s', es) →
  hand_write p = written cpu es ++ hand_write p' ∧ (∀ i, i ≠ cpu → written i es = []) ∧
  (∀ i, asked i es = []) ∧ arrived es = [] ∧ (took es = [] ∨ has_input p = true).
Proof.
  intros Ha. destruct p; access_simpl in Ha; access_cases Ha; try (by split_and!; auto);
    try (split_and!; auto; by repeat case_match).
  all: try (destruct (send_turn_ok _ _ _ _ _ Hs) as (_ & _ & Hu & [->|[x ->]]); simpl in *;
    rewrite ?decide_True by done; split_and!; auto; intros; by rewrite ?decide_False).
  all: destruct next; by split_and!; auto.
Qed.

(** No access fails: the arrays of the buffer are in range. *)
Lemma access_returns cpu p s : wf (data (input s)) → returns (access b u cpu p s) (λ _, True).
Proof.
  intros Hw. destruct p as [| | | | | |n|n k|n k|n k x|n|n|n|[|n]|]; access_simpl; try done;
    try (by repeat case_match).
  - apply returns_bind. eapply returns_mono; [by apply push_spec|]. intros [[] r] _; done.
  - apply returns_bind. eapply returns_mono; [by apply pop_spec|]. intros [[] r] _; done.
Qed.
End access_facts.

Section invariant.
Context {W : Type} `{Hardware W} (b : board) (u : Uart.state) `{!SerialLine W u} (Hready : is_ready u = true).
Context (n : nat) (r0 : RingBuffer) (w0 : W) (Hr0 : wf r0).
Implicit Types (c : config W).

Record inv c : Prop := {
  i_uart : ∃ v, guarded has_uart hand_uart (locked (uart_lock (sh c))) (pcs c) v ∧
    logged (trace c) ++ v = concat (wire <$> begun (trace c));
  i_input : ∃ v, guarded has_input hand_input (locked (input (sh c))) (pcs c) v ∧
    settled (trace c) ++ v = cook <$> took (trace c);
  i_waiting i k m : pcs c !! i = Some (PollDr k m) → received (port (sh c)) ≠ [];
  i_ring : wf (data (input (sh c)));
  i_buffer : queue r0 ++ stored (trace c) = gave (trace c) ++ queue (data (input (sh c)));
  i_port : received w0 ++ arrived (trace c) = took (trace c) ++ received (port (sh c));
  i_sent : sent (port (sh c)) = sent w0 ++ transmitted (trace c);
  i_lost : lost (trace c) = [] ∧ settled (trace c) = stored (trace c) ∨
    (256 < length (queue r0) + length (took (trace c)))%nat;
  i_written i : written i (trace c) ++ default [] (hand_write <$> pcs c !! i) = concat (crlf <$> asked i (trace c))
}.

Lemma idle_pcs i p : replicate n Idle !! i = Some p → p = Idle.
Proof. by intros [-> _]%lookup_replicate. Qed.

Lemma idle_guarded holder hand : holder Idle = false → guarded holder hand false (replicate n Idle) ([] : list Z).
Proof.
  intros Hi. split; try done.
  - intros i p ->%idle_pcs. congruence.
  - intros i j p q ->%idle_pcs. congruence.
Qed.

Lemma cores_inv_start : inv (start_config n r0 w0).
Proof.
  split; cbn [start_config sh pcs trace uart_lock input port lock_new locked data]; try done.
  - exists []. by split; [apply idle_guarded|].
  - exists []. by split; [apply idle_guarded|].
  - by intros i k m ?%idle_pcs.
  - by rewrite app_nil_r.
  - by rewrite app_nil_r.
  - by rewrite app_nil_r.
  - by left.
  - intros i. by destruct (replicate n Idle !! i) as [p|] eqn:Hp; [apply idle_pcs in Hp as ->|].
Qed.

Lemma inv_access c cpu p p' s' es : inv c → pcs c !! cpu = Some p → access b u cpu p (sh c) = Ret (p', s', es) →
  inv (mkConfig s' (<[cpu := p']> (pcs c)) (trace c ++ es)).
Proof.
  intros [(v & Hgu & Hu) (v1 & Hgi & Hi) Hwait Hring Hbuf Hport Hsent Hlost Hwr] Hp Ha.
  destruct (access_uart b u Hready _ _ _ _ _ _ _ _ Ha Hp Hgu) as (v' & Hgu' & Hu').
  destruct (access_input b u Hready _ _ _ _ _ _ _ _ Ha Hp Hgi) as (v1' & Hgi' & Hi').
  destruct (access_moves b u Hready _ _ _ _ _ _ Ha Hring) as [Hw' Htook Hst Hq Hwt Hl].
  { intros k m ->. by eapply Hwait. }
  destruct (access_written b u Hready _ _ _ _ _ _ Ha) as (Hw1 & Hw2 & Hw3 & Harr & Hby).
  split; cbn [sh pcs trace]; autorewrite with trace.
  - exists v'. split; [done|]. rewrite fmap_app, concat_app, <-Hu, <-!app_assoc. by f_equal.
  - exists v1'. split; [done|]. rewrite fmap_app, <-Hi, <-!app_assoc. by f_equal.
  - intros i k m Hpi. destruct (inserted _ _ _ _ _ _ Hp Hpi) as [[-> <-]|[Hne Hpi']]; [by eapply Hwt|].
    pose proof (Hwait _ _ _ Hpi') as Hrx. destruct Hby as [Hby|Hby]; [by rewrite Htook, Hby in Hrx|].
    by destruct Hne, (g_one _ _ _ _ _ Hgi i cpu _ p Hpi' Hp).
  - done.
  - rewrite app_assoc, Hbuf, <-!app_assoc. by f_equal.
  - rewrite Harr, app_nil_r, Hport, Htook. by rewrite app_assoc.
  - by rewrite Hst, Hsent, app_assoc.
  - destruct Hlost as [[Hlo Hse]|Hlt]; [|right; rewrite length_app; lia].
    destruct Hl as [[Hlo' Hse']|[Hfull (k & m & x & ->)]]; [left; by rewrite Hlo, Hlo', Hse, Hse'|].
    destruct (guarded_held _ _ _ _ _ _ _ Hgi Hp eq_refl) as (_ & -> & _). right.
    apply (f_equal length) in Hi, Hbuf. rewrite Hse in Hi. rewrite !length_app, ?length_fmap in *. simpl in *. lia.
  - intros i. autorewrite with trace. rewrite Hw3, app_nil_r, <-(Hwr i).
    destruct (decide (i = cpu)) as [->|Hne].
    + rewrite list_lookup_insert_eq, Hp by (by eapply lookup_lt_Some). simpl. by rewrite <-app_assoc, <-Hw1.
    + by rewrite Hw2, app_nil_r, list_lookup_insert_ne by done.
Qed.

Lemma call_free o : has_uart (call b u o) = false ∧ has_input (call b u o) = false ∧
  hand_write (call b u o) = match o with WriteOut buf => crlf buf | _ => [] end ∧
  ∀ k m, call b u o ≠ PollDr k m.
Proof.
  destruct o as [line|buf| |k]; cbn [call]; try done.
  - by rewrite Hready.
  - pose proof (send_ready b u Hready (crlf buf)) as Hs. by destruct (send b u (crlf buf)); [|rewrite Hs].
Qed.

Lemma inv_call c cpu o : inv c → pcs c !! cpu = Some Idle →
  inv (mkConfig (sh c) (<[cpu := call b u o]> (pcs c)) (trace c ++ [Called cpu o])).
Proof.
  intros [(v & Hgu & Hu) (v1 & Hgi & Hi) Hwait Hring Hbuf Hport Hsent Hlost Hwr] Hp.
  destruct (call_free o) as (Hcu & Hci & Hcw & Hcd).
  split; cbn [sh pcs trace]; autorewrite with trace; simpl; rewrite ?app_nil_r; try done.
  - exists v. split; [by eapply guarded_outside|done].
  - exists v1. split; [by eapply guarded_outside|done].
  - intros i k m Hpi. destruct (inserted _ _ _ _ _ _ Hp Hpi) as [[_ Heq]|[_ Hpi']]; [|by eapply Hwait].
    by destruct (Hcd k m).
  - intros i. autorewrite with trace. change (written i [Called cpu o]) with (@nil Z).
    rewrite app_nil_r, fmap_app, concat_app, <-(Hwr i). destruct (decide (i = cpu)) as [->|Hne].
    + rewrite list_lookup_insert_eq, Hp by (by eapply lookup_lt_Some). simpl. rewrite Hcw, app_nil_r. f_equal.
      destruct o; simpl; rewrite ?decide_True by done; simpl; by rewrite ?app_nil_r.
    + rewrite list_lookup_insert_ne by done. destruct o; simpl; rewrite ?decide_False by done; simpl; by rewrite ?app_nil_r.
Qed.

Lemma cores_inv_step c c' : inv c → step b u c c' → inv c'.
Proof.
  intros Hinv Hstep. destruct Hstep as [c cpu p p' s' es Hp Ha|c cpu o Hp|c w x Hrx Htx|c w Hrx Htx].
  - by eapply inv_access.
  - by apply inv_call.
  - destruct Hinv as [Hu Hi Hwait Hring Hbuf Hport Hsent Hlost Hwr].
    split; cbn [sh pcs trace with_port port uart_lock input]; autorewrite with trace; simpl; rewrite ?app_nil_r; try done.
    + rewrite Hrx. intros _ _ _ _. by destruct (received _).
    + by rewrite Hrx, !app_assoc, Hport.
    + congruence.
    + intros i. autorewrite with trace. rewrite !app_nil_r. by apply Hwr.
  - destruct Hinv as [Hu Hi Hwait Hring Hbuf Hport Hsent Hlost Hwr].
    split; cbn [sh pcs trace with_port port uart_lock input]; rewrite ?Hrx, ?Htx; done.
Qed.

Lemma cores_inv_reachable c : rtc (step b u) (start_config n r0 w0) c → inv c.
Proof.
  intros Hr. remember (start_config n r0 w0) as c0 eqn:H0. assert (inv c0) as Hi by (subst; apply cores_inv_start).
  clear H0. induction Hr; [done|]. eauto using cores_inv_step.
Qed.
End invariant.

(** ** Properties *)

Lemma all_logged tr : (∀ cpu, written cpu tr = []) → transmitted tr = logged tr.
Proof.
  induction tr as [|e tr IH]; intros Hw; [done|]. change (e :: tr) with ([e] ++ tr) in *.
  assert (∀ cpu, written cpu [e] = [] ∧ written cpu tr = []) as Hw'.
  { intros cpu. specialize (Hw cpu). autorewrite with trace in Hw. by apply app_eq_nil in Hw. }
  autorewrite with trace. rewrite IH by apply Hw'. f_equal. destruct e as [| |cpu [] x| | | | |]; try done.
  destruct (Hw' cpu) as [He _]. simpl in He. by rewrite decide_True in He.
Qed.

Lemma nothing_lost tr : lost tr = [] → settled tr = stored tr.
Proof.
  induction tr as [|e tr IH]; intros Hl; [done|]. change (e :: tr) with ([e] ++ tr) in *.
  autorewrite with trace in *. apply app_eq_nil in Hl as [He Hl]. rewrite IH by done. by destruct e.
Qed.

Section properties.
Context {W : Type} `{Hardware W} (b : board) (u : Uart.state) `{!SerialLine W u} (Hready : is_ready u = true).
Context (n : nat) (r0 : RingBuffer) (w0 : W) (Hr0 : wf r0).
Implicit Types (c : config W).

(** C16. Input under interleaving: while any number of cores poll and read the keyboard, and write to the
    same port, in any order of their accesses, the bytes read off the port that have been given to readers,
    that are buffered, in the hand of the one core that polls, and that still wait on the port are
    together the bytes that were there and have arrived, in that order, none twice, as long as none had
    to be dropped; and none is dropped while they are at most 256. *)
Theorem input_fifo c : rtc (step b u) (start_config n r0 w0) c →
  ((length (queue r0) + length (received w0 ++ arrived (trace c)) ≤ 256)%nat → lost (trace c) = []) ∧
  (lost (trace c) = [] → ∃ v,
    queue r0 ++ (cook <$> received w0 ++ arrived (trace c)) =
      gave (trace c) ++ queue (data (input (sh c))) ++ v ++ (cook <$> received (port (sh c))) ∧
    (length v ≤ 1)%nat ∧ (locked (input (sh c)) = false → v = [])).
Proof.
  intros [_ (v & Hg & Hi) _ _ Hbuf Hport _ Hlost _]%(cores_inv_reachable b u Hready n r0 w0 Hr0). split.
  - intros Hlen. destruct Hlost as [[? _]|Hlt]; [done|]. rewrite Hport, length_app in Hlen. lia.
  - intros Hno. assert (settled (trace c) = stored (trace c)) as Hse.
    { by apply nothing_lost. }
    rewrite Hse in Hi. exists v. split_and!.
    + rewrite Hport, fmap_app, <-Hi, <-!app_assoc, (app_assoc (queue r0)), Hbuf. by rewrite <-!app_assoc.
    + destruct (guarded_hand _ _ _ _ _ Hg) as [->|(i & p & _ & _ & ->)]; [simpl; lia|]. destruct p; simpl; lia.
    + intros Hf. rewrite Hf in Hg. by apply guarded_free in Hg as [-> _].
Qed.

(** C17. Output under interleaving: the bytes sent under the UART lock are the log lines, each whole and in
    the order in which the cores got the lock, up to the part of the last one that its core has still to
    send; each core's other writes are sent in its order; all that is sent goes to the port, so that
    log lines alone reach the wire unmixed. *)
Theorem lines_whole c : rtc (step b u) (start_config n r0 w0) c → ∃ v,
  logged (trace c) ++ v = concat (wire <$> begun (trace c)) ∧
  (locked (uart_lock (sh c)) = false → v = []) ∧
  (∀ i p, pcs c !! i = Some (LogSend p) → v = unsent p) ∧
  sent (port (sh c)) = sent w0 ++ transmitted (trace c) ∧
  (∀ i, written i (trace c) `prefix_of` concat (crlf <$> asked i (trace c))) ∧
  ((∀ i, asked i (trace c) = []) →
    sent (port (sh c)) ++ v = sent w0 ++ concat (wire <$> begun (trace c))).
Proof.
  intros [(v & Hg & Hu) _ _ _ _ _ Hsent _ Hw]%(cores_inv_reachable b u Hready n r0 w0 Hr0). exists v.
  split_and!; [done| | |done| |].
  - intros Hf. rewrite Hf in Hg. by apply guarded_free in Hg as [-> _].
  - intros i p Hp. by destruct (guarded_held _ _ _ _ _ _ _ Hg Hp eq_refl) as (_ & -> & _).
  - intros i. rewrite <-(Hw i). by apply prefix_app_r.
  - intros Hno. rewrite Hsent, <-app_assoc, all_logged, Hu; [done|].
    intros i. specialize (Hw i). rewrite (Hno i) in Hw. by apply app_eq_nil in Hw as [? _].
Qed.

(** Either lock is held by one core at a time, and while it is the lock word is set. *)
Theorem locks_exclude c i j p q : rtc (step b u) (start_config n r0 w0) c →
  pcs c !! i = Some p → pcs c !! j = Some q →
  (has_uart p = true → has_uart q = true → i = j ∧ locked (uart_lock (sh c)) = true) ∧
  (has_input p = true → has_input q = true → i = j ∧ locked (input (sh c)) = true).
Proof.
  intros [(v & Hgu & _) (v1 & Hgi & _) _ _ _ _ _ _ _]%(cores_inv_reachable b u Hready n r0 w0 Hr0) Hp Hq. split.
  - intros Hh Hh'. split; [exact (g_one _ _ _ _ _ Hgu i j p q Hp Hq Hh Hh')|by destruct (guarded_held _ _ _ _ _ _ _ Hgu Hp Hh)].
  - intros Hh Hh'. split; [exact (g_one _ _ _ _ _ Hgi i j p q Hp Hq Hh Hh')|by destruct (guarded_held _ _ _ _ _ _ _ Hgi Hp Hh)].
Qed.

(** Whatever the interleaving, every core can make its next access: no access panics. *)
Theorem cores_progress c i p : rtc (step b u) (start_config n r0 w0) c → pcs c !! i = Some p →
  ∃ p' s' es, access b u i p (sh c) = Ret (p', s', es) ∧
    rtc (step b u) (start_config n r0 w0) (mkConfig s' (<[i := p']> (pcs c)) (trace c ++ es)).
Proof.
  intros Hr Hp. pose proof (cores_inv_reachable b u Hready n r0 w0 Hr0 c Hr) as Hinv.
  destruct (returns_eq (access b u i p (sh c)) (λ _, True)) as [He _].
  destruct He as ([[p' s'] es] & He & _); [by apply access_returns, (i_ring _ _ _ _ Hinv)|].
  exists p', s', es. split; [done|]. eapply rtc_r; [done|]. by eapply step_access.
Qed.
End properties.

(** ** Polling never waits

    What a core does, access by access, whatever the other cores do to the shared state between its
    accesses. *)
Section wait_free.
Context {W : Type} `{Hardware W} (b : board) (u : Uart.state).

Inductive accesses (cpu : nat) : nat → pc → pc → Prop :=
| accesses_none p : accesses cpu 0 p p
| accesses_more k p s p1 s1 es p2 :
    access b u cpu p s = Ret (p1, s1, es) → accesses cpu k p1 p2 → accesses cpu (S k) p p2.

Definition polling (p : pc) : bool :=
  match p with PollCas _ | PollFr _ _ | PollDr _ _ | PollPush _ _ _ | PollDrop _ => true | _ => false end.

(** A bound on the accesses a poll has left: three for each byte it may still take. *)
Definition accesses_left (p : pc) : nat :=
  match p with
  | PollCas _ => 770
  | PollFr _ k => 3 * Z.to_nat (256 - k) + 1
  | PollDr _ k => 3 * Z.to_nat (256 - k)
  | PollPush _ k _ => 3 * Z.to_nat (256 - k) - 1
  | PollDrop _ => 1
  | _ => 0
  end.

Definition poll_sane (p : pc) : Prop :=
  match p with PollFr _ k | PollDr _ k | PollPush _ k _ => 0 ≤ k < 256 | _ => True end.

Lemma poll_access_ok cpu p s p' s' es : access b u cpu p s = Ret (p', s', es) → polling p = true → poll_sane p →
  poll_sane p' ∧ (polling p' = true → (accesses_left p' < accesses_left p)%nat).
Proof.
  intros Ha Hp Hs. destruct p; try done; cbn [access log_access poll_access read_access poll_sane] in *.
  - destruct (try_lock (input s)); injection Ha as <- <- <-; [split; [done|]; simpl; lia|by destruct next].
  - destruct (negb (is_ready u)); [injection Ha as <- <- <-; split; [done|]; simpl; lia|].
    destruct (read32 _ _) as [v w]. case_decide; injection Ha as <- <- <-; (split; [done|]; simpl; lia).
  - destruct (read32 _ _) as [v w]. injection Ha as <- <- <-. split; [done|]; simpl; lia.
  - apply bind_ret_inv in Ha as ([ok r] & _ & Ha).
    destruct (negb ok); [injection Ha as <- <- <-; split; [done|]; simpl; lia|].
    unfold BUF_SIZE in Ha. case_decide; injection Ha as <- <- <-; (split; [simpl; lia|simpl; lia]).
  - injection Ha as <- <- <-. by destruct next.
Qed.

Lemma not_polling cpu k p p' : accesses cpu k p p' → polling p = false → polling p' = false.
Proof.
  intros Hk. induction Hk as [|k p s p1 s1 es p2 Ha _ IH]; [done|]. intros Hp. apply IH.
  destruct p as [| | | | | |n|n m|n m|n m x|n|n|n|[|n]|]; access_simpl in Ha; try done;
    repeat (match type of Ha with
      | (x ← ?m; _) = Ret _ => apply bind_ret_inv in Ha as ([? ?] & _ & Ha)
      | context [send_turn b u ?p ?w] => destruct (send_turn b u p w) as [[? ?] ?]
      | context [match ?x with _ => _ end] => destruct x
      end); by injection Ha as <- <- <-.
Qed.

(** C30. [keyboard::poll] never waits: whatever other cores do to the locks, the buffer and the port meanwhile,
    and whoever holds the lock, a core is out of a poll after 771 accesses of its own.  (The timer interrupt,
    which polls, goes on to wait for the process table's lock: [Main.interrupted_start_hangs].) *)
Theorem poll_wait_free cpu k next p :
  accesses cpu k (PollCas next) p → (770 < k)%nat → polling p = false.
Proof.
  cut (∀ p0, accesses cpu k p0 p → polling p0 = true → poll_sane p0 → (accesses_left p0 < k)%nat → polling p = false).
  { intros Hc Hk Hlt. by apply (Hc (PollCas next)). }
  intros p0 Hk. induction Hk as [|k p0 s p1 s1 es p2 Ha Hk IH]; [lia|]. intros Hp Hs Hlt.
  destruct (poll_access_ok _ _ _ _ _ _ Ha Hp Hs) as [Hs1 Hm]. destruct (polling p1) eqn:Hp1.
  - apply IH; [done..|]. specialize (Hm eq_refl). lia.
  - by eapply not_polling.
Qed.
End wait_free.

(** ** A core that runs alone

    From a call to its end without another core between, the accesses do what the sequential models of
    the operations compute. *)
Section alone.
Context {W : Type} `{Hardware W} (b : board) (u : Uart.state) (Hready : is_ready u = true) (cpu : nat).
Implicit Types (s : shared W).

Inductive alone : pc → shared W → list event → pc → shared W → Prop :=
| alone_done p s : alone p s [] p s
| alone_access p s p1 s1 es es' p2 s2 :
    access b u cpu p s = Ret (p1, s1, es) → alone p1 s1 es' p2 s2 → alone p s (es ++ es') p2 s2.

Lemma alone_trans p s es p1 s1 es' p2 s2 : alone p s es p1 s1 → alone p1 s1 es' p2 s2 → alone p s (es ++ es') p2 s2.
Proof.
  induction 1 as [|p s p1 s1 es0 es1 p3 s3 Ha _ IH]; intros Hal; [done|].
  rewrite <-app_assoc. eapply alone_access; [done|]. by apply IH.
Qed.

Lemma alone_one p s es p1 s1 : access b u cpu p s = Ret (p1, s1, es) → alone p s es p1 s1.
Proof. intros Ha. rewrite <-(app_nil_r es). eapply alone_access; [done|]. apply alone_done. Qed.

(** Sending bytes, whichever lock is held: from [p] until [o] is left. *)
Inductive sends : sending → W → list Z → option sending → W → Prop :=
| sends_last p w o w' cs : send_turn b u p w = (o, w', cs) → sends p w cs o w'
| sends_more p w p1 w1 cs cs' o w' :
    send_turn b u p w = (Some p1, w1, cs) → sends p1 w1 cs' o w' → sends p w (cs ++ cs') o w'.

Lemma sends_trans p w cs p1 w1 cs' o w' : sends p w cs (Some p1) w1 → sends p1 w1 cs' o w' →
  sends p w (cs ++ cs') o w'.
Proof.
  remember (Some p1) as o1 eqn:Ho. intros Hs. revert p1 Ho.
  induction Hs as [p w o1 w1 cs Ht|p w p2 w2 cs cs2 o1 w1 Ht _ IH]; intros p1 -> Hs'.
  - by eapply sends_more.
  - rewrite <-app_assoc. eapply sends_more; [done|]. by eapply IH.
Qed.

(** [write_byte]. *)
Lemma wait_sends fuel k c rest w w' : b = Rpi5 → loop fuel (tx_wait_body u) (k, w) = Ret w' →
  sends (Wait k c rest) w [] (Some (Put c rest)) w'.
Proof.
  intros Hb. revert k w. induction fuel as [|fuel IH]; intros k w Hl; [done|]. cbn [loop] in Hl.
  apply bind_ret_inv in Hl as (r & Hr & Hl). unfold tx_wait_body in Hr. cbv zeta in Hr. destruct (read32 (reg_addr u UART_FR) w) as [fr w1] eqn:Hfr.
  assert (send_turn b u (Wait k c rest) w = (if decide (Z.land fr (Z.shiftl 1 5) ≠ 0) then
      if decide (1000000 < add32 k 1) then (Some (Put c rest), w1, []) else (Some (Wait (add32 k 1) c rest), w1, [])
    else (Some (Put c rest), w1, []))) as Ht.
  { cbn [send_turn]. rewrite Hfr, Hb. by repeat case_decide. }
  destruct (decide (Z.land fr (Z.shiftl 1 5) ≠ 0)); [destruct (decide (1000000 < add32 k 1))|];
    injection Hr as <-; cbn [mbind outcome_bind] in Hl.
  - injection Hl as <-. by apply sends_last.
  - change (@nil Z) with (@nil Z ++ []). eapply sends_more; [exact Ht|]. by apply IH.
  - injection Hl as <-. by apply sends_last.
Qed.

Lemma wait_sends_qemu fuel k c rest w w' : b = Qemu →
  loop fuel (wait_body (reg_addr u UART_FR) (Z.shiftl 1 5)) w = Ret w' →
  sends (Wait k c rest) w [] (Some (Put c rest)) w'.
Proof.
  intros Hb. revert w. induction fuel as [|fuel IH]; intros w Hl; [done|]. cbn [loop] in Hl.
  apply bind_ret_inv in Hl as (r & Hr & Hl). unfold wait_body in Hr. destruct (read32 (reg_addr u UART_FR) w) as [fr w1] eqn:Hfr.
  assert (send_turn b u (Wait k c rest) w = (if decide (Z.land fr (Z.shiftl 1 5) ≠ 0)
    then (Some (Wait k c rest), w1, []) else (Some (Put c rest), w1, []))) as Ht.
  { cbn [send_turn]. rewrite Hfr, Hb. by repeat case_decide. }
  destruct (decide (Z.land fr (Z.shiftl 1 5) ≠ 0)); injection Hr as <-; cbn [mbind outcome_bind] in Hl.
  - change (@nil Z) with (@nil Z ++ []). eapply sends_more; [exact Ht|]. by apply IH.
  - injection Hl as <-. by apply sends_last.
Qed.

Lemma byte_sends fuel c rest w w' p : write_byte b fuel u c w = Ret w' → send b u (c :: rest) = Some p →
  sends p w [c] (send b u rest) w'.
Proof.
  unfold write_byte. unfold send at 1. rewrite Hready. cbn [negb]. intros Hw [= <-].
  destruct (decide (b = Rpi5 ∧ UART_SKIP_INIT u = true)); [injection Hw as <-; by apply sends_last|].
  apply bind_ret_inv in Hw as (w1 & Hl & [= <-]). change [c] with ([] ++ [c]).
  apply (sends_trans _ _ _ (Put c rest) w1); [|by apply sends_last]. destruct b eqn:Hb; [by eapply wait_sends|by eapply wait_sends_qemu].
Qed.

Lemma send_crlf str : str ≠ [] → ∃ p, send b u (crlf str) = Some p.
Proof.
  intros Hne. pose proof (send_ready b u Hready (crlf str)) as Hs.
  destruct (send b u (crlf str)) as [p|]; [by exists p|]. destruct str as [|c str]; [done|].
  change (crlf (c :: str)) with ((if decide (c = 10) then [13; 10] else [c]) ++ crlf str) in Hs.
  by case_decide.
Qed.

(** [write_str], a carriage return before each line feed. *)
Lemma str_sends fuel str rest w w' p : str ≠ [] → write_str b fuel u str w = Ret w' →
  send b u (crlf str ++ rest) = Some p → sends p w (crlf str) (send b u rest) w'.
Proof.
  revert w p. unfold write_str. induction str as [|c str IH]; intros w p Hne Hw Hp; [done|]. clear Hne.
  cbn [for_each_in] in Hw. apply bind_ret_inv in Hw as (w1 & Hc & Hw).
  apply bind_ret_inv in Hc as (w2 & Hcr & Hc). change (c :: str) with ([c] ++ str) in *.
  rewrite crlf_app in *. rewrite <-app_assoc in Hp.
  assert (∀ tail, send b u (crlf [c] ++ tail) = Some p → sends p w (crlf [c]) (send b u tail) w1) as Hone.
  { intros tail. change (crlf [c]) with ((if decide (c = 10) then [13; 10] else [c]) ++ []).
    case_decide as H10; simpl; intros Ht.
    - subst c. change [13; 10] with ([13] ++ [10]). pose proof (byte_sends _ _ _ _ _ _ Hcr Ht) as H1.
      destruct (send b u (10 :: tail)) as [p1|] eqn:Hp1; [|by unfold send in Hp1; rewrite Hready in Hp1].
      eapply sends_trans; [exact H1|]. by eapply byte_sends.
    - injection Hcr as <-. by eapply byte_sends. }
  specialize (Hone _ Hp). destruct str as [|c' str].
  - injection Hw as <-. rewrite app_nil_r. exact Hone.
  - destruct (send b u (crlf (c' :: str) ++ rest)) as [p1|] eqn:Hp1.
    + eapply sends_trans; [exact Hone|]. by apply IH.
    + pose proof (send_ready b u Hready (crlf (c' :: str) ++ rest)) as Hs. rewrite Hp1 in Hs.
      change (crlf (c' :: str)) with ((if decide (c' = 10) then [13; 10] else [c']) ++ crlf str) in Hs.
      by case_decide.
Qed.

(** Lifted to the two places where bytes are sent. *)
Lemma sends_alone_log p w cs o w' s : sends p w cs o w' → port s = w →
  alone (LogSend p) s (Sent cpu true <$> cs)
    (match o with Some p => LogSend p | None => LogDrop end) (with_port w' s).
Proof.
  intros Hs. revert s. induction Hs as [p w o w' cs Ht|p w p1 w1 cs cs' o w' Ht _ IH]; intros s Hw.
  - apply alone_one. access_simpl. by rewrite Hw, Ht.
  - rewrite fmap_app. eapply alone_access; [access_simpl; by rewrite Hw, Ht|].
    by apply (IH (with_port w1 s)).
Qed.

Lemma sends_alone_write p w cs o w' s : sends p w cs o w' → port s = w →
  alone (WriteSend p) s (Sent cpu false <$> cs)
    (match o with Some p => WriteSend p | None => Idle end) (with_port w' s).
Proof.
  intros Hs. revert s. induction Hs as [p w o w' cs Ht|p w p1 w1 cs cs' o w' Ht _ IH]; intros s Hw.
  - apply alone_one. access_simpl. by rewrite Hw, Ht.
  - rewrite fmap_app. eapply alone_access; [access_simpl; by rewrite Hw, Ht|].
    by apply (IH (with_port w1 s)).
Qed.

Lemma push_full x r ok r' : push x r = Ret (ok, r') → negb ok = true → r' = r.
Proof.
  unfold push. case_decide; [by intros [= <- <-]|]. intros (? & _ & [= <- <-])%bind_ret_inv. done.
Qed.

(** [poll] and the first part of [read]. *)
Lemma poll_loop_alone next k spins r w r' w' ul : loop k (poll_body u) (spins, r, w) = Ret (r', w') →
  ∃ es, alone (PollFr next spins) (mkShared ul (mkLock true r) w) es
          (PollDrop next) (mkShared ul (mkLock true r') w') ∧ gave es = [].
Proof.
  revert spins r w. induction k as [|k IH]; intros spins r w Hl; [done|]. cbn [loop] in Hl.
  apply bind_ret_inv in Hl as (o & Hb & Hl). unfold poll_body, read_byte_nonblocking in Hb. rewrite Hready in Hb.
  cbn [negb] in Hb. destruct (read32 (reg_addr u UART_FR) w) as [fr w1] eqn:Hfr.
  destruct (decide (Z.land fr (Z.shiftl 1 4) ≠ 0)) as [Hf|Hf].
  { injection Hb as <-. injection Hl as <- <-. exists []. split; [|done]. apply alone_one. cbn [access log_access poll_access read_access port].
    rewrite Hready, Hfr. cbn [negb]. by rewrite decide_True. }
  destruct (read32 (reg_addr u UART_DR) w1) as [v w2] eqn:Hdr. fold (cook (wrap8 v)) in Hb.
  apply bind_ret_inv in Hb as ([ok r1] & Hpush & Hb).
  set (s2 := mkShared ul (mkLock true r) w2).
  assert (alone (PollFr next spins) (mkShared ul (mkLock true r) w) ([] ++ [Took (wrap8 v)])
    (PollPush next spins (wrap8 v)) s2) as H1.
  { eapply alone_access; [|apply alone_one].
    - cbn [access log_access poll_access read_access port]. rewrite Hready, Hfr. cbn [negb]. by rewrite decide_False.
    - cbn [access log_access poll_access read_access port with_port]. by rewrite Hdr. }
  assert (∀ p' s' es, access b u cpu (PollPush next spins (wrap8 v)) s2 = Ret (p', s', es) →
    alone (PollFr next spins) (mkShared ul (mkLock true r) w) (([] ++ [Took (wrap8 v)]) ++ es) p' s') as H2.
  { intros p' s' es Ha. eapply alone_trans; [exact H1|]. by apply alone_one. }
  cbn [access log_access poll_access read_access s2 input data] in H2. rewrite Hpush in H2. cbn [mbind outcome_bind] in H2.
  destruct (negb ok) eqn:Hok.
  - injection Hb as <-. injection Hl as <- <-. rewrite (push_full _ _ _ _ Hpush Hok). eexists. by split; [apply H2|].
  - unfold BUF_SIZE in *. case_decide as Hk; injection Hb as <-.
    + injection Hl as <- <-. eexists. by split; [apply H2|].
    + apply IH in Hl as (es & Hal & Hg). eexists. split; [eapply alone_trans; [by apply H2|exact Hal]|].
      by autorewrite with trace.
Qed.

Lemma poll_alone next s l' w' : poll u (input s) (port s) = Ret (l', w') →
  ∃ es, alone (PollCas next) s es (after_poll next) (mkShared (uart_lock s) l' w') ∧ gave es = [].
Proof.
  unfold poll. destruct (try_lock (input s)) as [g|] eqn:Ht.
  - pose proof (try_lock_some _ _ Ht) as [_ Hg]. intros ([r1 w1] & Hl & [= <- <-])%bind_ret_inv.
    rewrite Hg in Hl. cbn [data] in Hl.
    destruct (poll_loop_alone next _ _ _ _ _ _ (uart_lock s) Hl) as (es & Hal & Hge). exists ([] ++ es ++ []).
    split; [|by rewrite app_nil_r].
    eapply alone_access; [access_simpl; by rewrite Ht|].
    eapply alone_trans; [rewrite Hg; exact Hal|]. apply alone_one. by rewrite Hg.
  - intros [= <- <-]. exists []. split; [|done]. apply alone_one. access_simpl. rewrite Ht. by destruct s.
Qed.

Lemma read_loop_alone n got r bs r' ul w : loop (S n) read_body (n, got, r) = Ret (bs, r') →
  ∃ es, alone (ReadPop n) (mkShared ul (mkLock true r) w) es ReadDrop (mkShared ul (mkLock true r') w) ∧
    bs = got ++ gave es.
Proof.
  revert got r. induction n as [|n IH]; intros got r Hl.
  { injection Hl as <- <-. exists []. split; [by apply alone_one|]. by rewrite app_nil_r. }
  cbn [loop] in Hl. apply bind_ret_inv in Hl as (o & Hb & Hl). cbn [read_body] in Hb.
  apply bind_ret_inv in Hb as ([x r1] & Hpop & Hb). destruct x as [x|]; injection Hb as <-.
  - apply IH in Hl as (es & Hal & ->). exists ([Gave x] ++ es). split; [|by rewrite <-app_assoc].
    eapply alone_access; [|exact Hal]. cbn [access log_access poll_access read_access input data]. by rewrite Hpop.
  - injection Hl as <- <-. exists []. split; [|by rewrite app_nil_r]. apply alone_one.
    cbn [access log_access poll_access read_access input data]. rewrite Hpop. cbn [mbind outcome_bind].
    unfold pop in Hpop. case_decide; [by injection Hpop as <-|]. by apply bind_ret_inv in Hpop as (? & _ & ?).
Qed.

(** C29. The accesses are the code's: a core that runs alone ends each operation in the state, and with the
    bytes sent or read, that the sequential model of the operation returns: [with_uart] with a line to
    log, the bytes [vfs::write] sends, [keyboard::poll] and [keyboard::read]. *)
Theorem alone_sequential fuel s :
  (∀ line u' w', UART_LOCK u = uart_lock s → Log.log b fuel line u (port s) = Ret (u', w') →
    alone (call b u (LogLine line)) s (Begins line :: (Sent cpu true <$> wire line)) Idle
      (mkShared (UART_LOCK u') (input s) w')) ∧
  (∀ buf w', buf ≠ [] → write_str b fuel u buf (port s) = Ret w' →
    alone (call b u (WriteOut buf)) s (Sent cpu false <$> crlf buf) Idle (with_port w' s)) ∧
  (∀ l' w', poll u (input s) (port s) = Ret (l', w') →
    ∃ es, alone (call b u Poll) s es Idle (mkShared (uart_lock s) l' w')) ∧
  (∀ n bs l' w', read u n (input s) (port s) = Ret (bs, l', w') →
    ∃ es, alone (call b u (Read n)) s es Idle (mkShared (uart_lock s) l' w') ∧ gave es = bs).
Proof.
  split_and!.
  - intros line u' w' Hlk Hlog. unfold Log.log, with_uart in Hlog. rewrite Hready in Hlog. cbn [negb] in Hlog.
    apply bind_ret_inv in Hlog as ([[x u1] w1] & Hlog & [= <- <-]).
    apply bind_ret_inv in Hlog as (g & Hg & Hlog). apply bind_ret_inv in Hlog as ([y w2] & Hw & [= <- <- <-]).
    apply bind_ret_inv in Hw as (w3 & Hw & [= <- <-]). unfold writeln in Hw.
    destruct (send_crlf (line ++ [10])) as [p Hp]; [by destruct line|].
    pose proof (str_sends fuel (line ++ [10]) [] _ _ p ltac:(by destruct line) Hw) as Hs. rewrite app_nil_r in Hs.
    unfold lock in Hg. rewrite Hlk in Hg. destruct (locked (uart_lock s)) eqn:Hl; [done|]. injection Hg as <-.
    cbn [call]. rewrite Hready. change (Begins line :: ?es) with ([Begins line] ++ es).
    eapply alone_access; [access_simpl; unfold try_lock; by rewrite Hl, Hp|].
    rewrite <-(app_nil_r (_ <$> _)). eapply alone_trans; [exact (sends_alone_log p _ _ None w3
      (with_uart_lock (mkLock true (data (uart_lock s))) s) (Hs Hp) eq_refl)|].
    by apply alone_one.
  - intros buf w' Hne Hw. cbn [call]. destruct (send_crlf buf Hne) as [p Hp].
    pose proof (str_sends fuel buf [] _ _ p Hne Hw) as Hs. rewrite app_nil_r in Hs. rewrite Hp.
    exact (sends_alone_write p _ _ None _ s (Hs Hp) eq_refl).
  - intros l' w' Hp. destruct (poll_alone None s l' w' Hp) as (es & Hal & _). by exists es.
  - intros n bs l' w' Hr. unfold read in Hr. apply bind_ret_inv in Hr as ([l1 w1] & Hp & Hr).
    apply bind_ret_inv in Hr as (g & Hlk & Hr). apply bind_ret_inv in Hr as ([bs1 r1] & Hl & [= <- <- <-]).
    destruct (poll_alone (Some n) s l1 w1 Hp) as (es & Hal & Hge).
    unfold lock in Hlk. destruct (locked l1) eqn:Hlk1; [done|]. injection Hlk as <-. cbn [data] in Hl.
    destruct (read_loop_alone n [] _ _ _ (uart_lock s) w1 Hl) as (es' & Hal' & Hbs). simpl in Hbs.
    exists (es ++ [] ++ es' ++ []). split; [|by rewrite !gave_app, Hge, app_nil_r].
    eapply alone_trans; [exact Hal|]. eapply alone_access; [cbn [after_poll access read_access input]; unfold try_lock; by rewrite Hlk1|].
    eapply alone_trans; [exact Hal'|]. by apply alone_one.
Qed.
End alone.

(** ** Two cores on a port, move by move *)
Inductive move := Turn (cpu : nat) | Start (cpu : nat) (o : op) | Byte (c : Z).

Definition demo_config := config Uart.port.

Definition play_move (m : move) (c : demo_config) : option demo_config :=
  match m with
  | Turn cpu =>
      p ← pcs c !! cpu;
      match access Qemu demo_uart cpu p (sh c) with
      | Ret (p', s', es) => Some (mkConfig s' (<[cpu := p']> (pcs c)) (trace c ++ es))
      | _ => None
      end
  | Start cpu o =>
      match pcs c !! cpu with
      | Some Idle => Some (mkConfig (sh c) (<[cpu := call Qemu demo_uart o]> (pcs c)) (trace c ++ [Called cpu o]))
      | _ => None
      end
  | Byte x =>
      let w := port (sh c) in
      Some (mkConfig (with_port (mkPort (p_rx w ++ [x]) (p_tx w)) (sh c)) (pcs c) (trace c ++ [Arrived (wrap8 x)]))
  end.

Fixpoint play (ms : list move) (c : demo_config) : option demo_config :=
  match ms with [] => Some c | m :: ms => c ← play_move m c; play ms c end.

Lemma play_steps ms c c' : play ms c = Some c' → rtc (step Qemu demo_uart) c c'.
Proof.
  revert c. induction ms as [|m ms IH]; intros c; cbn [play]; [by intros [= <-]|].
  intros (c1 & Hm & Hp)%bind_Some. eapply rtc_l; [|by apply IH]. destruct m as [cpu|cpu o|x]; cbn [play_move] in Hm.
  - apply bind_Some in Hm as (p & Hpc & Ha). destruct (access _ _ _ _ _) as [[[p' s'] es]| | |] eqn:Hac; try done.
    injection Ha as <-. by eapply step_access.
  - destruct (pcs c !! cpu) as [[]|] eqn:Hpc; try done. injection Hm as <-. by apply step_call.
  - injection Hm as <-. apply step_arrive; [|done]. cbn. by rewrite fmap_app.
Qed.

(** What [vfs::write] sends takes no lock: written between two bytes of a log line, it splits the line, although
    [with_uart] is meant to keep output from interleaving. *)
Definition split_moves : list move :=
  [Start 0 (LogLine (bytes "ok")); Start 1 (WriteOut (bytes "x"))] ++ replicate 3 (Turn 0) ++ replicate 2 (Turn 1) ++
  replicate 7 (Turn 0).

Theorem write_splits_line : ∃ c, rtc (step Qemu demo_uart) (start_config 2 RingBuffer_new (mkPort [] [])) c ∧
  pcs c = [Idle; Idle] ∧ begun (trace c) = [bytes "ok"] ∧ asked 1 (trace c) = [bytes "x"] ∧
  sent (port (sh c)) = bytes "oxk" ++ [13; 10].
Proof.
  destruct (play split_moves (start_config 2 RingBuffer_new (mkPort [] []))) as [c|] eqn:Hp; [|by vm_compute in Hp].
  exists c. split; [by eapply play_steps|]. vm_compute in Hp. injection Hp as <-. done.
Qed.

(** ** Witnesses *)

(** Core 1 polls the port while core 0, which wants to read, finds the buffer locked and spins. *)
Definition input_moves : list move :=
  [Byte 13; Start 0 (Read 2); Start 1 Poll; Turn 1; Turn 0; Turn 1; Turn 0] ++ replicate 7 (Turn 1) ++
  replicate 6 (Turn 0).
Definition input_demo : demo_config :=
  default (start_config 0 RingBuffer_new (mkPort [] []))
    (play input_moves (start_config 2 RingBuffer_new (mkPort [104] []))).

Lemma input_demo_reachable :
  rtc (step Qemu demo_uart) (start_config 2 RingBuffer_new (mkPort [104] [])) input_demo.
Proof.
  unfold input_demo. destruct (play input_moves _) as [c|] eqn:Hp; [by eapply play_steps|by vm_compute in Hp].
Qed.

Lemma input_fifo_witness : pcs input_demo = [Idle; Idle] ∧ lost (trace input_demo) = [] ∧
  gave (trace input_demo) = [104; 10].
Proof.
  split; [by vm_compute|].
  destruct (input_fifo Qemu demo_uart eq_refl 2 RingBuffer_new (mkPort [104] []) (proj1 wf_new)
    input_demo input_demo_reachable) as [Hno Hf].
  assert (lost (trace input_demo) = []) as Hl by (apply Hno; vm_compute; lia).
  split; [exact Hl|]. destruct (Hf Hl) as (v & Heq & _ & Hv). rewrite Hv in Heq by (by vm_compute).
  assert (queue (data (input (sh input_demo))) ++ [] ++ (cook <$> received (port (sh input_demo))) = []) as Hnil
    by (by vm_compute).
  rewrite Hnil, app_nil_r in Heq. rewrite <-Heq. by vm_compute.
Defined.

Definition split_demo : demo_config :=
  default (start_config 0 RingBuffer_new (mkPort [] []))
    (play split_moves (start_config 2 RingBuffer_new (mkPort [] []))).

Lemma split_demo_reachable : rtc (step Qemu demo_uart) (start_config 2 RingBuffer_new (mkPort [] [])) split_demo.
Proof.
  unfold split_demo. destruct (play split_moves _) as [c|] eqn:Hp; [by eapply play_steps|by vm_compute in Hp].
Qed.

Lemma lines_whole_witness : logged (trace split_demo) = bytes "ok" ++ [13; 10].
Proof.
  destruct (lines_whole Qemu demo_uart eq_refl 2 RingBuffer_new (mkPort [] []) (proj1 wf_new)
    split_demo split_demo_reachable) as (v & Heq & Hv & _).
  rewrite Hv, app_nil_r in Heq by (by vm_compute). rewrite Heq. by vm_compute.
Defined.

(** Another core holds the buffer: the poll is over at once. *)
Lemma accesses_idle k : accesses Qemu demo_uart 0 k Idle Idle.
Proof.
  induction k as [|k IH]; [constructor|].
  by eapply (accesses_more _ _ _ _ _ (mkShared (lock_new tt) (lock_new RingBuffer_new) demo_port)).
Qed.

Lemma poll_wait_free_witness : accesses Qemu demo_uart 0 771 (PollCas None) Idle ∧ polling Idle = false.
Proof.
  assert (accesses Qemu demo_uart 0 771 (PollCas None) Idle) as Hk.
  { eapply (accesses_more _ _ _ _ _ (mkShared (lock_new tt) (mkLock true RingBuffer_new) demo_port)); [done|].
    apply accesses_idle. }
  split; [exact Hk|]. apply (poll_wait_free Qemu demo_uart 0 771 None Idle Hk). lia.
Defined.

Lemma alone_sequential_witness :
  alone Qemu demo_uart 1 (LogCas (bytes "ok")) (mkShared (lock_new tt) (lock_new RingBuffer_new) demo_port)
    (Begins (bytes "ok") :: (Sent 1 true <$> bytes "ok" ++ [13; 10])) Idle
    (mkShared (lock_new tt) (lock_new RingBuffer_new) (mkPort [105; 13] (bytes "ok" ++ [13; 10]))).
Proof.
  destruct (alone_sequential Qemu demo_uart eq_refl 1 1
    (mkShared (lock_new tt) (lock_new RingBuffer_new) demo_port)) as [Hlog _].
  apply (Hlog (bytes "ok") demo_uart (mkPort [105; 13] (bytes "ok" ++ [13; 10]))); [reflexivity|].
  by vm_compute.
Defined.
