(* ===== verification/Mailbox.v ===== *)
(** * The VideoCore mailbox

    [src/drivers/mailbox.rs]: a property call hands the address of a buffer to the VideoCore
    and waits for its answer, with every wait bounded by one shared spin budget. *)
From S2P Require Import Prelude Bits Layout Memory Mmio.
Local Open Scope Z_scope.

Definition MBOX_READ : Z := 0x00.
Definition MBOX_STATUS : Z := 0x18.
Definition MBOX_WRITE : Z := 0x20.
Definition MBOX_STATUS_FULL : Z := Z.shiftl 1 31.
Definition MBOX_STATUS_EMPTY : Z := Z.shiftl 1 30.
Definition MBOX_CH_PROPERTY : Z := 8.
Definition MBOX_RESPONSE_OK : Z := 0x80000000.
Definition SPIN_LIMIT : Z := 1000000.

Definition vc_to_arm (b : board) (addr : Z) : Z := Z.land addr (VC_MEM_MASK b).

Definition arm_to_vc (b : board) (addr : Z) : Z :=
  Z.lor (Z.land (wrap32 addr) (VC_MEM_MASK b)) (VC_MEM_BASE b).

(** Iterations any of the loops can make. *)
Definition SPIN_FUEL : nat := Z.to_nat SPIN_LIMIT.
Lemma SPIN_FUEL_eq : Z.of_nat SPIN_FUEL = SPIN_LIMIT.
Proof. unfold SPIN_FUEL. rewrite Z2Nat.id; done. Qed.
#[global] Opaque SPIN_FUEL.

Section call.
Context {W : Type} `{Hardware W, Dma W} (b : board).

(** One iteration of [while read32(MBOX_STATUS) & bit != 0]: [inr None] is [return false]. *)
Definition status_body (bit : Z) (st : Z * W) : outcome (Z * W + option Z * W) :=
  let '(spins, w) := st in
  let '(v, w) := read32 (MBOX_BASE b + MBOX_STATUS) w in
  if decide (Z.land v bit ≠ 0) then
    let spins := spins + 1 in
    if decide (SPIN_LIMIT ≤ spins) then Ret (inr (None, w)) else Ret (inl (spins, w))
  else Ret (inr (Some spins, w)).

(** One iteration of the outer loop, on the two counters. *)
Definition reply_body (buffer bus_addr : Z) (st : Z * Z * W) : outcome (Z * Z * W + bool * W) :=
  let '(spins, loops, w) := st in
  r ← loop SPIN_FUEL (status_body MBOX_STATUS_EMPTY) (spins, w);
  match r with
  | (None, w) => Ret (inr (false, w))
  | (Some spins, w) =>
      let '(resp, w) := read32 (MBOX_BASE b + MBOX_READ) w in
      if decide (Z.land resp 0xF = MBOX_CH_PROPERTY ∧
                 Z.land resp (not32 0xF) = Z.land bus_addr (not32 0xF)) then
        let status := load32 (get_mem w) (buffer + 4) in
        Ret (inr (bool_decide (status = MBOX_RESPONSE_OK), w))
      else
        let loops := loops + 1 in
        if decide (SPIN_LIMIT ≤ loops) then Ret (inr (false, w)) else Ret (inl (spins, loops, w))
  end.

Definition call (buffer : Z) (w : W) : outcome (bool * W) :=
  if decide (Z.land buffer 0xF ≠ 0) then Ret (false, w)
  else
    let bus_addr := Z.lor (arm_to_vc b buffer) MBOX_CH_PROPERTY in
    r ← loop SPIN_FUEL (status_body MBOX_STATUS_FULL) (0, w);
    match r with
    | (None, w) => Ret (false, w)
    | (Some spins, w) =>
        let w := write32 (MBOX_BASE b + MBOX_WRITE) bus_addr w in
        loop SPIN_FUEL (reply_body buffer bus_addr) (spins, 0, w)
    end.

Lemma status_loop_ok bit spins w : 0 ≤ spins < SPIN_LIMIT →
  returns (loop SPIN_FUEL (status_body bit) (spins, w)) (λ '(r, _),
    match r with Some spins' => spins ≤ spins' < SPIN_LIMIT | None => True end).
Proof.
  intros Hs. apply (returns_loop (λ st, spins ≤ st.1 < SPIN_LIMIT)
    (λ st, Z.to_nat (SPIN_LIMIT - 1 - st.1))).
  - intros [k w1] Hk. unfold status_body. destruct (read32 _ w1) as [v w2]. simpl in Hk.
    case_decide; [|done]. case_decide; [done|]. cbn [returns fst]. lia.
  - cbn [fst]. lia.
  - pose proof SPIN_FUEL_eq. cbn [fst]. lia.
Qed.

Lemma reply_loop_ok buffer bus spins w : 0 ≤ spins < SPIN_LIMIT →
  returns (loop SPIN_FUEL (reply_body buffer bus) (spins, 0, w)) (λ '(ok, w'),
    ok = true → load32 (get_mem w') (buffer + 4) = MBOX_RESPONSE_OK).
Proof.
  intros Hs. apply (returns_loop (λ st, 0 ≤ st.1.1 < SPIN_LIMIT ∧ 0 ≤ st.1.2 < SPIN_LIMIT)
    (λ st, Z.to_nat (SPIN_LIMIT - 1 - st.1.2))).
  - intros [[k n] w1] [Hk Hn]. cbn [fst snd] in *. unfold reply_body.
    apply returns_bind. eapply returns_mono; [by apply status_loop_ok|].
    intros [[k'|] w2] Hk'; [|done].
    destruct (read32 _ w2) as [resp w3]. case_decide.
    + simpl. by rewrite bool_decide_eq_true.
    + case_decide; [done|]. cbn [returns fst snd]. lia.
  - cbn [fst snd]. unfold SPIN_LIMIT in *. lia.
  - pose proof SPIN_FUEL_eq. cbn [fst snd]. unfold SPIN_LIMIT in *. lia.
Qed.

(** What the three registers keep, a call keeps. *)
Lemma status_loop_keeps (P : W → Prop) bit spins w r : (∀ w, P w → P (read32 (MBOX_BASE b + MBOX_STATUS) w).2) →
  P w → loop SPIN_FUEL (status_body bit) (spins, w) = Ret r → P r.2.
Proof.
  intros HP Hw. apply (loop_inv (λ st, P st.2) _ (λ r, P r.2)); [|done]. intros [k v] o Hv. unfold status_body.
  cbn [snd] in Hv. specialize (HP v Hv). destruct (read32 _ v) as [x v'].
  repeat case_decide; by intros [= <-].
Qed.

Lemma call_keeps (P : W → Prop) buffer w r :
  (∀ w, P w → P (read32 (MBOX_BASE b + MBOX_STATUS) w).2) → (∀ w, P w → P (read32 (MBOX_BASE b + MBOX_READ) w).2) →
  (∀ v w, P w → P (write32 (MBOX_BASE b + MBOX_WRITE) v w)) → P w → call buffer w = Ret r → P r.2.
Proof.
  intros Hs Hr Hwr Hw. unfold call. case_decide; [by intros [= <-]|].
  intros ([o w1] & Hl & Hc)%bind_ret_inv. apply (status_loop_keeps P) in Hl; [|done..]. cbn [snd] in Hl.
  destruct o as [spins|]; [|by injection Hc as <-].
  apply (loop_inv (λ st, P st.2) _ (λ r, P r.2)) in Hc; [done| |by apply Hwr].
  intros [[k n] v] x Hv. unfold reply_body. intros ([o v1] & Hl1 & Hx)%bind_ret_inv.
  apply (status_loop_keeps P) in Hl1; [|done..]. cbn [snd] in Hl1. destruct o as [k'|]; [|by injection Hx as <-].
  specialize (Hr v1 Hl1). destruct (read32 _ v1) as [y v2]. repeat case_decide; by injection Hx as <-.
Qed.
End call.

Lemma call_ok {W} `{Hardware W, Dma W} (b : board) buffer (w : W) :
  returns (call b buffer w) (λ '(ok, w'),
    ok = true → load32 (get_mem w') (buffer + 4) = MBOX_RESPONSE_OK).
Proof.
  unfold call. case_decide as Ha; [done|]. apply returns_bind.
  eapply returns_mono; [apply status_loop_ok; unfold SPIN_LIMIT; lia|].
  intros [[spins|] w1] Hs; [|done]. apply reply_loop_ok. lia.
Qed.

(** A mailbox call terminates whatever the VideoCore does, and reports success only when the
    buffer's status word says the request succeeded; a buffer that is not 16-byte aligned is
    refused before the device is touched. *)
Theorem call_terminates {W} `{Hardware W, Dma W} (b : board) buffer (w : W) :
  returns (call b buffer w) (λ '(ok, w'),
    (ok = true → load32 (get_mem w') (buffer + 4) = MBOX_RESPONSE_OK) ∧
    (Z.land buffer 0xF ≠ 0 → ok = false ∧ w' = w)).
Proof.
  destruct (decide (Z.land buffer 0xF ≠ 0)) as [Ha|Ha].
  { unfold call. rewrite decide_True by done. done. }
  eapply returns_mono; [apply call_ok|]. intros [ok w2] Hok. done.
Qed.

(** The VideoCore's view of an address: a buffer in the low 1 GiB, addressed through the
    higher half, comes back as its physical address. *)
Lemma vc_round_trip b pa : 0 ≤ pa < 2 ^ 30 →
  vc_to_arm b (arm_to_vc b (phys_to_virt pa)) = pa.
Proof.
  intros Hpa. change (2 ^ 30) with 1073741824 in Hpa.
  assert (wrap32 (phys_to_virt pa) = pa) as Hw.
  { unfold wrap32, phys_to_virt, add64, wrap64, PHYS_MAP_BASE, KERNEL_VIRT_BASE.
    rewrite (Z.mod_small (pa + _)) by lia.
    replace (pa + 0xFFFF800000000000) with (pa + 4294934528 * 4294967296) by lia.
    rewrite Z.mod_add by lia. apply Z.mod_small. lia. }
  unfold vc_to_arm, arm_to_vc. rewrite Hw.
  assert (within 0 30 pa) as Hin by (apply within_aligned; [lia|done|apply Z.mod_1_r]).
  destruct b; unfold VC_MEM_MASK, VC_MEM_BASE; rewrite Z.land_lor_distr_l.
  - change 0xFFFFFFFF with (Z.ones 32). rewrite !Z.land_ones by lia. rewrite !(Z.mod_small pa) by lia.
    apply Z.lor_0_r.
  - change 0x3FFFFFFF with (Z.ones 30). rewrite !Z.land_ones by lia.
    change (2 ^ 30) with 1073741824. rewrite !Z.mod_mod, Z.mod_small by lia.
    change (0x40000000 mod 1073741824) with 0. apply Z.lor_0_r.
Qed.
