(* ===== verification/Font.v ===== *)
(** * The console font

    [src/gfx/font.rs]: the 8x8 bitmaps of the 128 ASCII characters, drawn 8 pixels wide and 16
    high (each row twice). *)
From S2P Require Import Prelude.
Local Open Scope Z_scope.

Definition FONT_WIDTH : Z := 8.
Definition FONT_HEIGHT : Z := 16.

Definition FONT : list (list Z) := [
  [0x00; 0x00; 0x00; 0x00; 0x00; 0x00; 0x00; 0x00];
  [0x00; 0x00; 0x00; 0x00; 0x00; 0x00; 0x00; 0x00];
  [0x00; 0x00; 0x00; 0x00; 0x00; 0x00; 0x00; 0x00];
  [0x00; 0x00; 0x00; 0x00; 0x00; 0x00; 0x00; 0x00];
  [0x00; 0x00; 0x00; 0x00; 0x00; 0x00; 0x00; 0x00];
  [0x00; 0x00; 0x00; 0x00; 0x00; 0x00; 0x00; 0x00];
  [0x00; 0x00; 0x00; 0x00; 0x00; 0x00; 0x00; 0x00];
  [0x00; 0x00; 0x00; 0x00; 0x00; 0x00; 0x00; 0x00];
  [0x00; 0x00; 0x00; 0x00; 0x00; 0x00; 0x00; 0x00];
  [0x00; 0x00; 0x00; 0x00; 0x00; 0x00; 0x00; 0x00];
  [0x00; 0x00; 0x00; 0x00; 0x00; 0x00; 0x00; 0x00];
  [0x00; 0x00; 0x00; 0x00; 0x00; 0x00; 0x00; 0x00];
  [0x00; 0x00; 0x00; 0x00; 0x00; 0x00; 0x00; 0x00];
  [0x00; 0x00; 0x00; 0x00; 0x00; 0x00; 0x00; 0x00];
  [0x00; 0x00; 0x00; 0x00; 0x00; 0x00; 0x00; 0x00];
  [0x00; 0x00; 0x00; 0x00; 0x00; 0x00; 0x00; 0x00];
  [0x00; 0x00; 0x00; 0x00; 0x00; 0x00; 0x00; 0x00];
  [0x00; 0x00; 0x00; 0x00; 0x00; 0x00; 0x00; 0x00];
  [0x00; 0x00; 0x00; 0x00; 0x00; 0x00; 0x00; 0x00];
  [0x00; 0x00; 0x00; 0x00; 0x00; 0x00; 0x00; 0x00];
  [0x00; 0x00; 0x00; 0x00; 0x00; 0x00; 0x00; 0x00];
  [0x00; 0x00; 0x00; 0x00; 0x00; 0x00; 0x00; 0x00];
  [0x00; 0x00; 0x00; 0x00; 0x00; 0x00; 0x00; 0x00];
  [0x00; 0x00; 0x00; 0x00; 0x00; 0x00; 0x00; 0x00];
  [0x00; 0x00; 0x00; 0x00; 0x00; 0x00; 0x00; 0x00];
  [0x00; 0x00; 0x00; 0x00; 0x00; 0x00; 0x00; 0x00];
  [0x00; 0x00; 0x00; 0x00; 0x00; 0x00; 0x00; 0x00];
  [0x00; 0x00; 0x00; 0x00; 0x00; 0x00; 0x00; 0x00];
  [0x00; 0x00; 0x00; 0x00; 0x00; 0x00; 0x00; 0x00];
  [0x00; 0x00; 0x00; 0x00; 0x00; 0x00; 0x00; 0x00];
  [0x00; 0x00; 0x00; 0x00; 0x00; 0x00; 0x00; 0x00];
  [0x00; 0x00; 0x00; 0x00; 0x00; 0x00; 0x00; 0x00];
  [0x00; 0x00; 0x00; 0x00; 0x00; 0x00; 0x00; 0x00];
  [0x00; 0x10; 0x10; 0x10; 0x10; 0x00; 0x10; 0x00];
  [0x00; 0x28; 0x28; 0x00; 0x00; 0x00; 0x00; 0x00];
  [0x00; 0x18; 0x3C; 0x28; 0x30; 0x78; 0x50; 0x00];
  [0x00; 0x10; 0x7C; 0x50; 0x38; 0x14; 0x7C; 0x10];
  [0x00; 0x70; 0x50; 0x74; 0x3C; 0x14; 0x1C; 0x00];
  [0x00; 0x1C; 0x10; 0x18; 0x2C; 0x28; 0x1C; 0x00];
  [0x00; 0x10; 0x10; 0x00; 0x00; 0x00; 0x00; 0x00];
  [0x00; 0x10; 0x20; 0x20; 0x20; 0x20; 0x20; 0x10];
  [0x00; 0x20; 0x20; 0x10; 0x10; 0x10; 0x20; 0x20];
  [0x00; 0x00; 0x10; 0x54; 0x38; 0x7C; 0x10; 0x00];
  [0x00; 0x00; 0x10; 0x10; 0x7C; 0x10; 0x10; 0x00];
  [0x00; 0x00; 0x00; 0x00; 0x00; 0x00; 0x10; 0x10];
  [0x00; 0x00; 0x00; 0x00; 0x7C; 0x00; 0x00; 0x00];
  [0x00; 0x00; 0x00; 0x00; 0x00; 0x10; 0x10; 0x00];
  [0x00; 0x08; 0x10; 0x10; 0x30; 0x20; 0x20; 0x40];
  [0x00; 0x10; 0x28; 0x28; 0x38; 0x28; 0x10; 0x00];
  [0x00; 0x30; 0x10; 0x10; 0x10; 0x10; 0x38; 0x00];
  [0x00; 0x38; 0x04; 0x04; 0x08; 0x10; 0x3C; 0x00];
  [0x00; 0x38; 0x04; 0x04; 0x18; 0x04; 0x3C; 0x00];
  [0x00; 0x08; 0x18; 0x18; 0x28; 0x3C; 0x08; 0x00];
  [0x00; 0x3C; 0x20; 0x38; 0x04; 0x04; 0x38; 0x00];
  [0x00; 0x1C; 0x30; 0x20; 0x3C; 0x24; 0x1C; 0x00];
  [0x00; 0x3C; 0x04; 0x08; 0x08; 0x08; 0x10; 0x00];
  [0x00; 0x18; 0x24; 0x24; 0x18; 0x24; 0x3C; 0x00];
  [0x00; 0x38; 0x24; 0x3C; 0x04; 0x0C; 0x38; 0x00];
  [0x00; 0x00; 0x00; 0x10; 0x00; 0x00; 0x10; 0x00];
  [0x00; 0x00; 0x00; 0x10; 0x00; 0x10; 0x10; 0x10];
  [0x00; 0x00; 0x00; 0x04; 0x38; 0x30; 0x0C; 0x00];
  [0x00; 0x00; 0x00; 0x78; 0x00; 0x78; 0x00; 0x00];
  [0x00; 0x00; 0x00; 0x20; 0x1C; 0x0C; 0x30; 0x00];
  [0x00; 0x38; 0x18; 0x10; 0x10; 0x00; 0x10; 0x00];
  [0x00; 0x38; 0x24; 0x5C; 0x64; 0x64; 0x5C; 0x38];
  [0x00; 0x18; 0x18; 0x28; 0x24; 0x3C; 0x24; 0x00];
  [0x00; 0x38; 0x28; 0x30; 0x28; 0x28; 0x38; 0x00];
  [0x00; 0x1C; 0x20; 0x20; 0x20; 0x20; 0x1C; 0x00];
  [0x00; 0x38; 0x24; 0x24; 0x24; 0x24; 0x38; 0x00];
  [0x00; 0x3C; 0x20; 0x3C; 0x20; 0x20; 0x3C; 0x00];
  [0x00; 0x3C; 0x20; 0x38; 0x20; 0x20; 0x20; 0x00];
  [0x00; 0x1C; 0x20; 0x20; 0x2C; 0x24; 0x1C; 0x00];
  [0x00; 0x28; 0x28; 0x38; 0x28; 0x28; 0x28; 0x00];
  [0x00; 0x38; 0x10; 0x10; 0x10; 0x10; 0x38; 0x00];
  [0x00; 0x18; 0x08; 0x08; 0x08; 0x08; 0x38; 0x00];
  [0x00; 0x28; 0x28; 0x30; 0x30; 0x28; 0x28; 0x00];
  [0x00; 0x20; 0x20; 0x20; 0x20; 0x20; 0x3C; 0x00];
  [0x00; 0x48; 0x48; 0x78; 0x48; 0x48; 0x48; 0x00];
  [0x00; 0x48; 0x68; 0x68; 0x68; 0x58; 0x48; 0x00];
  [0x00; 0x18; 0x24; 0x24; 0x24; 0x24; 0x18; 0x00];
  [0x00; 0x3C; 0x24; 0x3C; 0x20; 0x20; 0x20; 0x00];
  [0x00; 0x18; 0x24; 0x24; 0x24; 0x24; 0x18; 0x04];
  [0x00; 0x3C; 0x24; 0x38; 0x2C; 0x24; 0x22; 0x00];
  [0x00; 0x1C; 0x20; 0x38; 0x0C; 0x04; 0x3C; 0x00];
  [0x00; 0x7C; 0x10; 0x10; 0x10; 0x10; 0x10; 0x00];
  [0x00; 0x24; 0x24; 0x24; 0x24; 0x24; 0x18; 0x00];
  [0x00; 0x24; 0x24; 0x18; 0x18; 0x18; 0x18; 0x00];
  [0x00; 0x44; 0x44; 0x54; 0x28; 0x28; 0x28; 0x00];
  [0x00; 0x24; 0x1C; 0x18; 0x18; 0x24; 0x24; 0x00];
  [0x00; 0x44; 0x28; 0x10; 0x10; 0x10; 0x10; 0x00];
  [0x00; 0x3C; 0x08; 0x08; 0x10; 0x10; 0x3C; 0x00];
  [0x18; 0x10; 0x10; 0x10; 0x10; 0x10; 0x10; 0x18];
  [0x00; 0x40; 0x20; 0x20; 0x30; 0x10; 0x10; 0x08];
  [0x30; 0x10; 0x10; 0x10; 0x10; 0x10; 0x10; 0x30];
  [0x00; 0x10; 0x38; 0x48; 0x00; 0x00; 0x00; 0x00];
  [0x00; 0x00; 0x00; 0x00; 0x00; 0x00; 0x00; 0x00];
  [0x00; 0x20; 0x00; 0x00; 0x00; 0x00; 0x00; 0x00];
  [0x00; 0x00; 0x00; 0x3C; 0x3C; 0x24; 0x3C; 0x00];
  [0x20; 0x20; 0x20; 0x38; 0x24; 0x24; 0x38; 0x00];
  [0x00; 0x00; 0x00; 0x18; 0x20; 0x20; 0x18; 0x00];
  [0x04; 0x04; 0x04; 0x1C; 0x24; 0x24; 0x1C; 0x00];
  [0x00; 0x00; 0x30; 0x48; 0x78; 0x40; 0x38; 0x00];
  [0x0C; 0x10; 0x10; 0x3C; 0x10; 0x10; 0x10; 0x00];
  [0x00; 0x00; 0x00; 0x1C; 0x24; 0x24; 0x1C; 0x04];
  [0x20; 0x20; 0x20; 0x3C; 0x24; 0x24; 0x24; 0x00];
  [0x00; 0x10; 0x30; 0x10; 0x10; 0x10; 0x38; 0x00];
  [0x10; 0x00; 0x00; 0x30; 0x10; 0x10; 0x10; 0x10];
  [0x20; 0x20; 0x20; 0x24; 0x38; 0x38; 0x2C; 0x00];
  [0x00; 0x30; 0x10; 0x10; 0x10; 0x10; 0x1C; 0x00];
  [0x00; 0x00; 0x00; 0x3E; 0x2A; 0x2A; 0x2A; 0x00];
  [0x00; 0x00; 0x00; 0x3C; 0x24; 0x24; 0x24; 0x00];
  [0x00; 0x00; 0x00; 0x18; 0x24; 0x24; 0x18; 0x00];
  [0x00; 0x00; 0x00; 0x38; 0x24; 0x24; 0x38; 0x20];
  [0x00; 0x00; 0x00; 0x1C; 0x24; 0x24; 0x1C; 0x04];
  [0x00; 0x00; 0x00; 0x38; 0x20; 0x20; 0x20; 0x00];
  [0x00; 0x00; 0x00; 0x3C; 0x38; 0x04; 0x3C; 0x00];
  [0x00; 0x00; 0x10; 0x3C; 0x10; 0x10; 0x1C; 0x00];
  [0x00; 0x00; 0x00; 0x24; 0x24; 0x24; 0x3C; 0x00];
  [0x00; 0x00; 0x00; 0x24; 0x18; 0x18; 0x18; 0x00];
  [0x00; 0x00; 0x00; 0x44; 0x74; 0x28; 0x28; 0x00];
  [0x00; 0x00; 0x00; 0x3C; 0x18; 0x18; 0x3C; 0x00];
  [0x00; 0x00; 0x00; 0x24; 0x18; 0x18; 0x10; 0x10];
  [0x00; 0x00; 0x00; 0x3C; 0x18; 0x10; 0x3C; 0x00];
  [0x18; 0x10; 0x10; 0x10; 0x20; 0x10; 0x10; 0x18];
  [0x00; 0x10; 0x10; 0x10; 0x10; 0x10; 0x10; 0x10];
  [0x30; 0x10; 0x10; 0x10; 0x08; 0x10; 0x10; 0x30];
  [0x00; 0x00; 0x00; 0x20; 0x54; 0x08; 0x00; 0x00];
  [0x00; 0x00; 0x00; 0x00; 0x00; 0x00; 0x00; 0x00]
].

Definition glyph (c : Z) : outcome (list Z) :=
  if decide (c < 128) then aget FONT c else aget FONT 63.

Lemma FONT_shape : Forall (λ g, length g = 8%nat ∧ Forall (λ b, 0 ≤ b < 256) g) FONT.
Proof. apply (bool_decide_unpack _). by vm_compute. Qed.

(** Every byte has a glyph of eight rows. *)
Lemma glyph_ok c : 0 ≤ c → ∃ g, glyph c = Ret g ∧ length g = 8%nat.
Proof.
  intros Hc. pose proof FONT_shape as Hs. rewrite Forall_lookup in Hs. unfold glyph.
  assert (len FONT = 128) as Hl by by vm_compute.
  case_decide.
  - destruct (aget_total FONT c) as (g & -> & Hg); [lia|]. exists g. split; [done|].
    by eapply Hs.
  - destruct (aget_total FONT 63) as (g & -> & Hg); [lia|]. exists g. split; [done|].
    by eapply Hs.
Qed.
#[global] Opaque FONT.
