(* ===== verification/Framebuffer.v ===== *)
(** * The framebuffer console

    [src/drivers/framebuffer.rs] and [src/platform/simplefb.rs]: the pixel operations on the
    mapped framebuffer, the text console on top of them, and initialisation through the
    mailbox or from a firmware-provided framebuffer.

    The pixel operations work on a [mem]; the initialisation, which shares a buffer with the
    VideoCore, on a device state [W].  The console is shown to implement an abstract character
    grid ([tty]). *)
From S2P Require Import Prelude Layout Sync Memory Mmio Mailbox Font.
Local Open Scope Z_scope.

(** ** src/platform/simplefb.rs *)
Inductive SimpleFbFormat := X8R8G8B8 | A8R8G8B8.
#[export] Instance SimpleFbFormat_eq_dec : EqDecision SimpleFbFormat.
Proof. solve_decision. Defined.

Record SimpleFbInfo := mkSimpleFb {
  sfb_addr : Z; sfb_size : Z; sfb_width : Z; sfb_height : Z; sfb_stride : Z;
  sfb_format : SimpleFbFormat
}.

(** ** src/drivers/framebuffer.rs *)
Definition TAG_SET_PHYS_WH : Z := 0x00048003.
Definition TAG_SET_VIRT_WH : Z := 0x00048004.
Definition TAG_SET_VIRT_OFFSET : Z := 0x00048009.
Definition TAG_SET_DEPTH : Z := 0x00048005.
Definition TAG_SET_PIXEL_ORDER : Z := 0x00048006.
Definition TAG_ALLOCATE_BUFFER : Z := 0x00040001.
Definition TAG_GET_PITCH : Z := 0x00040008.
Definition REQUEST : Z := 0.

Record Framebuffer := mkFb { ptr : Z; width : Z; height : Z; pitch : Z }.

Inductive InitError := MailboxCallFailed | NoFramebuffer | NoPitch | InvalidSimpleFb.

Record Console := mkConsole {
  fb : Framebuffer; col : Z; row : Z; cols : Z; rows : Z; fg : Z; bg : Z
}.

(** *** Pixels *)
Definition put_pixel (f : Framebuffer) (x y color : Z) (m : mem) : mem :=
  let offset := add32 (mul32 y (pitch f)) (mul32 x 4) in
  store32 (ptr f + offset) color m.

Definition clear (f : Framebuffer) (color : Z) (m : mem) : outcome mem :=
  while_range 0 (height f) (λ y m,
    while_range 0 (width f) (λ x m, Ret (put_pixel f x y color m)) m) m.

Definition scroll_rows (f : Framebuffer) (nrows color : Z) (m : mem) : outcome mem :=
  if decide (nrows = 0) then Ret m
  else if decide (height f ≤ nrows) then clear f color m
  else
    let bytes_per_row := pitch f in
    let m := copy (ptr f + nrows * bytes_per_row) (ptr f) ((height f - nrows) * bytes_per_row) m in
    let start := height f - nrows in
    while_range start (height f) (λ y m,
      let row_ptr := ptr f + y * bytes_per_row in
      while_range 0 (width f) (λ x m, Ret (store32 (row_ptr + 4 * x) color m)) m) m.

(** The column loop of [draw_char] for one pixel row. *)
Definition draw_cols (f : Framebuffer) (x py bits fgc bgc : Z) (m : mem) : outcome mem :=
  while_range 0 8 (λ c m,
    let px := x + c in
    if decide (width f ≤ px) then Ret m
    else
      let on := negb (Z.land (Z.shiftr bits (7 - c)) 1 =? 0) in
      Ret (put_pixel f px py (if on then fgc else bgc) m)) m.

Definition draw_char (f : Framebuffer) (x y c fgc bgc : Z) (m : mem) : outcome mem :=
  g ← glyph c;
  while_range 0 (len g) (λ r m,
    bits ← aget g r;
    let y0 := y + r * 2 in
    while_range 0 2 (λ dy m,
      let py := y0 + dy in
      if decide (height f ≤ py) then Ret m else draw_cols f x py bits fgc bgc m) m) m.

(** The pen position is the loop's state. *)
Definition write_str (f : Framebuffer) (x y : Z) (s : list Z) (fgc bgc : Z) (m : mem) :
    outcome (Z * Z * mem) :=
  for_each_in s (λ b st,
    let '(x, y, m) := st in
    if decide (b = 10) then Ret (0, y + FONT_HEIGHT, m)
    else m ← draw_char f x y b fgc bgc m; Ret (x + FONT_WIDTH, y, m)) (x, y, m).

(** *** Console *)
Definition Console_new (f : Framebuffer) (fgc bgc : Z) : Console :=
  let c := width f / FONT_WIDTH in
  let r := height f / FONT_HEIGHT in
  mkConsole f 0 0 (Z.max c 1) (Z.max r 1) fgc bgc.

Definition set_cursor (con : Console) (c r : Z) : Console :=
  mkConsole (fb con) c r (cols con) (rows con) (fg con) (bg con).

Definition newline (con : Console) (m : mem) : outcome (Console * mem) :=
  let con := set_cursor con 0 (row con + 1) in
  if decide (rows con ≤ row con) then
    m ← scroll_rows (fb con) FONT_HEIGHT (bg con) m;
    Ret (set_cursor con 0 (rows con - 1), m)
  else Ret (con, m).

Definition put_char (con : Console) (c : Z) (m : mem) : outcome (Console * mem) :=
  if decide (c = 10) then newline con m
  else
    let x := col con * FONT_WIDTH in
    let y := row con * FONT_HEIGHT in
    m ← draw_char (fb con) x y c (fg con) (bg con) m;
    let con := set_cursor con (col con + 1) (row con) in
    if decide (cols con ≤ col con) then newline con m else Ret (con, m).

Definition write_byte (con : Console) (b : Z) (m : mem) : outcome (Console * mem) :=
  put_char con b m.

(** [fmt::Write::write_str] of the console, and the loop of [vfs::write]. *)
Definition console_write (s : list Z) (con : Console) (m : mem) : outcome (Console * mem) :=
  for_each_in s (λ b st, write_byte st.1 b st.2) (con, m).

(** *** Initialisation *)

(** The 35 words of the request. *)
Definition request (w h : Z) : list Z :=
  [35 * 4; REQUEST;
   TAG_SET_PHYS_WH; 8; 8; w; h;
   TAG_SET_VIRT_WH; 8; 8; w; h;
   TAG_SET_VIRT_OFFSET; 8; 8; 0; 0;
   TAG_SET_DEPTH; 4; 4; 32;
   TAG_SET_PIXEL_ORDER; 4; 4; 1;
   TAG_ALLOCATE_BUFFER; 8; 8; 4096; 0;
   TAG_GET_PITCH; 4; 4; 0;
   0].

(** Stores of consecutive words, lowest address first. *)
Fixpoint store_words (a : Z) (ws : list Z) (m : mem) : mem :=
  match ws with [] => m | w :: ws => store_words (a + 4) ws (store32 a w m) end.

Section init.
Context {W : Type} `{Hardware W, Dma W} (b : board).

(** [mbox] is the address of the static buffer [MBOX]. *)
Definition init_with_mode (mbox w h : Z) (st : W) : outcome ((InitError + Framebuffer) * W) :=
  let st := put_mem (store_words mbox (request w h) (get_mem st)) st in
  r ← call b mbox st;
  let '(ok, st) := r in
  if negb ok then Ret (inl MailboxCallFailed, st)
  else
    let m := get_mem st in
    let buf i := load32 m (mbox + 4 * i) in
    let fb_bus := buf 28 in
    let pitch := buf 33 in
    if decide (fb_bus = 0) then Ret (inl NoFramebuffer, st)
    else if decide (pitch = 0) then Ret (inl NoPitch, st)
    else
      let fb_ptr := phys_to_virt (vc_to_arm b fb_bus) in
      let out_width := if decide (buf 10 ≠ 0) then buf 10 else w in
      let out_height := if decide (buf 11 ≠ 0) then buf 11 else h in
      Ret (inr (mkFb fb_ptr out_width out_height pitch), st).

Definition init_from_simplefb (info : SimpleFbInfo) : InitError + Framebuffer :=
  if decide (sfb_addr info = 0 ∨ sfb_width info = 0 ∨ sfb_height info = 0 ∨ sfb_stride info = 0)
  then inl InvalidSimpleFb
  else inr (mkFb (phys_to_virt (sfb_addr info)) (sfb_width info) (sfb_height info)
              (sfb_stride info)).

Definition clear_w (f : Framebuffer) (color : Z) (st : W) : outcome W :=
  m ← clear f color (get_mem st); Ret (put_mem m st).

(** Installing the console: common to the two [init_console_*]. *)
Definition install (f : Framebuffer) (fgc bgc : Z) (console : SpinLock (option Console)) (st : W) :
    outcome ((Z * Z) * SpinLock (option Console) * W) :=
  st ← clear_w f bgc st;
  g ← lock console;
  Ret (width f, height f, unlock (guard_set g (Some (Console_new f fgc bgc))), st).

Definition init_console_with_mode (mbox w h fgc bgc : Z)
    (console : SpinLock (option Console)) (st : W) :
    outcome ((InitError + Z * Z) * SpinLock (option Console) * W) :=
  r ← init_with_mode mbox w h st;
  match r with
  | (inl e, st) => Ret (inl e, console, st)
  | (inr f, st) =>
      '(wh, console, st) ← install f fgc bgc console st;
      Ret (inr wh, console, st)
  end.

Definition init_console_from_simplefb (info : SimpleFbInfo) (fgc bgc : Z)
    (console : SpinLock (option Console)) (st : W) :
    outcome ((InitError + Z * Z) * SpinLock (option Console) * W) :=
  match init_from_simplefb info with
  | inl e => Ret (inl e, console, st)
  | inr f =>
      '(wh, console, st) ← install f fgc bgc console st;
      Ret (inr wh, console, st)
  end.

(** [with_console] and [try_with_console]. *)
Definition with_console (f : Console → mem → outcome (Console * mem))
    (console : SpinLock (option Console)) (st : W) :
    outcome (bool * SpinLock (option Console) * W) :=
  g ← lock console;
  match data g with
  | Some con =>
      r ← f con (get_mem st);
      Ret (true, unlock (guard_set g (Some r.1)), put_mem r.2 st)
  | None => Ret (false, unlock g, st)
  end.

Definition try_with_console (f : Console → mem → outcome (Console * mem))
    (console : SpinLock (option Console)) (st : W) :
    outcome (bool * SpinLock (option Console) * W) :=
  match try_lock console with
  | None => Ret (false, console, st)
  | Some g =>
      match data g with
      | Some con =>
          r ← f con (get_mem st);
          Ret (true, unlock (guard_set g (Some r.1)), put_mem r.2 st)
      | None => Ret (false, unlock g, st)
      end
  end.
End init.

(** ** What the pixel operations draw *)

(** A framebuffer whose pixels can be addressed: rows do not overlap and offsets fit 32 bits. *)
Record fb_ok (f : Framebuffer) : Prop := {
  fb_width : 0 < width f;
  fb_height : 0 < height f;
  fb_row : 4 * width f ≤ pitch f;
  fb_size : height f * pitch f < U32
}.

Definition pixel (f : Framebuffer) (m : mem) (x y : Z) : Z := load32 m (ptr f + y * pitch f + 4 * x).

(** From [m] to [m'] the picture has become [P], and no byte outside the framebuffer changed. *)
Definition draws (f : Framebuffer) (m m' : mem) (P : Z → Z → Z) : Prop :=
  (∀ x y, 0 ≤ x < width f → 0 ≤ y < height f → pixel f m' x y = P x y) ∧
  (∀ a, a < ptr f ∨ ptr f + height f * pitch f ≤ a → m' a = m a).

(** Whether the pixel [(dx, dy)] of a character cell is lit. *)
Definition lit (c dx dy : Z) : bool :=
  match glyph c with
  | Ret g => negb (Z.land (Z.shiftr (g !!! Z.to_nat (dy / 2)) (7 - dx)) 1 =? 0)
  | _ => false
  end.

Section pixels.
Context (f : Framebuffer) (Hf : fb_ok f).

Lemma draws_refl m : draws f m m (pixel f m).
Proof. split; done. Qed.

Lemma draws_ext m m' P Q : draws f m m' P →
  (∀ x y, 0 ≤ x < width f → 0 ≤ y < height f → P x y = Q x y) → draws f m m' Q.
Proof. intros [H1 H2] HPQ. split; [|done]. intros. rewrite H1 by done. by apply HPQ. Qed.

Lemma draws_trans m m1 m2 P Q : draws f m m1 P → draws f m1 m2 Q → draws f m m2 Q.
Proof. intros [H1 H2] [H3 H4]. split; [done|]. intros a Ha. rewrite H4 by done. by apply H2. Qed.

(** The byte offset of a pixel, inside the framebuffer. *)
Lemma pixel_offset x y : 0 ≤ x < width f → 0 ≤ y < height f →
  0 ≤ y * pitch f + 4 * x ∧ y * pitch f + 4 * x + 4 ≤ height f * pitch f.
Proof. destruct Hf. intros. split; nia. Qed.

(** Storing a word at a pixel's place changes that pixel only. *)
Lemma store_pixel x y color m : 0 ≤ x < width f → 0 ≤ y < height f → is_u32 color →
  draws f m (store32 (ptr f + y * pitch f + 4 * x) color m)
    (λ x' y', if decide (x' = x ∧ y' = y) then color else pixel f m x' y').
Proof.
  intros Hx Hy Hc. destruct (pixel_offset x y Hx Hy). split.
  - intros x' y' Hx' Hy'. unfold pixel. case_decide as Hd.
    + destruct Hd as [-> ->]. by apply load32_store32.
    + apply load32_store32_other. destruct Hf.
      destruct (Z.lt_trichotomy y y') as [?|[->|?]]; [nia| |nia].
      assert (x' ≠ x) by (intros ->; by apply Hd). lia.
  - intros a Ha. apply store32_out. lia.
Qed.

Lemma put_pixel_draws x y color m : 0 ≤ x < width f → 0 ≤ y < height f → is_u32 color →
  draws f m (put_pixel f x y color m)
    (λ x' y', if decide (x' = x ∧ y' = y) then color else pixel f m x' y').
Proof.
  intros Hx Hy Hc. destruct (pixel_offset x y Hx Hy). destruct Hf. unfold put_pixel.
  assert (add32 (mul32 y (pitch f)) (mul32 x 4) = y * pitch f + 4 * x) as ->.
  { unfold add32, mul32, wrap32. rewrite <-Zplus_mod. rewrite Z.mod_small; lia. }
  rewrite Z.add_assoc. by apply store_pixel.
Qed.

(** A row of stores of the same colour, as in [clear] and at the bottom of [scroll_rows]. *)
Lemma row_draws (store : Z → mem → mem) y color m : 0 ≤ y < height f → is_u32 color →
  (∀ x m, 0 ≤ x < width f → draws f m (store x m)
    (λ x' y', if decide (x' = x ∧ y' = y) then color else pixel f m x' y')) →
  returns (while_range 0 (width f) (λ x m, Ret (store x m)) m) (λ m',
    draws f m m' (λ x' y', if decide (y' = y) then color else pixel f m x' y')).
Proof.
  intros Hy Hc Hst. destruct Hf. eapply returns_mono.
  - apply (returns_while_range (λ i m', draws f m m'
      (λ x' y', if decide (y' = y ∧ x' < i) then color else pixel f m x' y')) _ 0 (width f) m);
      [lia| |].
    + eapply draws_ext; [apply draws_refl|]. intros. by rewrite decide_False by lia.
    + intros i m1 Hi Hd. simpl. eapply draws_trans; [done|].
      eapply draws_ext; [by apply Hst|]. intros x' y' Hx' Hy'. cbv beta.
      rewrite (proj1 Hd) by done. repeat case_decide; try lia; done.
  - intros m' Hd. eapply draws_ext; [exact Hd|]. intros x' y' Hx' Hy'. cbv beta.
    repeat case_decide; try lia; done.
Qed.

(** Rows [lo .. height) filled with one colour. *)
Lemma rows_draws (body : Z → mem → outcome mem) lo color m : 0 ≤ lo ≤ height f →
  (∀ y m, 0 ≤ y < height f → returns (body y m) (λ m',
    draws f m m' (λ x' y', if decide (y' = y) then color else pixel f m x' y'))) →
  returns (while_range lo (height f) body m) (λ m',
    draws f m m' (λ x' y', if decide (lo ≤ y') then color else pixel f m x' y')).
Proof.
  intros Hlo Hb. eapply returns_mono.
  - apply (returns_while_range (λ i m', draws f m m'
      (λ x' y', if decide (lo ≤ y' < i) then color else pixel f m x' y')) _ lo (height f) m);
      [lia| |].
    + eapply draws_ext; [apply draws_refl|]. intros. by rewrite decide_False by lia.
    + intros i m1 Hi Hd. eapply returns_mono; [apply Hb; lia|]. intros m2 Hd2. 
      eapply draws_trans; [exact Hd|]. eapply draws_ext; [exact Hd2|]. intros x' y' Hx' Hy'. cbv beta.
      rewrite (proj1 Hd) by done. repeat case_decide; try lia; done.
  - intros m' Hd. eapply draws_ext; [exact Hd|]. intros x' y' Hx' Hy'. cbv beta.
    repeat case_decide; try lia; done.
Qed.

Lemma clear_draws color m : is_u32 color →
  returns (clear f color m) (λ m', draws f m m' (λ _ _, color)).
Proof.
  intros Hc. destruct Hf. eapply returns_mono.
  - apply (rows_draws _ 0 color); [lia|]. intros y m1 Hy. apply row_draws; [done..|].
    intros. by apply put_pixel_draws.
  - intros m' Hd. eapply draws_ext; [exact Hd|]. intros. cbv beta. by rewrite decide_True by lia.
Qed.

Lemma copy_draws n m : 0 < n < height f →
  draws f m (copy (ptr f + n * pitch f) (ptr f) ((height f - n) * pitch f) m)
    (λ x y, if decide (y < height f - n) then pixel f m x (y + n)
            else pixel f (copy (ptr f + n * pitch f) (ptr f) ((height f - n) * pitch f) m) x y).
Proof.
  intros Hn. destruct Hf. split.
  - intros x y Hx Hy. case_decide; [|done]. unfold pixel. rewrite load32_copy by nia.
    f_equal. lia.
  - intros a Ha. apply copy_out. nia.
Qed.

(** Scrolling: the picture moves up, the rows uncovered at the bottom get the background. *)
Lemma scroll_draws n color m : 0 < n → is_u32 color →
  returns (scroll_rows f n color m) (λ m', draws f m m'
    (λ x y, if decide (y + n < height f) then pixel f m x (y + n) else color)).
Proof.
  intros Hn Hc. destruct Hf. unfold scroll_rows. rewrite decide_False by lia. case_decide.
  { eapply returns_mono; [by apply clear_draws|]. intros m' Hd. eapply draws_ext; [exact Hd|].
    intros. cbv beta. by rewrite decide_False by lia. }
  pose proof (copy_draws n m ltac:(lia)) as Hcopy. set (m1 := copy _ _ _ m) in *. cbv zeta.
  eapply returns_mono.
  - apply (rows_draws _ (height f - n) color m1); [lia|]. intros y m2 Hy.
    apply row_draws; [done..|]. intros. by apply store_pixel.
  - intros m' Hd. eapply draws_trans; [exact Hcopy|]. eapply draws_ext; [exact Hd|].
    intros x y Hx Hy. cbv beta. case_decide.
    + by rewrite decide_False by lia.
    + rewrite (proj1 Hcopy) by done. rewrite decide_True by lia. by rewrite decide_True by lia.
Qed.

Lemma draw_cols_draws x py bits fgc bgc m : 0 ≤ x → 0 ≤ py < height f →
  is_u32 fgc → is_u32 bgc →
  returns (draw_cols f x py bits fgc bgc m) (λ m', draws f m m'
    (λ x' y', if decide (y' = py ∧ x ≤ x' < x + 8)
              then (if negb (Z.land (Z.shiftr bits (7 - (x' - x))) 1 =? 0) then fgc else bgc)
              else pixel f m x' y')).
Proof.
  intros Hx Hpy Hfg Hbg. unfold draw_cols.
  apply (returns_while_range (λ i m', draws f m m'
    (λ x' y', if decide (y' = py ∧ x ≤ x' < x + i)
              then (if negb (Z.land (Z.shiftr bits (7 - (x' - x))) 1 =? 0) then fgc else bgc)
              else pixel f m x' y')) _ 0 8 m); [lia| |].
  - eapply draws_ext; [apply draws_refl|]. intros. by rewrite decide_False by lia.
  - intros i m1 Hi Hd. case_decide.
    + simpl. eapply draws_ext; [done|]. intros x' y' Hx' Hy'. cbv beta.
      destruct (decide (y' = py ∧ x ≤ x' < x + i)).
      * by rewrite decide_True by lia.
      * by rewrite decide_False by lia.
    + cbn [returns]. eapply draws_trans; [done|].
      eapply draws_ext; [apply put_pixel_draws; [lia|done|by case_match]|].
      intros x' y' Hx' Hy'. cbv beta. case_decide as Hxy.
      * destruct Hxy as [-> ->]. rewrite decide_True by lia. by replace (x + i - x) with i by lia.
      * rewrite (proj1 Hd) by done.
        destruct (decide (y' = py ∧ x ≤ x' < x + i)).
        -- by rewrite decide_True by lia.
        -- by rewrite decide_False by lia.
Qed.

(** A character: its 8x16 cell gets the glyph, the rest of the picture stays; what falls
    outside the framebuffer is clipped. *)
Lemma draw_char_draws x y c fgc bgc m : 0 ≤ x → 0 ≤ y → 0 ≤ c → is_u32 fgc → is_u32 bgc →
  returns (draw_char f x y c fgc bgc m) (λ m', draws f m m'
    (λ x' y', if decide (x ≤ x' < x + 8 ∧ y ≤ y' < y + 16)
              then (if lit c (x' - x) (y' - y) then fgc else bgc) else pixel f m x' y')).
Proof.
  intros Hx Hy Hc Hfg Hbg. unfold draw_char, lit. destruct (glyph_ok c Hc) as (g & -> & Hg).
  rewrite bind_ret. assert (len g = 8) as Hlen by (unfold len; lia). rewrite Hlen.
  set (shade dx bits := if negb (Z.land (Z.shiftr bits (7 - dx)) 1 =? 0) then fgc else bgc).
  set (P k m := λ x' y', if decide (x ≤ x' < x + 8 ∧ y ≤ y' < y + k)
    then shade (x' - x) (g !!! Z.to_nat ((y' - y) / 2)) else pixel f m x' y').
  apply (returns_while_range (λ r m', draws f m m' (P (2 * r) m)) _ 0 8 m); [lia| |].
  { eapply draws_ext; [apply draws_refl|]. intros. unfold P. by rewrite decide_False by lia. }
  intros r m1 Hr Hd. destruct (aget_total g r) as (bits & -> & Hbits); [lia|]. rewrite bind_ret.
  replace (2 * (r + 1)) with (2 * r + 2) by lia.
  apply (returns_while_range (λ dy m', draws f m m' (P (2 * r + dy) m)) _ 0 2 m1); [lia| |].
  { by rewrite Z.add_0_r. }
  clear m1 Hd. intros dy m1 Hdy Hd. case_decide.
  - simpl. eapply draws_ext; [done|]. intros x' y' Hx' Hy'. unfold P.
    destruct (decide (x ≤ x' < x + 8 ∧ y ≤ y' < y + (2 * r + dy))).
    + by rewrite decide_True by lia.
    + by rewrite decide_False by lia.
  - eapply returns_mono; [apply draw_cols_draws; try done; lia|]. intros m2 Hd2. 
    eapply draws_trans; [exact Hd|]. eapply draws_ext; [exact Hd2|]. intros x' y' Hx' Hy'. cbv beta.
    unfold P. case_decide as Hin.
    + rewrite decide_True by lia. unfold shade. replace ((y' - y) / 2) with r.
      * by rewrite (list_lookup_total_correct _ _ _ Hbits).
      * replace (y' - y) with (dy + r * 2) by lia. rewrite Z.div_add by lia.
        rewrite Z.div_small by lia. done.
    + rewrite (proj1 Hd) by done. unfold P.
      destruct (decide (x ≤ x' < x + 8 ∧ y ≤ y' < y + (2 * r + dy))).
      * by rewrite decide_True by lia.
      * by rewrite decide_False by lia.
Qed.
End pixels.

(** ** The console as a character grid *)

(** An abstract teletype: a cursor and the character in each cell ([None]: blank). *)
Record tty := mkTty { t_col : Z; t_row : Z; t_cell : Z → Z → option Z }.

Definition tty_new : tty := mkTty 0 0 (λ _ _, None).

(** Next line; at the bottom every line moves up and the last one is blank. *)
Definition tty_newline (nrows : Z) (t : tty) : tty :=
  if decide (nrows ≤ t_row t + 1) then
    mkTty 0 (nrows - 1) (λ r c, if decide (r < nrows - 1) then t_cell t (r + 1) c else None)
  else mkTty 0 (t_row t + 1) (t_cell t).

Definition tty_put (ncols nrows c : Z) (t : tty) : tty :=
  if decide (c = 10) then tty_newline nrows t
  else
    let t' := mkTty (t_col t + 1) (t_row t)
      (λ r c', if decide (r = t_row t ∧ c' = t_col t) then Some c else t_cell t r c') in
    if decide (ncols ≤ t_col t') then tty_newline nrows t' else t'.

(** The colour of a pixel of a cell. *)
Definition shade (con : Console) (o : option Z) (dx dy : Z) : Z :=
  match o with
  | None => bg con
  | Some c => if lit c dx dy then fg con else bg con
  end.

(** The framebuffer displays the grid: every cell its glyph, everything else background. *)
Record displays (con : Console) (m : mem) (t : tty) : Prop := {
  sh_fb : fb_ok (fb con);
  sh_cols : cols con = width (fb con) / 8;
  sh_rows : rows con = height (fb con) / 16;
  sh_fg : is_u32 (fg con);
  sh_bg : is_u32 (bg con);
  sh_col : col con = t_col t;
  sh_row : row con = t_row t ∧ 0 ≤ t_row t < rows con;
  sh_pixel : ∀ x y, 0 ≤ x < width (fb con) → 0 ≤ y < height (fb con) →
    pixel (fb con) m x y =
      if decide (x / 8 < cols con ∧ y / 16 < rows con)
      then shade con (t_cell t (y / 16) (x / 8)) (x mod 8) (y mod 16) else bg con
}.

(** Between operations the cursor is inside the grid. *)
Definition shows (con : Console) (m : mem) (t : tty) : Prop :=
  displays con m t ∧ 0 ≤ t_col t < cols con.

(** What a console operation guarantees: the display follows the grid, no byte outside the
    framebuffer changes, and the console keeps its framebuffer, size and colours. *)
Definition follows (con : Console) (m : mem) (t : tty) (r : Console * mem) : Prop :=
  shows r.1 r.2 t ∧
  (∀ a, a < ptr (fb con) ∨ ptr (fb con) + height (fb con) * pitch (fb con) ≤ a → r.2 a = m a) ∧
  fb r.1 = fb con ∧ cols r.1 = cols con ∧ rows r.1 = rows con ∧ fg r.1 = fg con ∧ bg r.1 = bg con.

Lemma cell_of x k w : 0 < w → (k * w ≤ x < k * w + w ↔ x / w = k).
Proof.
  intros Hw. split.
  - intros H. symmetry. apply (Z.div_unique x w k (x - k * w)); lia.
  - intros <-. pose proof (Z.div_mod x w). pose proof (Z.mod_pos_bound x w). lia.
Qed.

Lemma newline_follows con m t : displays con m t → 0 < cols con →
  returns (newline con m) (follows con m (tty_newline (rows con) t)).
Proof.
  intros [Hf Hc Hr Hfg Hbg Hcol [Hrow Hrb] Hp] Hc0.
  unfold newline, tty_newline. cbn [row rows fb bg set_cursor]. rewrite Hrow. case_decide.
  - apply returns_bind. eapply returns_mono; [apply scroll_draws; [done|done|done]|].
    intros m' [Hd Hout]. simpl. split; [|done].
    split; [|simpl; lia]. split; simpl; try done; try lia. intros x y Hx Hy. rewrite Hd by done.
    assert ((y + 16) / 16 = y / 16 + 1) as Hdiv
      by (change (y + 16) with (y + 1 * 16); by rewrite Z.div_add by lia).
    assert ((y + 16) mod 16 = y mod 16) as Hmod
      by (change (y + 16) with (y + 1 * 16); by rewrite Z.mod_add by lia).
    unfold FONT_HEIGHT. destruct (decide (y + 16 < height (fb con))) as [Hin|Hin].
    + rewrite Hp, Hdiv, Hmod by lia.
      destruct (decide (x / 8 < cols con ∧ y / 16 + 1 < rows con)) as [Hd1|Hd1].
      * rewrite (decide_True (P := _ ∧ _)) by lia. by rewrite decide_True by lia.
      * case_decide; [|done]. by rewrite decide_False by lia.
    + assert (rows con ≤ y / 16 + 1) as Hlast.
      { rewrite Hr, <-Hdiv. apply Z.div_le_mono; lia. }
      case_decide; [|done]. by rewrite decide_False by lia.
  - split; [|done]. split; [|simpl; lia]. split; simpl; try done; lia.
Qed.

(** The cell under the cursor gets the glyph. *)
Lemma glyph_pixels con m m' t c : displays con m t → 0 ≤ t_col t < cols con →
  draws (fb con) m m' (λ x' y',
    if decide (t_col t * 8 ≤ x' < t_col t * 8 + 8 ∧ t_row t * 16 ≤ y' < t_row t * 16 + 16)
    then (if lit c (x' - t_col t * 8) (y' - t_row t * 16) then fg con else bg con)
    else pixel (fb con) m x' y') →
  displays (set_cursor con (t_col t + 1) (row con)) m'
    (mkTty (t_col t + 1) (t_row t)
      (λ r c', if decide (r = t_row t ∧ c' = t_col t) then Some c else t_cell t r c')).
Proof.
  intros [Hf Hc Hr Hfg Hbg Hcol [Hrow Hrb] Hp] Hcb [Hd _].
  split; simpl; try done. intros x y Hx Hy. rewrite Hd by done.
  destruct (decide (x / 8 = t_col t ∧ y / 16 = t_row t)) as [[Hx8 Hy16]|Hne].
  - rewrite decide_True by (split; apply cell_of; lia).
    rewrite (decide_True (P := x / 8 < cols con ∧ _)) by lia.
    rewrite decide_True by lia. simpl.
    replace (x - t_col t * 8) with (x mod 8) by (pose proof (Z.div_mod x 8); lia).
    by replace (y - t_row t * 16) with (y mod 16) by (pose proof (Z.div_mod y 16); lia).
  - rewrite decide_False.
    + rewrite Hp by done. case_decide; [|done]. by rewrite decide_False by lia.
    + intros [H1 H2]. apply Hne. split; apply cell_of; lia.
Qed.

Lemma put_char_follows con m t c : shows con m t → 0 ≤ c →
  returns (put_char con c m) (follows con m (tty_put (cols con) (rows con) c t)).
Proof.
  intros [Hs Hcb] Hc0. unfold put_char, tty_put.
  case_decide; [apply newline_follows; [done|lia]|].
  pose proof (sh_col _ _ _ Hs) as Hcol. destruct (sh_row _ _ _ Hs) as [Hrow Hrb].
  unfold FONT_WIDTH, FONT_HEIGHT. rewrite Hcol, Hrow. apply returns_bind.
  eapply returns_mono; [apply draw_char_draws; try apply Hs; lia|]. intros m' Hd.
  pose proof (glyph_pixels con m m' t c Hs Hcb Hd) as Hs'. destruct Hd as [_ Hout].
  rewrite Hrow in Hs'. cbn [set_cursor cols col t_col]. case_decide.
  - eapply returns_mono; [apply newline_follows; [exact Hs'|simpl; lia]|].
    intros [con2 m2] (Hsh & Hout2 & Hrest). simpl in *. split; [done|]. split; [|done].
    intros a Ha. simpl. rewrite Hout2 by done. by apply Hout.
  - simpl. split; [|done]. split; [done|simpl; lia].
Qed.

(** Writing a string puts its characters one after another. *)
Definition tty_write (ncols nrows : Z) (s : list Z) (t : tty) : tty :=
  fold_left (λ t c, tty_put ncols nrows c t) s t.

Lemma console_write_follows s con m t : shows con m t → Forall (λ c, 0 ≤ c) s →
  returns (console_write s con m) (follows con m (tty_write (cols con) (rows con) s t)).
Proof.
  intros Hs Hpos. unfold console_write, tty_write.
  apply (returns_for_each_in (λ dn r,
    follows con m (fold_left (λ t c, tty_put (cols con) (rows con) c t) dn t) r)).
  - by split.
  - intros dn c rest [con1 m1] -> (Hsh & Hout & Hfb & Hc & Hr & Hfg & Hbg). simpl in *.
    apply Forall_app in Hpos as [_ [Hc0 _]%Forall_cons].
    eapply returns_mono; [by apply put_char_follows|].
    intros [con2 m2] (Hsh2 & Hout2 & Hfb2 & Hc2 & Hr2 & Hfg2 & Hbg2). simpl in *.
    rewrite fold_left_app. simpl. rewrite Hc, Hr in Hsh2. split; [exact Hsh2|].
    split; [|simpl; split_and!; congruence]. intros a Ha. simpl.
    rewrite Hout2 by (by rewrite Hfb). by apply Hout.
Qed.

(** A console on a cleared framebuffer that holds at least one character shows a blank grid. *)
Lemma console_new_shows f fgc bgc m m' : fb_ok f → is_u32 fgc → is_u32 bgc →
  8 ≤ width f → 16 ≤ height f → draws f m m' (λ _ _, bgc) →
  shows (Console_new f fgc bgc) m' tty_new.
Proof.
  intros Hf Hfg Hbg Hw Hh [Hd _]. unfold Console_new, FONT_WIDTH, FONT_HEIGHT.
  assert (1 ≤ width f / 8) by (apply Z.div_le_lower_bound; lia).
  assert (1 ≤ height f / 16) by (apply Z.div_le_lower_bound; lia).
  split; [|simpl; lia]. split; simpl; try done; try lia.
  intros x y Hx Hy. rewrite Hd by done. by case_decide.
Qed.

(** ** Properties *)

(** C22. The text console implements a character grid: from the moment a framebuffer of at least 8x16 pixels is
    installed whose rows do not overlap and which is smaller than 4 GiB ([fb_ok]; the code does not check the
    stride), whatever bytes are written, every cell of the screen displays the
    glyph of the character the abstract teletype has there (wrapping at the right margin,
    scrolling at the bottom), everything else is background, and no byte outside the
    framebuffer is ever written. *)
Theorem console_implements_tty f fgc bgc s m : fb_ok f → is_u32 fgc → is_u32 bgc →
  8 ≤ width f → 16 ≤ height f → Forall (λ c, 0 ≤ c) s →
  let con := Console_new f fgc bgc in
  returns (m1 ← clear f bgc m; console_write s con m1) (λ '(con', m'),
    shows con' m' (tty_write (width f / 8) (height f / 16) s tty_new) ∧
    fb con' = f ∧ fg con' = fgc ∧ bg con' = bgc ∧
    ∀ a, a < ptr f ∨ ptr f + height f * pitch f ≤ a → m' a = m a).
Proof.
  intros Hf Hfg Hbg Hw Hh Hpos con. subst con. apply returns_bind.
  eapply returns_mono; [by apply clear_draws|]. intros m1 Hd.
  pose proof (console_new_shows f fgc bgc m m1 Hf Hfg Hbg Hw Hh Hd) as Hs.
  eapply returns_mono; [by apply console_write_follows|]. intros [con' m'] (Hsh & Hout & Hfb & _ & _ & Hfg' & Hbg').
  cbn [fst snd] in *. destruct Hs as [Hs _].
  rewrite (sh_cols _ _ _ Hs), (sh_rows _ _ _ Hs) in Hsh.
  split_and!; try done. intros a Ha. rewrite Hout by done. by apply Hd.
Qed.

(** A character drawn at any position, on or off the screen, changes exactly the visible
    pixels of its 8x16 cell; drawing never fails and never writes outside the framebuffer. *)
Theorem draw_char_clipped f x y c fgc bgc m : fb_ok f → is_u32 fgc → is_u32 bgc →
  0 ≤ x → 0 ≤ y → is_u8 c →
  returns (draw_char f x y c fgc bgc m) (λ m',
    (∀ x' y', 0 ≤ x' < width f → 0 ≤ y' < height f → pixel f m' x' y' =
       if decide (x ≤ x' < x + 8 ∧ y ≤ y' < y + 16)
       then (if lit c (x' - x) (y' - y) then fgc else bgc) else pixel f m x' y') ∧
    (∀ a, a < ptr f ∨ ptr f + height f * pitch f ≤ a → m' a = m a)).
Proof. intros Hf Hfg Hbg Hx Hy [Hc _]. by apply draw_char_draws. Qed.

(** *** The mailbox request *)

(** Reading a property message back: tag, its value words, until the end tag. *)
Fixpoint parse_tags (fuel : nat) (ws : list Z) : option (list (Z * list Z)) :=
  match fuel, ws with
  | S _, [0] => Some []
  | S n, tag :: size :: _ :: rest =>
      let k := Z.to_nat (size / 4) in
      tags ← parse_tags n (drop k rest); Some ((tag, take k rest) :: tags)
  | _, _ => None
  end.

(** The framebuffer request is a well-formed property message: its size word counts its 35
    words, and its tags parse back to the geometry, depth, pixel order, allocation and pitch
    requests, with no word left over. *)
Theorem request_well_formed w h :
  head (request w h) = Some (4 * len (request w h)) ∧
  parse_tags 9 (drop 2 (request w h)) = Some
    [(TAG_SET_PHYS_WH, [w; h]); (TAG_SET_VIRT_WH, [w; h]); (TAG_SET_VIRT_OFFSET, [0; 0]);
     (TAG_SET_DEPTH, [32]); (TAG_SET_PIXEL_ORDER, [1]); (TAG_ALLOCATE_BUFFER, [4096; 0]);
     (TAG_GET_PITCH, [0])].
Proof. split; reflexivity. Qed.

(** A framebuffer is only accepted with a non-zero address and pitch from a successful call;
    whatever the VideoCore answers, initialisation returns. *)
Lemma init_with_mode_ok {W} `{Hardware W, Dma W} b mbox w h (st : W) : w ≠ 0 → h ≠ 0 →
  returns (init_with_mode b mbox w h st) (λ '(r, st'),
    match r with
    | inr f => pitch f ≠ 0 ∧ width f ≠ 0 ∧ height f ≠ 0 ∧
        load32 (get_mem st') (mbox + 4) = MBOX_RESPONSE_OK
    | inl _ => True
    end).
Proof.
  intros Hw Hh. unfold init_with_mode. apply returns_bind.
  eapply returns_mono; [apply call_ok|]. intros [ok st1] Hok. cbv zeta beta.
  destruct ok; [|done]. cbn [negb]. repeat case_decide; done || (simpl; split_and!; auto).
Qed.

(** ** Witnesses: a 20x36 framebuffer with padded rows *)
Definition demo_fb : Framebuffer := mkFb 0x1000 20 36 96.

Lemma demo_fb_ok : fb_ok demo_fb.
Proof. by split; vm_compute. Qed.

Lemma console_implements_tty_witness :
  returns (m1 ← clear demo_fb 0 (λ _, 7);
           console_write [72; 105; 10; 33] (Console_new demo_fb 0xFFFFFF 0) m1)
    (λ '(con', m'), (col con', row con') = (1, 1) ∧ pixel demo_fb m' 3 18 = 0xFFFFFF ∧
      m' 0xFFF = 7).
Proof.
  eapply returns_mono;
    [apply (console_implements_tty demo_fb 0xFFFFFF 0 [72; 105; 10; 33] (λ _, 7))|].
  - apply demo_fb_ok.
  - split; lia.
  - split; lia.
  - vm_compute. congruence.
  - vm_compute. congruence.
  - repeat constructor; lia.
  - intros [con' m'] ([Hs _] & Hfb & Hfg & Hbg & Hout). split; [|split].
    + rewrite (sh_col _ _ _ Hs), (proj1 (sh_row _ _ _ Hs)). by vm_compute.
    + pose proof (sh_pixel _ _ _ Hs 3 18) as Hp.
      rewrite (sh_cols _ _ _ Hs), (sh_rows _ _ _ Hs) in Hp. unfold shade in Hp.
      rewrite Hfb, Hfg, Hbg in Hp. rewrite Hp by (simpl; lia). by vm_compute.
    + apply Hout. left. by vm_compute.
Defined.

Lemma draw_char_clipped_witness :
  returns (draw_char demo_fb 16 30 65 0xFFFFFF 0 (λ _, 7)) (λ m',
    pixel demo_fb m' 19 34 = 0xFFFFFF ∧ pixel demo_fb m' 15 30 = 0x07070707 ∧
    m' (0x1000 + 36 * 96) = 7).
Proof.
  eapply returns_mono;
    [apply (draw_char_clipped demo_fb 16 30 65 0xFFFFFF 0 (λ _, 7) demo_fb_ok); split || lia; lia|].
  intros m' [Hp Hout]. split; [|split].
  - rewrite Hp by (simpl; lia). by vm_compute.
  - rewrite Hp by (simpl; lia). by vm_compute.
  - apply Hout. right. by vm_compute.
Defined.
