(* ===== verification/Vfs.v ===== *)
(** * The virtual file system

    [src/kernel/vfs.rs]: the fixed name space with two device nodes, open flags, and reading
    and writing through a file descriptor.  The device drivers a descriptor reaches are
    gathered in an [io] record. *)
From S2P Require Import Prelude Bits Layout Sync Memory Mmio Uart Keyboard Framebuffer.
Local Open Scope Z_scope.

Definition FD_STDIN : Z := 0.
Definition FD_STDOUT : Z := 1.
Definition FD_STDERR : Z := 2.
Definition O_READ : Z := Z.shiftl 1 0.
Definition O_WRITE : Z := Z.shiftl 1 1.
Definition O_APPEND : Z := Z.shiftl 1 2.

Record OpenFlags := mkFlags { f_read : bool; f_write : bool; f_append : bool }.
#[export] Instance OpenFlags_eq_dec : EqDecision OpenFlags.
Proof. solve_decision. Defined.

Definition OpenFlags_new (r w a : bool) : OpenFlags := mkFlags r w a.

Definition from_bits (bits : Z) : OpenFlags :=
  mkFlags (negb (Z.land bits O_READ =? 0)) (negb (Z.land bits O_WRITE =? 0))
    (negb (Z.land bits O_APPEND =? 0)).

Inductive NodeType := Dir | NDevFb0 | NDevKbd0.
Inductive FileHandle := DevFb0 | DevKbd0.
#[export] Instance FileHandle_eq_dec : EqDecision FileHandle.
Proof. solve_decision. Defined.

Record FileDesc := mkDesc { handle : FileHandle; flags : OpenFlags }.
#[export] Instance FileDesc_eq_dec : EqDecision FileDesc.
Proof. solve_decision. Defined.

Definition lookup (path : list Z) : option NodeType :=
  if decide (path = bytes "/") then Some Dir
  else if decide (path = bytes "/dev") then Some Dir
  else if decide (path = bytes "/dev/fb0") then Some NDevFb0
  else if decide (path = bytes "/dev/kbd0") then Some NDevKbd0
  else None.

Definition open_bytes (path : list Z) (fl : OpenFlags) : option FileDesc :=
  match lookup path with
  | Some NDevFb0 => Some (mkDesc DevFb0 fl)
  | Some NDevKbd0 => Some (mkDesc DevKbd0 fl)
  | _ => None
  end.

Definition open_path (path : string) (fl : OpenFlags) : option FileDesc :=
  open_bytes (bytes path) fl.

(** The drivers' state and the devices. *)
Record io (W : Type) := mkIo {
  uart : Uart.state;
  console : SpinLock (option Console);
  input : SpinLock RingBuffer;
  hw : W
}.
Arguments mkIo {W}.
Arguments uart {W}.
Arguments console {W}.
Arguments input {W}.
Arguments hw {W}.

Section operations.
Context {W : Type} `{Hardware W, Dma W} (b : board) (fuel : nat).

(** The loop that sends the bytes to the serial port, a carriage return before line feeds. *)
Definition write_uart (buf : list Z) (s : io W) : outcome (io W) :=
  w ← for_each_in buf (λ c w,
        w ← (if decide (c = 10) then Uart.write_byte b fuel (uart s) 13 w else Ret w);
        Uart.write_byte b fuel (uart s) c w) (hw s);
  Ret (mkIo (uart s) (console s) (input s) w).

(** The result counts the bytes written. *)
Definition write (desc : FileDesc) (buf : list Z) (s : io W) : outcome (Z * io W) :=
  if negb (f_write (flags desc)) then Ret (0, s)
  else
    match handle desc with
    | DevFb0 =>
        '(wrote, con, w) ← try_with_console (console_write buf) (console s) (hw s);
        let s := mkIo (uart s) con (input s) w in
        if (wrote : bool) then Ret (len buf, s)
        else s ← write_uart buf s; Ret (len buf, s)
    | DevKbd0 => Ret (0, s)
    end.

(** The bytes read into a buffer of [n] bytes. *)
Definition read (desc : FileDesc) (n : nat) (s : io W) : outcome (list Z * io W) :=
  if negb (f_read (flags desc)) then Ret ([], s)
  else
    match handle desc with
    | DevFb0 => Ret ([], s)
    | DevKbd0 =>
        '(bs, inp, w) ← Keyboard.read (uart s) n (input s) (hw s);
        Ret (bs, mkIo (uart s) (console s) inp w)
    end.
End operations.

(** ** Opening *)

Lemma lookup_spec path : lookup path =
  if decide (path = bytes "/" ∨ path = bytes "/dev") then Some Dir
  else if decide (path = bytes "/dev/fb0") then Some NDevFb0
  else if decide (path = bytes "/dev/kbd0") then Some NDevKbd0 else None.
Proof. unfold lookup. repeat case_decide; naive_solver. Qed.

(** The open bits of the system call: each flag is its bit. *)
Lemma from_bits_testbit bits : is_u64 bits →
  from_bits bits = mkFlags (Z.testbit bits 0) (Z.testbit bits 1) (Z.testbit bits 2).
Proof.
  intros Hb. unfold from_bits, O_READ, O_WRITE, O_APPEND.
  change (Z.shiftl 1 0) with (shl64 1 0). change (Z.shiftl 1 1) with (shl64 1 1).
  change (Z.shiftl 1 2) with (shl64 1 2). fold (bit_test bits 0) (bit_test bits 1) (bit_test bits 2).
  by rewrite !bit_test_testbit by (done || lia).
Qed.

(** The name space: opening succeeds on exactly the two device paths, with the device's handle
    and the flags asked for; directories and every other path are refused. *)
Theorem open_exact path fl d :
  open_bytes path fl = Some d ↔
  flags d = fl ∧
  (path = bytes "/dev/fb0" ∧ handle d = DevFb0 ∨ path = bytes "/dev/kbd0" ∧ handle d = DevKbd0).
Proof.
  unfold open_bytes. rewrite lookup_spec. split.
  - repeat case_decide; intros Ho; try done; injection Ho as <-; auto.
  - destruct d as [h f']. cbn [flags handle].
    intros [-> [[-> ->]|[-> ->]]]; reflexivity.
Qed.

(** ** Reading and writing *)

(** A screen showing a grid, or none installed. *)
Definition screen_ok {W} `{Dma W} (s : io W) (t : option tty) : Prop :=
  locked (console s) = false ∧
  match data (console s), t with
  | Some con, Some t => shows con (get_mem (hw s)) t
  | None, None => True
  | _, _ => False
  end.

Definition screen_put (con : option Console) (buf : list Z) (t : tty) : tty :=
  match con with
  | Some con => tty_write (cols con) (rows con) buf t
  | None => t
  end.

Section rw.
Context {W : Type} `{Hardware W, Dma W} (b : board) (fuel : nat) (Hfuel : (0 < fuel)%nat).

Lemma write_uart_ok buf (s : io W) `{!Pl011 W (uart s)} : UART_READY (uart s) = true →
  returns (write_uart b fuel buf s) (λ s', tx (hw s') = tx (hw s) ++ crlf buf ∧
    rx (hw s') = rx (hw s) ∧ uart s' = uart s ∧ console s' = console s ∧ input s' = input s).
Proof.
  intros Hr. unfold write_uart. apply returns_bind.
  eapply returns_mono; [apply (write_str_port (uart s) b fuel Hfuel Hr buf (hw s))|].
  intros w' [Hrx Htx]. done.
Qed.

Lemma write_ok desc buf (s : io W) `{!Pl011 W (uart s)} t :
  UART_READY (uart s) = true → handle desc = DevFb0 → f_write (flags desc) = true →
  Forall (λ c, 0 ≤ c) buf → (locked (console s) = true ∨ screen_ok s t) →
  returns (write b fuel desc buf s) (λ '(n, s'), n = len buf ∧ input s' = input s ∧ uart s' = uart s ∧
    locked (console s') = locked (console s) ∧
    if decide (locked (console s) = true) then tx (hw s') = tx (hw s) ++ crlf buf
    else match t with
         | Some t => screen_ok s' (Some (screen_put (data (console s)) buf t))
         | None => tx (hw s') = tx (hw s) ++ crlf buf ∧ screen_ok s' None
         end).
Proof.
  intros Hr Hh Hw Hpos Hs. unfold write. rewrite Hw, Hh. cbn [negb].
  unfold try_with_console, try_lock.
  destruct (locked (console s)) eqn:Hl.
  - cbn [mbind outcome_bind]. apply returns_bind.
    eapply returns_mono; [by apply (write_uart_ok buf s)|].
    intros s' (Htx & _ & Hu & Hc & Hi). simpl. by rewrite Hc.
  - destruct Hs as [?|[_ Hs]]; [done|]. cbn [data].
    destruct (data (console s)) as [con|] eqn:Hcon; destruct t as [t|]; try done.
    + destruct (returns_eq (console_write buf con (get_mem (hw s)))
        (follows con (get_mem (hw s)) (tty_write (cols con) (rows con) buf t))) as [Heq _].
      destruct Heq as ([con' m'] & Hcw & Hsh & _); [by apply console_write_follows|].
      cbn [fst snd] in Hsh. rewrite Hcw. cbn [mbind outcome_bind fst snd]. simpl.
      split; [done|]. split; [done|]. split; [done|]. split; [done|]. split; [done|]. simpl. by rewrite get_put.
    + cbn [mbind outcome_bind]. apply returns_bind.
      set (s1 := mkIo _ _ _ _).
      eapply returns_mono; [apply (write_uart_ok buf s1)|].
      { done. }
      intros s' (Htx & _ & Hu & Hc & Hi). simpl in *. rewrite Hc, Hi. simpl.
      do 5 (split; [done|]). unfold screen_ok. by rewrite Hc.
Qed.

(** Writing to a writable framebuffer descriptor always reports all bytes written, and they do
    appear: on the screen when a console is installed and free, otherwise on the serial line
    with line feeds expanded. *)
Theorem write_delivers desc buf (s : io W) `{!Pl011 W (uart s)} t :
  UART_READY (uart s) = true → handle desc = DevFb0 → f_write (flags desc) = true →
  Forall (λ c, 0 ≤ c) buf → (locked (console s) = true ∨ screen_ok s t) →
  returns (write b fuel desc buf s) (λ '(n, s'), n = len buf ∧ input s' = input s ∧
    locked (console s') = locked (console s) ∧
    if decide (locked (console s) = true) then tx (hw s') = tx (hw s) ++ crlf buf
    else match t with
         | Some t => screen_ok s' (Some (screen_put (data (console s)) buf t))
         | None => tx (hw s') = tx (hw s) ++ crlf buf ∧ screen_ok s' None
         end).
Proof.
  intros. eapply returns_mono; [by apply (write_ok desc buf s t)|].
  intros [n s'] (? & ? & _ & ? & ?). by repeat split.
Qed.

(** Permissions: without the write flag nothing is written, without the read flag nothing is
    read, a keyboard cannot be written and a framebuffer cannot be read; all of these leave the
    devices alone. *)
Theorem rw_permissions desc buf n (s : io W) :
  (f_write (flags desc) = false ∨ handle desc = DevKbd0 → write b fuel desc buf s = Ret (0, s)) ∧
  (f_read (flags desc) = false ∨ handle desc = DevFb0 → read desc n s = Ret ([], s)).
Proof.
  unfold write, read. split.
  - intros [->|Hh]; [done|]. rewrite Hh. by destruct (f_write (flags desc)).
  - intros [->|Hh]; [done|]. rewrite Hh. by destruct (f_read (flags desc)).
Qed.
End rw.

(** ** Witnesses: a serial port and a memory as one device *)
Record demo_dev := mkDemo { d_port : port; d_mem : mem }.
Definition demo_uart : Uart.state := set_ready (Uart.state_new Qemu).

#[export] Instance demo_dev_hw : Hardware demo_dev := {|
  read32 reg d := let '(v, p) := @read32 port (port_hw demo_uart) reg (d_port d) in
    (v, mkDemo p (d_mem d));
  write32 reg v d := mkDemo (@write32 port (port_hw demo_uart) reg v (d_port d)) (d_mem d)
|}.
#[export] Instance demo_dev_dma : Dma demo_dev := {|
  get_mem := d_mem; put_mem m d := mkDemo (d_port d) m; get_put m d := eq_refl;
  put_get d := match d with mkDemo _ _ => eq_refl end
|}.
#[export] Program Instance demo_dev_pl011 : Pl011 demo_dev demo_uart := {|
  rx d := wrap8 <$> p_rx (d_port d); tx d := p_tx (d_port d)
|}.
Next Obligation.
  intros [p m]. pose proof (@fr_read port _ _ (port_pl011 demo_uart ltac:(done)) p) as Hp.
  exact Hp.
Qed.
Next Obligation.
  intros [p m] b bs Hw. pose proof (@dr_read port _ _ (port_pl011 demo_uart ltac:(done)) p b bs Hw)
    as Hp. simpl in *. destruct (p_rx p) as [|c cs]; [done|]. exact Hp.
Qed.
Next Obligation.
  intros [p m] v. pose proof (@dr_write port _ _ (port_pl011 demo_uart ltac:(done)) p v) as Hp.
  exact Hp.
Qed.

Definition demo_io (con : option Console) : io demo_dev :=
  mkIo demo_uart (lock_new con) (lock_new RingBuffer_new) (mkDemo (mkPort [] []) (λ _, 0)).

Lemma write_delivers_witness :
  returns (write Qemu 1 (mkDesc DevFb0 (mkFlags false true false)) [104; 10] (demo_io None))
    (λ '(n, s'), n = 2 ∧ p_tx (d_port (hw s')) = [104; 13; 10]).
Proof.
  eapply returns_mono; [apply (write_delivers Qemu 1 ltac:(lia)
    (mkDesc DevFb0 (mkFlags false true false)) [104; 10] (demo_io None) None); try done|].
  - repeat constructor; lia.
  - right. done.
  - intros [n s'] (-> & _ & _ & Htx). cbn in Htx. split; [done|]. apply Htx.
Defined.
