(* ===== verification/Screen.v ===== *)
(** * The screen shared by several cores

    [try_with_console] of [src/drivers/framebuffer.rs] as [vfs::write] calls it, on several cores: the
    console and the framebuffer's memory are the data of the [CONSOLE] lock, a write is a critical section
    that draws one byte per turn, and a core that finds the lock taken does not wait ([Sync.Smp]).

    Shown: whatever the interleaving, the screen shows whole writes one after another, in the order in which
    the cores got the lock; a write that finds the lock taken never appears on the screen. *)
From S2P Require Import Prelude Layout Sync Memory Mmio Uart Keyboard Framebuffer Vfs.
Import Sync.Smp.
Local Open Scope Z_scope.

(** What the lock protects: the console and the memory it draws to. *)
Definition screen : Type := Console * mem.

(** One byte of [for &b in buf { console.write_byte(b) }]; a section is named by the bytes it has left. *)
Inductive draw : list Z → screen → option (list Z) → screen → Prop :=
| draw_byte c rest s s' :
    write_byte s.1 c s.2 = Ret s' → draw (c :: rest) s (match rest with [] => None | _ => Some rest end) s'
| draw_nothing s : draw [] s None s.

Notation positive := (Forall (λ c, 0 ≤ c)).

(** [s'] follows from [s], which shows [t], by writing [buf]. *)
Definition wrote (buf : list Z) (s : screen) (t : tty) (s' : screen) : Prop :=
  follows s.1 s.2 (tty_write (cols s.1) (rows s.1) buf t) s'.

Lemma wrote_nothing s t : shows s.1 s.2 t → wrote [] s t s.
Proof. by intros Hs. Qed.

Lemma wrote_trans s t buf1 s1 buf2 s2 : wrote buf1 s t s1 →
  wrote buf2 s1 (tty_write (cols s.1) (rows s.1) buf1 t) s2 → wrote (buf1 ++ buf2) s t s2.
Proof.
  intros (_ & Ho & Hf & Hc & Hr & Hfg & Hbg) (Hs2 & Ho2 & Hf2 & Hc2 & Hr2 & Hfg2 & Hbg2).
  unfold wrote, tty_write in *. rewrite Hc, Hr in Hs2. rewrite fold_left_app.
  split_and!; [exact Hs2| |congruence..]. intros a Ha. rewrite Ho2 by (by rewrite Hf). by apply Ho.
Qed.

Lemma draw_wrote l s o s' t : draw l s o s' → shows s.1 s.2 t → positive l →
  ∃ dn, l = dn ++ default [] o ∧ wrote dn s t s'.
Proof.
  destruct 1 as [c rest s s' Hd|s]; intros Hs Hpos.
  - exists [c]. split; [by destruct rest|]. apply Forall_cons in Hpos as [Hc _].
    exact (returns_det _ _ _ (put_char_follows _ _ t c Hs Hc) Hd).
  - exists []. split; [done|by apply wrote_nothing].
Qed.

Lemma upto_wrote l0 s l s' t : upto draw l0 s l s' → shows s.1 s.2 t → positive l0 →
  ∃ dn, l0 = dn ++ l ∧ wrote dn s t s'.
Proof.
  induction 1 as [l s|l0 s l s1 l' s2 _ IH Hd]; intros Hs Hpos.
  - exists []. split; [done|by apply wrote_nothing].
  - destruct (IH Hs Hpos) as (dn & -> & Hw). apply Forall_app in Hpos as [_ Hpos].
    destruct (draw_wrote _ _ _ _ _ Hd (proj1 Hw) Hpos) as (dn' & -> & Hw').
    exists (dn ++ dn'). rewrite <-app_assoc. split; [done|]. by eapply wrote_trans.
Qed.

Lemma runs_wrote l s s' t : runs draw l s s' → shows s.1 s.2 t → positive l → wrote l s t s'.
Proof.
  intros (l1 & s1 & Hu & Hd) Hs Hpos. destruct (upto_wrote _ _ _ _ _ Hu Hs Hpos) as (dn & -> & Hw).
  apply Forall_app in Hpos as [_ Hpos].
  destruct (draw_wrote _ _ _ _ _ Hd (proj1 Hw) Hpos) as (dn' & Hl & Hw'). rewrite app_nil_r in Hl. subst dn'.
  by eapply wrote_trans.
Qed.

Lemma history_wrote ls s s' t : history draw ls s s' → shows s.1 s.2 t → positive (concat ls) →
  wrote (concat ls) s t s'.
Proof.
  induction 1 as [s|ls l s s1 s2 _ IH Hr]; intros Hs Hpos; [by apply wrote_nothing|].
  rewrite concat_app in *. simpl in *. rewrite app_nil_r in *. apply Forall_app in Hpos as [Hp1 Hp2].
  eapply wrote_trans; [by apply IH|]. apply runs_wrote; [done| |done]. by apply IH.
Qed.

(** C31. Any number of cores write to the screen, under any interleaving of their accesses: while no core is
    writing the screen shows the writes that got the lock, whole and one after another, in that order; while
    one is, it shows these and the part of its text that has been drawn; nothing outside the framebuffer is
    touched. *)
Theorem screen_writes_whole n (s : screen) (t : tty) c : shows s.1 s.2 t →
  rtc (step draw) (start_config n s) c → positive (concat (log c)) →
  let shown buf := shows (data (cell c)).1 (data (cell c)).2 (tty_write (cols s.1) (rows s.1) buf t) ∧
    ∀ a, a < ptr (fb s.1) ∨ ptr (fb s.1) + height (fb s.1) * pitch (fb s.1) ≤ a → (data (cell c)).2 a = s.2 a in
  (locked (cell c) = false → shown (concat (log c))) ∧
  ∀ i buf rest, pcs c !! i = Some (Held buf rest) → positive buf →
    ∃ dn, buf = dn ++ rest ∧ shown (concat (log c) ++ dn).
Proof.
  intros Hs Hr Hpos shown.
  assert (∀ buf, wrote buf s t (data (cell c)) → shown buf) as Hshown by (intros buf (Hw & Ho & _); by split).
  split.
  - intros Hl. apply Hshown, history_wrote; [|done..]. by eapply history_unlocked.
  - intros i buf rest Hp Hb. destruct (inv_reachable _ _ _ _ Hr) as [_ _ (y & Hh & Hheld & _)].
    pose proof (history_wrote _ _ _ _ Hh Hs Hpos) as Hw.
    destruct (upto_wrote _ _ _ _ _ (Hheld i buf rest Hp) (proj1 Hw) Hb) as (dn & -> & Hw').
    exists dn. split; [done|]. apply Hshown. by eapply wrote_trans.
Qed.

(** ** A write that finds the lock taken *)

(** [vfs::write] then reports every byte written but leaves the console alone: the text goes to the serial
    port, although a framebuffer is there. *)
Theorem contended_write_off_screen {W} `{Hardware W, Dma W} b fuel desc buf (s : io W) `{!Pl011 W (Vfs.uart s)} con :
  (0 < fuel)%nat → UART_READY (Vfs.uart s) = true → handle desc = DevFb0 → f_write (flags desc) = true →
  Vfs.console s = mkLock true (Some con) →
  returns (Vfs.write b fuel desc buf s) (λ '(n, s'), n = len buf ∧ Vfs.console s' = Vfs.console s ∧
    tx (hw s') = tx (hw s) ++ crlf buf).
Proof.
  intros Hf Hr Hh Hw Hc. unfold Vfs.write, try_with_console, try_lock. rewrite Hw, Hh, Hc. cbn [negb locked mbind outcome_bind].
  apply returns_bind. eapply returns_mono; [by apply (write_uart_ok b fuel Hf buf (mkIo (Vfs.uart s) (mkLock true (Some con)) (Vfs.input s) (hw s)))|].
  intros s' (Htx & _ & _ & Hc' & _). done.
Qed.

(** ** Witnesses: core 1 finds the lock taken while core 0 writes *)
Definition held_demo (s : screen) : config screen (list Z) :=
  mkConfig (mkLock true s) [Held [72] [72]; Out] [].

Lemma held_demo_reachable s : rtc (step draw) (start_config 2 s) (held_demo s).
Proof.
  eapply rtc_l; [apply (step_cpu draw (start_config 2 s) 0 Out (TryCas [72]) (lock_new s) [] eq_refl); constructor|].
  eapply rtc_l; [apply (step_cpu draw (mkConfig (lock_new s) [TryCas [72]; Out] []) 1 Out (TryCas [73])
    (lock_new s) [] eq_refl); constructor|].
  eapply rtc_l; [apply (step_cpu draw (mkConfig (lock_new s) [TryCas [72]; TryCas [73]] []) 0 (TryCas [72])
    (Held [72] [72]) (mkLock true s) [] eq_refl); constructor|].
  eapply rtc_l; [apply (step_cpu draw (mkConfig (mkLock true s) [Held [72] [72]; TryCas [73]] []) 1 (TryCas [73])
    Out (mkLock true s) [] eq_refl); constructor|].
  apply rtc_refl.
Qed.

Lemma drawn_demo_reachable s s' : write_byte s.1 72 s.2 = Ret s' →
  rtc (step draw) (start_config 2 s) (mkConfig (mkLock false s') [Out; Out] [[72]]).
Proof.
  intros Hd. eapply rtc_r; [eapply rtc_r; [apply held_demo_reachable|]|].
  - apply (step_cpu draw (held_demo s) 0 (Held [72] [72]) Leaving (mkLock true s') [[72]] eq_refl).
    apply (a_last draw [72] [72] (mkLock true s) s'). by apply (draw_byte 72 []).
  - apply (step_cpu draw (mkConfig (mkLock true s') [Leaving; Out] [[72]]) 0 Leaving Out (mkLock false s') [] eq_refl).
    apply (a_unlock draw (mkLock true s')).
Qed.

Lemma demo_screen : ∃ s : screen, shows s.1 s.2 tty_new.
Proof.
  destruct (returns_eq (clear demo_fb 0 (λ _, 7)) (λ m', draws demo_fb (λ _, 7) m' (λ _ _, 0))) as [Hcl _].
  destruct Hcl as (m & _ & Hd); [apply clear_draws; [apply demo_fb_ok|done]|].
  exists (Console_new demo_fb 0xFFFFFF 0, m). by apply (console_new_shows demo_fb _ _ (λ _, 7)); [apply demo_fb_ok|..].
Qed.

Lemma screen_writes_whole_witness : ∃ s s' : screen,
  rtc (step draw) (start_config 2 s) (mkConfig (mkLock false s') [Out; Out] [[72]]) ∧
  shows s'.1 s'.2 (tty_write (cols s.1) (rows s.1) [72] tty_new).
Proof.
  destruct demo_screen as [s Hs].
  destruct (returns_eq (write_byte s.1 72 s.2) (λ _, True)) as [Hw _].
  destruct Hw as (s' & Hw & _); [eapply returns_mono; [by apply (put_char_follows _ _ tty_new)|done]|].
  exists s, s'. split; [by apply drawn_demo_reachable|].
  destruct (screen_writes_whole 2 s tty_new (mkConfig (mkLock false s') [Out; Out] [[72]]) Hs) as [Hd _].
  - by apply drawn_demo_reachable.
  - repeat constructor; lia.
  - by destruct (Hd eq_refl).
Defined.
