(* ===== verification/Trap.v ===== *)
(** * Trap frames

    [src/arch/aarch64/trap.rs]: the saved register state of an interrupted context, in the
    order of its [repr(C)] layout. *)
From S2P Require Import Prelude.
Local Open Scope Z_scope.

Record TrapFrame := mkFrame { x : list Z; pad : Z; elr : Z; spsr : Z; sp_el0 : Z; pad2 : Z }.
#[export] Instance TrapFrame_eq_dec : EqDecision TrapFrame.
Proof. solve_decision. Defined.

Definition TrapFrame_new (entry : Z) : TrapFrame :=
  mkFrame (replicate 31 0) 0 entry 0x5 0 0.

(** The words of the frame in memory order. *)
Definition frame_words (f : TrapFrame) : list Z :=
  x f ++ [pad f; elr f; spsr f; sp_el0 f; pad2 f].

(** [size_of::<TrapFrame>()]. *)
Definition TRAP_FRAME_SIZE : Z := 8 * len (frame_words (TrapFrame_new 0)).

Lemma TRAP_FRAME_SIZE_eq : TRAP_FRAME_SIZE = 288.
Proof. reflexivity. Qed.

(** Assignment to [x[i]] through a frame with its 31 registers. *)
Definition set_x (i : Z) (v : Z) (f : TrapFrame) : outcome TrapFrame :=
  x' ← aset (x f) i v; Ret (mkFrame x' (pad f) (elr f) (spsr f) (sp_el0 f) (pad2 f)).
