(* ===== verification/Smp.v ===== *)
(** * Cores

    [src/kernel/smp.rs]: the number of the executing core, and releasing the secondary cores
    through the spin table. *)
From S2P Require Import Prelude Layout.
Local Open Scope Z_scope.

Definition MAX_CPUS : Z := 4.
Definition STACK_SIZE : Z := 0x4000.

(** From MPIDR_EL1. *)
Definition cpu_id (mpidr_el1 : Z) : Z := Z.land mpidr_el1 3.

(** From CurrentEL. *)
Definition current_el (CurrentEL : Z) : Z := wrap8 (Z.land (Z.shiftr CurrentEL 2) 0x3).

(** [__secondary_table] and the words QEMU's boot stub polls. *)
Record state := mkState { secondary_table : list Z; spin_table : list (Z * Z) }.

Definition state_new : state := mkState (replicate 4 0) [].

Definition SPIN_TABLE_BASE : Z := 0xD8.

Definition start_secondary_cores (b : board) (entry : Z) (s : state) : outcome state :=
  t ← while_range 1 MAX_CPUS (λ core t, aset t core entry) (secondary_table s);
  match b with
  | Rpi5 => Ret (mkState t (spin_table s))
  | Qemu =>
      sp ← while_range 1 MAX_CPUS (λ core sp,
             let slot := SPIN_TABLE_BASE + core * 8 in
             Ret (sp ++ [(slot, entry)])) (spin_table s);
      Ret (mkState t sp)
  end.

Lemma cpu_id_range m : 0 ≤ cpu_id m < MAX_CPUS.
Proof.
  unfold cpu_id, MAX_CPUS. change 3 with (Z.ones 2). rewrite Z.land_ones by lia.
  apply Z.mod_pos_bound. lia.
Qed.

(** Every secondary core, and only those, gets the entry point. *)
Lemma start_secondary_cores_ok b entry :
  start_secondary_cores b entry state_new =
    Ret (mkState [0; entry; entry; entry]
      (match b with Rpi5 => [] | Qemu => [(0xE0, entry); (0xE8, entry); (0xF0, entry)] end)).
Proof. by destruct b. Qed.
