(* ===== verification/Process.v ===== *)
(** * Processes

    [src/kernel/process.rs]: the process table with its run queue, the per-CPU current
    process, process creation, and the file descriptors of the current process.

    [PROCESS_TABLE] and [INIT_FDS] are spin locks, taken and released where the code does; a
    process's saved context is the trap frame at its [context_sp], kept in [frames].  The
    address of [PROCESS_STACKS] is a parameter. *)
From stdpp Require Import gmap.
From S2P Require Import Prelude Bits Layout Sync Ring Trap Smp Vfs.
Local Open Scope Z_scope.

Definition CPU_NONE : Z := U64_MAX.
Definition MAX_FDS : Z := 8.
Definition MAX_PROCS : Z := 64.
Definition STACK_SIZE : Z := 512 * 1024.
Definition INVALID_IDX : Z := U64_MAX.

Inductive ProcessMode := Kernel | User.
Inductive ProcessState := Ready | Running | Blocked | Terminated.
#[export] Instance ProcessState_eq_dec : EqDecision ProcessState.
Proof. solve_decision. Defined.

Record Process := mkProcess {
  id : Z;
  name : list Z;
  entry : Z;
  state : ProcessState;
  stack_top : Z;
  context_sp : Z;
  running_on : Z;
  in_run_queue : bool;
  mode : ProcessMode;
  parent : option Z;
  fds : list (option FileDesc);
  ttbr0 : Z
}.

(** Assignments to the fields that change. *)
Definition with_state (st : ProcessState) (p : Process) : Process :=
  mkProcess (id p) (name p) (entry p) st (stack_top p) (context_sp p) (running_on p)
    (in_run_queue p) (mode p) (parent p) (fds p) (ttbr0 p).
Definition with_context (sp : Z) (p : Process) : Process :=
  mkProcess (id p) (name p) (entry p) (state p) (stack_top p) sp (running_on p)
    (in_run_queue p) (mode p) (parent p) (fds p) (ttbr0 p).
Definition with_cpu (c : Z) (p : Process) : Process :=
  mkProcess (id p) (name p) (entry p) (state p) (stack_top p) (context_sp p) c
    (in_run_queue p) (mode p) (parent p) (fds p) (ttbr0 p).
Definition with_queued (q : bool) (p : Process) : Process :=
  mkProcess (id p) (name p) (entry p) (state p) (stack_top p) (context_sp p) (running_on p)
    q (mode p) (parent p) (fds p) (ttbr0 p).
Definition with_fds (l : list (option FileDesc)) (p : Process) : Process :=
  mkProcess (id p) (name p) (entry p) (state p) (stack_top p) (context_sp p) (running_on p)
    (in_run_queue p) (mode p) (parent p) l (ttbr0 p).

Record RunQueue := mkQueue { q_slots : list Z; q_head : Z; q_tail : Z; q_len : Z }.

Definition RunQueue_new : RunQueue := mkQueue (replicate 64 INVALID_IDX) 0 0 0.

Definition push (idx : Z) (q : RunQueue) : outcome RunQueue :=
  if decide (MAX_PROCS ≤ q_len q) then Ret q
  else
    sl ← aset (q_slots q) (q_tail q) idx;
    Ret (mkQueue sl (q_head q) ((q_tail q + 1) mod MAX_PROCS) (q_len q + 1)).

Definition pop (q : RunQueue) : outcome (option Z * RunQueue) :=
  if decide (q_len q = 0) then Ret (None, q)
  else
    idx ← aget (q_slots q) (q_head q);
    Ret (Some idx,
         mkQueue (q_slots q) ((q_head q + 1) mod MAX_PROCS) (q_tail q) (q_len q - 1)).

Record ProcessTable := mkTable {
  slots : list (option Process); next_pid : Z; run_queue : RunQueue
}.

Definition ProcessTable_new : ProcessTable := mkTable (replicate 64 None) 1 RunQueue_new.

Definition alloc_pid (t : ProcessTable) : Z * ProcessTable :=
  (next_pid t, mkTable (slots t) (Z.max (add32 (next_pid t) 1) 1) (run_queue t)).

(** The statics of the module and the saved contexts. *)
Record procs := mkProcs {
  PROCESS_TABLE : SpinLock ProcessTable;
  CURRENT : list Z;
  INIT_FDS : SpinLock (list (option FileDesc));
  frames : gmap Z TrapFrame
}.

Definition procs_new : procs :=
  mkProcs (lock_new ProcessTable_new) (replicate 4 INVALID_IDX) (lock_new (replicate 8 None)) ∅.

Definition with_table (s : procs) (l : SpinLock ProcessTable) : procs :=
  mkProcs l (CURRENT s) (INIT_FDS s) (frames s).
Definition with_slots (t : ProcessTable) (sl : list (option Process)) : ProcessTable :=
  mkTable sl (next_pid t) (run_queue t).
Definition with_queue (t : ProcessTable) (q : RunQueue) : ProcessTable :=
  mkTable (slots t) (next_pid t) q.

(** A lookup or update of the table under its lock. *)
Definition on_table {A} (f : ProcessTable → outcome (A * ProcessTable)) (s : procs) :
    outcome (A * procs) :=
  r ← with_lock (PROCESS_TABLE s) f; Ret (r.1, with_table s r.2).

Definition init (s : procs) : outcome procs :=
  g ← lock (PROCESS_TABLE s);
  let g := guard_set g ProcessTable_new in
  cur ← while_range 0 MAX_CPUS (λ cpu cur, aset cur cpu INVALID_IDX) (CURRENT s);
  f ← lock (INIT_FDS s);
  let f := guard_set f (replicate 8 None) in
  Ret (mkProcs (unlock g) cur (unlock f) (frames s)).

(** The process running on [cpu], under the table's lock. *)
Definition with_current {R} (cpu : Z) (f : Process → R) (s : procs) : outcome (option R * procs) :=
  on_table (λ t,
    idx ← aget (CURRENT s) cpu;
    if decide (idx = INVALID_IDX) then Ret (None, t)
    else p ← aget (slots t) idx; Ret (f <$> (p : option Process), t)) s.

Definition with_current_mut {R} (cpu : Z) (f : Process → outcome (R * Process)) (s : procs) :
    outcome (option R * procs) :=
  on_table (λ t,
    idx ← aget (CURRENT s) cpu;
    if decide (idx = INVALID_IDX) then Ret (None, t)
    else
      o ← aget (slots t) idx;
      match o with
      | None => Ret (None, t)
      | Some p =>
          r ← f p;
          sl ← aset (slots t) idx (Some r.2);
          Ret (Some r.1, with_slots t sl)
      end) s.

Definition current_pid (cpu : Z) (s : procs) : outcome (option Z * procs) := with_current cpu id s.

(** The fresh context at the top of a stack: its address and frame. *)
Definition init_context (entry stack_top : Z) : Z * TrapFrame :=
  (Z.land (sub64 stack_top TRAP_FRAME_SIZE) (not64 0xF), TrapFrame_new entry).

Definition find_pid (pid : Z) (sl : list (option Process)) : option Process :=
  List.find (λ p, bool_decide (id p = pid)) (omap (λ o, o) sl).

Section create.
(** Address of [PROCESS_STACKS] and [paging::user_root_pa()]. *)
Context (stacks user_root : Z).

Definition stack_of (idx : Z) : Z := stacks + idx * STACK_SIZE + STACK_SIZE.

(** The descriptors a new process starts with. *)
Definition inherited (parent : option Z) (t : ProcessTable)
    (l : SpinLock (list (option FileDesc))) :
    outcome (list (option FileDesc) * SpinLock (list (option FileDesc))) :=
  match parent with
  | Some pid =>
      match find_pid pid (slots t) with
      | Some p => Ret (fds p, l)
      | None => with_lock l (λ x, Ret (x, x))
      end
  | None => with_lock l (λ x, Ret (x, x))
  end.

Definition create_with_mode (name : list Z) (entry stack_top : Z) (mode : ProcessMode)
    (parent : option Z) (s : procs) : outcome (option Z * procs) :=
  g ← lock (PROCESS_TABLE s);
  let t := data g in
  let ttbr0 := user_root in
  '(inh, initf) ← inherited parent t (INIT_FDS s);
  free ← find_range 0 MAX_PROCS (λ idx, o ← aget (slots t) idx; Ret (bool_decide (o = None)));
  match free with
  | None => Ret (None, mkProcs (unlock g) (CURRENT s) initf (frames s))
  | Some idx =>
      let '(pid, t) := alloc_pid t in
      let stack_top := if decide (stack_top = 0) then stack_of idx else stack_top in
      let '(context_sp, frame) := init_context entry stack_top in
      sl ← aset (slots t) idx (Some (mkProcess pid name entry Ready stack_top context_sp CPU_NONE
             true mode parent inh ttbr0));
      q ← push idx (run_queue t);
      Ret (Some pid, mkProcs (unlock (guard_set g (mkTable sl (next_pid t) q))) (CURRENT s) initf
             (<[context_sp := frame]> (frames s)))
  end.

Definition create (cpu : Z) (name : list Z) (entry stack_top : Z) (s : procs) :
    outcome (option Z * procs) :=
  '(parent, s) ← current_pid cpu s;
  create_with_mode name entry stack_top Kernel parent s.

Definition create_user (cpu : Z) (name : list Z) (entry stack_top : Z) (s : procs) :
    outcome (option Z * procs) :=
  '(parent, s) ← current_pid cpu s;
  create_with_mode name entry stack_top User parent s.
End create.

Definition set_init_fd (fd : Z) (desc : option FileDesc) (s : procs) : outcome procs :=
  if decide (MAX_FDS ≤ fd) then Ret s
  else
    r ← with_lock (INIT_FDS s) (λ t, t' ← aset t fd desc; Ret (tt, t'));
    Ret (mkProcs (PROCESS_TABLE s) (CURRENT s) r.2 (frames s)).

(** The loop over the slots that updates the first process with a given pid. *)
Fixpoint update_pid (pid : Z) (f : Process → outcome Process) (sl : list (option Process)) :
    outcome (bool * list (option Process)) :=
  match sl with
  | [] => Ret (false, [])
  | Some p :: rest =>
      if decide (id p = pid) then p' ← f p; Ret (true, Some p' :: rest)
      else r ← update_pid pid f rest; Ret (r.1, Some p :: r.2)
  | None :: rest => r ← update_pid pid f rest; Ret (r.1, None :: r.2)
  end.

Definition set_fd (pid fd : Z) (desc : option FileDesc) (s : procs) : outcome (bool * procs) :=
  if decide (MAX_FDS ≤ fd) then Ret (false, s)
  else on_table (λ t,
    r ← update_pid pid (λ p, l ← aset (fds p) fd desc; Ret (with_fds l p)) (slots t);
    Ret (r.1, with_slots t r.2)) s.

(** The loop of [alloc_fd_current] over the descriptors. *)
Definition alloc_fd (desc : FileDesc) (p : Process) : outcome (option Z * Process) :=
  free ← find_range 0 MAX_FDS (λ fd, o ← aget (fds p) fd; Ret (bool_decide (o = None)));
  match free with
  | None => Ret (None, p)
  | Some fd => l ← aset (fds p) fd (Some desc); Ret (Some fd, with_fds l p)
  end.

Definition alloc_fd_current (cpu : Z) (desc : FileDesc) (s : procs) : outcome (option Z * procs) :=
  r ← with_current_mut cpu (alloc_fd desc) s;
  Ret (match r.1 with Some o => o | None => None end, r.2).

Definition close_fd_current (cpu fd : Z) (s : procs) : outcome (bool * procs) :=
  if decide (MAX_FDS ≤ fd) then Ret (false, s)
  else
    r ← with_current_mut cpu (λ p, l ← aset (fds p) fd None; Ret (true, with_fds l p)) s;
    Ret (default false r.1, r.2).

Definition get_fd_current (cpu fd : Z) (s : procs) : outcome (option FileDesc * procs) :=
  if decide (MAX_FDS ≤ fd) then Ret (None, s)
  else
    r ← with_current cpu (λ p, aget (fds p) fd) s;
    match r.1 with
    | None => Ret (None, r.2)
    | Some m => o ← m; Ret (o, r.2)
    end.

Definition get (pid : Z) (s : procs) : outcome (option Process * procs) :=
  on_table (λ t, Ret (find_pid pid (slots t), t)) s.

Definition set_state (pid : Z) (st : ProcessState) (s : procs) : outcome (bool * procs) :=
  on_table (λ t,
    r ← update_pid pid (λ p, Ret (with_state st p)) (slots t);
    Ret (r.1, with_slots t r.2)) s.

(** [for_each]: the processes in slot order, for a closure that only looks at them. *)
Definition for_each (s : procs) : outcome (list Process * procs) :=
  on_table (λ t, Ret (omap (λ o, o) (slots t), t)) s.

Section output.
Context {W : Type} `{Mmio.Hardware W, Mmio.Dma W} (b : board) (fuel cpu : nat).

(** Output of the current process, also through [FdWriter]. *)
Definition write_current_fd (fd : Z) (buf : list Z) (st : procs * io W) : outcome (Z * (procs * io W)) :=
  r ← get_fd_current (Z.of_nat cpu) fd st.1;
  match r.1 with
  | None => Ret (0, (r.2, st.2))
  | Some desc => w ← Vfs.write b fuel desc buf st.2; Ret (w.1, (r.2, w.2))
  end.

Definition write_stdout (buf : list Z) := write_current_fd FD_STDOUT buf.
Definition write_stderr (buf : list Z) := write_current_fd FD_STDERR buf.
End output.

(** ** The run queue as a list of slots *)
Definition q_list (q : RunQueue) : list Z := ring_list MAX_PROCS (q_slots q) (q_head q) (q_len q).
Definition q_ok (q : RunQueue) : Prop := ring_ok MAX_PROCS (q_slots q) (q_head q) (q_tail q) (q_len q).
Definition queue (t : ProcessTable) : list Z := q_list (run_queue t).

Lemma q_list_len q : q_ok q → len (q_list q) = q_len q.
Proof. intros [_ _ ? _]. apply ring_list_length. lia. Qed.

Lemma q_new : q_ok RunQueue_new ∧ q_list RunQueue_new = [].
Proof. split; [|done]. by split; vm_compute. Qed.

Lemma push_ok i q : q_ok q → len (q_list q) < MAX_PROCS →
  ∃ q', push i q = Ret q' ∧ q_ok q' ∧ q_list q' = q_list q ++ [i].
Proof.
  intros Hq Hl. rewrite (q_list_len q Hq) in Hl. unfold push. rewrite decide_False by lia.
  pose proof Hq as [Hs Hh Hn Ht].
  rewrite aset_ret by (rewrite Hs, Ht; apply Z.mod_pos_bound; done).
  destruct (ring_push MAX_PROCS ltac:(done) (q_slots q) (q_head q) (q_tail q) (q_len q) i)
    as [H1 H2]; [done|done|]. eexists. split; [done|]. by split.
Qed.

Lemma pop_ok q : q_ok q →
  match q_list q with
  | [] => pop q = Ret (None, q)
  | i :: l => ∃ q', pop q = Ret (Some i, q') ∧ q_ok q' ∧ q_list q' = l
  end.
Proof.
  intros Hq. pose proof (q_list_len q Hq) as Hlen. pose proof Hq as [Hs Hh Hn Ht]. unfold pop.
  destruct (decide (q_len q = 0)) as [H0|H0].
  { destruct (q_list q) as [|i l]; [done|]. unfold len in Hlen. simpl in Hlen. lia. }
  destruct (ring_pop MAX_PROCS ltac:(done) (q_slots q) (q_head q) (q_tail q) (q_len q))
    as [H1 H2]; [done|lia|].
  destruct (aget_total (q_slots q) (q_head q)) as (x & -> & Hx); [lia|].
  unfold q_list at 1. rewrite H2, (list_lookup_total_correct _ _ _ Hx).
  eexists. split; [done|]. by split.
Qed.

(** ** The invariant of the process table *)

(** Slot [i] holds process [p]. *)
Definition holds (sl : list (option Process)) (i : Z) (p : Process) : Prop :=
  0 ≤ i ∧ sl !! Z.to_nat i = Some (Some p).

Record table_ok (t : ProcessTable) (cur : list Z) : Prop := {
  ok_slots : len (slots t) = MAX_PROCS;
  ok_ring : q_ok (run_queue t);
  ok_nodup : NoDup (queue t);
  (* a process is in the queue exactly when it is marked so *)
  ok_queued : ∀ i, i ∈ queue t ↔ ∃ p, holds (slots t) i p ∧ in_run_queue p = true;
  ok_cpus : len cur = MAX_CPUS;
  (* what a CPU runs is marked as running there and is not in the queue *)
  ok_current : ∀ c i, cur !! c = Some i → i ≠ INVALID_IDX →
    ∃ p, holds (slots t) i p ∧ running_on p = Z.of_nat c ∧ in_run_queue p = false;
  ok_fds : ∀ i p, holds (slots t) i p → len (fds p) = MAX_FDS;
  (* slots fill up in order, with consecutive pids *)
  ok_pids : ∀ i, 0 ≤ i < MAX_PROCS →
    if decide (i < next_pid t - 1) then ∃ p, holds (slots t) i p ∧ id p = i + 1
    else slots t !! Z.to_nat i = Some None;
  ok_next : 1 ≤ next_pid t ≤ MAX_PROCS + 1
}.

(** Both locks free, the table well formed. *)
Record procs_ok (s : procs) : Prop := {
  ok_unlocked : locked (PROCESS_TABLE s) = false;
  ok_init_unlocked : locked (INIT_FDS s) = false;
  ok_init_fds : len (data (INIT_FDS s)) = MAX_FDS;
  ok_table : table_ok (data (PROCESS_TABLE s)) (CURRENT s)
}.

Definition table (s : procs) : ProcessTable := data (PROCESS_TABLE s).

Lemma holds_inj sl i p q : holds sl i p → holds sl i q → p = q.
Proof. intros [_ H1] [_ H2]. congruence. Qed.

Lemma holds_insert sl i j p q : 0 ≤ i < len sl →
  holds (<[Z.to_nat i := Some p]> sl) j q ↔ (j = i ∧ q = p ∨ j ≠ i ∧ holds sl j q).
Proof.
  intros Hi. unfold holds. split.
  - intros [Hj Hq]. apply list_lookup_insert_Some in Hq as [(Heq & Hpq & _)|[Hne Hq]].
    + left. split; [lia|congruence].
    + right. split; [lia|done].
  - intros [[-> ->]|[Hne [Hj Hq]]]; (split; [lia|]).
    + apply list_lookup_insert_eq. unfold len in Hi. lia.
    + rewrite list_lookup_insert_ne by lia. done.
Qed.

Lemma holds_range sl i p : holds sl i p → 0 ≤ i < len sl.
Proof. intros [H1 H2]. apply lookup_lt_Some in H2. unfold len. lia. Qed.

Lemma aget_holds sl i p : holds sl i p → aget sl i = Ret (Some p).
Proof. intros [H1 H2]. by apply aget_ret. Qed.

Section facts.
Context (t : ProcessTable) (cur : list Z) (Hok : table_ok t cur).

(** The general update: one process replaced, a new queue that differs at most on that slot, and
    new current processes that were current before or are the one replaced. *)
Lemma table_ok_set i p p' q' cur' : holds (slots t) i p → id p' = id p →
  len (fds p') = len (fds p) → q_ok q' → NoDup (q_list q') →
  (i ∈ q_list q' ↔ in_run_queue p' = true) →
  (∀ j, j ≠ i → j ∈ q_list q' ↔ j ∈ queue t) → len cur' = MAX_CPUS →
  (∀ c j, cur' !! c = Some j → j ≠ INVALID_IDX →
     (j = i ∧ running_on p' = Z.of_nat c ∧ in_run_queue p' = false) ∨
     (j ≠ i ∧ cur !! c = Some j)) →
  table_ok (mkTable (<[Z.to_nat i := Some p']> (slots t)) (next_pid t) q') cur'.
Proof.
  intros Hp Hid Hf Hq' Hnd Hiq Hjq Hcl Hcur. pose proof (holds_range _ _ _ Hp) as Hi.
  destruct Hok. split; simpl; try done.
  - by rewrite len_insert.
  - intros j. unfold queue at 1. simpl. destruct (decide (j = i)) as [->|Hne].
    + rewrite Hiq. split.
      * intros Hqq. exists p'. rewrite holds_insert by done. auto.
      * intros (q & [[_ ->]|[Hne _]]%(holds_insert _ _ _ _ _ Hi) & Hqq); done.
    + rewrite Hjq, (ok_queued0 j) by done. split.
      * intros (q & Hj & Hqq). exists q. rewrite holds_insert by done. auto.
      * intros (q & [[-> _]|[_ Hj]]%(holds_insert _ _ _ _ _ Hi) & Hqq); [done|eauto].
  - intros c j Hc Hj. destruct (Hcur c j Hc Hj) as [(-> & Hr & Hqq)|[Hne Hc']].
    + exists p'. rewrite holds_insert by done. auto.
    + destruct (ok_current0 c j Hc' Hj) as (q & Hjq' & Hrq).
      exists q. rewrite holds_insert by done. auto.
  - intros j q [[-> ->]|[Hne Hj]]%(holds_insert _ _ _ _ _ Hi); [|by eapply ok_fds0].
    rewrite Hf. by eapply ok_fds0.
  - intros j Hj. specialize (ok_pids0 j Hj). case_decide.
    + destruct ok_pids0 as (q & Hjq' & Hidq). destruct (decide (j = i)) as [->|Hne].
      * exists p'. rewrite holds_insert by done. split; [by left|].
        rewrite Hid. by rewrite (holds_inj _ _ _ _ Hp Hjq').
      * exists q. rewrite holds_insert by done. auto.
    + destruct (decide (j = i)) as [->|Hne].
      * destruct Hp as [_ Hp]. congruence.
      * rewrite list_lookup_insert_ne; [done|]. lia.
Qed.

(** Replacing a process by one with the same pid, queue mark and descriptor count, still running
    where the CPUs say, keeps the invariant. *)
Lemma table_ok_update i p p' : holds (slots t) i p → id p' = id p →
  in_run_queue p' = in_run_queue p → running_on p' = running_on p → len (fds p') = len (fds p) →
  table_ok (with_slots t (<[Z.to_nat i := Some p']> (slots t))) cur.
Proof.
  intros Hp Hid Hq Hr Hf. apply (table_ok_set i p p'); try done; try apply Hok.
  - change (q_list (run_queue t)) with (queue t). rewrite Hq, (ok_queued _ _ Hok). split.
    + intros (q & Hj & Hqq). by rewrite (holds_inj _ _ _ _ Hp Hj).
    + eauto.
  - intros c j Hc Hj. destruct (decide (j = i)) as [->|Hne]; [left|by right].
    destruct (ok_current _ _ Hok c i Hc Hj) as (q & Hiq & Hrq & Hqq).
    rewrite (holds_inj _ _ _ _ Hiq Hp) in Hrq, Hqq. by rewrite Hr, Hq.
Qed.

(** The queue holds distinct slots, so it is never full when a slot outside it is pushed. *)
Lemma queue_range i : i ∈ queue t → 0 ≤ i < MAX_PROCS.
Proof.
  intros Hi. apply (ok_queued _ _ Hok) in Hi as (p & Hp & _). rewrite <-(ok_slots _ _ Hok).
  by apply holds_range in Hp.
Qed.
End facts.

(** One more slot fits in the queue. *)
Lemma queue_room t cur i : table_ok t cur → 0 ≤ i < MAX_PROCS → i ∉ queue t →
  len (queue t) < MAX_PROCS.
Proof.
  intros Hok Hi Hni. assert (length (i :: queue t) ≤ 64)%nat as Hl.
  - apply nodup_below.
    + constructor; [done|apply (ok_nodup _ _ Hok)].
    + intros x [->|Hx]%elem_of_cons; [done|]. by apply (queue_range t cur Hok).
  - simpl in Hl. unfold len, MAX_PROCS. lia.
Qed.

(** ** Creation *)
Section creation.
Context (stacks root : Z).

Lemma inherited_ok parent t cur l : table_ok t cur → locked l = false → len (data l) = MAX_FDS →
  ∃ inh, inherited parent t l = Ret (inh, mkLock false (data l)) ∧ len inh = MAX_FDS.
Proof.
  intros Hok Hl Hlen. unfold inherited.
  assert (with_lock l (λ x, Ret (x, x)) = Ret (data l, mkLock false (data l))) as Hinit
    by by apply with_lock_ret.
  destruct parent as [pid|]; [|eauto].
  destruct (find_pid pid (slots t)) as [p|] eqn:Hf; [|eauto].
  exists (fds p). destruct l as [lk d]. simpl in *. subst lk. split; [done|].
  unfold find_pid in Hf. apply find_some in Hf as [Hin _].
  apply list_elem_of_In, list_elem_of_omap in Hin as (o & Ho & Hop). subst o.
  apply list_elem_of_lookup in Ho as [i Hi].
  apply (ok_fds _ _ Hok (Z.of_nat i)). split; [lia|]. by rewrite Nat2Z.id.
Qed.

(** The scan for a free slot finds the first one, which is the number of processes created. *)
Lemma free_slot_ok t cur : table_ok t cur →
  find_range 0 MAX_PROCS (λ idx, o ← aget (slots t) idx; Ret (bool_decide (o = None))) =
    Ret (if decide (next_pid t - 1 < MAX_PROCS) then Some (next_pid t - 1) else None).
Proof.
  intros Hok. pose proof (ok_next _ _ Hok) as Hn.
  destruct (find_range_spec 0 MAX_PROCS
    (λ idx, o ← aget (slots t) idx; Ret (bool_decide (o = None)))
    (λ i, bool_decide (next_pid t - 1 ≤ i))) as (r & -> & Hr).
  { intros i Hi. pose proof (ok_pids _ _ Hok i Hi) as Hp. case_decide.
    - destruct Hp as (p & Hp & _). rewrite (aget_holds _ _ _ Hp). simpl.
      by rewrite !bool_decide_eq_false_2 by (done || lia).
    - destruct (aget_total (slots t) i) as (o & -> & Ho).
      { by rewrite (ok_slots _ _ Hok). }
      simpl. assert (o = None) as -> by congruence.
      by rewrite !bool_decide_eq_true_2 by (done || lia). }
  f_equal. destruct r as [i|].
  - destruct Hr as (Hi & Hf & Hmin). apply bool_decide_eq_true in Hf.
    rewrite decide_True by lia. f_equal.
    destruct (decide (next_pid t - 1 = i)) as [|Hne]; [lia|].
    specialize (Hmin (next_pid t - 1)). rewrite bool_decide_eq_false in Hmin. lia.
  - case_decide; [|done]. specialize (Hr (next_pid t - 1)).
    rewrite bool_decide_eq_false in Hr. lia.
Qed.

Definition fresh (idx pid : Z) (nm : list Z) (en top : Z) (md : ProcessMode) (par : option Z)
    (inh : list (option FileDesc)) : Process :=
  let top := if decide (top = 0) then stack_of stacks idx else top in
  mkProcess pid nm en Ready top (init_context en top).1 CPU_NONE true md par inh root.

(** Adding a process in the first free slot keeps the invariant. *)
Lemma table_ok_add t cur p q : table_ok t cur → next_pid t - 1 < MAX_PROCS →
  id p = next_pid t → in_run_queue p = true → running_on p = CPU_NONE → len (fds p) = MAX_FDS →
  q_ok q → q_list q = queue t ++ [next_pid t - 1] →
  table_ok (mkTable (<[Z.to_nat (next_pid t - 1) := Some p]> (slots t)) (next_pid t + 1) q) cur.
Proof.
  intros Hok Hn Hid Hq Hr Hf Hqok Hql. set (n := next_pid t - 1) in *.
  pose proof (ok_next _ _ Hok) as Hnx. pose proof (ok_slots _ _ Hok) as Hsl.
  assert (0 ≤ n < len (slots t)) as Hnr by (rewrite Hsl; unfold n; lia).
  assert (∀ r, ¬ holds (slots t) n r) as Hfree.
  { intros r [_ Hh]. pose proof (ok_pids _ _ Hok n) as Hp.
    rewrite decide_False in Hp by lia. rewrite Hp in Hh by (rewrite <-Hsl; lia). done. }
  assert (n ∉ queue t) as Hnq.
  { intros Hin. apply (ok_queued _ _ Hok) in Hin as (r & Hh & _). by apply Hfree in Hh. }
  split; simpl; try done.
  - by rewrite len_insert.
  - unfold queue. simpl. rewrite Hql. apply NoDup_app. split; [apply Hok|].
    split; [|apply NoDup_singleton]. intros x Hx. rewrite list_elem_of_singleton. congruence.
  - intros i. unfold queue at 1. simpl. rewrite Hql, elem_of_snoc, (ok_queued _ _ Hok). split.
    + intros [(r & Hh & Hrq)| ->].
      * exists r. rewrite holds_insert by done. split; [|done]. right. split; [|done].
        intros ->. by apply Hfree in Hh.
      * exists p. rewrite holds_insert by done. auto.
    + intros (r & [[-> ->]|[Hne Hh]]%(holds_insert _ _ _ _ _ Hnr) & Hrq); [by right|].
      left. eauto.
  - apply (ok_cpus _ _ Hok).
  - intros c i Hc Hi. destruct (ok_current _ _ Hok c i Hc Hi) as (r & Hh & Hrr).
    exists r. rewrite holds_insert by done. split; [|done]. right. split; [|done].
    intros ->. by apply Hfree in Hh.
  - intros i r [[-> ->]|[Hne Hh]]%(holds_insert _ _ _ _ _ Hnr); [done|]. by eapply ok_fds.
  - intros i Hi. pose proof (ok_pids _ _ Hok i Hi) as Hp.
    destruct (decide (i = n)) as [->|Hne].
    + rewrite decide_True by lia. exists p. rewrite holds_insert by done.
      split; [by left|]. unfold n. lia.
    + destruct (decide (i < next_pid t - 1)).
      * rewrite decide_True by lia. destruct Hp as (r & Hh & Hr').
        exists r. rewrite holds_insert by done. split; [by right|done].
      * rewrite decide_False by lia. rewrite list_lookup_insert_ne by lia. done.
  - unfold n in *. lia.
Qed.

(** [create_with_mode]: a full table refuses; otherwise the process goes, ready, in the first
    free slot with a pid nobody has, at the tail of the run queue, with a fresh context. *)
Lemma create_ok nm en top md par s : procs_ok s →
  returns (create_with_mode stacks root nm en top md par s) (λ '(r, s'), procs_ok s' ∧
    CURRENT s' = CURRENT s ∧
    let n := next_pid (table s) - 1 in
    if decide (n < MAX_PROCS) then
      ∃ inh, let p := fresh n (n + 1) nm en top md par inh in
        r = Some (n + 1) ∧ slots (table s') = <[Z.to_nat n := Some p]> (slots (table s)) ∧
        queue (table s') = queue (table s) ++ [n] ∧
        next_pid (table s') = next_pid (table s) + 1 ∧
        frames s' = <[context_sp p := TrapFrame_new en]> (frames s)
    else r = None ∧ table s' = table s ∧ frames s' = frames s).
Proof.
  intros [Hl Hli Hlf Hok]. unfold create_with_mode, lock. rewrite Hl. cbn [mbind outcome_bind data].
  destruct (inherited_ok par _ _ (INIT_FDS s) Hok Hli Hlf) as (inh & -> & Hinh).
  cbn [mbind outcome_bind]. rewrite (free_slot_ok _ _ Hok). cbn [mbind outcome_bind].
  unfold table. set (t := data (PROCESS_TABLE s)) in *. pose proof (ok_next _ _ Hok) as Hnx.
  case_decide as Hn.
  - unfold alloc_pid. cbn [slots run_queue next_pid].
    assert (Z.max (add32 (next_pid t) 1) 1 = next_pid t + 1) as ->.
    { unfold add32, wrap32, MAX_PROCS in *. rewrite Z.mod_small; lia. }
    destruct (init_context en _) as [sp frame] eqn:Hctx.
    rewrite aset_ret by (rewrite (ok_slots _ _ Hok); lia). cbn [mbind outcome_bind].
    assert (n_free : next_pid t - 1 ∉ queue t).
    { intros Hin. apply (ok_queued _ _ Hok) in Hin as (r & [_ Hh] & _).
      pose proof (ok_pids _ _ Hok (next_pid t - 1) ltac:(lia)) as Hp.
      rewrite decide_False in Hp by lia. congruence. }
    destruct (push_ok (next_pid t - 1) (run_queue t)) as (q & -> & Hq & Hql); [apply Hok| |].
    { apply (queue_room t (CURRENT s) (next_pid t - 1)); [done|lia|done]. }
    cbn [mbind outcome_bind]. split; [|split].
    + split; simpl; try done. apply (table_ok_add t (CURRENT s)); done.
    + done.
    + exists inh. unfold fresh. rewrite Hctx. cbn [fst context_sp].
      assert (frame = TrapFrame_new en) as -> by (unfold init_context in Hctx; congruence).
      replace (next_pid t - 1 + 1) with (next_pid t) by lia. done.
  - simpl. split; [|done]. by split.
Qed.
End creation.

(** ** The current process *)

(** CPU [cpu] runs the process [p] of slot [i]. *)
Definition runs (s : procs) (cpu i : Z) (p : Process) : Prop :=
  0 ≤ cpu ∧ CURRENT s !! Z.to_nat cpu = Some i ∧ i ≠ INVALID_IDX ∧ holds (slots (table s)) i p.
Definition idle (s : procs) (cpu : Z) : Prop :=
  0 ≤ cpu ∧ CURRENT s !! Z.to_nat cpu = Some INVALID_IDX.

(** The state with the process of slot [i] replaced. *)
Definition put_proc (s : procs) (i : Z) (p : Process) : procs :=
  with_table s (mkLock false (with_slots (table s) (<[Z.to_nat i := Some p]> (slots (table s))))).

(** Nothing but the locks' flags changes when an unlocked table is looked at. *)
Lemma with_table_same s : locked (PROCESS_TABLE s) = false →
  with_table s (mkLock false (data (PROCESS_TABLE s))) = s.
Proof. destruct s as [[b t] c f m]. simpl. by intros ->. Qed.

Section current.
Context (s : procs) (Hs : procs_ok s) (cpu : Z).

Lemma cpu_cases : 0 ≤ cpu < MAX_CPUS → idle s cpu ∨ ∃ i p, runs s cpu i p.
Proof.
  intros Hc. destruct (lookup_lt_is_Some_2 (CURRENT s) (Z.to_nat cpu)) as [i Hi].
  { pose proof (ok_cpus _ _ (ok_table _ Hs)) as Hl. unfold len in Hl. unfold MAX_CPUS in *. lia. }
  destruct (decide (i = INVALID_IDX)) as [->|Hne]; [left; split; [lia|done]|right].
  destruct (ok_current _ _ (ok_table _ Hs) _ _ Hi Hne) as (p & Hp & _).
  exists i, p. split; [lia|done].
Qed.

Lemma with_current_idle {R} (f : Process → R) : idle s cpu →
  with_current cpu f s = Ret (None, s).
Proof.
  intros [Hc Hi]. unfold with_current, on_table.
  rewrite (with_lock_ret _ _ None (data (PROCESS_TABLE s))); [|apply Hs|].
  - simpl. by rewrite with_table_same by apply Hs.
  - rewrite (proj2 (aget_ret _ _ _) (conj Hc Hi)). simpl. done.
Qed.

Lemma with_current_runs {R} (f : Process → R) i p : runs s cpu i p →
  with_current cpu f s = Ret (Some (f p), s).
Proof.
  intros (Hc & Hi & Hne & Hp). unfold with_current, on_table.
  rewrite (with_lock_ret _ _ (Some (f p)) (data (PROCESS_TABLE s))); [|apply Hs|].
  - simpl. by rewrite with_table_same by apply Hs.
  - rewrite (proj2 (aget_ret _ _ _) (conj Hc Hi)). simpl. rewrite decide_False by done.
    unfold table in Hp. by rewrite (aget_holds _ _ _ Hp).
Qed.

Lemma with_current_mut_idle {R} (f : Process → outcome (R * Process)) : idle s cpu →
  with_current_mut cpu f s = Ret (None, s).
Proof.
  intros [Hc Hi]. unfold with_current_mut, on_table.
  rewrite (with_lock_ret _ _ None (data (PROCESS_TABLE s))); [|apply Hs|].
  - simpl. by rewrite with_table_same by apply Hs.
  - rewrite (proj2 (aget_ret _ _ _) (conj Hc Hi)). simpl. done.
Qed.

Lemma with_current_mut_runs {R} (f : Process → outcome (R * Process)) i p r p' :
  runs s cpu i p → f p = Ret (r, p') →
  with_current_mut cpu f s = Ret (Some r, put_proc s i p').
Proof.
  intros (Hc & Hi & Hne & Hp) Hf. unfold with_current_mut, on_table.
  erewrite (with_lock_ret _ _ (Some r)); [|apply Hs|].
  - simpl. done.
  - rewrite (proj2 (aget_ret _ _ _) (conj Hc Hi)). simpl. rewrite decide_False by done.
    unfold table in Hp. rewrite (aget_holds _ _ _ Hp). simpl. rewrite Hf. simpl.
    rewrite aset_ret by (by apply holds_range in Hp). done.
Qed.

(** Changing only a running process's descriptors keeps the invariant. *)
Lemma put_fds_ok i p l : runs s cpu i p → len l = MAX_FDS →
  procs_ok (put_proc s i (with_fds l p)) ∧ runs (put_proc s i (with_fds l p)) cpu i (with_fds l p).
Proof.
  intros (Hc & Hi & Hne & Hp) Hl. split.
  - destruct Hs. split; simpl; try done. eapply table_ok_update; try done.
    simpl. by rewrite Hl, (ok_fds _ _ ok_table0 _ _ Hp).
  - split; [done|]. split; [done|]. split; [done|]. simpl.
    apply holds_insert; [by apply holds_range in Hp|]. by left.
Qed.
End current.

(** The least free descriptor. *)
Lemma alloc_fd_ok desc p : len (fds p) = MAX_FDS →
  returns (alloc_fd desc p) (λ '(r, p'),
    match r with
    | Some fd => 0 ≤ fd < MAX_FDS ∧ fds p !! Z.to_nat fd = Some None ∧
        (∀ j, 0 ≤ j < fd → fds p !! Z.to_nat j ≠ Some None) ∧
        p' = with_fds (<[Z.to_nat fd := Some desc]> (fds p)) p
    | None => (∀ j, 0 ≤ j < MAX_FDS → fds p !! Z.to_nat j ≠ Some None) ∧ p' = p
    end).
Proof.
  intros Hl. unfold alloc_fd.
  destruct (find_range_spec 0 MAX_FDS (λ fd, o ← aget (fds p) fd; Ret (bool_decide (o = None)))
    (λ fd, bool_decide (fds p !! Z.to_nat fd = Some None))) as (r & -> & Hr).
  { intros fd Hfd. destruct (aget_total (fds p) fd) as (o & -> & Ho); [lia|]. simpl.
    rewrite Ho. f_equal. apply bool_decide_ext. split; [by intros ->|by intros [=]]. }
  simpl. destruct r as [fd|].
  - destruct Hr as (Hfd & Hf & Hmin). apply bool_decide_eq_true in Hf.
    rewrite aset_ret by lia. simpl. split_and!; try done; try lia.
    intros j Hj. specialize (Hmin j Hj). by apply bool_decide_eq_false in Hmin.
  - simpl. split; [|done]. intros j Hj. specialize (Hr j Hj). by apply bool_decide_eq_false in Hr.
Qed.

(** Both descriptor operations only replace the descriptors. *)
Lemma alloc_fd_shape desc p : len (fds p) = MAX_FDS →
  ∃ r l, alloc_fd desc p = Ret (r, with_fds l p) ∧ len l = MAX_FDS.
Proof.
  intros Hl. destruct (proj1 (returns_eq _ _) (alloc_fd_ok desc p Hl)) as ([r p'] & -> & Hr).
  destruct r as [fd|].
  - destruct Hr as (_ & _ & _ & ->). eexists _, _. split; [done|]. by rewrite len_insert.
  - destruct Hr as [_ ->]. exists None, (fds p). split; [|done]. by destruct p.
Qed.

Lemma close_fd_shape fd p : 0 ≤ fd < MAX_FDS → len (fds p) = MAX_FDS →
  ∃ (r : bool) l, (l ← aset (fds p) fd None; Ret (true, with_fds l p)) = Ret (r, with_fds l p) ∧
    len l = MAX_FDS.
Proof.
  intros Hfd Hl. rewrite aset_ret by lia. eexists _, _. split; [done|]. by rewrite len_insert.
Qed.

Lemma get_fd_ok s cpu i p fd : procs_ok s → runs s cpu i p → 0 ≤ fd →
  get_fd_current cpu fd s = Ret (if decide (fd < MAX_FDS) then default None (fds p !! Z.to_nat fd)
                                 else None, s).
Proof.
  intros Hs Hr Hfd. unfold get_fd_current. case_decide; [by rewrite decide_False by lia|].
  rewrite decide_True by lia. rewrite (with_current_runs s Hs cpu _ i p Hr). simpl.
  destruct Hr as (_ & _ & _ & Hp).
  destruct (aget_total (fds p) fd) as (o & -> & Ho).
  { rewrite (ok_fds _ _ (ok_table _ Hs) _ _ Hp). unfold MAX_FDS in *. lia. }
  simpl. by rewrite Ho.
Qed.
