(* ===== verification/Scheduler.v ===== *)
(** * The scheduler

    [src/kernel/process/scheduler.rs]: picking the next runnable process from the shared run
    queue, on the timer interrupt ([schedule_from_irq]) and when a CPU starts
    ([start_on_cpu]).  Both run entirely under the process table's lock, so an execution of
    the machine is a sequence of them and of the table operations of [Process], in any order
    and on any CPUs: the step relation below.

    Shown: an invariant of that relation under which no process runs on two CPUs; that the
    scheduler is a FIFO queue; that every ready process runs after as many rescheduling
    interrupts as there are processes before it; and that a preempted process resumes from
    the frame it was interrupted with. *)
From stdpp Require Import gmap.
From S2P Require Import Prelude Sync Ring Trap Smp Vfs Process.
Local Open Scope Z_scope.

(** The loop of [dequeue_next_runnable], [n] iterations left. *)
Fixpoint dequeue_loop (n : nat) (t : ProcessTable) : outcome (option Z * ProcessTable) :=
  match n with
  | O => Ret (None, t)
  | S n =>
      r ← pop (run_queue t);
      let t := with_queue t r.2 in
      match r.1 with
      | None => Ret (None, t)
      | Some idx =>
          slot ← aget (slots t) idx;
          let take := match slot with
                      | Some p => bool_decide (state p = Ready) && bool_decide (running_on p = CPU_NONE)
                      | None => false
                      end in
          if take then
            sl ← match slot with
                 | Some p => aset (slots t) idx (Some (with_queued false p))
                 | None => Ret (slots t)
                 end;
            Ret (Some idx, with_slots t sl)
          else
            q ← push idx (run_queue t);
            dequeue_loop n (with_queue t q)
      end
  end.

Definition dequeue_next_runnable (t : ProcessTable) : outcome (option Z * ProcessTable) :=
  let initial_len := q_len (run_queue t) in
  dequeue_loop (Z.to_nat initial_len) t.

(** [if idx != INVALID_IDX { if let Some(proc) = &mut table.slots[idx] { .. } }]. *)
Definition on_slot (idx : Z) (f : Process → ProcessTable → outcome ProcessTable) (t : ProcessTable) :
    outcome ProcessTable :=
  if decide (idx = INVALID_IDX) then Ret t
  else
    o ← aget (slots t) idx;
    match o with None => Ret t | Some p => f p t end.

Definition set_slot (idx : Z) (p : Process) (t : ProcessTable) : outcome ProcessTable :=
  sl ← aset (slots t) idx (Some p); Ret (with_slots t sl).

(** The body under the lock: the frame to resume, the TTBR0 set, the table and the current
    process's slot. *)
Definition schedule_locked (cpu frame current_idx : Z) (t : ProcessTable) :
    outcome (Z * option Z * option Z * ProcessTable) :=
  t ← on_slot current_idx (λ p t,
        let p := with_context frame p in
        let p := if decide (state p = Running)
                 then with_queued false (with_cpu CPU_NONE (with_state Ready p)) else p in
        set_slot current_idx p t) t;
  d ← dequeue_next_runnable t;
  let t := d.2 in
  match d.1 with
  | None =>
      t ← on_slot current_idx (λ p t, set_slot current_idx (with_cpu cpu (with_state Running p)) t) t;
      Ret (frame, None, None, t)
  | Some next_idx =>
      slot ← aget (slots t) next_idx;
      match slot with
      | None => Ret (frame, None, None, t)
      | Some _ =>
          t ← on_slot current_idx (λ p t,
                if decide (state p = Ready ∧ in_run_queue p = false) then
                  t ← set_slot current_idx (with_queued true p) t;
                  q ← push current_idx (run_queue t);
                  Ret (with_queue t q)
                else Ret t) t;
          o ← aget (slots t) next_idx;
          p ← unwrap o;
          let p := with_queued false (with_cpu cpu (with_state Running p)) in
          t ← set_slot next_idx p t;
          Ret (context_sp p, Some (ttbr0 p), Some next_idx, t)
      end
  end.

(** The frame to return to and the value written to TTBR0, if any. *)
Definition schedule_from_irq (cpu frame : Z) (s : procs) : outcome (Z * option Z * procs) :=
  g ← lock (PROCESS_TABLE s);
  current_idx ← aget (CURRENT s) cpu;
  '(result, root, next, t) ← schedule_locked cpu frame current_idx (data g);
  cur ← match next with
        | Some next_idx => aset (CURRENT s) cpu next_idx
        | None => Ret (CURRENT s)
        end;
  Ret (result, root, mkProcs (unlock (guard_set g t)) cur (INIT_FDS s) (frames s)).

(** The entry point and stack the CPU jumps to, and the value written to TTBR0. *)
Definition start_on_cpu (cpu : Z) (s : procs) : outcome (Z * Z * Z * procs) :=
  g ← lock (PROCESS_TABLE s);
  d ← dequeue_next_runnable (data g);
  next_idx ← unwrap d.1;
  let t := d.2 in
  o ← aget (slots t) next_idx;
  match o with
  | None => Panic
  | Some p =>
      let p := with_queued false (with_cpu cpu (with_state Running p)) in
      t ← set_slot next_idx p t;
      cur ← aset (CURRENT s) cpu next_idx;
      Ret (entry p, stack_top p, ttbr0 p,
           mkProcs (unlock (guard_set g t)) cur (INIT_FDS s) (frames s))
  end.

(** ** Taking a process from the queue *)

Definition runnable (sl : list (option Process)) (i : Z) : Prop :=
  ∃ p, holds sl i p ∧ state p = Ready ∧ running_on p = CPU_NONE.

Lemma dequeue_loop_ok n t rest skipped :
  q_ok (run_queue t) → queue t = rest ++ skipped → length rest = n → len (queue t) ≤ MAX_PROCS →
  (∀ i, i ∈ rest → ∃ p, holds (slots t) i p) →
  returns (dequeue_loop n t) (λ '(o, t'), next_pid t' = next_pid t ∧ q_ok (run_queue t') ∧
    match o with
    | Some i => ∃ l1 l2 p, rest = l1 ++ i :: l2 ∧ Forall (λ j, ¬ runnable (slots t) j) l1 ∧
        holds (slots t) i p ∧ state p = Ready ∧ running_on p = CPU_NONE ∧
        queue t' = l2 ++ skipped ++ l1 ∧
        slots t' = <[Z.to_nat i := Some (with_queued false p)]> (slots t)
    | None => Forall (λ j, ¬ runnable (slots t) j) rest ∧ queue t' = skipped ++ rest ∧
        slots t' = slots t
    end).
Proof.
  revert t rest skipped. induction n as [|n IH]; intros t rest skipped Hq Hql Hn Hlen Hh.
  { destruct rest; [|done]. simpl. by rewrite app_nil_r. }
  destruct rest as [|i rest]; [done|]. cbn [dequeue_loop]. pose proof (pop_ok _ Hq) as Hpop.
  unfold queue in Hql. rewrite Hql in Hpop. simpl in Hpop. destruct Hpop as (q' & -> & Hq' & Hl').
  cbn [mbind outcome_bind fst snd]. destruct (Hh i) as (p & Hp); [by left|].
  cbn [slots with_queue]. rewrite (aget_holds _ _ _ Hp). cbn [mbind outcome_bind].
  pose proof (holds_range _ _ _ Hp) as Hi.
  destruct (bool_decide (state p = Ready) && bool_decide (running_on p = CPU_NONE)) eqn:Htake.
  - apply andb_prop in Htake as [Hr Hc]. apply bool_decide_eq_true in Hr, Hc.
    rewrite aset_ret by done. simpl. split; [done|]. split; [done|].
    exists [], rest, p. simpl. split_and!; try done. by rewrite app_nil_r.
  - assert (¬ runnable (slots t) i) as Hnr.
    { intros (p' & Hp' & Hr & Hc). rewrite (holds_inj _ _ _ _ Hp Hp') in Htake.
      by rewrite !bool_decide_eq_true_2 in Htake. }
    assert (len (q_list q') < MAX_PROCS) as Hroom.
    { unfold queue in Hlen. rewrite Hql in Hlen. rewrite Hl'. unfold len in *. simpl in Hlen.
      unfold MAX_PROCS in *. lia. }
    destruct (push_ok i q' Hq' Hroom) as (q2 & Hpush & Hq2 & Hl2).
    cbn [run_queue with_queue]. rewrite Hpush. cbn [mbind outcome_bind].
    eapply returns_mono; [apply (IH (with_queue (with_queue t q') q2) rest (skipped ++ [i]))|].
    + done.
    + unfold queue. simpl. by rewrite Hl2, Hl', <-app_assoc.
    + by injection Hn.
    + unfold queue. simpl. rewrite Hl2, len_app. unfold len in *. simpl. lia.
    + intros j Hj. apply Hh. by right.
    + intros [o t'] (Hnp & Hq3 & Ho). simpl in *. split; [done|]. split; [done|].
      destruct o as [j|].
      * destruct Ho as (l1 & l2 & pj & -> & Hl1 & Hpj & Hrj & Hcj & Hqj & Hsj).
        exists (i :: l1), l2, pj. split_and!; try done.
        -- by constructor.
        -- rewrite Hqj. by rewrite <-!app_assoc.
      * destruct Ho as (Hall & Hqq & Hss). split; [by constructor|]. split; [|done].
        by rewrite Hqq, <-app_assoc.
Qed.

Lemma dequeue_ok t cur : table_ok t cur →
  returns (dequeue_next_runnable t) (λ '(o, t'), next_pid t' = next_pid t ∧ q_ok (run_queue t') ∧
    match o with
    | Some i => ∃ l1 l2 p, queue t = l1 ++ i :: l2 ∧ Forall (λ j, ¬ runnable (slots t) j) l1 ∧
        holds (slots t) i p ∧ state p = Ready ∧ running_on p = CPU_NONE ∧
        queue t' = l2 ++ l1 ∧
        slots t' = <[Z.to_nat i := Some (with_queued false p)]> (slots t)
    | None => Forall (λ j, ¬ runnable (slots t) j) (queue t) ∧ queue t' = queue t ∧
        slots t' = slots t
    end).
Proof.
  intros Hok. pose proof (q_list_len _ (ok_ring _ _ Hok)) as Hl. unfold dequeue_next_runnable.
  eapply returns_mono; [apply (dequeue_loop_ok _ t (queue t) [])|].
  - apply Hok.
  - by rewrite app_nil_r.
  - rewrite <-Hl. unfold queue, len. lia.
  - unfold queue. rewrite Hl. apply (ok_ring _ _ Hok).
  - intros i Hi. apply (ok_queued _ _ Hok) in Hi as (p & Hp & _). eauto.
  - intros [o t'] H. exact H.
Qed.

(** ** The effect of a rescheduling interrupt *)

(** The interrupted process once its context is saved, once it is back in the queue, and when it
    keeps the CPU; a process taking the CPU. *)
Definition saved (frame : Z) (p : Process) : Process :=
  let p := with_context frame p in
  if decide (state p = Running) then with_queued false (with_cpu CPU_NONE (with_state Ready p))
  else p.
Definition requeued (frame : Z) (p : Process) : Process :=
  let p := saved frame p in if decide (state p = Ready) then with_queued true p else p.
Definition kept (cpu frame : Z) (p : Process) : Process :=
  with_cpu cpu (with_state Running (saved frame p)).
Definition dispatched (cpu : Z) (p : Process) : Process :=
  with_queued false (with_cpu cpu (with_state Running p)).

Lemma saved_id frame p : id (saved frame p) = id p ∧ fds (saved frame p) = fds p ∧
  context_sp (saved frame p) = frame ∧ ttbr0 (saved frame p) = ttbr0 p ∧
  (in_run_queue p = false → in_run_queue (saved frame p) = false).
Proof. unfold saved. case_decide; simpl; auto. Qed.

Lemma on_slot_runs ci f t p : ci ≠ INVALID_IDX → holds (slots t) ci p →
  on_slot ci f t = f p t.
Proof. intros Hne Hp. unfold on_slot. rewrite decide_False by done. by rewrite (aget_holds _ _ _ Hp). Qed.

Lemma set_slot_ok i p p' t : holds (slots t) i p →
  set_slot i p' t = Ret (with_slots t (<[Z.to_nat i := Some p']> (slots t))).
Proof. intros Hp. unfold set_slot. rewrite aset_ret by (by apply holds_range in Hp). done. Qed.

(** While a CPU is inside the scheduler it runs nothing. *)
Definition leave (cpu : Z) (cur : list Z) : list Z := <[Z.to_nat cpu := INVALID_IDX]> cur.

Lemma leave_lookup cpu cur c j : leave cpu cur !! c = Some j → j ≠ INVALID_IDX →
  c ≠ Z.to_nat cpu ∧ cur !! c = Some j.
Proof.
  unfold leave. intros H Hj. apply list_lookup_insert_Some in H as [(-> & <- & _)|[Hne H]]; [done|].
  split; [congruence|done].
Qed.

Lemma leave_enter cpu cur i c j : <[Z.to_nat cpu := i]> (leave cpu cur) !! c = Some j →
  j ≠ INVALID_IDX → (c = Z.to_nat cpu ∧ j = i) ∨ (leave cpu cur !! c = Some j ∧ c ≠ Z.to_nat cpu).
Proof. intros H Hj. apply list_lookup_insert_Some in H as [(-> & <- & _)|[Hne H]]; auto. Qed.

Section interrupt.
Context (t : ProcessTable) (cur : list Z) (Hok : table_ok t cur).
Context (cpu ci : Z) (Hcpu : 0 ≤ cpu < MAX_CPUS) (Hci : cur !! Z.to_nat cpu = Some ci).

Lemma leave_ok : table_ok t (leave cpu cur).
Proof.
  destruct Hok. split; try done.
  - unfold leave. by rewrite len_insert.
  - intros c j Hc Hj. apply leave_lookup in Hc as [_ Hc]; [|done]. by apply ok_current.
Qed.

(** The current process and where else it is not. *)
Lemma current_facts p : ci ≠ INVALID_IDX → holds (slots t) ci p →
  running_on p = cpu ∧ in_run_queue p = false ∧ ci ∉ queue t ∧
  ∀ c, leave cpu cur !! c ≠ Some ci.
Proof.
  intros Hne Hp. destruct (ok_current _ _ Hok _ _ Hci Hne) as (q & Hq & Hr & Hqq).
  rewrite (holds_inj _ _ _ _ Hq Hp) in Hr, Hqq. rewrite Z2Nat.id in Hr by lia.
  split_and!; try done.
  - intros Hin. apply (ok_queued _ _ Hok) in Hin as (q' & Hq' & Hqq').
    rewrite (holds_inj _ _ _ _ Hq' Hp) in Hqq'. congruence.
  - intros c Hc. destruct (leave_lookup _ _ _ _ Hc Hne) as [Hne' Hc'].
    destruct (ok_current _ _ Hok _ _ Hc' Hne) as (q' & Hq' & Hr' & _).
    rewrite (holds_inj _ _ _ _ Hq' Hp) in Hr'. apply Hne'. lia.
Qed.

(** The slots once the context of the current process is saved. *)
Definition save_slots (f : Process → Process) : list (option Process) :=
  if decide (ci = INVALID_IDX) then slots t
  else match slots t !! Z.to_nat ci with
       | Some (Some p) => <[Z.to_nat ci := Some (f p)]> (slots t)
       | _ => slots t
       end.

Lemma save_ok (f : Process → Process) (Hf : ∀ p, id (f p) = id p ∧ fds (f p) = fds p ∧
    (in_run_queue p = false → in_run_queue (f p) = false)) :
  on_slot ci (λ p t, set_slot ci (f p) t) t = Ret (with_slots t (save_slots f)) ∧
  table_ok (with_slots t (save_slots f)) (leave cpu cur).
Proof.
  unfold save_slots, on_slot. case_decide as Hd.
  { split; [by destruct t|]. assert (with_slots t (slots t) = t) as -> by by destruct t.
    apply leave_ok. }
  destruct (ok_current _ _ Hok _ _ Hci Hd) as (p & Hp & _). pose proof Hp as [_ ->].
  rewrite (aget_holds _ _ _ Hp). cbn [mbind outcome_bind].
  destruct (current_facts p Hd Hp) as (Hr & Hqf & Hnq & Hnc). destruct (Hf p) as (Hid & Hfd & Hiq).
  split; [by apply (set_slot_ok ci p)|].
  apply (table_ok_set t (leave cpu cur) leave_ok ci p); try done; try apply Hok; try apply leave_ok.
  - by rewrite Hfd.
  - change (q_list (run_queue t)) with (queue t). rewrite (Hiq Hqf). split; [|done].
    intros Hin. by apply Hnq in Hin.
  - intros c j Hc Hj. right. split; [|done]. intros ->. by apply Hnc in Hc.
Qed.

(** A rotated queue with the same contents changes nothing. *)
Lemma same_queue_ok t' cur' : table_ok t cur' → slots t' = slots t → next_pid t' = next_pid t →
  q_ok (run_queue t') → queue t' = queue t → table_ok t' cur'.
Proof.
  intros Hok' Hs Hn Hq Hqq. destruct Hok'. split; rewrite ?Hs, ?Hn, ?Hqq; done.
Qed.
End interrupt.

(** Taking the process [i] out of the queue. *)
Lemma take_ok t cur t' i l1 l2 p : table_ok t cur → queue t = l1 ++ i :: l2 →
  holds (slots t) i p → queue t' = l2 ++ l1 → q_ok (run_queue t') → next_pid t' = next_pid t →
  slots t' = <[Z.to_nat i := Some (with_queued false p)]> (slots t) →
  table_ok t' cur ∧ i ∉ queue t' ∧ ∀ c, i ≠ INVALID_IDX → cur !! c ≠ Some i.
Proof.
  intros Hok Hq Hp Hq' Hqok Hn Hs.
  pose proof (ok_nodup _ _ Hok) as Hnd. rewrite Hq in Hnd.
  rewrite (Permutation_app_comm l1 (i :: l2)) in Hnd. apply NoDup_cons in Hnd as [Hni Hnd'].
  assert (∀ c, i ≠ INVALID_IDX → cur !! c ≠ Some i) as Hnc.
  { intros c Hne Hc. destruct (ok_current _ _ Hok _ _ Hc Hne) as (q & Hpq & _ & Hf).
    assert (i ∈ queue t) as Hin by (rewrite Hq; set_solver).
    apply (ok_queued _ _ Hok) in Hin as (q' & Hq2 & Hf').
    rewrite (holds_inj _ _ _ _ Hpq Hq2) in Hf. congruence. }
  split; [|split; [by rewrite Hq'|done]].
  destruct t' as [sl' np' rq']. simpl in *. subst sl' np'.
  apply (table_ok_set t cur Hok i p); try done.
  - unfold queue in Hq'. simpl in Hq'. by rewrite Hq'.
  - unfold queue in Hq'. simpl in Hq'. rewrite Hq'. simpl. by split.
  - intros j Hj. unfold queue in Hq'. simpl in Hq'. rewrite Hq', Hq. set_solver.
  - apply Hok.
  - intros c j Hc Hj. right. split; [|done]. intros ->. by apply (Hnc c).
Qed.

(** Back in the queue: a process that is neither queued nor running. *)
Lemma enqueue_ok t cur i p : table_ok t cur → holds (slots t) i p → in_run_queue p = false →
  (∀ c, cur !! c ≠ Some i) →
  ∃ q, push i (run_queue t) = Ret q ∧ q_list q = queue t ++ [i] ∧
    table_ok (mkTable (<[Z.to_nat i := Some (with_queued true p)]> (slots t)) (next_pid t) q) cur.
Proof.
  intros Hok Hp Hf Hnc. assert (i ∉ queue t) as Hni.
  { intros Hin. apply (ok_queued _ _ Hok) in Hin as (q & Hq & Hfq).
    rewrite (holds_inj _ _ _ _ Hp Hq) in Hf. congruence. }
  pose proof (holds_range _ _ _ Hp) as Hi. rewrite (ok_slots _ _ Hok) in Hi.
  destruct (push_ok i (run_queue t)) as (q & Hpush & Hq & Hql); [apply Hok| |].
  { by apply (queue_room t cur i). }
  exists q. split; [done|]. split; [done|].
  apply (table_ok_set t cur Hok i p); try done; rewrite ?Hql.
  - apply NoDup_app. split; [apply Hok|]. split; [|apply NoDup_singleton].
    intros x Hx. rewrite list_elem_of_singleton. intros ->. by apply Hni.
  - simpl. split; [done|]. intros _. set_solver.
  - intros j Hj. rewrite elem_of_snoc. unfold queue. naive_solver.
  - apply Hok.
  - intros c j Hc Hj. right. split; [|done]. intros ->. by apply Hnc in Hc.
Qed.

(** Onto a CPU: a process that is neither queued nor running, on a CPU that runs nothing. *)
Lemma enter_ok t cur cpu i p p' : 0 ≤ cpu < MAX_CPUS → table_ok t (leave cpu cur) →
  holds (slots t) i p → i ∉ queue t → (∀ c, leave cpu cur !! c ≠ Some i) →
  id p' = id p → fds p' = fds p → running_on p' = cpu → in_run_queue p' = false →
  table_ok (with_slots t (<[Z.to_nat i := Some p']> (slots t))) (<[Z.to_nat cpu := i]> cur).
Proof.
  intros Hcpu Hok Hp Hni Hnc Hid Hf Hr Hq.
  assert (<[Z.to_nat cpu := i]> cur = <[Z.to_nat cpu := i]> (leave cpu cur)) as ->.
  { unfold leave. by rewrite list_insert_insert_eq. }
  apply (table_ok_set t (leave cpu cur) Hok i p); try done; try apply Hok.
  - by rewrite Hf.
  - change (q_list (run_queue t)) with (queue t). rewrite Hq. by split.
  - rewrite len_insert. apply Hok.
  - intros c j Hc Hj. apply leave_enter in Hc as [[-> ->]|[Hc Hne]]; [|right|done].
    + left. split; [done|]. split; [|done]. rewrite Hr. lia.
    + split; [|done]. intros ->. by apply Hnc in Hc.
Qed.

(** What goes back to the tail of the queue. *)
Definition back (t : ProcessTable) (ci frame : Z) : list Z :=
  if decide (ci = INVALID_IDX) then []
  else match slots t !! Z.to_nat ci with
       | Some (Some p) => if decide (state (saved frame p) = Ready) then [ci] else []
       | _ => []
       end.

Lemma save_slots_invalid t f : save_slots t INVALID_IDX f = slots t.
Proof. unfold save_slots. by rewrite decide_True. Qed.

Lemma save_slots_runs t ci p f : ci ≠ INVALID_IDX → holds (slots t) ci p →
  save_slots t ci f = <[Z.to_nat ci := Some (f p)]> (slots t).
Proof. intros Hne [_ Hp]. unfold save_slots. rewrite decide_False by done. by rewrite Hp. Qed.

Lemma back_runs t ci p frame : ci ≠ INVALID_IDX → holds (slots t) ci p →
  back t ci frame = if decide (state (saved frame p) = Ready) then [ci] else [].
Proof. intros Hne [_ Hp]. unfold back. rewrite decide_False by done. by rewrite Hp. Qed.

Lemma holds_save t ci f j q : j ≠ ci → 0 ≤ ci ∨ ci = INVALID_IDX →
  holds (save_slots t ci f) j q ↔ holds (slots t) j q.
Proof.
  intros Hne Hci. unfold save_slots. case_decide; [done|]. destruct Hci as [Hci|]; [|done].
  destruct (slots t !! Z.to_nat ci) as [[p|]|] eqn:Hp; try done.
  rewrite holds_insert by (apply lookup_lt_Some in Hp; unfold len; lia). naive_solver.
Qed.

Lemma runnable_save t ci f j : j ≠ ci → 0 ≤ ci ∨ ci = INVALID_IDX →
  runnable (save_slots t ci f) j ↔ runnable (slots t) j.
Proof.
  intros Hne Hci. unfold runnable. split; intros (p & Hp & Hrest); exists p;
    (split; [by apply (holds_save t ci f j p Hne Hci)|done]).
Qed.

Section schedule.
Context (t : ProcessTable) (cur : list Z) (Hok : table_ok t cur).
Context (cpu frame ci : Z) (Hcpu : 0 ≤ cpu < MAX_CPUS) (Hci : cur !! Z.to_nat cpu = Some ci).

Let t1 := with_slots t (save_slots t ci (saved frame)).

Lemma current_cases : ci = INVALID_IDX ∨ ci ≠ INVALID_IDX ∧ ∃ p, holds (slots t) ci p.
Proof.
  destruct (decide (ci = INVALID_IDX)) as [|Hne]; [by left|right].
  destruct (ok_current _ _ Hok _ _ Hci Hne) as (p & Hp & _). eauto.
Qed.

Lemma current_range : 0 ≤ ci ∨ ci = INVALID_IDX.
Proof. destruct current_cases as [|[_ (p & Hp & _)]]; auto. Qed.

Lemma queued_not_current j : j ∈ queue t → j ≠ ci.
Proof.
  intros Hj ->. destruct current_cases as [->|[Hne (p & Hp)]].
  - apply (queue_range t cur Hok) in Hj. unfold INVALID_IDX, MAX_PROCS in Hj. lia.
  - by destruct (current_facts t cur Hok cpu ci Hcpu Hci p Hne Hp) as (_ & _ & Hn & _).
Qed.

(** No process to switch to: the current one keeps the CPU. *)
Lemma keep_ok t2 : table_ok t2 (leave cpu cur) → slots t2 = slots t1 → queue t2 = queue t →
  next_pid t2 = next_pid t →
  returns (on_slot ci (λ p t, set_slot ci (with_cpu cpu (with_state Running p)) t) t2) (λ t',
    table_ok t' cur ∧ queue t' = queue t ∧ next_pid t' = next_pid t ∧
    slots t' = save_slots t ci (kept cpu frame)).
Proof.
  intros Hok2 Hs2 Hq2 Hn2. destruct current_cases as [Hinv|[Hne (p & Hp)]].
  - unfold on_slot. rewrite decide_True by done. simpl.
    rewrite Hinv, save_slots_invalid. unfold t1 in Hs2. rewrite Hinv, save_slots_invalid in Hs2.
    assert (leave cpu cur = cur) as Hl.
    { unfold leave. rewrite <-Hinv. by apply list_insert_id. }
    by rewrite Hl in Hok2.
  - destruct (current_facts t cur Hok cpu ci Hcpu Hci p Hne Hp) as (Hr & Hqf & Hnq & Hnc).
    pose proof (holds_range _ _ _ Hp) as Hir.
    unfold t1 in Hs2. simpl in Hs2. rewrite (save_slots_runs t ci p) in Hs2 by done.
    assert (holds (slots t2) ci (saved frame p)) as Hp2.
    { rewrite Hs2. apply holds_insert; [done|]. by left. }
    rewrite (on_slot_runs ci _ t2 _ Hne Hp2), (set_slot_ok ci _ _ t2 Hp2). cbn [returns].
    split_and!; simpl; try done.
    + rewrite <-(list_insert_id cur (Z.to_nat cpu) ci Hci).
      apply (enter_ok t2 cur cpu ci (saved frame p)); try done.
      * by rewrite Hq2.
      * simpl. by apply saved_id.
    + rewrite (save_slots_runs t ci p) by done. rewrite Hs2. apply list_insert_insert_eq.
Qed.

(** The current process goes back to the queue if it is ready. *)
Lemma requeue_ok t2 i : table_ok t2 (leave cpu cur) → i ≠ ci →
  (∀ j, j ≠ i → slots t2 !! Z.to_nat j = slots t1 !! Z.to_nat j ∨ j < 0) →
  returns (on_slot ci (λ p t,
      if decide (state p = Ready ∧ in_run_queue p = false) then
        t ← set_slot ci (with_queued true p) t;
        q ← push ci (run_queue t);
        Ret (with_queue t q)
      else Ret t) t2) (λ t3,
    table_ok t3 (leave cpu cur) ∧ queue t3 = queue t2 ++ back t ci frame ∧
    next_pid t3 = next_pid t2 ∧
    (∀ j q, j ≠ ci → holds (slots t3) j q ↔ holds (slots t2) j q) ∧
    slots t3 = if decide (ci = INVALID_IDX) then slots t2
               else match slots t !! Z.to_nat ci with
                    | Some (Some p) => <[Z.to_nat ci := Some (requeued frame p)]> (slots t2)
                    | _ => slots t2
                    end).
Proof.
  intros Hok2 Hi Hs2. destruct current_cases as [Hinv|[Hne (p & Hp)]].
  - unfold on_slot, back. rewrite !decide_True by done. simpl. by rewrite app_nil_r.
  - destruct (current_facts t cur Hok cpu ci Hcpu Hci p Hne Hp) as (Hr & Hqf & Hnq & Hnc).
    pose proof (holds_range _ _ _ Hp) as Hir.
    assert (holds (slots t2) ci (saved frame p)) as Hp2.
    { split; [lia|]. destruct (Hs2 ci) as [Heq|]; [congruence| |lia]. rewrite Heq. unfold t1. simpl.
      rewrite (save_slots_runs t ci p) by done. apply list_lookup_insert_eq. unfold len in Hir. lia. }
    pose proof (holds_range _ _ _ Hp2) as Hir2.
    rewrite (on_slot_runs ci _ t2 _ Hne Hp2), (back_runs t ci p) by done.
    rewrite (decide_False (P := ci = INVALID_IDX)) by done.
    pose proof Hp as [_ ->]. unfold requeued.
    assert (in_run_queue (saved frame p) = false) as Hqf' by (by apply saved_id).
    destruct (decide (state (saved frame p) = Ready)) as [Hrd|Hrd].
    + rewrite decide_True by done. rewrite (set_slot_ok ci _ _ t2 Hp2). cbn [mbind outcome_bind].
      destruct (enqueue_ok t2 (leave cpu cur) ci (saved frame p)) as (q & Hpush & Hql & Hok3);
        [done..|]. cbn [run_queue with_slots]. rewrite Hpush. simpl. split_and!; try done.
      intros j x Hj. rewrite holds_insert by done. naive_solver.
    + rewrite decide_False by tauto. simpl. rewrite app_nil_r. split_and!; try done.
      symmetry. apply list_insert_id. apply Hp2.
Qed.

Lemma back_current j : j ∈ back t ci frame → j = ci.
Proof.
  unfold back. repeat case_match; intros Hj; try (by apply elem_of_nil in Hj).
  by apply list_elem_of_singleton in Hj.
Qed.

(** The slots after a switch: the current process requeued, the next one running. *)
Lemma switch_slots i p0 p1 : 0 ≤ i → i ≠ ci →
  <[Z.to_nat i := Some p1]>
    (if decide (ci = INVALID_IDX) then <[Z.to_nat i := Some p0]> (slots t1)
     else match slots t !! Z.to_nat ci with
          | Some (Some p) => <[Z.to_nat ci := Some (requeued frame p)]> (<[Z.to_nat i := Some p0]> (slots t1))
          | _ => <[Z.to_nat i := Some p0]> (slots t1)
          end) = <[Z.to_nat i := Some p1]> (save_slots t ci (requeued frame)).
Proof.
  intros Hi Hne. unfold t1. cbn [slots with_slots]. destruct current_cases as [Hinv|[Hcne (pc & Hpc)]].
  - rewrite decide_True by done. rewrite Hinv, !save_slots_invalid. by rewrite list_insert_insert_eq.
  - rewrite decide_False by done. pose proof Hpc as [Hc0 ->]. rewrite !(save_slots_runs t ci pc) by done.
    rewrite (list_insert_insert_ne _ (Z.to_nat ci) (Z.to_nat i)) by lia.
    by rewrite !list_insert_insert_eq.
Qed.

(** Saving the current process changes no queued one. *)
Lemma runnable_saved l : Forall (λ j, j ∈ queue t) l →
  Forall (λ j, ¬ runnable (slots t1) j) l → Forall (λ j, ¬ runnable (slots t) j) l.
Proof.
  rewrite !Forall_forall. intros Hq Hl j Hj Hr. apply (Hl j Hj).
  apply runnable_save; [by apply queued_not_current, Hq|apply current_range|done].
Qed.

Lemma schedule_locked_ok :
  returns (schedule_locked cpu frame ci t) (λ '(r, root, nxt, t'), next_pid t' = next_pid t ∧
    match nxt with
    | None => r = frame ∧ root = None ∧ Forall (λ j, ¬ runnable (slots t) j) (queue t) ∧
        table_ok t' cur ∧ queue t' = queue t ∧ slots t' = save_slots t ci (kept cpu frame)
    | Some i => ∃ l1 l2 p, queue t = l1 ++ i :: l2 ∧ Forall (λ j, ¬ runnable (slots t) j) l1 ∧
        holds (slots t) i p ∧ state p = Ready ∧ running_on p = CPU_NONE ∧
        r = context_sp p ∧ root = Some (ttbr0 p) ∧ table_ok t' (<[Z.to_nat cpu := i]> cur) ∧
        queue t' = l2 ++ l1 ++ back t ci frame ∧
        slots t' = <[Z.to_nat i := Some (dispatched cpu p)]> (save_slots t ci (requeued frame))
    end).
Proof.
  unfold schedule_locked.
  destruct (save_ok t cur Hok cpu ci Hcpu Hci (saved frame)) as [Hsave Hok1].
  { intros p. destruct (saved_id frame p) as (? & ? & _ & _ & ?). done. }
  change (on_slot ci _ t) with (on_slot ci (λ p t, set_slot ci (saved frame p) t) t).
  rewrite Hsave. cbn [mbind outcome_bind]. fold t1 in Hok1 |- *.
  assert (queue t1 = queue t) as Hq1 by done.
  apply returns_bind. eapply returns_mono; [by eapply dequeue_ok|].
  intros [o t2] (Hn2 & Hqok2 & Ho). cbn [fst snd]. destruct o as [i|].
  - destruct Ho as (l1 & l2 & p & Hq & Hl1 & Hp & Hrd & Hnone & Hq2 & Hs2).
    destruct (take_ok t1 (leave cpu cur) t2 i l1 l2 p) as (Hok2 & Hni & Hnc); try done.
    assert (i ∈ queue t) as Hiq by (rewrite <-Hq1, Hq; set_solver).
    assert (i ≠ ci) as Hne by by apply queued_not_current.
    pose proof (holds_range _ _ _ Hp) as Hir.
    assert (holds (slots t2) i (with_queued false p)) as Hp2.
    { rewrite Hs2. apply holds_insert; [done|]. by left. }
    assert (holds (slots t) i p) as Hpt.
    { apply (holds_save t ci (saved frame)); [done|apply current_range|done]. }
    rewrite (aget_holds _ _ _ Hp2). cbn [mbind outcome_bind]. apply returns_bind.
    eapply returns_mono; [apply (requeue_ok t2 i Hok2 Hne)|].
    { intros j Hj. destruct (decide (j < 0)); [by right|left]. rewrite Hs2.
      apply list_lookup_insert_ne. lia. }
    intros t3 (Hok3 & Hq3 & Hn3 & Hh3 & Hs3).
    assert (holds (slots t3) i (with_queued false p)) as Hp3 by by apply Hh3.
    rewrite (aget_holds _ _ _ Hp3). cbn [mbind outcome_bind unwrap].
    rewrite (set_slot_ok i _ _ t3 Hp3). cbn [mbind outcome_bind returns].
    split; [cbn [with_slots next_pid]; rewrite Hn3, Hn2; done|]. exists l1, l2, p.
    split; [by rewrite <-Hq1|]. split.
    { apply runnable_saved; [|done]. rewrite <-Hq1, Hq. apply Forall_forall. set_solver. }
    do 5 (split; [done|]). split; [|split].
    + apply (enter_ok t3 cur cpu i (with_queued false p)); try done.
      * rewrite Hq3, elem_of_app. intros [Hin|Hin]; [done|]. by apply back_current in Hin.
      * intros c Hc. apply (Hnc c); [|done]. intros ->. apply (queue_range t cur Hok) in Hiq.
        unfold INVALID_IDX, MAX_PROCS in Hiq. lia.
    + unfold queue at 1. cbn [run_queue with_slots]. fold (queue t3). by rewrite Hq3, Hq2, <-app_assoc.
    + cbn [slots with_slots]. rewrite Hs3, Hs2. apply switch_slots; [by destruct Hp|done].
  - destruct Ho as (Hall & Hq2 & Hs2).
    assert (table_ok t2 (leave cpu cur)) as Hok2.
    { by apply (same_queue_ok t1 t2). }
    apply returns_bind. eapply returns_mono; [by apply (keep_ok t2)|].
    intros t' (Hok' & Hq' & Hn' & Hs'). simpl. split; [done|]. split; [done|]. split; [done|].
    split; [|done]. apply runnable_saved; [by apply Forall_forall|done].
Qed.
End schedule.

(** ** The operations on the machine *)

Lemma schedule_ok cpu frame ci s : procs_ok s → 0 ≤ cpu < MAX_CPUS →
  CURRENT s !! Z.to_nat cpu = Some ci →
  returns (schedule_from_irq cpu frame s) (λ '(r, root, s'), procs_ok s' ∧
    INIT_FDS s' = INIT_FDS s ∧ frames s' = frames s ∧
    ((r = frame ∧ root = None ∧ Forall (λ j, ¬ runnable (slots (table s)) j) (queue (table s)) ∧
      CURRENT s' = CURRENT s ∧ queue (table s') = queue (table s) ∧
      slots (table s') = save_slots (table s) ci (kept cpu frame)) ∨
     (∃ i l1 l2 p, queue (table s) = l1 ++ i :: l2 ∧
        Forall (λ j, ¬ runnable (slots (table s)) j) l1 ∧
        holds (slots (table s)) i p ∧ state p = Ready ∧ running_on p = CPU_NONE ∧
        r = context_sp p ∧ root = Some (ttbr0 p) ∧
        CURRENT s' = <[Z.to_nat cpu := i]> (CURRENT s) ∧
        queue (table s') = l2 ++ l1 ++ back (table s) ci frame ∧
        slots (table s') = <[Z.to_nat i := Some (dispatched cpu p)]>
                             (save_slots (table s) ci (requeued frame))))).
Proof.
  intros [Hl Hli Hlf Hok] Hcpu Hci. unfold schedule_from_irq, lock. rewrite Hl.
  cbn [mbind outcome_bind data]. rewrite (proj2 (aget_ret _ _ _) (conj (proj1 Hcpu) Hci)).
  cbn [mbind outcome_bind]. apply returns_bind.
  eapply returns_mono; [by apply (schedule_locked_ok _ (CURRENT s))|].
  intros [[[r root] [i|]] t'] [Hn H].
  - destruct H as (l1 & l2 & p & Hq & Hl1 & Hp & Hrd & Hnone & -> & -> & Hok' & Hq' & Hs').
    rewrite aset_ret by (rewrite (ok_cpus _ _ Hok); lia). simpl. split; [by split|].
    do 2 (split; [done|]). right. exists i, l1, l2, p. done.
  - destruct H as (-> & -> & Hall & Hok' & Hq' & Hs'). simpl. split; [by split|].
    do 2 (split; [done|]). left. done.
Qed.

(** What switching leaves as it is: where a process starts, its stack, address space and descriptors. *)
Definition fixed (p : Process) : Z * Z * Z * list (option FileDesc) := (entry p, stack_top p, ttbr0 p, fds p).
Definition keeps (s s' : procs) : Prop := ∀ i p, holds (slots (table s)) i p →
  ∃ p', holds (slots (table s')) i p' ∧ fixed p' = fixed p.

Lemma fixed_fds p p' : fixed p' = fixed p → fds p' = fds p.
Proof. by intros [= _ _ _ ?]. Qed.

Lemma keeps_trans s1 s2 s3 : keeps s1 s2 → keeps s2 s3 → keeps s1 s3.
Proof.
  intros H1 H2 i p Hp. destruct (H1 i p Hp) as (p2 & Hp2 & Hf2). destruct (H2 i p2 Hp2) as (p3 & Hp3 & Hf3).
  exists p3. split; [done|congruence].
Qed.

Lemma fixed_saved frame p : fixed (saved frame p) = fixed p.
Proof. unfold saved. by case_decide. Qed.

Lemma save_slots_fixed t ci f i p : (∀ p, fixed (f p) = fixed p) → 0 ≤ ci ∨ ci = INVALID_IDX →
  holds (slots t) i p → ∃ p', holds (save_slots t ci f) i p' ∧ fixed p' = fixed p.
Proof.
  intros Hf Hci Hp. destruct (decide (i = ci)) as [->|Hne].
  - destruct (decide (ci = INVALID_IDX)) as [->|Hv]; [rewrite save_slots_invalid; by exists p|].
    rewrite (save_slots_runs t ci p f Hv Hp). exists (f p). split; [|done].
    pose proof Hp as [H0 Hl]. apply holds_insert; [|by left].
    apply lookup_lt_Some in Hl. unfold len. lia.
  - exists p. split; [|done]. by apply holds_save.
Qed.

(** A process takes a CPU. *)
Lemma dispatched_fixed sl cpu j q i p : holds sl j q → (∃ p', holds sl i p' ∧ fixed p' = fixed p) →
  (i = j → fixed q = fixed p) →
  ∃ p', holds (<[Z.to_nat j := Some (dispatched cpu q)]> sl) i p' ∧ fixed p' = fixed p.
Proof.
  intros Hq (p1 & Hp1 & Hf1) Hj. pose proof (holds_range _ _ _ Hq) as Hr.
  destruct (decide (i = j)) as [->|Hne].
  - exists (dispatched cpu q). split; [apply holds_insert; [lia|by left]|by apply Hj].
  - exists p1. split; [apply holds_insert; [lia|by right]|done].
Qed.

Lemma schedule_keeps cpu frame s : procs_ok s → 0 ≤ cpu < MAX_CPUS →
  returns (schedule_from_irq cpu frame s) (λ '(_, _, s'), keeps s s').
Proof.
  intros Hs Hcpu. pose proof (ok_table _ Hs) as Hok. fold (table s) in Hok.
  destruct (lookup_lt_is_Some_2 (CURRENT s) (Z.to_nat cpu)) as [ci Hci].
  { pose proof (ok_cpus _ _ Hok) as Hl. unfold len, MAX_CPUS in *. lia. }
  pose proof (current_range _ _ Hok cpu ci Hci) as Hr.
  eapply returns_mono; [by apply (schedule_ok cpu frame ci)|].
  intros [[r root] s'] (_ & _ & _ & [(_ & _ & _ & _ & _ & Hsl)|
    (j & l1 & l2 & q & Hqu & _ & Hq & _ & _ & _ & _ & _ & _ & Hsl)]) i p Hp; rewrite Hsl.
  - apply save_slots_fixed; [|done|done]. intros p0. apply fixed_saved.
  - assert (j ∈ queue (table s)) as Hin by (rewrite Hqu; set_solver).
    apply dispatched_fixed.
    + apply holds_save; [|done|done]. by apply (queued_not_current _ _ Hok cpu frame ci Hcpu Hci).
    + apply save_slots_fixed; [|done|done]. intros p0. unfold requeued.
      case_decide; [change (fixed (with_queued true ?p)) with (fixed p)|]; apply fixed_saved.
    + intros ->. by rewrite (holds_inj _ _ _ _ Hp Hq).
Qed.

Lemma start_ok cpu s : procs_ok s → 0 ≤ cpu < MAX_CPUS → idle s cpu →
  Exists (runnable (slots (table s))) (queue (table s)) →
  returns (start_on_cpu cpu s) (λ '(en, sp, root, s'), procs_ok s' ∧
    INIT_FDS s' = INIT_FDS s ∧ frames s' = frames s ∧
    ∃ i l1 l2 p, queue (table s) = l1 ++ i :: l2 ∧
      Forall (λ j, ¬ runnable (slots (table s)) j) l1 ∧
      holds (slots (table s)) i p ∧ state p = Ready ∧ running_on p = CPU_NONE ∧
      en = entry p ∧ sp = stack_top p ∧ root = ttbr0 p ∧
      CURRENT s' = <[Z.to_nat cpu := i]> (CURRENT s) ∧
      queue (table s') = l2 ++ l1 ∧
      slots (table s') = <[Z.to_nat i := Some (dispatched cpu p)]> (slots (table s))).
Proof.
  intros [Hl Hli Hlf Hok] Hcpu [_ Hidle] Hex. unfold start_on_cpu, lock, table in *. rewrite Hl.
  cbn [mbind outcome_bind data]. set (t := data (PROCESS_TABLE s)) in *.
  apply returns_bind. eapply returns_mono; [by eapply dequeue_ok|].
  intros [o t2] (Hn2 & Hqok2 & Ho). cbn [fst snd]. destruct o as [i|].
  - destruct Ho as (l1 & l2 & p & Hq & Hl1 & Hp & Hrd & Hnone & Hq2 & Hs2).
    assert (leave cpu (CURRENT s) = CURRENT s) as Hlv by by apply list_insert_id.
    destruct (take_ok t (CURRENT s) t2 i l1 l2 p) as (Hok2 & Hni & Hnc); try done.
    pose proof (holds_range _ _ _ Hp) as Hir.
    assert (holds (slots t2) i (with_queued false p)) as Hp2.
    { rewrite Hs2. apply holds_insert; [done|]. by left. }
    cbn [unwrap mbind outcome_bind]. rewrite (aget_holds _ _ _ Hp2). cbn [mbind outcome_bind].
    rewrite (set_slot_ok i _ _ t2 Hp2). cbn [mbind outcome_bind].
    rewrite aset_ret by (rewrite (ok_cpus _ _ Hok); lia). cbn [mbind outcome_bind returns].
    assert (i ∈ queue t) as Hiq by (rewrite Hq; set_solver).
    assert (i ≠ INVALID_IDX) as Hinv.
    { intros ->. apply (queue_range t (CURRENT s) Hok) in Hiq.
      unfold INVALID_IDX, MAX_PROCS in Hiq. lia. }
    split; [split; try done|].
    + cbn [PROCESS_TABLE data CURRENT]. apply (enter_ok t2 _ cpu i (with_queued false p)); try done.
      * by rewrite Hlv.
      * intros c. rewrite Hlv. by apply Hnc.
    + do 2 (split; [done|]). exists i, l1, l2, p. split_and!; try done.
      cbn [PROCESS_TABLE data slots with_slots]. rewrite Hs2. by rewrite list_insert_insert_eq.
  - destruct Ho as [Hall _]. apply Exists_exists in Hex as (j & Hj & Hr).
    rewrite Forall_forall in Hall. by destruct (Hall j Hj).
Qed.

Lemma start_keeps cpu s : procs_ok s → 0 ≤ cpu < MAX_CPUS → idle s cpu →
  Exists (runnable (slots (table s))) (queue (table s)) →
  returns (start_on_cpu cpu s) (λ '(_, s'), keeps s s').
Proof.
  intros Hs Hcpu Hidle Hex. eapply returns_mono; [by apply start_ok|].
  intros [[[en sp] root] s'] (_ & _ & _ & j & l1 & l2 & q & _ & _ & Hq & _ & _ & _ & _ & _ & _ & _ & Hsl) i p Hp.
  rewrite Hsl. apply dispatched_fixed; [done|by exists p|]. intros ->. by rewrite (holds_inj _ _ _ _ Hp Hq).
Qed.

Lemma update_pid_ok pid f sl :
  (∀ i p, holds sl i p → ∃ p', f p = Ret p') →
  ∃ b sl', update_pid pid f sl = Ret (b, sl') ∧
    if (b : bool) then ∃ i p p', holds sl i p ∧ id p = pid ∧ f p = Ret p' ∧
                        sl' = <[Z.to_nat i := Some p']> sl
    else sl' = sl.
Proof.
  induction sl as [|o sl IH]; intros Hf; [by exists false, []|]. simpl.
  assert (∀ i p, holds sl i p → ∃ p', f p = Ret p') as Hf'.
  { intros i p [Hi Hp]. apply (Hf (i + 1) p). split; [lia|].
    by replace (Z.to_nat (i + 1)) with (S (Z.to_nat i)) by lia. }
  destruct (IH Hf') as (b & sl' & Hu & Hb). destruct o as [p|].
  - case_decide.
    + destruct (Hf 0 p) as [p' Hp']; [by split|]. rewrite Hp'. exists true, (Some p' :: sl).
      split; [done|]. exists 0, p, p'. by split_and!.
    + rewrite Hu. exists b, (Some p :: sl'). split; [done|]. destruct b; [|by rewrite Hb].
      destruct Hb as (i & q & q' & [Hi Hq] & Hid & Hq' & ->). exists (i + 1), q, q'.
      replace (Z.to_nat (i + 1)) with (S (Z.to_nat i)) by lia. split_and!; try done. split; [lia|].
      by replace (Z.to_nat (i + 1)) with (S (Z.to_nat i)) by lia.
  - rewrite Hu. exists b, (None :: sl'). split; [done|]. destruct b; [|by rewrite Hb].
    destruct Hb as (i & q & q' & [Hi Hq] & Hid & Hq' & ->). exists (i + 1), q, q'.
    replace (Z.to_nat (i + 1)) with (S (Z.to_nat i)) by lia. split_and!; try done. split; [lia|].
    by replace (Z.to_nat (i + 1)) with (S (Z.to_nat i)) by lia.
Qed.

(** An update of one process found by its pid that keeps what the invariant speaks of. *)
Lemma on_pid_ok pid f s : procs_ok s →
  (∀ i p, holds (slots (table s)) i p → ∃ p', f p = Ret p' ∧ id p' = id p ∧
     in_run_queue p' = in_run_queue p ∧ running_on p' = running_on p ∧ len (fds p') = len (fds p)) →
  returns (on_table (λ t, r ← update_pid pid f (slots t); Ret (r.1, with_slots t r.2)) s)
    (λ '(b, s'), procs_ok s' ∧ CURRENT s' = CURRENT s ∧ INIT_FDS s' = INIT_FDS s ∧
      frames s' = frames s ∧ queue (table s') = queue (table s) ∧
      if (b : bool) then ∃ i p p', holds (slots (table s)) i p ∧ id p = pid ∧ f p = Ret p' ∧
                          slots (table s') = <[Z.to_nat i := Some p']> (slots (table s))
      else slots (table s') = slots (table s)).
Proof.
  intros Hs Hf. pose proof Hs as [Hl Hli Hlf Hok].
  destruct (update_pid_ok pid f (slots (table s))) as (b & sl' & Hu & Hb).
  { intros i p Hp. destruct (Hf i p Hp) as (p' & ? & _). eauto. }
  unfold on_table. unfold table in Hu.
  erewrite (with_lock_ret _ _ b); [|done|by rewrite Hu]. cbn [mbind outcome_bind returns fst snd].
  split.
  - split; try done. cbn [with_table PROCESS_TABLE data CURRENT]. destruct b.
    + destruct Hb as (i & p & p' & Hp & Hid & Hp' & ->).
      destruct (Hf i p Hp) as (p2 & Hp2 & H1 & H2 & H3 & H4). assert (p2 = p') as -> by congruence.
      by apply (table_ok_update _ _ Hok i p).
    + subst sl'. unfold table. by assert (with_slots (data (PROCESS_TABLE s))
        (slots (data (PROCESS_TABLE s))) = data (PROCESS_TABLE s)) as ->
        by by destruct (data (PROCESS_TABLE s)).
  - do 4 (split; [done|]). by destruct b.
Qed.

(** *** The interleaved machine *)
Section machine.
Context (stacks user_root : Z).

(** The table operations; each holds the lock from its first access to its last. *)
Inductive op :=
| Create (nm : list Z) (en top : Z) (md : ProcessMode) (par : option Z)
| SetInitFd (fd : Z) (desc : option FileDesc)
| SetFd (pid fd : Z) (desc : option FileDesc)
| AllocFd (cpu : Z) (desc : FileDesc)
| CloseFd (cpu fd : Z)
| SetState (pid : Z) (st : ProcessState)
| Interrupt (cpu frame : Z)
| Start (cpu : Z).

Definition exec (o : op) (s : procs) : outcome procs :=
  match o with
  | Create nm en top md par => r ← create_with_mode stacks user_root nm en top md par s; Ret r.2
  | SetInitFd fd desc => set_init_fd fd desc s
  | SetFd pid fd desc => r ← set_fd pid fd desc s; Ret r.2
  | AllocFd cpu desc => r ← alloc_fd_current cpu desc s; Ret r.2
  | CloseFd cpu fd => r ← close_fd_current cpu fd s; Ret r.2
  | SetState pid st => r ← set_state pid st s; Ret r.2
  | Interrupt cpu frame => r ← schedule_from_irq cpu frame s; Ret r.2
  | Start cpu => r ← start_on_cpu cpu s; Ret r.2
  end.

(** Unsigned descriptors, CPUs that exist; a CPU starts once, when something can run. *)
Definition op_ok (o : op) (s : procs) : Prop :=
  match o with
  | SetInitFd fd _ | SetFd _ fd _ => 0 ≤ fd
  | AllocFd cpu _ => 0 ≤ cpu < MAX_CPUS
  | CloseFd cpu fd => 0 ≤ cpu < MAX_CPUS ∧ 0 ≤ fd
  | Interrupt cpu _ => 0 ≤ cpu < MAX_CPUS
  | Start cpu => 0 ≤ cpu < MAX_CPUS ∧ idle s cpu ∧
                 Exists (runnable (slots (table s))) (queue (table s))
  | Create _ _ _ _ _ | SetState _ _ => True
  end.

Definition step (s s' : procs) : Prop := ∃ o, op_ok o s ∧ exec o s = Ret s'.

Lemma procs_new_ok : procs_ok procs_new.
Proof.
  destruct q_new as [Hq Hql]. split; try done. cbn [procs_new PROCESS_TABLE lock_new data CURRENT].
  assert (∀ i p, ¬ holds (slots ProcessTable_new) i p) as Hno.
  { intros i p [_ Hp]. by apply lookup_replicate in Hp as [? _]. }
  split; try done; cbn [ProcessTable_new slots run_queue next_pid].
  - unfold queue. cbn [run_queue ProcessTable_new]. rewrite Hql. constructor.
  - intros i. unfold queue. cbn [run_queue ProcessTable_new]. rewrite Hql. split.
    + intros H. by apply elem_of_nil in H.
    + intros (p & Hp & _). by apply Hno in Hp.
  - intros c i Hc Hi. apply lookup_replicate in Hc as [-> _]. done.
  - intros i p Hp. by apply Hno in Hp.
  - intros i Hi. rewrite decide_False by lia. apply lookup_replicate. unfold MAX_PROCS in Hi.
    split; [done|lia].
Qed.

Lemma fd_op_ok {R} cpu (f : Process → outcome (R * Process)) s : procs_ok s → 0 ≤ cpu < MAX_CPUS →
  (∀ p, len (fds p) = MAX_FDS → ∃ r l, f p = Ret (r, with_fds l p) ∧ len l = MAX_FDS) →
  returns (with_current_mut cpu f s) (λ '(_, s'), procs_ok s').
Proof.
  intros Hs Hcpu Hf. destruct (cpu_cases s Hs cpu Hcpu) as [Hidle|(i & p & Hr)].
  - by rewrite (with_current_mut_idle s Hs cpu f Hidle).
  - pose proof Hr as (_ & _ & _ & Hp).
    destruct (Hf p) as (r & l & Hfp & Hl); [by eapply ok_fds; [apply Hs|]|].
    rewrite (with_current_mut_runs s Hs cpu f i p r _ Hr Hfp). simpl.
    by destruct (put_fds_ok s Hs cpu i p l Hr Hl).
Qed.

(** Every operation returns and keeps the invariant. *)
Lemma exec_ok o s : procs_ok s → op_ok o s → returns (exec o s) procs_ok.
Proof.
  intros Hs Ho. destruct o as [nm en top md par|fd desc|pid fd desc|cpu desc|cpu fd|pid st|cpu frame|cpu];
    simpl in Ho |- *.
  - apply returns_bind. eapply returns_mono; [by apply create_ok|]. by intros [r s'] [? _].
  - unfold set_init_fd. case_decide; [done|]. destruct Hs as [Hl Hli Hlf Hok].
    rewrite (with_lock_ret _ _ tt (<[Z.to_nat fd := desc]> (data (INIT_FDS s)))); [|done|].
    + simpl. split; try done. simpl. by rewrite len_insert.
    + rewrite aset_ret by lia. done.
  - unfold set_fd. case_decide; [done|]. apply returns_bind.
    eapply returns_mono; [apply (on_pid_ok pid _ s Hs)|by intros [b s'] [? _]].
    intros i p Hp. pose proof (ok_fds _ _ (ok_table _ Hs) _ _ Hp) as Hl.
    rewrite aset_ret by lia. eexists. split; [done|]. simpl. by rewrite len_insert.
  - apply returns_bind. unfold alloc_fd_current. apply returns_bind.
    eapply returns_mono; [apply (fd_op_ok cpu _ s Hs Ho)|by intros [r s'] ?].
    apply alloc_fd_shape.
  - destruct Ho as [Hc Hfd]. apply returns_bind. unfold close_fd_current. case_decide; [done|].
    apply returns_bind. eapply returns_mono; [apply (fd_op_ok cpu _ s Hs Hc)|by intros [r s'] ?].
    intros p Hl. apply close_fd_shape; [lia|done].
  - apply returns_bind. unfold set_state.
    eapply returns_mono; [apply (on_pid_ok pid _ s Hs)|by intros [b s'] [? _]].
    intros i p Hp. eexists. split; [done|]. done.
  - destruct (lookup_lt_is_Some_2 (CURRENT s) (Z.to_nat cpu)) as [ci Hci].
    { pose proof (ok_cpus _ _ (ok_table _ Hs)) as Hl. unfold len, MAX_CPUS in *. lia. }
    apply returns_bind. eapply returns_mono; [by apply (schedule_ok cpu frame ci)|].
    by intros [[r root] s'] [? _].
  - destruct Ho as (Hc & Hidle & Hex). apply returns_bind.
    eapply returns_mono; [by apply (start_ok cpu s)|]. by intros [[[en sp] root] s'] [? _].
Qed.

Lemma reachable_ok s : rtc step procs_new s → procs_ok s.
Proof.
  intros H. remember procs_new as s0 eqn:H0. assert (procs_ok s0) as Hs by (subst; apply procs_new_ok).
  clear H0. induction H as [|s1 s2 s3 (o & Ho & He) _ IH]; [done|]. apply IH.
  pose proof (exec_ok o s1 Hs Ho) as Hret. by rewrite He in Hret.
Qed.
End machine.

(** ** First in, first out

    Without [set_state], which nothing in the kernel calls, every queued process stays ready and
    every current process running; the scheduler is then the FIFO queue below. *)
Record healthy (s : procs) : Prop := {
  h_ok : procs_ok s;
  h_queue : ∀ i, i ∈ queue (table s) → runnable (slots (table s)) i;
  h_current : ∀ c i p, CURRENT s !! c = Some i → i ≠ INVALID_IDX →
    holds (slots (table s)) i p → state p = Running
}.

(** The queue, what each CPU runs, and where each process's context is. *)
Record fifo := mkFifo { f_queue : list Z; f_cur : list Z; f_ctx : Z → Z }.

(** The interrupted process goes to the tail, the head gets the CPU; an empty queue lets the
    interrupted process go on.  The result is the frame to resume. *)
Definition fifo_interrupt (cpu frame : Z) (a : fifo) : Z * fifo :=
  let ci := default INVALID_IDX (f_cur a !! Z.to_nat cpu) in
  let ctx i := if decide (i = ci ∧ ci ≠ INVALID_IDX) then frame else f_ctx a i in
  match f_queue a with
  | [] => (frame, mkFifo [] (f_cur a) ctx)
  | i :: q => (f_ctx a i,
      mkFifo (q ++ if decide (ci = INVALID_IDX) then [] else [ci]) (<[Z.to_nat cpu := i]> (f_cur a)) ctx)
  end.

(** The concrete table stands for the abstract queue. *)
Definition stands_for (s : procs) (a : fifo) : Prop :=
  queue (table s) = f_queue a ∧ CURRENT s = f_cur a ∧
  ∀ i p, holds (slots (table s)) i p → context_sp p = f_ctx a i.

Lemma healthy_saved s c i p frame : healthy s → CURRENT s !! c = Some i → i ≠ INVALID_IDX →
  holds (slots (table s)) i p →
  state (saved frame p) = Ready ∧ running_on (saved frame p) = CPU_NONE ∧
  requeued frame p = with_queued true (saved frame p).
Proof.
  intros Hh Hc Hne Hp. pose proof (h_current _ Hh c i p Hc Hne Hp) as Hr.
  unfold requeued, saved. cbn [with_context state]. by rewrite !decide_True.
Qed.

(** What a process looks like after the interrupt. *)
Lemma holds_saved t ci f j q : 0 ≤ ci ∨ ci = INVALID_IDX → holds (save_slots t ci f) j q →
  (j = ci ∧ ci ≠ INVALID_IDX ∧ ∃ p, holds (slots t) j p ∧ q = f p) ∨
  ((j ≠ ci ∨ ci = INVALID_IDX) ∧ holds (slots t) j q).
Proof.
  intros Hci Hq. destruct (decide (ci = INVALID_IDX)) as [->|Hne].
  { rewrite save_slots_invalid in Hq. auto. }
  destruct (decide (j = ci)) as [->|Hj]; [|right; split; [by left|by eapply holds_save]].
  left. split; [done|]. split; [done|].
  destruct Hci as [Hci|]; [|done]. unfold save_slots in Hq. rewrite decide_False in Hq by done.
  destruct Hq as [_ Hq]. destruct (slots t !! Z.to_nat ci) as [[p|]|] eqn:Hp; try congruence.
  rewrite list_lookup_insert_eq in Hq by (by eapply lookup_lt_Some).
  exists p. split; [by split|congruence].
Qed.

Section fifo_step.
Context (cpu frame : Z) (s s' : procs) (ci : Z).
Context (Hh : healthy s) (Hcpu : 0 ≤ cpu < MAX_CPUS) (Hci : CURRENT s !! Z.to_nat cpu = Some ci).
Context (Hs' : procs_ok s').

Let Hok : table_ok (table s) (CURRENT s) := ok_table _ (h_ok _ Hh).
Let Hcr : 0 ≤ ci ∨ ci = INVALID_IDX := current_range (table s) (CURRENT s) Hok cpu ci Hci.

(** The contexts after the interrupt, whatever else the current process's slot records. *)
Lemma fifo_contexts a f j q : stands_for s a →
  (∀ p, holds (slots (table s)) ci p → ci ≠ INVALID_IDX → context_sp (f p) = frame) →
  holds (save_slots (table s) ci f) j q → context_sp q = f_ctx (fifo_interrupt cpu frame a).2 j.
Proof.
  intros (_ & Hca & Hxa) Hf Hq. unfold fifo_interrupt. rewrite <-Hca, Hci. cbn [default]. transitivity
    (if decide (j = ci ∧ ci ≠ INVALID_IDX) then frame else f_ctx a j); [|by destruct (f_queue a)].
  apply holds_saved in Hq as [(-> & Hne & p & Hp & ->)|[Hj Hp]]; [| |done].
  - rewrite decide_True by done. by apply Hf.
  - rewrite decide_False by tauto. by apply Hxa.
Qed.

(** The interrupted process goes on. *)
Lemma fifo_keeps : queue (table s') = [] → CURRENT s' = CURRENT s →
  slots (table s') = save_slots (table s) ci (kept cpu frame) → healthy s'.
Proof.
  intros Hq' Hc' Hsl'. split; [done|rewrite Hq'; intros j Hj; by apply elem_of_nil in Hj|].
  rewrite Hc', Hsl'. intros c j q Hc Hj Hq.
  apply holds_saved in Hq as [(-> & _ & p & Hp & ->)|[_ Hp]]; [done| |done].
  by apply (h_current _ Hh c j).
Qed.

(** The process that lost the CPU waits in the queue. *)
Lemma fifo_requeued : back (table s) ci frame = (if decide (ci = INVALID_IDX) then [] else [ci]) ∧
  (ci ≠ INVALID_IDX → runnable (save_slots (table s) ci (requeued frame)) ci).
Proof.
  destruct (current_cases (table s) (CURRENT s) Hok cpu ci Hci) as [->|[Hne (pc & Hpc)]]; [done|].
  destruct (healthy_saved s _ _ _ frame Hh Hci Hne Hpc) as (Hsr & Hsn & Hrq). split.
  - rewrite (back_runs _ _ pc) by done. rewrite (decide_False (P := ci = _)) by done. by rewrite decide_True.
  - intros _. exists (requeued frame pc). rewrite Hrq. split; [|done].
    rewrite (save_slots_runs _ _ pc) by done. apply holds_insert; [by apply holds_range in Hpc|].
    left. by rewrite Hrq.
Qed.

(** Another process gets the CPU. *)
Lemma fifo_switches i q p : queue (table s) = i :: q → holds (slots (table s)) i p →
  CURRENT s' = <[Z.to_nat cpu := i]> (CURRENT s) →
  queue (table s') = q ++ (if decide (ci = INVALID_IDX) then [] else [ci]) →
  slots (table s') = <[Z.to_nat i := Some (dispatched cpu p)]> (save_slots (table s) ci (requeued frame)) →
  healthy s'.
Proof.
  intros Hq Hp Hc' Hq' Hsl'.
  pose proof (queued_not_current (table s) (CURRENT s) Hok cpu frame ci Hcpu Hci) as Hnc. rewrite Hq in Hnc.
  assert (i ≠ ci) as Hne by (apply Hnc; by left).
  assert (0 ≤ i < len (save_slots (table s) ci (requeued frame))) as Hir.
  { by eapply holds_range, holds_save. }
  assert (∀ j, j ≠ i → runnable (save_slots (table s) ci (requeued frame)) j → runnable (slots (table s')) j) as Hins.
  { intros j Hj (pj & Hpj & Hrj). exists pj. split; [|done]. rewrite Hsl'. apply holds_insert; auto. }
  split; [done| |].
  - rewrite Hq'. intros j [Hj|Hj]%elem_of_app; apply Hins.
    + intros ->. pose proof (ok_nodup _ _ Hok) as Hnd. rewrite Hq in Hnd. by apply NoDup_cons in Hnd as [? _].
    + destruct (h_queue _ Hh j) as (pj & Hpj & Hrj); [rewrite Hq; by right|].
      exists pj. split; [|done]. apply holds_save; [|done|done]. apply Hnc. by right.
    + case_decide; [by apply elem_of_nil in Hj|]. apply list_elem_of_singleton in Hj. congruence.
    + case_decide; [by apply elem_of_nil in Hj|]. apply list_elem_of_singleton in Hj as ->. by apply fifo_requeued.
  - rewrite Hc', Hsl'. intros c j q0 Hc Hj Hh'.
    apply holds_insert in Hh' as [[-> ->]|[Hji Hh']]; [done| |done].
    apply list_lookup_insert_Some in Hc as [(_ & Hij & _)|[Hcn Hc]]; [congruence|].
    apply holds_saved in Hh' as [(-> & Hcne & pc & Hpc & _)|[_ Hp']]; [|by apply (h_current _ Hh c j)|done].
    destruct (current_facts (table s) (CURRENT s) Hok cpu ci Hcpu Hci pc Hcne Hpc) as (_ & _ & _ & Hl).
    destruct (Hl c). unfold leave. by rewrite list_lookup_insert_ne.
Qed.
End fifo_step.

Lemma schedule_fifo_ok cpu frame s a : healthy s → 0 ≤ cpu < MAX_CPUS → stands_for s a →
  returns (schedule_from_irq cpu frame s) (λ '(r, _, s'), healthy s' ∧
    r = (fifo_interrupt cpu frame a).1 ∧ stands_for s' (fifo_interrupt cpu frame a).2).
Proof.
  intros Hh Hcpu (Hqa & Hca & Hxa). pose proof (ok_table _ (h_ok _ Hh)) as Hok. fold (table s) in Hok.
  destruct (lookup_lt_is_Some_2 (CURRENT s) (Z.to_nat cpu)) as [ci Hci].
  { pose proof (ok_cpus _ _ Hok) as Hl. unfold len, MAX_CPUS in *. lia. }
  assert (f_cur a !! Z.to_nat cpu = Some ci) as Hfc by (by rewrite <-Hca).
  eapply returns_mono; [by apply (schedule_ok cpu frame ci), Hci; try apply (h_ok _ Hh)|].
  intros [[r root] s'] (Hs' & _ & _ & Hcase).
  destruct Hcase as [(-> & _ & Hall & Hc' & Hq' & Hsl')|
    (i & l1 & l2 & p & Hq & Hl1 & Hp & Hrd & Hnone & -> & _ & Hc' & Hq' & Hsl')].
  - assert (queue (table s) = []) as Hempty.
    { destruct (queue (table s)) as [|j l] eqn:Hj; [done|]. apply Forall_cons in Hall as [Hn _].
      destruct Hn. apply (h_queue _ Hh). rewrite Hj. by left. }
    rewrite Hempty in Hq'. split; [by apply (fifo_keeps cpu frame s s' ci)|].
    unfold stands_for. rewrite Hsl', Hq', Hc', Hca. split_and!.
    + unfold fifo_interrupt. by rewrite <-Hqa, Hempty.
    + unfold fifo_interrupt. by rewrite <-Hqa, Hempty.
    + unfold fifo_interrupt. by rewrite <-Hqa, Hempty.
    + intros j q. apply (fifo_contexts cpu frame s ci); try done. intros p _ _. unfold kept. simpl. by apply saved_id.
  - assert (l1 = []) as ->.
    { destruct l1 as [|j l]; [done|]. apply Forall_cons in Hl1 as [Hn _]. destruct Hn.
      apply (h_queue _ Hh). rewrite Hq. by left. }
    simpl in Hq, Hq'. destruct (fifo_requeued cpu frame s ci Hh Hci) as [Hback _]. rewrite Hback in Hq'.
    split; [by apply (fifo_switches cpu frame s s' ci Hh Hcpu Hci Hs' i l2 p)|].
    unfold stands_for. rewrite Hsl', Hq', Hc', Hca. split_and!.
    + unfold fifo_interrupt. rewrite <-Hqa, Hq. by apply Hxa.
    + unfold fifo_interrupt. by rewrite <-Hqa, Hq, Hfc.
    + unfold fifo_interrupt. by rewrite <-Hqa, Hq.
    + assert (∀ j q, holds (save_slots (table s) ci (requeued frame)) j q →
        context_sp q = f_ctx (fifo_interrupt cpu frame a).2 j) as Hctx.
      { intros j q. apply (fifo_contexts cpu frame s ci); try done.
        intros pc Hpc Hcne. destruct (healthy_saved s _ _ _ frame Hh Hci Hcne Hpc) as (_ & _ & ->).
        simpl. by apply saved_id. }
      assert (holds (save_slots (table s) ci (requeued frame)) i p) as Hpi.
      { apply holds_save; [|by eapply current_range|done].
        apply (queued_not_current (table s) (CURRENT s) Hok cpu frame ci Hcpu Hci). rewrite Hq. by left. }
      intros j q [[-> ->]|[Hji Hh']]%holds_insert; [exact (Hctx i p Hpi)|by apply Hctx|by apply holds_range in Hpi].
Qed.

(** A sequence of rescheduling interrupts, on any CPUs. *)
Fixpoint interrupts (l : list (Z * Z)) (s : procs) : outcome (list Z * procs) :=
  match l with
  | [] => Ret ([], s)
  | (cpu, frame) :: l =>
      r ← schedule_from_irq cpu frame s;
      rest ← interrupts l r.2;
      Ret (r.1.1 :: rest.1, rest.2)
  end.

Fixpoint fifo_interrupts (l : list (Z * Z)) (a : fifo) : list Z * fifo :=
  match l with
  | [] => ([], a)
  | (cpu, frame) :: l =>
      let r := fifo_interrupt cpu frame a in
      let rest := fifo_interrupts l r.2 in
      (r.1 :: rest.1, rest.2)
  end.

Definition on_cpus (l : list (Z * Z)) : Prop := Forall (λ cf, 0 ≤ cf.1 < MAX_CPUS) l.

Lemma interrupts_ok l s a : healthy s → stands_for s a → on_cpus l →
  returns (interrupts l s) (λ '(rs, s'), healthy s' ∧
    rs = (fifo_interrupts l a).1 ∧ stands_for s' (fifo_interrupts l a).2).
Proof.
  revert s a. induction l as [|[cpu frame] l IH]; intros s a Hh Ha Hl; [done|].
  apply Forall_cons in Hl as [Hcpu Hl]. simpl in Hcpu |- *. apply returns_bind.
  eapply returns_mono; [by apply schedule_fifo_ok|]. intros [[r root] s1] (Hh1 & -> & Ha1).
  apply returns_bind. eapply returns_mono; [by apply IH|]. intros [rs s2] (Hh2 & -> & Ha2). done.
Qed.

(** The abstract queue of a healthy state. *)
Definition ctx_of (s : procs) (i : Z) : Z :=
  match slots (table s) !! Z.to_nat i with Some (Some p) => context_sp p | _ => 0 end.
Definition fifo_of (s : procs) : fifo := mkFifo (queue (table s)) (CURRENT s) (ctx_of s).

Lemma fifo_of_stands s : stands_for s (fifo_of s).
Proof.
  split; [done|]. split; [done|]. intros i p [_ Hp]. simpl. unfold ctx_of. by rewrite Hp.
Qed.

(** A queued process is not current anywhere. *)
Lemma queued_not_running s i c : procs_ok s → i ∈ queue (table s) → CURRENT s !! c ≠ Some i.
Proof.
  intros Hs Hi Hc. pose proof (ok_table _ Hs) as Hok. fold (table s) in Hok.
  assert (i ≠ INVALID_IDX) as Hne.
  { intros ->. apply (queue_range _ _ Hok) in Hi. unfold INVALID_IDX, MAX_PROCS in Hi. lia. }
  destruct (ok_current _ _ Hok c i Hc Hne) as (p & Hp & _ & Hf).
  apply (ok_queued _ _ Hok) in Hi as (q & Hq & Hfq).
  rewrite (holds_inj _ _ _ _ Hp Hq) in Hf. congruence.
Qed.

(** Behind [k] others, a process reaches the head of the queue after [k] interrupts, with its
    context untouched. *)
Lemma wait_ok l s a i : healthy s → stands_for s a → on_cpus l →
  queue (table s) !! length l = Some i →
  returns (interrupts l s) (λ '(_, s'), healthy s' ∧ ∃ a', stands_for s' a' ∧
    head (f_queue a') = Some i ∧ f_ctx a' i = f_ctx a i).
Proof.
  revert s a. induction l as [|[cpu frame] l IH]; intros s a Hh Ha Hl Hi.
  { simpl in Hi |- *. split; [done|]. exists a. split; [done|]. split; [|done].
    destruct Ha as [<- _]. by destruct (queue (table s)). }
  apply Forall_cons in Hl as [Hcpu Hl]. simpl in Hcpu, Hi |- *. apply returns_bind.
  eapply returns_mono; [by apply schedule_fifo_ok|]. intros [[r root] s1] (Hh1 & -> & Ha1).
  apply returns_bind. cbn [fst snd].
  assert (i ∈ queue (table s)) as Hiq by by eapply list_elem_of_lookup_2.
  assert (f_ctx (fifo_interrupt cpu frame a).2 i = f_ctx a i ∧
    f_queue (fifo_interrupt cpu frame a).2 !! length l = Some i) as [Hctx Hnext].
  { unfold fifo_interrupt. destruct Ha as (Hqa & Hca & _). rewrite <-Hqa, <-Hca.
    destruct (queue (table s)) as [|j q] eqn:Hq; [done|]. simpl in Hi |- *. split.
    - rewrite decide_False; [done|]. intros [-> Hne].
      destruct (CURRENT s !! Z.to_nat cpu) as [ci|] eqn:Hci; [|done]. simpl in *.
      eapply (queued_not_running s ci); [apply Hh|by rewrite Hq|done].
    - by apply lookup_app_l_Some. }
  eapply returns_mono; [apply (IH s1 (fifo_interrupt cpu frame a).2); try done|].
  { by rewrite (proj1 Ha1). }
  intros [rs s2] (Hh2 & a2 & Ha2 & Hhd & Hx). simpl. split; [done|]. exists a2.
  split; [done|]. split; [done|]. congruence.
Qed.

(** *** Creation and descriptors keep the machine healthy *)
Lemma healthy_new : healthy procs_new.
Proof.
  split; [apply procs_new_ok| |].
  - intros i Hi. by apply elem_of_nil in Hi.
  - intros c i p Hc. apply lookup_replicate in Hc as [-> _]. done.
Qed.

Section quiet.
Context (stacks user_root : Z).

Lemma create_healthy nm en top md par s : healthy s →
  returns (create_with_mode stacks user_root nm en top md par s) (λ '(_, s'), healthy s').
Proof.
  intros Hh. pose proof (h_ok _ Hh) as Hs. pose proof (ok_table _ Hs) as Hok. fold (table s) in Hok.
  eapply returns_mono; [by apply create_ok|]. intros [r s'] (Hs' & Hc' & Hcase).
  set (n := next_pid (table s) - 1) in *. pose proof (ok_next _ _ Hok) as Hnx.
  cbv zeta in Hcase. destruct (decide (n < MAX_PROCS)) as [Hn|Hn].
  - destruct Hcase as (inh & -> & Hsl & Hq & _ & _).
    assert (0 ≤ n < len (slots (table s))) as Hnr by (rewrite (ok_slots _ _ Hok); unfold n; lia).
    assert (∀ j q, holds (slots (table s)) j q → j ≠ n) as Hne.
    { intros j q [_ Hj] ->. pose proof (ok_pids _ _ Hok n) as Hp.
      rewrite decide_False in Hp by (unfold n; lia). rewrite Hp in Hj by lia. done. }
    split; [done| |].
    + rewrite Hsl, Hq. intros j Hj. apply elem_of_snoc in Hj as [Hj| ->].
      * destruct (h_queue _ Hh j Hj) as (q & Hq' & Hrest). exists q.
        rewrite holds_insert by done. split; [right|done]. split; [by eapply Hne|done].
      * eexists. rewrite holds_insert by done. split; [by left|done].
    + rewrite Hc', Hsl. intros c j q Hc Hj Hq'.
      apply holds_insert in Hq' as [[-> ->]|[_ Hq']]; [| |done].
      * destruct (ok_current _ _ Hok c n Hc Hj) as (q & Hq' & _). by destruct (Hne n q).
      * by apply (h_current _ Hh c j).
  - destruct Hcase as (_ & Ht & _). split; [done| |]; rewrite ?Ht, ?Hc'; apply Hh.
Qed.

(** Replacing a process by one in the same state keeps the machine healthy. *)
Lemma same_state_healthy s s' i p p' : healthy s → procs_ok s' → CURRENT s' = CURRENT s →
  queue (table s') = queue (table s) → holds (slots (table s)) i p →
  slots (table s') = <[Z.to_nat i := Some p']> (slots (table s)) →
  state p' = state p → running_on p' = running_on p → healthy s'.
Proof.
  intros Hh Hs' Hc Hq Hp Hsl Hst Hr. pose proof (holds_range _ _ _ Hp) as Hi.
  split; [done| |].
  - rewrite Hq, Hsl. intros j Hj. destruct (h_queue _ Hh j Hj) as (q & Hq' & Hrd & Hn).
    destruct (decide (j = i)) as [->|Hne].
    + exists p'. rewrite holds_insert by done. rewrite (holds_inj _ _ _ _ Hq' Hp) in Hrd, Hn.
      rewrite Hst, Hr. auto.
    + exists q. rewrite holds_insert by done. auto.
  - rewrite Hc, Hsl. intros c j q Hcj Hj Hq'.
    apply holds_insert in Hq' as [[-> ->]|[_ Hq']]; [| |done].
    + rewrite Hst. by apply (h_current _ Hh c i).
    + by apply (h_current _ Hh c j).
Qed.

Lemma fd_op_healthy {R} cpu (f : Process → outcome (R * Process)) s : healthy s →
  0 ≤ cpu < MAX_CPUS →
  (∀ p, len (fds p) = MAX_FDS → ∃ r l, f p = Ret (r, with_fds l p) ∧ len l = MAX_FDS) →
  returns (with_current_mut cpu f s) (λ '(_, s'), healthy s').
Proof.
  intros Hh Hcpu Hf. pose proof (h_ok _ Hh) as Hs.
  destruct (cpu_cases s Hs cpu Hcpu) as [Hidle|(i & p & Hr)].
  - by rewrite (with_current_mut_idle s Hs cpu f Hidle).
  - pose proof Hr as (_ & _ & _ & Hp).
    destruct (Hf p) as (r & l & Hfp & Hl); [by eapply ok_fds; [apply Hs|]|].
    rewrite (with_current_mut_runs s Hs cpu f i p r _ Hr Hfp). simpl.
    destruct (put_fds_ok s Hs cpu i p l Hr Hl) as [Hs' _].
    by apply (same_state_healthy s _ i p (with_fds l p)).
Qed.

Lemma start_healthy cpu s : healthy s → 0 ≤ cpu < MAX_CPUS → idle s cpu →
  queue (table s) ≠ [] → returns (start_on_cpu cpu s) (λ '(_, s'), healthy s').
Proof.
  intros Hh Hcpu Hidle Hne. pose proof (h_ok _ Hh) as Hs.
  assert (Exists (runnable (slots (table s))) (queue (table s))) as Hex.
  { destruct (queue (table s)) as [|i q] eqn:Hq; [done|]. apply Exists_cons. left.
    apply (h_queue _ Hh). rewrite Hq. by left. }
  eapply returns_mono; [by apply start_ok|].
  intros [[[en sp] root] s'] (Hs' & _ & _ & i & l1 & l2 & p & Hq & _ & Hp & _ & _ & _ & _ & _ &
    Hc' & Hq' & Hsl'). pose proof (holds_range _ _ _ Hp) as Hi.
  pose proof (ok_nodup _ _ (ok_table _ Hs)) as Hnd. fold (table s) in Hnd. rewrite Hq in Hnd.
  rewrite (Permutation_app_comm l1 (i :: l2)) in Hnd. apply NoDup_cons in Hnd as [Hni _].
  split; [done| |].
  - rewrite Hq', Hsl'. intros j Hj. destruct (h_queue _ Hh j) as (q & Hq2 & Hrest).
    { rewrite Hq. set_solver. }
    exists q. rewrite holds_insert by done. split; [right|done]. split; [|done].
    intros ->. by apply Hni.
  - rewrite Hc', Hsl'. intros c j q Hc Hj Hq2.
    apply holds_insert in Hq2 as [[-> ->]|[Hji Hq2]]; [done| |done].
    apply list_lookup_insert_Some in Hc as [(_ & Hij & _)|[_ Hc]]; [congruence|].
    by apply (h_current _ Hh c j).
Qed.

Definition quiet (o : op) : Prop := match o with SetState _ _ => False | _ => True end.

(** Every operation but [set_state] keeps the machine healthy. *)
Lemma exec_healthy o s s' : healthy s → op_ok o s → quiet o →
  exec stacks user_root o s = Ret s' → healthy s'.
Proof.
  intros Hh Ho Hq He. pose proof (h_ok _ Hh) as Hs.
  cut (returns (exec stacks user_root o s) healthy); [by rewrite He|]. clear He s'.
  pose proof (exec_ok stacks user_root o s Hs Ho) as Hex.
  destruct o as [nm en top md par|fd desc|pid fd desc|cpu desc|cpu fd|pid st|cpu frame|cpu];
    simpl in Ho, Hex |- *; try done.
  - apply returns_bind. eapply returns_mono; [by apply create_healthy|]. by intros [r s'] ?.
  - destruct (set_init_fd fd desc s) as [s'| | |] eqn:Hset; try done. simpl in Hex |- *.
    unfold set_init_fd in Hset. case_decide; [by injection Hset as <-|].
    apply bind_ret_inv in Hset as (r & _ & [= <-]). split; [done|apply Hh|apply Hh].
  - unfold set_fd in *. case_decide; [done|]. apply returns_bind.
    eapply returns_mono; [apply (on_pid_ok pid _ s Hs)|].
    + intros i p Hp. pose proof (ok_fds _ _ (ok_table _ Hs) _ _ Hp) as Hl.
      rewrite aset_ret by lia. eexists. split; [done|]. simpl. by rewrite len_insert.
    + intros [b s'] (Hs' & Hc' & _ & _ & Hq' & Hb). simpl. destruct b.
      * destruct Hb as (i & p & p' & Hp & _ & Hf & Hsl).
        apply bind_ret_inv in Hf as (l & _ & [= <-]).
        by apply (same_state_healthy s s' i p (with_fds l p)).
      * split; [done| |]; rewrite ?Hq', ?Hc', ?Hb; apply Hh.
  - apply returns_bind. unfold alloc_fd_current. apply returns_bind.
    eapply returns_mono; [apply (fd_op_healthy cpu _ s Hh Ho)|by intros [r s'] ?].
    apply alloc_fd_shape.
  - destruct Ho as [Hc Hfd]. apply returns_bind. unfold close_fd_current. case_decide; [done|].
    apply returns_bind. eapply returns_mono; [apply (fd_op_healthy cpu _ s Hh Hc)|by intros [r s'] ?].
    intros p Hl. apply close_fd_shape; [lia|done].
  - apply returns_bind.
    eapply returns_mono; [apply (schedule_fifo_ok cpu frame s (fifo_of s) Hh Ho (fifo_of_stands s))|].
    by intros [[r root] s'] [? _].
  - destruct Ho as (Hc & Hidle & Hrun). apply returns_bind.
    eapply returns_mono; [apply (start_healthy cpu s Hh Hc Hidle)|by intros [r s'] ?].
    intros Hnil. rewrite Hnil in Hrun. by apply Exists_nil in Hrun.
Qed.
End quiet.

(** ** Properties *)
Section properties.
Context (stacks user_root : Z).

(** Every sequence of operations on any CPUs, and those without [set_state]. *)
Definition reachable (s : procs) : Prop := rtc (step stacks user_root) procs_new s.
Definition quiet_step (s s' : procs) : Prop :=
  ∃ o, op_ok o s ∧ quiet o ∧ exec stacks user_root o s = Ret s'.
Definition reachable_quiet (s : procs) : Prop := rtc quiet_step procs_new s.

Lemma reachable_healthy s : reachable_quiet s → healthy s.
Proof.
  unfold reachable_quiet. intros H. remember procs_new as s0 eqn:H0. assert (healthy s0) as Hs by (subst; apply healthy_new).
  clear H0. induction H as [|s1 s2 s3 (o & Ho & Hq & He) _ IH]; [done|]. apply IH.
  by eapply exec_healthy.
Qed.

(** C13. A process never runs on two CPUs, and never waits in the run queue while it runs: in every
    state any interleaving of table operations, interrupts and CPU starts can reach, distinct
    CPUs have distinct current processes, marked as running where they run. *)
Theorem one_cpu_per_process s c d i :
  reachable s → CURRENT s !! c = Some i → CURRENT s !! d = Some i → i ≠ INVALID_IDX →
  c = d ∧ i ∉ queue (table s) ∧ ∃ p, holds (slots (table s)) i p ∧ running_on p = Z.of_nat c.
Proof.
  intros Hr Hc Hd Hi. apply reachable_ok in Hr as Hs. pose proof (ok_table _ Hs) as Hok.
  destruct (ok_current _ _ Hok c i Hc Hi) as (p & Hp & Hrp & _).
  destruct (ok_current _ _ Hok d i Hd Hi) as (q & Hq & Hrq & _).
  rewrite (holds_inj _ _ _ _ Hq Hp) in Hrq. split; [lia|]. split; [|eauto].
  intros Hin. by apply (queued_not_running s i c Hs Hin).
Qed.

(** No operation deadlocks, panics or loops: from every reachable state every operation
    returns, with the table and descriptor locks free again and the table well formed. *)
Theorem operations_return s o : reachable s → op_ok o s →
  returns (exec stacks user_root o s) procs_ok.
Proof. intros Hr Ho. apply exec_ok; [by eapply reachable_ok|done]. Qed.

(** C14. The scheduler refines a FIFO queue: any sequence of interrupts on any CPUs resumes exactly
    the frames the abstract queue says, and leaves the table standing for the abstract state. *)
Theorem scheduler_refines_fifo s l : reachable_quiet s → on_cpus l →
  returns (interrupts l s) (λ '(rs, s'),
    rs = (fifo_interrupts l (fifo_of s)).1 ∧ stands_for s' (fifo_interrupts l (fifo_of s)).2).
Proof.
  intros Hr Hl. apply reachable_healthy in Hr.
  eapply returns_mono; [apply (interrupts_ok l s (fifo_of s) Hr (fifo_of_stands s) Hl)|].
  by intros [rs s'] (_ & ? & ?).
Qed.

(** Round robin: a process with [k] others before it in the queue gets the CPU of the
    (k+1)-th interrupt from now, wherever and with whatever frames the interrupts come, and
    resumes from its saved context. *)
Theorem round_robin s l i p cpu frame :
  reachable_quiet s → queue (table s) !! length l = Some i → holds (slots (table s)) i p →
  on_cpus ((cpu, frame) :: l) →
  returns (r ← interrupts l s; schedule_from_irq cpu frame r.2) (λ '(f, _, s'),
    CURRENT s' !! Z.to_nat cpu = Some i ∧ f = context_sp p).
Proof.
  intros Hr Hi Hp Hl. apply reachable_healthy in Hr. apply Forall_cons in Hl as [Hcpu Hl].
  simpl in Hcpu. pose proof (fifo_of_stands s) as Ha.
  apply returns_bind. eapply returns_mono; [by apply (wait_ok l s (fifo_of s) i)|].
  intros [rs s1] (Hh1 & a' & Ha' & Hhd & Hx). cbn [snd].
  eapply returns_mono; [by apply (schedule_fifo_ok cpu frame s1 a')|].
  intros [[f root] s2] (Hh2 & -> & _ & Hc & _). unfold fifo_interrupt in *.
  destruct (f_queue a') as [|j q]; [done|]. simpl in Hhd. injection Hhd as ->. simpl in *.
  split.
  - rewrite Hc. apply list_lookup_insert_eq.
    pose proof (ok_cpus _ _ (ok_table _ (h_ok _ Hh1))) as Hlen.
    rewrite (proj1 (proj2 Ha')) in Hlen. unfold len, MAX_CPUS in *. lia.
  - rewrite Hx. symmetry. by apply (proj2 (proj2 Ha)).
Qed.

(** Preemption is transparent: a process interrupted with frame [f] while others wait is
    resumed with exactly [f], after as many further interrupts as there were others waiting. *)
Theorem preempted_resumes s l i cpu f cpu' f' :
  reachable_quiet s → 0 ≤ cpu < MAX_CPUS → CURRENT s !! Z.to_nat cpu = Some i → i ≠ INVALID_IDX →
  S (length l) = length (queue (table s)) → on_cpus ((cpu', f') :: l) →
  returns (r ← schedule_from_irq cpu f s; r ← interrupts l r.2; schedule_from_irq cpu' f' r.2)
    (λ '(g, _, s'), CURRENT s' !! Z.to_nat cpu' = Some i ∧ g = f).
Proof.
  intros Hr Hcpu Hci Hne Hlen Hl. apply reachable_healthy in Hr.
  apply Forall_cons in Hl as [Hcpu' Hl]. simpl in Hcpu'.
  apply returns_bind.
  eapply returns_mono; [apply (schedule_fifo_ok cpu f s (fifo_of s) Hr Hcpu (fifo_of_stands s))|].
  intros [[r root] s1] (Hh1 & _ & Ha1). cbn [snd].
  set (a1 := (fifo_interrupt cpu f (fifo_of s)).2) in *.
  assert (f_queue a1 !! length l = Some i ∧ f_ctx a1 i = f) as [Hq Hx].
  { unfold a1, fifo_interrupt, fifo_of. cbn [f_cur f_queue f_ctx]. rewrite Hci.
    change (default INVALID_IDX (Some i)) with i.
    destruct (queue (table s)) as [|j q] eqn:Hqs; [done|]. simpl in Hlen. injection Hlen as Hlen.
    cbn [snd f_queue f_ctx]. rewrite (decide_False (P := i = _)) by done. split.
    - rewrite Hlen, lookup_app_r by lia. by rewrite Nat.sub_diag.
    - by rewrite decide_True. }
  apply returns_bind. eapply returns_mono; [apply (wait_ok l s1 a1 i Hh1 Ha1 Hl)|].
  { by rewrite (proj1 Ha1). }
  intros [rs s2] (Hh2 & a' & Ha' & Hhd & Hx'). cbn [snd].
  eapply returns_mono; [by apply (schedule_fifo_ok cpu' f' s2 a')|].
  intros [[g root'] s3] (Hh3 & -> & _ & Hc & _). unfold fifo_interrupt in *.
  destruct (f_queue a') as [|j q]; [done|]. simpl in Hhd. injection Hhd as ->. simpl in *.
  split; [|congruence].
  rewrite Hc. apply list_lookup_insert_eq.
  pose proof (ok_cpus _ _ (ok_table _ (h_ok _ Hh2))) as Hlen2.
  rewrite (proj1 (proj2 Ha')) in Hlen2. unfold len, MAX_CPUS in *. lia.
Qed.

(** Creation: unless all 64 slots are used the new process gets a pid no process has, is ready
    at the tail of the run queue with a fresh context for its entry point, and that context
    lies, 16-byte aligned, inside the stack of its own slot; the other processes and the queue
    before it are untouched.  With all slots used nothing changes. *)
Theorem create_fresh nm en md par s :
  reachable s → 0 ≤ stacks → stacks + MAX_PROCS * Process.STACK_SIZE < U64 → stacks mod 16 = 0 →
  returns (create_with_mode stacks user_root nm en 0 md par s) (λ '(r, s'),
    match r with
    | Some pid => ∃ i p, slots (table s) !! Z.to_nat i = Some None ∧ i < MAX_PROCS ∧
        slots (table s') = <[Z.to_nat i := Some p]> (slots (table s)) ∧
        queue (table s') = queue (table s) ++ [i] ∧
        id p = pid ∧ (∀ j q, holds (slots (table s)) j q → id q ≠ pid) ∧
        state p = Ready ∧ entry p = en ∧ frames s' !! context_sp p = Some (TrapFrame_new en) ∧
        context_sp p mod 16 = 0 ∧ stack_of stacks (i - 1) ≤ context_sp p ∧
        context_sp p + TRAP_FRAME_SIZE ≤ stack_of stacks i
    | None => (∀ i, 0 ≤ i < MAX_PROCS → ∃ p, holds (slots (table s)) i p) ∧ table s' = table s
    end).
Proof.
  intros Hr Hst0 Hst Hal. apply reachable_ok in Hr as Hs. pose proof (ok_table _ Hs) as Hok.
  fold (table s) in Hok. pose proof (ok_next _ _ Hok) as Hnx.
  eapply returns_mono; [by apply create_ok|]. intros [r s'] (_ & _ & Hcase). cbv zeta in Hcase.
  set (n := next_pid (table s) - 1) in *. destruct (decide (n < MAX_PROCS)) as [Hn|Hn].
  - destruct Hcase as (inh & -> & Hsl & Hq & _ & Hfr).
    exists n. eexists. split.
    { pose proof (ok_pids _ _ Hok n) as Hp. rewrite decide_False in Hp by (unfold n; lia).
      apply Hp. unfold n. lia. }
    split; [done|]. split; [exact Hsl|]. split; [done|]. split; [done|]. split.
    { intros j q Hj. pose proof (holds_range _ _ _ Hj) as Hjr. rewrite (ok_slots _ _ Hok) in Hjr.
      pose proof (ok_pids _ _ Hok j Hjr) as Hp. case_decide.
      - destruct Hp as (q' & Hq' & Hid). rewrite (holds_inj _ _ _ _ Hj Hq'), Hid. unfold n. lia.
      - destruct Hj as [_ Hj]. congruence. }
    split; [done|]. split; [done|]. split.
    { rewrite Hfr. apply lookup_insert_eq. }
    cbn [fresh context_sp]. rewrite decide_True by done. unfold init_context. cbn [fst].
    rewrite TRAP_FRAME_SIZE_eq. unfold stack_of, Process.STACK_SIZE, MAX_PROCS in *.
    set (top := stacks + n * (512 * 1024) + 512 * 1024).
    assert (sub64 top 288 = top - 288) as ->.
    { unfold sub64, wrap64. apply Z.mod_small. unfold top, n in *. lia. }
    change 0xF with (2 ^ 4 - 1). rewrite Bits.land_not64_pow2; [|lia|unfold is_u64, top, n in *; lia].
    change (2 ^ 4) with 16.
    assert ((top - 288) mod 16 = 0) as ->.
    { unfold top. replace (stacks + n * (512 * 1024) + 512 * 1024 - 288)
        with (stacks + (n * 32768 + 32750) * 16) by lia. by rewrite Z.mod_add. }
    rewrite Z.sub_0_r. split_and!; [|unfold top; lia..].
    unfold top. replace (stacks + n * (512 * 1024) + 512 * 1024 - 288)
        with (stacks + (n * 32768 + 32750) * 16) by lia. by rewrite Z.mod_add.
  - destruct Hcase as (-> & Ht & _). split; [|done]. intros i Hi.
    pose proof (ok_pids _ _ Hok i Hi) as Hp. rewrite decide_True in Hp by (unfold n in *; lia).
    destruct Hp as (p & Hp & _). eauto.
Qed.

(** Opening a descriptor: the current process gets the lowest free number, through which the
    same description is then found; no other descriptor changes; with all eight in use it
    gets none and nothing changes.  The table's invariant is kept and its lock released. *)
Theorem alloc_fd_current_ok cpu i p desc s : reachable s → runs s cpu i p →
  returns (alloc_fd_current cpu desc s) (λ '(r, s'), procs_ok s' ∧
    match r with
    | Some fd => 0 ≤ fd < MAX_FDS ∧
        (∀ j, 0 ≤ j < fd → get_fd_current cpu j s ≠ Ret (None, s)) ∧
        get_fd_current cpu fd s = Ret (None, s) ∧
        get_fd_current cpu fd s' = Ret (Some desc, s') ∧
        ∀ j, 0 ≤ j → j ≠ fd → fst <$> get_fd_current cpu j s' = fst <$> get_fd_current cpu j s
    | None => s' = s ∧ ∀ j, 0 ≤ j < MAX_FDS → get_fd_current cpu j s ≠ Ret (None, s)
    end).
Proof.
  intros Hreach Hr. pose proof (reachable_ok _ _ _ Hreach) as Hs. pose proof Hr as (_ & _ & _ & Hp).
  pose proof (ok_fds _ _ (ok_table _ Hs) _ _ Hp) as Hl. unfold alloc_fd_current.
  assert (∀ j, 0 ≤ j < MAX_FDS → fds p !! Z.to_nat j ≠ Some None →
    get_fd_current cpu j s ≠ Ret (None, s)) as Hused.
  { intros j Hj Hne. rewrite (get_fd_ok s cpu i p j Hs Hr), decide_True by lia.
    destruct (lookup_lt_is_Some_2 (fds p) (Z.to_nat j)) as [[d|] Hd]; [|by rewrite Hd|done].
    unfold len, MAX_FDS in *. lia. }
  destruct (proj1 (returns_eq _ _) (alloc_fd_ok desc p Hl)) as ([r p'] & Ha & Hrp).
  rewrite (with_current_mut_runs s Hs cpu _ i p r p' Hr Ha). simpl.
  destruct r as [fd|].
  - destruct Hrp as (Hfd & Hfree & Hmin & ->).
    destruct (put_fds_ok s Hs cpu i p (<[Z.to_nat fd:=Some desc]> (fds p)) Hr) as [Hs' Hr'].
    { by rewrite len_insert. }
    split; [done|]. split; [done|]. split; [|split; [|split]].
    + intros j Hj. apply Hused; [lia|]. by apply Hmin.
    + by rewrite (get_fd_ok s cpu i p fd Hs Hr), decide_True, Hfree by lia.
    + rewrite (get_fd_ok _ cpu i _ fd Hs' Hr'), decide_True by lia. simpl.
      rewrite list_lookup_insert_eq; [done|]. unfold len, MAX_FDS in *. lia.
    + intros j Hj Hne. rewrite (get_fd_ok _ cpu i _ j Hs' Hr' Hj), (get_fd_ok s cpu i p j Hs Hr Hj).
      simpl. case_decide; [|done]. by rewrite list_lookup_insert_ne by lia.
  - destruct Hrp as [Hnone ->]. assert (put_proc s i p = s) as ->.
    { unfold put_proc, with_table, table, with_slots. destruct s as [[b t] c f m]. simpl in *.
      destruct Hs as [Hul _ _ _]. simpl in Hul. subst b. destruct t as [sl np q]. simpl in *.
      rewrite list_insert_id; [done|]. apply Hp. }
    split; [done|]. split; [done|]. intros j Hj. apply Hused; [done|]. by apply Hnone.
Qed.

(** Closing: afterwards the descriptor is not found and the others are as before; a number
    beyond the table is refused and changes nothing. *)
Theorem close_fd_current_ok cpu i p fd s : reachable s → runs s cpu i p → 0 ≤ fd →
  returns (close_fd_current cpu fd s) (λ '(r, s'), procs_ok s' ∧
    r = bool_decide (fd < MAX_FDS) ∧ get_fd_current cpu fd s' = Ret (None, s') ∧
    ∀ j, 0 ≤ j → j ≠ fd → fst <$> get_fd_current cpu j s' = fst <$> get_fd_current cpu j s).
Proof.
  intros Hreach Hr Hfd. pose proof (reachable_ok _ _ _ Hreach) as Hs. pose proof Hr as (_ & _ & _ & Hp).
  pose proof (ok_fds _ _ (ok_table _ Hs) _ _ Hp) as Hl. unfold close_fd_current. case_decide.
  - simpl. rewrite bool_decide_eq_false_2 by lia. split_and!; try done.
    by rewrite (get_fd_ok s cpu i p fd Hs Hr), decide_False by lia.
  - destruct (put_fds_ok s Hs cpu i p (<[Z.to_nat fd:=None]> (fds p)) Hr) as [Hs' Hr'].
    { by rewrite len_insert. }
    rewrite (with_current_mut_runs s Hs cpu _ i p true (with_fds (<[Z.to_nat fd:=None]> (fds p)) p) Hr)
      by (rewrite aset_ret by lia; done).
    simpl. rewrite bool_decide_eq_true_2 by lia. split_and!; try done.
    + rewrite (get_fd_ok _ cpu i _ fd Hs' Hr'), decide_True by lia. simpl.
      rewrite list_lookup_insert_eq; [done|]. unfold len, MAX_FDS in *. lia.
    + intros j Hj Hne. rewrite (get_fd_ok _ cpu i _ j Hs' Hr' Hj), (get_fd_ok s cpu i p j Hs Hr Hj).
      simpl. case_decide; [|done]. by rewrite list_lookup_insert_ne by lia.
Qed.
End properties.

(** ** A run of the machine

    Four processes are created, CPUs 0 and 1 start on the first two, CPU 0 takes an interrupt
    with a frame at 0x5000 and resumes the third; the fourth and the first wait in the queue. *)
Definition op_okb (o : op) (s : procs) : bool :=
  match o with
  | Create _ _ _ _ _ => true
  | SetState _ _ => false
  | SetInitFd fd _ | SetFd _ fd _ => bool_decide (0 ≤ fd)
  | AllocFd cpu _ | Interrupt cpu _ => bool_decide (0 ≤ cpu < MAX_CPUS)
  | CloseFd cpu fd => bool_decide (0 ≤ cpu < MAX_CPUS) && bool_decide (0 ≤ fd)
  | Start cpu => bool_decide (0 ≤ cpu < MAX_CPUS) &&
      bool_decide (CURRENT s !! Z.to_nat cpu = Some INVALID_IDX) &&
      existsb (λ i, bool_decide (0 ≤ i) &&
        match slots (table s) !! Z.to_nat i with
        | Some (Some p) => bool_decide (state p = Ready) && bool_decide (running_on p = CPU_NONE)
        | _ => false
        end) (queue (table s))
  end.

Lemma op_okb_ok o s : op_okb o s = true → op_ok o s ∧ quiet o.
Proof.
  destruct o as [| | | | | |cpu|cpu]; simpl; rewrite ?andb_true_iff, ?bool_decide_eq_true; try done.
  intros [[Hc Hi] Hex]. split; [|done]. split; [done|]. split; [split; [lia|done]|].
  apply existsb_exists in Hex as (i & Hin & Hex). apply Exists_exists. exists i.
  split; [by apply list_elem_of_In|]. rewrite andb_true_iff, bool_decide_eq_true in Hex.
  destruct Hex as [Hi0 Hex]. destruct (slots (table s) !! Z.to_nat i) as [[p|]|] eqn:Hp; try done.
  rewrite andb_true_iff, !bool_decide_eq_true in Hex. exists p. split; [by split|done].
Qed.

Fixpoint run_ops (stacks user_root : Z) (l : list op) (s : procs) : outcome procs :=
  match l with
  | [] => Ret s
  | o :: l => if op_okb o s then s ← exec stacks user_root o s; run_ops stacks user_root l s else Panic
  end.

Lemma run_ops_quiet stacks user_root l s s' :
  run_ops stacks user_root l s = Ret s' → rtc (quiet_step stacks user_root) s s'.
Proof.
  revert s. induction l as [|o l IH]; intros s; simpl.
  { intros H. injection H as ->. apply rtc_refl. }
  destruct (op_okb o s) eqn:Ho; [|done]. apply op_okb_ok in Ho as [Ho Hq].
  intros H. apply bind_ret_inv in H as (s1 & He & Hr).
  eapply rtc_l; [exists o; eauto|by apply IH].
Qed.

Lemma quiet_reachable stacks user_root s : reachable_quiet stacks user_root s →
  reachable stacks user_root s.
Proof.
  unfold reachable_quiet, reachable. generalize procs_new as s0. intros s0 H.
  induction H as [s1|s1 s2 s3 (o & Ho & _ & He) _ IH]; [apply rtc_refl|].
  apply rtc_l with s2; [by exists o|done].
Qed.

Definition demo_ops : list op :=
  [Create [97] 0x80000 0 User None; Create [98] 0x90000 0 Kernel None;
   Create [99] 0xA0000 0 Kernel (Some 1); Create [100] 0xB0000 0 Kernel None;
   Start 0; Start 1; Interrupt 0 0x5000].
Definition demo_stacks : Z := 0x100000.
Definition demo_root : Z := 0x70000.
Definition demo : procs :=
  match run_ops demo_stacks demo_root demo_ops procs_new with Ret s => s | _ => procs_new end.

Lemma demo_reachable : reachable_quiet demo_stacks demo_root demo.
Proof. apply (run_ops_quiet _ _ demo_ops). vm_compute. reflexivity. Qed.

(** The process in a slot of the final state. *)
Definition demo_proc (i : Z) : Process :=
  match slots (table demo) !! Z.to_nat i with
  | Some (Some p) => p
  | _ => mkProcess 0 [] 0 Terminated 0 0 0 false Kernel None [] 0
  end.

Lemma one_cpu_per_process_witness :
  1%nat = 1%nat ∧ 1 ∉ queue (table demo) ∧
  ∃ p, holds (slots (table demo)) 1 p ∧ running_on p = Z.of_nat 1.
Proof.
  apply (one_cpu_per_process demo_stacks demo_root demo 1 1 1);
    [apply quiet_reachable, demo_reachable|vm_compute; reflexivity|vm_compute; reflexivity|].
  vm_compute. discriminate.
Defined.

Lemma operations_return_witness :
  returns (exec demo_stacks demo_root (CloseFd 0 3) demo) procs_ok.
Proof.
  apply operations_return; [apply quiet_reachable, demo_reachable|].
  split; [split|]; vm_compute; try reflexivity; discriminate.
Defined.

Lemma scheduler_refines_fifo_witness :
  returns (interrupts [(1, 0x6000); (3, 0x7000)] demo) (λ '(rs, s'),
    rs = (fifo_interrupts [(1, 0x6000); (3, 0x7000)] (fifo_of demo)).1 ∧
    stands_for s' (fifo_interrupts [(1, 0x6000); (3, 0x7000)] (fifo_of demo)).2).
Proof.
  apply (scheduler_refines_fifo demo_stacks demo_root); [apply demo_reachable|].
  repeat constructor; vm_compute; try reflexivity; discriminate.
Defined.

Lemma round_robin_witness :
  returns (r ← interrupts [(1, 0x6000)] demo; schedule_from_irq 0 0x7000 r.2) (λ '(f, _, s'),
    CURRENT s' !! Z.to_nat 0 = Some 0 ∧ f = context_sp (demo_proc 0)).
Proof.
  apply (round_robin demo_stacks demo_root demo [(1, 0x6000)] 0 (demo_proc 0));
    [apply demo_reachable|vm_compute; reflexivity| |].
  - split; vm_compute; [discriminate|reflexivity].
  - repeat constructor; vm_compute; try reflexivity; discriminate.
Defined.

Lemma preempted_resumes_witness :
  returns (r ← schedule_from_irq 0 0x5500 demo; r ← interrupts [(1, 0x6000)] r.2;
           schedule_from_irq 1 0x7000 r.2)
    (λ '(g, _, s'), CURRENT s' !! Z.to_nat 1 = Some 2 ∧ g = 0x5500).
Proof.
  apply (preempted_resumes demo_stacks demo_root demo [(1, 0x6000)] 2 0 0x5500 1 0x7000);
    [apply demo_reachable| |vm_compute; reflexivity|vm_compute; discriminate|vm_compute; reflexivity|].
  - split; vm_compute; [discriminate|reflexivity].
  - repeat constructor; vm_compute; try reflexivity; discriminate.
Defined.

Lemma create_fresh_witness :
  returns (create_with_mode demo_stacks demo_root [101] 0xC0000 0 Kernel None demo) (λ '(r, s'),
    match r with
    | Some pid => ∃ i p, slots (table demo) !! Z.to_nat i = Some None ∧ i < MAX_PROCS ∧
        slots (table s') = <[Z.to_nat i := Some p]> (slots (table demo)) ∧
        queue (table s') = queue (table demo) ++ [i] ∧
        id p = pid ∧ (∀ j q, holds (slots (table demo)) j q → id q ≠ pid) ∧
        state p = Ready ∧ entry p = 0xC0000 ∧
        frames s' !! context_sp p = Some (TrapFrame_new 0xC0000) ∧
        context_sp p mod 16 = 0 ∧ stack_of demo_stacks (i - 1) ≤ context_sp p ∧
        context_sp p + TRAP_FRAME_SIZE ≤ stack_of demo_stacks i
    | None => (∀ i, 0 ≤ i < MAX_PROCS → ∃ p, holds (slots (table demo)) i p) ∧
        table s' = table demo
    end).
Proof.
  apply create_fresh; [apply quiet_reachable, demo_reachable|..];
    vm_compute; try reflexivity; discriminate.
Defined.

Lemma demo_runs : runs demo 0 2 (demo_proc 2).
Proof.
  split; [vm_compute; discriminate|]. split; [vm_compute; reflexivity|].
  split; [vm_compute; discriminate|]. split; vm_compute; [discriminate|reflexivity].
Qed.

Lemma alloc_fd_current_ok_witness :
  returns (alloc_fd_current 0 (mkDesc DevKbd0 (from_bits 1)) demo) (λ '(r, s'), procs_ok s' ∧
    match r with
    | Some fd => 0 ≤ fd < MAX_FDS ∧
        (∀ j, 0 ≤ j < fd → get_fd_current 0 j demo ≠ Ret (None, demo)) ∧
        get_fd_current 0 fd demo = Ret (None, demo) ∧
        get_fd_current 0 fd s' = Ret (Some (mkDesc DevKbd0 (from_bits 1)), s') ∧
        ∀ j, 0 ≤ j → j ≠ fd → fst <$> get_fd_current 0 j s' = fst <$> get_fd_current 0 j demo
    | None => s' = demo ∧ ∀ j, 0 ≤ j < MAX_FDS → get_fd_current 0 j demo ≠ Ret (None, demo)
    end).
Proof.
  apply (alloc_fd_current_ok demo_stacks demo_root 0 2 (demo_proc 2));
    [apply quiet_reachable, demo_reachable|apply demo_runs].
Defined.

Lemma close_fd_current_ok_witness :
  returns (close_fd_current 0 3 demo) (λ '(r, s'), procs_ok s' ∧
    r = bool_decide (3 < MAX_FDS) ∧ get_fd_current 0 3 s' = Ret (None, s') ∧
    ∀ j, 0 ≤ j → j ≠ 3 → fst <$> get_fd_current 0 j s' = fst <$> get_fd_current 0 j demo).
Proof.
  apply (close_fd_current_ok demo_stacks demo_root 0 2 (demo_proc 2));
    [apply quiet_reachable, demo_reachable|apply demo_runs|lia].
Defined.
