(* ===== verification/Handover.v ===== *)
(** * Which core is on which process's stack

    Processes run at EL1, and [irq_vector] of [src/arch/aarch64/exception.S] pushes the frame on the stack of
    the process it interrupts: [irq_handler] ([src/kernel/interrupts.rs]) runs on that stack until it has
    returned and the vector loads the stack pointer with the frame it was given.  [schedule_from_irq]
    ([src/kernel/process/scheduler.rs]) has put the process back into the run queue by then, and has dropped
    the lock.

    The machine here follows every core through this: on its boot stack, in a process, in the handler
    before and after the table operation (on the boot stack too, where interrupts are enabled before
    [start_on_cpu]), with the operations of [Scheduler] on the shared table.

    Shown: two cores are on one stack only while one of them is between the table operation and the
    return from a handler that gave the process up; with no core there, all stacks are distinct; and such a
    moment can be reached: another core resumes the process while the first still uses its stack. *)
From S2P Require Import Prelude Sync Trap Smp Process Scheduler.
Local Open Scope Z_scope.

(** Where a core is: before [start_on_cpu], with interrupts enabled by [init_per_cpu]; in [irq_handler] on its boot
    stack, with the frame the vector pushed, and with the frame to resume; in the process of a slot; in
    [irq_handler] on that process's stack; and there still, with the frame to resume. *)
Inductive place :=
| Starting
| BootHandling (frame : Z)
| BootReturning (next : Z)
| Running (i : Z)
| Handling (i frame : Z)
| Returning (i next : Z).

(** The process whose stack a core uses. *)
Definition stack_used (p : place) : option Z :=
  match p with
  | Starting | BootHandling _ | BootReturning _ => None
  | Running i | Handling i _ | Returning i _ => Some i
  end.

Record machine := mkMachine { ps : procs; places : list place }.

Section machine.
Context (stacks user_root : Z).

(** The operations that do not switch processes. *)
Definition no_switch (o : op) : Prop :=
  match o with Interrupt _ _ | Start _ => False | _ => True end.

(** A core starts; is interrupted, in a process or before it has one; runs [schedule_from_irq]; leaves the handler
    for the process that is its current one, or, when it has none and found none, for where it was.  Any core
    runs another operation on the table, from a system call or the boot code. *)
Inductive step : machine → machine → Prop :=
| step_start m c en sp root s' i :
    places m !! c = Some Starting → op_ok (Start (Z.of_nat c)) (ps m) →
    start_on_cpu (Z.of_nat c) (ps m) = Ret (en, sp, root, s') → CURRENT s' !! c = Some i →
    step m (mkMachine s' (<[c := Running i]> (places m)))
| step_interrupt m c i frame :
    places m !! c = Some (Running i) →
    step m (mkMachine (ps m) (<[c := Handling i frame]> (places m)))
| step_schedule m c i frame next root s' :
    places m !! c = Some (Handling i frame) →
    schedule_from_irq (Z.of_nat c) frame (ps m) = Ret (next, root, s') →
    step m (mkMachine s' (<[c := Returning i next]> (places m)))
| step_return m c i next j :
    places m !! c = Some (Returning i next) → CURRENT (ps m) !! c = Some j →
    step m (mkMachine (ps m) (<[c := Running j]> (places m)))
| step_boot_interrupt m c frame :
    places m !! c = Some Starting →
    step m (mkMachine (ps m) (<[c := BootHandling frame]> (places m)))
| step_boot_schedule m c frame next root s' :
    places m !! c = Some (BootHandling frame) →
    schedule_from_irq (Z.of_nat c) frame (ps m) = Ret (next, root, s') →
    step m (mkMachine s' (<[c := BootReturning next]> (places m)))
| step_boot_return m c next j :
    places m !! c = Some (BootReturning next) → CURRENT (ps m) !! c = Some j →
    step m (mkMachine (ps m) (<[c := if decide (j = INVALID_IDX) then Starting else Running j]> (places m)))
| step_op m o s' :
    no_switch o → op_ok o (ps m) → exec stacks user_root o (ps m) = Ret s' →
    step m (mkMachine s' (places m)).

(** A table some operations have led to, on which no core has started yet. *)
Definition boots (m : machine) : Prop :=
  reachable stacks user_root (ps m) ∧ len (places m) = MAX_CPUS ∧
  ∀ c p, places m !! c = Some p → p = Starting ∧ CURRENT (ps m) !! c = Some INVALID_IDX.

(** A core whose handler has given the process of slot [i] up and has not returned yet. *)
Definition gives_up (m : machine) (c : nat) (i : Z) : Prop :=
  ∃ next, places m !! c = Some (Returning i next) ∧ CURRENT (ps m) !! c ≠ Some i.

(** ** The invariant: a core's place agrees with its current process *)
Definition agrees (s : procs) (c : nat) (p : place) : Prop :=
  match p with
  | Starting | BootHandling _ => CURRENT s !! c = Some INVALID_IDX
  | BootReturning _ => ∃ i, CURRENT s !! c = Some i
  | Running i | Handling i _ => CURRENT s !! c = Some i ∧ i ≠ INVALID_IDX
  | Returning _ _ => ∃ i, CURRENT s !! c = Some i ∧ i ≠ INVALID_IDX
  end.

Record inv (m : machine) : Prop := {
  m_reachable : reachable stacks user_root (ps m);
  m_cores : len (places m) = MAX_CPUS;
  m_agrees : ∀ c p, places m !! c = Some p → agrees (ps m) c p
}.

Lemma reachable_exec s o s' : reachable stacks user_root s → op_ok o s → exec stacks user_root o s = Ret s' →
  reachable stacks user_root s'.
Proof. intros Hr Ho He. eapply rtc_r; [done|]. by exists o. Qed.

Lemma on_table_current {A} (f : ProcessTable → outcome (A * ProcessTable)) s r s' :
  on_table f s = Ret (r, s') → CURRENT s' = CURRENT s.
Proof. unfold on_table. intros ([x l] & _ & [= <- <-])%bind_ret_inv. done. Qed.

Lemma with_current_mut_current {R} cpu (f : Process → outcome (R * Process)) s r s' :
  with_current_mut cpu f s = Ret (r, s') → CURRENT s' = CURRENT s.
Proof. apply on_table_current. Qed.

Lemma exec_current o s s' : procs_ok s → op_ok o s → no_switch o → exec stacks user_root o s = Ret s' →
  CURRENT s' = CURRENT s.
Proof.
  intros Hs Ho Hn He. destruct o as [nm en top md par|fd desc|pid fd desc|cpu desc|cpu fd|pid st|cpu frame|cpu];
    simpl in He, Hn; try done.
  - apply bind_ret_inv in He as ([r s1] & Hc & [= <-]).
    pose proof (create_ok stacks user_root nm en top md par s Hs) as Hok. rewrite Hc in Hok. apply Hok.
  - unfold set_init_fd in He. case_decide; [by injection He as <-|].
    by apply bind_ret_inv in He as (? & _ & [= <-]).
  - apply bind_ret_inv in He as ([r s1] & Hc & [= <-]). unfold set_fd in Hc.
    case_decide; [by injection Hc as <- <-|]. by eapply on_table_current.
  - apply bind_ret_inv in He as ([r s1] & Hc & [= <-]). unfold alloc_fd_current in Hc.
    apply bind_ret_inv in Hc as ([r2 s2] & Hc & [= <- <-]). by eapply with_current_mut_current.
  - apply bind_ret_inv in He as ([r s1] & Hc & [= <-]). unfold close_fd_current in Hc.
    case_decide; [by injection Hc as <- <-|].
    apply bind_ret_inv in Hc as ([r2 s2] & Hc & [= <- <-]). by eapply with_current_mut_current.
  - apply bind_ret_inv in He as ([r s1] & Hc & [= <-]). by eapply on_table_current.
Qed.

(** An operation that sets only [c]'s current process leaves the other cores in agreement. *)
Lemma agrees_others s s' c p' (ps0 : list place) : (∀ d, d ≠ c → CURRENT s' !! d = CURRENT s !! d) →
  (∀ d p, ps0 !! d = Some p → agrees s d p) → agrees s' c p' →
  ∀ d p, <[c := p']> ps0 !! d = Some p → agrees s' d p.
Proof.
  intros Hcur Hag Hc d p [(-> & <- & _)|[Hne Hp]]%list_lookup_insert_Some; [done|].
  specialize (Hag d p Hp). destruct p; simpl in *; by rewrite Hcur by done.
Qed.

(** [schedule_from_irq] sets no other core's current process. *)
Lemma schedule_current cpu frame s next root s' : procs_ok s → 0 ≤ cpu < MAX_CPUS →
  schedule_from_irq cpu frame s = Ret (next, root, s') →
  (∀ d, d ≠ Z.to_nat cpu → CURRENT s' !! d = CURRENT s !! d) ∧ length (CURRENT s') = length (CURRENT s).
Proof.
  intros Hs Hc Hsc. pose proof (ok_cpus _ _ (ok_table _ Hs)) as Hl. unfold len, MAX_CPUS in *.
  destruct (lookup_lt_is_Some_2 (CURRENT s) (Z.to_nat cpu)) as [ci Hci]; [lia|].
  pose proof (schedule_ok cpu frame ci s Hs Hc Hci) as Hok. rewrite Hsc in Hok.
  destruct Hok as (_ & _ & _ & [(_ & _ & _ & -> & _)|(k & l1 & l2 & p & _ & _ & _ & _ & _ & _ & _ & -> & _)]); [done|].
  rewrite length_insert. split; [|done]. intros d Hd. by rewrite list_lookup_insert_ne.
Qed.

Lemma inv_boots m : boots m → inv m.
Proof.
  intros (Hr & Hl & Hp). split; [done..|]. intros c p Hc. by destruct (Hp c p Hc) as [-> ?].
Qed.

Lemma core_range (m : machine) c p : len (places m) = MAX_CPUS → places m !! c = Some p → 0 ≤ Z.of_nat c < MAX_CPUS.
Proof. intros Hl Hp. apply lookup_lt_Some in Hp. unfold len in Hl. lia. Qed.

Lemma handover_inv_step m m' : inv m → step m m' → inv m'.
Proof.
  intros [Hr Hl Hag] Hstep. pose proof (reachable_ok _ _ _ Hr) as Hs.
  destruct Hstep as [m c en sp root s' i Hp Ho Hst Hi|m c i frame Hp|m c i frame next root s' Hp Hsc|m c i next j Hp Hj|
    m c frame Hp|m c frame next root s' Hp Hsc|m c next j Hp Hj|m o s' Hn Ho He];
    try pose proof (core_range _ _ _ Hl Hp) as Hc.
  - assert (exec stacks user_root (Start (Z.of_nat c)) (ps m) = Ret s') as He by (simpl; by rewrite Hst).
    split; [by eapply reachable_exec|cbn [places]; by rewrite len_insert|].
    destruct Ho as (_ & Hidle & Hex). pose proof (start_ok _ _ Hs Hc Hidle Hex) as Hok. rewrite Hst in Hok.
    destruct Hok as (_ & _ & _ & k & l1 & l2 & p & Hq & _ & _ & _ & _ & _ & _ & _ & Hcur & _).
    rewrite Nat2Z.id in Hcur. cbn [ps places]; apply (agrees_others (ps m)); [|done|].
    + intros d Hd. by rewrite Hcur, list_lookup_insert_ne.
    + split; [done|]. rewrite Hcur in Hi. apply list_lookup_insert_Some in Hi as [(_ & -> & _)|[? _]]; [|done].
      intros ->. assert (INVALID_IDX ∈ queue (table (ps m))) as Hin by (rewrite Hq; set_solver).
      apply (queue_range _ _ (ok_table _ Hs)) in Hin. unfold INVALID_IDX, MAX_PROCS in Hin. lia.
  - split; [done|cbn [places]; by rewrite len_insert|]. cbn [ps places]; apply (agrees_others (ps m)); [done..|].
    exact (Hag _ _ Hp).
  - assert (exec stacks user_root (Interrupt (Z.of_nat c) frame) (ps m) = Ret s') as He by (simpl; by rewrite Hsc).
    split; [by apply (reachable_exec (ps m) (Interrupt (Z.of_nat c) frame))|cbn [places]; by rewrite len_insert|].
    destruct (Hag _ _ Hp) as [Hci Hne]. rewrite <-(Nat2Z.id c) in Hci.
    pose proof (schedule_ok _ frame i _ Hs Hc Hci) as Hok. rewrite Hsc in Hok. rewrite Nat2Z.id in Hci.
    destruct Hok as (_ & _ & _ & [(_ & _ & _ & Hcur & _)|(k & l1 & l2 & p & Hq & _ & _ & _ & _ & _ & _ & Hcur & _)]).
    + cbn [ps places]; apply (agrees_others (ps m)); [by intros; rewrite Hcur|done|]. exists i. by rewrite Hcur.
    + rewrite Nat2Z.id in Hcur. cbn [ps places]; apply (agrees_others (ps m)); [|done|].
      * intros d Hd. by rewrite Hcur, list_lookup_insert_ne.
      * exists k. rewrite Hcur. split; [apply list_lookup_insert_eq; by eapply lookup_lt_Some|].
        intros ->. assert (INVALID_IDX ∈ queue (table (ps m))) as Hin by (rewrite Hq; set_solver).
        apply (queue_range _ _ (ok_table _ Hs)) in Hin. unfold INVALID_IDX, MAX_PROCS in Hin. lia.
  - split; [done|cbn [places]; by rewrite len_insert|]. cbn [ps places]; apply (agrees_others (ps m)); [done..|].
    destruct (Hag _ _ Hp) as (k & Hk & Hne). split; [done|]. congruence.
  - split; [done|cbn [places]; by rewrite len_insert|]. cbn [ps places]; apply (agrees_others (ps m)); [done..|].
    exact (Hag _ _ Hp).
  - assert (exec stacks user_root (Interrupt (Z.of_nat c) frame) (ps m) = Ret s') as He by (simpl; by rewrite Hsc).
    split; [by apply (reachable_exec (ps m) (Interrupt (Z.of_nat c) frame))|cbn [places]; by rewrite len_insert|].
    pose proof (Hag _ _ Hp : CURRENT (ps m) !! c = Some INVALID_IDX) as Hci.
    destruct (schedule_current _ _ _ _ _ _ Hs Hc Hsc) as [Hcur Hsome]. rewrite Nat2Z.id in *.
    cbn [ps places]; apply (agrees_others (ps m)); [by intros; apply Hcur|done|].
    apply lookup_lt_is_Some_2. apply lookup_lt_Some in Hci. by rewrite Hsome.
  - split; [done|cbn [places]; by rewrite len_insert|]. cbn [ps places]; apply (agrees_others (ps m)); [done..|].
    case_decide as Hd; [by subst|]. by split.
  - split; [by eapply reachable_exec|done|]. intros c p Hc. specialize (Hag c p Hc).
    pose proof (exec_current o _ _ Hs Ho Hn He) as Hcur. destruct p; simpl in *; by rewrite Hcur.
Qed.

Lemma handover_inv m m' : boots m → rtc step m m' → inv m'.
Proof.
  intros Hb Hr. assert (inv m) as Hi by by apply inv_boots. clear Hb. induction Hr; [done|].
  eauto using handover_inv_step.
Qed.

Lemma on_stack m c p i : inv m → places m !! c = Some p → stack_used p = Some i →
  (CURRENT (ps m) !! c = Some i ∧ i ≠ INVALID_IDX) ∨ gives_up m c i.
Proof.
  intros Hinv Hp Hi. pose proof (m_agrees _ Hinv c p Hp) as Hag.
  destruct p as [|f|g|k|k f|k g]; simpl in *; try done; injection Hi as ->; [by left..|].
  destruct Hag as (j & Hj & Hne). destruct (decide (j = i)) as [->|Hji]; [by left|].
  right. exists g. split; [done|]. congruence.
Qed.

Lemma current_unique s c d i : procs_ok s → CURRENT s !! c = Some i → CURRENT s !! d = Some i → i ≠ INVALID_IDX → c = d.
Proof.
  intros Hs Hc Hd Hi. pose proof (ok_table _ Hs) as Hok.
  destruct (ok_current _ _ Hok c i Hc Hi) as (p & Hp & Hrp & _).
  destruct (ok_current _ _ Hok d i Hd Hi) as (q & Hq & Hrq & _).
  rewrite (holds_inj _ _ _ _ Hq Hp) in Hrq. lia.
Qed.

(** C18. Stacks: whatever the order in which any cores start, are interrupted, schedule, return and operate on
    the table, two cores are on the same process's stack only while one of them has given the process up
    to the run queue, taken another one, and not yet returned from its handler; while no core is there
    every core has a stack of its own. *)
Theorem stacks_exclusive (m m' : machine) c d p q i : boots m → rtc step m m' → c ≠ d →
  places m' !! c = Some p → places m' !! d = Some q → stack_used p = Some i → stack_used q = Some i →
  ∃ e next j, (e = c ∨ e = d) ∧ places m' !! e = Some (Returning i next) ∧
    CURRENT (ps m') !! e = Some j ∧ j ≠ i ∧ j ≠ INVALID_IDX.
Proof.
  intros Hb Hr Hcd Hp Hq Hi Hi'. pose proof (handover_inv _ _ Hb Hr) as Hinv.
  assert (∀ e, gives_up m' e i → e = c ∨ e = d → ∃ e next j, (e = c ∨ e = d) ∧
    places m' !! e = Some (Returning i next) ∧ CURRENT (ps m') !! e = Some j ∧ j ≠ i ∧ j ≠ INVALID_IDX) as Hgive.
  { intros e (g & Hg & Hne) He. destruct (m_agrees _ Hinv e _ Hg) as (j & Hj & Hv).
    exists e, g, j. split_and!; try done. congruence. }
  destruct (on_stack m' c p i Hinv Hp Hi) as [[Hc Hv]|Hc]; [|by apply (Hgive c); [|left]].
  destruct (on_stack m' d q i Hinv Hq Hi') as [[Hd _]|Hd]; [|by apply (Hgive d); [|right]].
  exfalso. apply Hcd, (current_unique (ps m') c d i); [|done..]. apply (reachable_ok stacks user_root), (m_reachable _ Hinv).
Qed.

End machine.

(** ** Two cores on one stack *)

(** One step of the machine, computed. *)
Inductive move := Starts (c : nat) | Interrupted (c : nat) (frame : Z) | Schedules (c : nat) | Returns (c : nat).

Definition play_move (a : move) (m : machine) : option machine :=
  match a with
  | Starts c =>
      match places m !! c, start_on_cpu (Z.of_nat c) (ps m) with
      | Some Starting, Ret (_, _, _, s') =>
          i ← CURRENT s' !! c;
          if op_okb (Start (Z.of_nat c)) (ps m) then Some (mkMachine s' (<[c := Running i]> (places m))) else None
      | _, _ => None
      end
  | Interrupted c frame =>
      match places m !! c with
      | Some (Running i) => Some (mkMachine (ps m) (<[c := Handling i frame]> (places m)))
      | Some Starting => Some (mkMachine (ps m) (<[c := BootHandling frame]> (places m)))
      | _ => None
      end
  | Schedules c =>
      match places m !! c with
      | Some (Handling i frame) =>
          match schedule_from_irq (Z.of_nat c) frame (ps m) with
          | Ret (next, _, s') => Some (mkMachine s' (<[c := Returning i next]> (places m)))
          | _ => None
          end
      | Some (BootHandling frame) =>
          match schedule_from_irq (Z.of_nat c) frame (ps m) with
          | Ret (next, _, s') => Some (mkMachine s' (<[c := BootReturning next]> (places m)))
          | _ => None
          end
      | _ => None
      end
  | Returns c =>
      match places m !! c with
      | Some (Returning i next) => j ← CURRENT (ps m) !! c; Some (mkMachine (ps m) (<[c := Running j]> (places m)))
      | Some (BootReturning next) =>
          j ← CURRENT (ps m) !! c;
          Some (mkMachine (ps m) (<[c := if decide (j = INVALID_IDX) then Starting else Running j]> (places m)))
      | _ => None
      end
  end.

Fixpoint play (l : list move) (m : machine) : option machine :=
  match l with [] => Some m | a :: l => m ← play_move a m; play l m end.

Lemma machine_steps stacks user_root l m m' : play l m = Some m' → rtc (step stacks user_root) m m'.
Proof.
  revert m. induction l as [|a l IH]; intros m; cbn [play]; [by intros [= <-]|].
  intros (m1 & Hm & Hp)%bind_Some. eapply rtc_l; [|by apply IH]. clear Hp IH.
  destruct a as [c|c frame|c|c]; cbn [play_move] in Hm; destruct (places m !! c) as [[]|] eqn:Hc; try done.
  - destruct (start_on_cpu _ _) as [[[[en sp] root] s']| | |] eqn:Hs; try done.
    apply bind_Some in Hm as (i & Hi & Hm). destruct (op_okb _ _) eqn:Ho; [|done]. injection Hm as <-.
    eapply step_start; [done| |done..]. by apply op_okb_ok.
  - injection Hm as <-. by apply step_boot_interrupt.
  - injection Hm as <-. by apply step_interrupt.
  - destruct (schedule_from_irq _ _ _) as [[[g root] s']| | |] eqn:Hs; try done. injection Hm as <-.
    by eapply step_boot_schedule.
  - destruct (schedule_from_irq _ _ _) as [[[g root] s']| | |] eqn:Hs; try done. injection Hm as <-.
    by eapply step_schedule.
  - apply bind_Some in Hm as (j & Hj & [= <-]). by eapply step_boot_return.
  - apply bind_Some in Hm as (j & Hj & [= <-]). by eapply step_return.
Qed.

(** Three processes wait. *)
Definition waiting_ops : list op :=
  [Create [97] 0x80000 0 User None; Create [98] 0x90000 0 Kernel None; Create [99] 0xA0000 0 Kernel None].
Definition waiting : procs :=
  match run_ops demo_stacks demo_root waiting_ops procs_new with Ret s => s | _ => procs_new end.
Definition waiting_machine : machine := mkMachine waiting (replicate 4 Starting).

Lemma waiting_boots : boots demo_stacks demo_root waiting_machine.
Proof.
  split_and!; [|by vm_compute|].
  - apply quiet_reachable, (run_ops_quiet _ _ waiting_ops). by vm_compute.
  - intros c p Hp. cbn [places waiting_machine] in Hp. apply lookup_replicate in Hp as [-> Hc]. split; [done|].
    do 4 (destruct c as [|c]; [by vm_compute|]). lia.
Qed.

(** A core interrupted before it has taken a process enters one from the handler. *)
Lemma started_by_interrupt : ∃ m,
  play [Interrupted 2 0x7000; Schedules 2; Returns 2] waiting_machine = Some m ∧ places m !! 2%nat = Some (Running 0).
Proof. eexists. split; vm_compute; reflexivity. Qed.

(** Core 0 is interrupted in process 0 and schedules process 2; before it is out of its handler core 1 is
    interrupted, schedules process 0 and returns into it. *)
Definition handover_moves : list move :=
  [Starts 0; Starts 1; Interrupted 0 0x5000; Schedules 0; Interrupted 1 0x6000; Schedules 1; Returns 1].
Definition shared_stack : machine := default waiting_machine (play handover_moves waiting_machine).

Lemma shared_stack_reachable : rtc (step demo_stacks demo_root) waiting_machine shared_stack.
Proof.
  unfold shared_stack. destruct (play handover_moves waiting_machine) as [m|] eqn:Hp; [by eapply machine_steps|].
  by vm_compute in Hp.
Qed.

(** [schedule_from_irq] puts the interrupted process into the run queue and drops the lock while its core is
    still in [irq_handler] on that process's stack: another core can resume the process, which then runs on
    the stack the handler still has to return through. *)
Theorem resumed_under_handler : ∃ m m', boots demo_stacks demo_root m ∧ rtc (step demo_stacks demo_root) m m' ∧
  places m' !! 0%nat = Some (Returning 0 (context_sp (demo_proc 2))) ∧ places m' !! 1%nat = Some (Running 0).
Proof.
  exists waiting_machine, shared_stack. split; [apply waiting_boots|]. split; [apply shared_stack_reachable|].
  by vm_compute.
Qed.

Lemma stacks_exclusive_witness : ∃ e next j, (e = 0%nat ∨ e = 1%nat) ∧
  places shared_stack !! e = Some (Returning 0 next) ∧ CURRENT (ps shared_stack) !! e = Some j ∧ j ≠ 0 ∧
  j ≠ INVALID_IDX.
Proof.
  apply (stacks_exclusive demo_stacks demo_root waiting_machine shared_stack 0 1
    (Returning 0 (context_sp (demo_proc 2))) (Running 0) 0);
    [apply waiting_boots|apply shared_stack_reachable|done|by vm_compute..].
Defined.
