(* ===== verification/Fdt.v ===== *)
(** * The flattened device tree format

    What the five readers in [src/mm/dtb.rs] share: the header, the token loop (each reader
    repeats it with its own reaction to nodes and properties, here a record of [handlers]),
    the strings and the big-endian cells.  The device tree is whatever the firmware left in
    memory.

    Shown: the token loop ends on every image of less than 4 GiB, however damaged; on an image
    that encodes a sequence of tokens it performs exactly the handlers' reactions to them, in
    order; strings and cells decode to what the format says. *)
From S2P Require Import Prelude Bits Memory.
Local Open Scope Z_scope.

Definition FDT_MAGIC : Z := 0xD00DFEED.
Definition FDT_BEGIN_NODE : Z := 0x1.
Definition FDT_END_NODE : Z := 0x2.
Definition FDT_PROP : Z := 0x3.
Definition FDT_NOP : Z := 0x4.
Definition FDT_END : Z := 0x9.

Definition read_be_u32 (buf : list Z) : outcome Z :=
  b0 ← aget buf 0; b1 ← aget buf 1; b2 ← aget buf 2; b3 ← aget buf 3;
  Ret (Z.lor (Z.lor (Z.lor (shl32 b0 24) (shl32 b1 16)) (shl32 b2 8)) b3).

Definition align4 (value : Z) : Z := Z.land (add64 value 3) (not64 3).

(** [read_be_u32(&buf[a..a + 4])]. *)
Definition be_at (buf : list Z) (a : Z) : outcome Z := s ← slice buf a (a + 4); read_be_u32 s.

(** [while end < buf.len() && buf[end] != 0 { end += 1; }]. *)
Definition scan_nul_body (buf : list Z) (o : Z) : outcome (Z + Z) :=
  if decide (o < len buf) then
    b ← aget buf o; if decide (b = 0) then Ret (inr o) else Ret (inl (o + 1))
  else Ret (inr o).
Definition scan_nul (buf : list Z) (o : Z) : outcome Z :=
  loop (S (length buf)) (scan_nul_body buf) o.

Definition get_string (strings : list Z) (offset : Z) : outcome (list Z) :=
  if decide (len strings ≤ offset) then Ret []
  else en ← scan_nul strings offset; slice strings offset en.

Definition name_starts_with (name prefix : list Z) : outcome bool :=
  if decide (len name < len prefix) then Ret false
  else s ← slice name 0 (len prefix); Ret (bool_decide (s = prefix)).

Definition value_has_string_body (buf needle : list Z) (start : Z) : outcome (Z + bool) :=
  if decide (start < len buf) then
    en ← scan_nul buf start;
    hit ← (if decide (start < en) then s ← slice buf start en; Ret (bool_decide (s = needle))
           else Ret false);
    if (hit : bool) then Ret (inr true) else Ret (inl (en + 1))
  else Ret (inr false).
Definition value_has_string (buf needle : list Z) : outcome bool :=
  loop (S (length buf)) (value_has_string_body buf needle) 0.

Definition read_cells_body (buf : list Z) (cells : Z) (st : Z * Z) : outcome (Z * Z + Z) :=
  let '(i, value) := st in
  if decide (i < cells) then
    let start := i * 4 in
    if decide (len buf < start + 4) then Ret (inr value)
    else w ← be_at buf start; Ret (inl (i + 1, Z.lor (shl64 value 32) w))
  else Ret (inr value).
Definition read_cells (buf : list Z) (cells : Z) : outcome Z :=
  loop (S (length buf)) (read_cells_body buf cells) (0, 0).

Definition read_cells_trunc (buf : list Z) (cells : Z) : outcome Z :=
  if decide (cells ≤ 2) then read_cells buf cells
  else
    let start := sat_sub64 cells 2 * 4 in
    if decide (len buf ≤ start) then Ret 0
    else s ← slice buf start (len buf); read_cells s 2.

Definition read_addr_cells (buf : list Z) (cells : Z) : outcome Z :=
  if decide (2 < cells) then read_cells_trunc buf cells else read_cells buf cells.

(** ** The header *)

Record fdt := mkFdt { fdt_total_size : Z; struct_block : list Z; strings_block : list Z }.

Definition open_fdt (m : mem) (dtb_pa : Z) : outcome (option fdt) :=
  let header := load_bytes m dtb_pa 40 in
  magic ← be_at header 0;
  if decide (magic ≠ FDT_MAGIC) then Ret None
  else
    total_size ← be_at header 4;
    off_dt_struct ← be_at header 8;
    off_dt_strings ← be_at header 12;
    size_dt_struct ← be_at header 36;
    size_dt_strings ← be_at header 32;
    Ret (Some (mkFdt total_size
      (load_bytes m (dtb_pa + off_dt_struct) (Z.to_nat size_dt_struct))
      (load_bytes m (dtb_pa + off_dt_strings) (Z.to_nat size_dt_strings)))).

(** ** The token loop *)

(** A reader's reactions; an [inr] returns from the reader at once. *)
Record handlers (A R : Type) := mkHandlers {
  on_begin : list Z → A → outcome A;
  on_end : A → outcome (A + R);
  on_prop : list Z → list Z → A → outcome (A + R)
}.
Arguments mkHandlers {A R}.
Arguments on_begin {A R}.
Arguments on_end {A R}.
Arguments on_prop {A R}.

Section walk.
Context {A R : Type} (h : handlers A R) (sb strings : list Z).

(** One iteration, [inr (inl a)] when the loop is left by its condition or a [break]. *)
Definition walk_body (st : Z * A) : outcome (Z * A + (A + R)) :=
  let '(offset, a) := st in
  if decide (offset + 4 ≤ len sb) then
    token ← be_at sb offset;
    let offset := offset + 4 in
    if decide (token = FDT_BEGIN_NODE) then
      en ← scan_nul sb offset;
      name ← slice sb offset en;
      a ← on_begin h name a;
      Ret (inl (align4 (en + 1), a))
    else if decide (token = FDT_END_NODE) then
      r ← on_end h a;
      Ret (match r with inl a => inl (offset, a) | inr r => inr (inr r) end)
    else if decide (token = FDT_PROP) then
      if decide (len sb < offset + 8) then Ret (inr (inl a))
      else
        ln ← be_at sb offset;
        nameoff ← be_at sb (offset + 4);
        let offset := offset + 8 in
        if decide (len sb < offset + ln) then Ret (inr (inl a))
        else
          value ← slice sb offset (offset + ln);
          let offset := align4 (offset + ln) in
          name ← get_string strings nameoff;
          r ← on_prop h name value a;
          Ret (match r with inl a => inl (offset, a) | inr r => inr (inr r) end)
    else if decide (token = FDT_NOP) then Ret (inl (offset, a))
    else Ret (inr (inl a))
  else Ret (inr (inl a)).

Definition walk (a : A) : outcome (A + R) := loop (S (length sb)) walk_body (0, a).
End walk.

(** ** Strings *)

Fixpoint until_nul (l : list Z) : list Z :=
  match l with [] => [] | b :: l => if decide (b = 0) then [] else b :: until_nul l end.

Lemma until_nul_len l : 0 ≤ len (until_nul l) ≤ len l.
Proof. unfold len. induction l; simpl; [lia|]. case_decide; simpl; lia. Qed.

Lemma until_nul_app l l' : Forall (λ b, b ≠ 0) l → until_nul (l ++ 0 :: l') = l.
Proof.
  induction 1 as [|b l Hb _ IH]; simpl; [done|]. rewrite decide_False by done. by rewrite IH.
Qed.

Lemma until_nul_take l : take (length (until_nul l)) l = until_nul l.
Proof. induction l as [|b l IH]; simpl; [done|]. case_decide; simpl; [done|]. by rewrite IH. Qed.

Lemma drop_cons (l : list Z) (o : Z) : 0 ≤ o < len l →
  ∃ b, aget l o = Ret b ∧ drop (Z.to_nat o) l = b :: drop (Z.to_nat (o + 1)) l.
Proof.
  intros Ho. destruct (aget_total l o Ho) as (b & Hb & Hl). exists b. split; [done|].
  rewrite (drop_S _ _ _ Hl). do 2 f_equal. lia.
Qed.

Lemma scan_nul_ok buf o : 0 ≤ o ≤ len buf →
  scan_nul buf o = Ret (o + len (until_nul (drop (Z.to_nat o) buf))).
Proof.
  intros Ho. cut (returns (scan_nul buf o)
    (λ e, e = o + len (until_nul (drop (Z.to_nat o) buf)))).
  { intros (e & -> & ->)%returns_eq. done. }
  apply (returns_loop (λ x, 0 ≤ x ≤ len buf ∧ x + len (until_nul (drop (Z.to_nat x) buf)) =
    o + len (until_nul (drop (Z.to_nat o) buf))) (λ x, Z.to_nat (len buf - x))); [|done|].
  - intros x [Hx He]. unfold scan_nul_body. case_decide as Hlt.
    + destruct (drop_cons buf x) as (b & -> & Hd); [lia|]. rewrite Hd in He. simpl in He |- *.
      case_decide; simpl.
      * unfold len in He at 1. simpl in He. lia.
      * split; [split; [lia|]|lia]. unfold len in *. simpl in He. lia.
    + simpl. rewrite drop_ge in He by (unfold len in *; lia). unfold len in He at 1. simpl in He. lia.
  - unfold len. lia.
Qed.

Lemma slice_mid (pre mid post : list Z) a b : a = len pre → b = a + len mid →
  slice (pre ++ mid ++ post) a b = Ret mid.
Proof.
  intros -> ->. rewrite slice_ret; [|unfold len; lia|rewrite !len_app; unfold len; lia].
  replace (Z.to_nat (len pre)) with (length pre) by (unfold len; lia).
  replace (Z.to_nat (len pre + len mid - len pre)) with (length mid) by (unfold len; lia).
  by rewrite drop_app_length, take_app_length.
Qed.

Lemma slice_until buf o : 0 ≤ o ≤ len buf →
  slice buf o (o + len (until_nul (drop (Z.to_nat o) buf))) = Ret (until_nul (drop (Z.to_nat o) buf)).
Proof.
  intros Ho. pose proof (until_nul_len (drop (Z.to_nat o) buf)) as Hl.
  unfold len in Hl at 3. rewrite length_drop in Hl. rewrite slice_ret by (unfold len in *; lia).
  replace (Z.to_nat _) with (length (until_nul (drop (Z.to_nat o) buf))) by (unfold len; lia).
  by rewrite until_nul_take.
Qed.

Lemma get_string_ok strings o : 0 ≤ o →
  get_string strings o = Ret (until_nul (drop (Z.to_nat o) strings)).
Proof.
  intros Ho. unfold get_string. case_decide.
  - by rewrite drop_ge by (unfold len in *; lia).
  - rewrite scan_nul_ok by lia. simpl. apply slice_until. lia.
Qed.

Lemma name_starts_with_ok name prefix :
  name_starts_with name prefix = Ret (bool_decide (prefix `prefix_of` name)).
Proof.
  unfold name_starts_with. case_decide as Hl.
  - rewrite bool_decide_eq_false_2; [done|]. intros (k & ->). rewrite len_app in Hl. unfold len in Hl. lia.
  - rewrite slice_ret by (unfold len in *; lia). simpl. f_equal. apply bool_decide_ext.
    rewrite drop_0, Z.sub_0_r. unfold len. rewrite Nat2Z.id. split.
    + intros <-. eexists. symmetry. apply take_drop.
    + intros (k & ->). apply take_app_length.
Qed.

(** The non-empty NUL-separated strings of a property value. *)
Fixpoint strings_of (n : nat) (l : list Z) : list (list Z) :=
  match n with
  | O => []
  | S n =>
      match l with
      | [] => []
      | _ => until_nul l :: strings_of n (drop (S (length (until_nul l))) l)
      end
  end.

Lemma value_has_string_ok buf needle : needle ≠ [] →
  value_has_string buf needle = Ret (bool_decide (needle ∈ strings_of (length buf) buf)).
Proof.
  intros Hne. unfold value_has_string.
  cut (∀ n k o, 0 ≤ o → (Z.to_nat (len buf - o) ≤ n)%nat → (Z.to_nat (len buf - o) < k)%nat →
    loop k (value_has_string_body buf needle) o =
    Ret (bool_decide (needle ∈ strings_of n (drop (Z.to_nat o) buf)))).
  { intros Hc. rewrite (Hc (length buf)); [done|lia|unfold len; lia|unfold len; lia]. }
  induction n as [|n IH]; intros k o Ho Hn Hk; (destruct k as [|k]; [lia|]); cbn [loop];
    unfold value_has_string_body at 2.
  { by rewrite decide_False by (unfold len in *; lia). }
  case_decide as Hlt.
  - rewrite scan_nul_ok by lia. cbn [mbind outcome_bind].
    destruct (drop_cons buf o) as (b & _ & Hd); [lia|].
    set (s := until_nul (drop (Z.to_nat o) buf)) in *.
    assert (strings_of (S n) (drop (Z.to_nat o) buf) =
      s :: strings_of n (drop (Z.to_nat (o + len s + 1)) buf)) as ->.
    { unfold s. rewrite Hd. cbn [strings_of]. rewrite <-Hd. fold s. rewrite drop_drop. do 3 f_equal.
      unfold len. lia. }
    assert ((if decide (o < o + len s) then s0 ← slice buf o (o + len s); Ret (bool_decide (s0 = needle))
             else Ret false) = Ret (bool_decide (s = needle))) as ->.
    { case_decide as Hs; [by rewrite slice_until by lia|].
      assert (s = []) as -> by (destruct s; [done|unfold len in Hs; simpl in Hs; lia]).
      by rewrite bool_decide_eq_false_2. }
    cbn [mbind outcome_bind]. case_bool_decide as Hhit; simpl.
    + rewrite bool_decide_eq_true_2; [done|]. rewrite Hhit. by left.
    + pose proof (until_nul_len (drop (Z.to_nat o) buf)). fold s in H.
      rewrite IH by lia. f_equal. apply bool_decide_ext. rewrite elem_of_cons. naive_solver.
  - simpl. by rewrite drop_ge by (unfold len in *; lia).
Qed.

(** ** Big-endian numbers *)

Definition be_num (l : list Z) : Z := fold_left (λ v b, v * 256 + b) l 0.
Definition be32 (v : Z) : list Z := [byte_of v 3; byte_of v 2; byte_of v 1; byte_of v 0].
Definition u8s (l : list Z) : Prop := Forall is_u8 l.

Lemma be_num_app l l' : be_num (l ++ l') = be_num l * 256 ^ len l' + be_num l'.
Proof.
  induction l' as [|b l' IH] using rev_ind.
  { rewrite app_nil_r. unfold len, be_num at 3. simpl. lia. }
  rewrite app_assoc. unfold be_num in *. rewrite (fold_left_app _ (l ++ l')), IH, (fold_left_app _ l'), len_app. simpl.
  change (len [b]) with 1. rewrite Z.pow_add_r by (try apply len_nonneg; lia). lia.
Qed.

Lemma be_num_range l : u8s l → 0 ≤ be_num l < 256 ^ len l.
Proof.
  unfold u8s. induction l as [|b l IH] using rev_ind; [done|].
  rewrite Forall_app, Forall_singleton. intros [Hl%IH Hb].
  rewrite be_num_app, len_app. change (be_num [b]) with b. change (len [b]) with 1.
  rewrite Z.pow_add_r by (try apply len_nonneg; lia). unfold is_u8 in Hb. lia.
Qed.

Lemma be_num_be32 v : is_u32 v → be_num (be32 v) = v.
Proof.
  intros Hv. pose proof (word_bytes v Hv) as Hw. unfold be_num, be32. cbn [fold_left].
  change (2 ^ 8) with 256 in Hw. change (2 ^ 16) with 65536 in Hw.
  change (2 ^ 24) with 16777216 in Hw. lia.
Qed.

Lemma lor_shift_add a b k : 0 ≤ k → 0 ≤ b < 2 ^ k → Z.lor (a * 2 ^ k) b = a * 2 ^ k + b.
Proof.
  intros Hk Hb. assert (Z.land (a * 2 ^ k) b = 0) as H0.
  { apply Z.bits_inj'. intros n Hn. rewrite Z.land_spec, Z.bits_0.
    destruct (decide (n < k)).
    - by rewrite Z.mul_pow2_bits_low by lia.
    - rewrite <-(Z.mod_small b (2 ^ k)) by lia. rewrite Z.mod_pow2_bits_high by lia.
      apply andb_false_r. }
  rewrite <-Z.lxor_lor by done. symmetry. by apply Z.add_nocarry_lxor.
Qed.

Lemma shl32_byte b k : is_u8 b → 0 ≤ k ≤ 24 → shl32 b k = b * 2 ^ k.
Proof.
  intros Hb Hk. unfold shl32, wrap32. rewrite (Z.mod_small k) by lia. rewrite Z.shiftl_mul_pow2 by lia.
  apply Z.mod_small. assert (0 < 2 ^ k) by lia. assert (2 ^ k ≤ 2 ^ 24) by (apply Z.pow_le_mono_r; lia).
  unfold is_u8 in Hb. change U32 with (256 * 2 ^ 24). nia.
Qed.

Lemma read_be_u32_ok b0 b1 b2 b3 l : u8s [b0; b1; b2; b3] →
  read_be_u32 (b0 :: b1 :: b2 :: b3 :: l) = Ret (be_num [b0; b1; b2; b3]).
Proof.
  unfold u8s. rewrite !Forall_cons. intros (H0 & H1 & H2 & H3 & _).
  assert (∀ i b, 0 ≤ i → (b0 :: b1 :: b2 :: b3 :: l) !! Z.to_nat i = Some b →
    aget (b0 :: b1 :: b2 :: b3 :: l) i = Ret b) as Hg by (intros; by apply aget_ret).
  unfold read_be_u32. rewrite (Hg 0 b0), (Hg 1 b1), (Hg 2 b2), (Hg 3 b3) by done. clear Hg.
  cbn [mbind outcome_bind]. rewrite !shl32_byte by (done || lia). f_equal.
  unfold is_u8 in *.
  rewrite (lor_shift_add b0 (b1 * 2 ^ 16) 24) by lia.
  replace (b0 * 2 ^ 24 + b1 * 2 ^ 16) with ((b0 * 2 ^ 8 + b1) * 2 ^ 16) by lia.
  rewrite (lor_shift_add _ (b2 * 2 ^ 8) 16) by lia.
  replace ((b0 * 2 ^ 8 + b1) * 2 ^ 16 + b2 * 2 ^ 8)
    with ((b0 * 2 ^ 16 + b1 * 2 ^ 8 + b2) * 2 ^ 8) by lia.
  rewrite (lor_shift_add _ b3 8) by lia. unfold be_num. simpl. lia.
Qed.

(** Reading inside a block of bytes gives a u32. *)
Lemma be_at_ok buf a : u8s buf → 0 ≤ a → a + 4 ≤ len buf →
  be_at buf a = Ret (be_num (take 4 (drop (Z.to_nat a) buf))) ∧
  is_u32 (be_num (take 4 (drop (Z.to_nat a) buf))).
Proof.
  intros Hb Ha Hl. unfold be_at. rewrite slice_ret by lia.
  replace (Z.to_nat (a + 4 - a)) with 4%nat by lia.
  assert (u8s (drop (Z.to_nat a) buf)) as Hd by by apply Forall_drop.
  destruct (drop (Z.to_nat a) buf) as [|b0 [|b1 [|b2 [|b3 l]]]] eqn:He;
    try (apply (f_equal length) in He; rewrite length_drop in He; unfold len in Hl; simpl in He; lia).
  assert (u8s [b0; b1; b2; b3]) as H4.
  { unfold u8s in *. rewrite !Forall_cons in *. naive_solver. }
  simpl take. cbn [mbind outcome_bind]. rewrite read_be_u32_ok by done.
  split; [done|]. apply (be_num_range _ H4).
Qed.

Lemma be_at_mid pre v post a : a = len pre → is_u32 v → be_at (pre ++ be32 v ++ post) a = Ret v.
Proof.
  intros Ha Hv. unfold be_at. rewrite (slice_mid pre (be32 v) post) by done.
  cbn [mbind outcome_bind]. unfold be32. rewrite read_be_u32_ok.
  - f_equal. by apply be_num_be32.
  - unfold u8s. rewrite !Forall_cons. unfold is_u8. pose proof (byte_of_range v). auto.
Qed.

(** ** Cells *)

Lemma shift_in x w : is_u32 w → Z.lor (shl64 (x mod U64) 32) w = (x * 2 ^ 32 + w) mod U64.
Proof.
  intros Hw. unfold is_u32 in Hw. unfold shl64, wrap64. rewrite (Z.mod_small 32 64) by lia.
  rewrite Z.shiftl_mul_pow2 by lia. change U64 with (2 ^ 32 * 2 ^ 32).
  rewrite Z.mul_mod_distr_r by lia.
  assert ((x mod (2 ^ 32 * 2 ^ 32)) mod 2 ^ 32 = x mod 2 ^ 32) as ->.
  { apply Z.mod_mod_divide. by exists (2 ^ 32). }
  rewrite lor_shift_add by lia. apply Z.mod_unique with (x / 2 ^ 32).
  - left. pose proof (Z.mod_pos_bound x (2 ^ 32) ltac:(lia)). lia.
  - pose proof (Z.div_mod x (2 ^ 32) ltac:(lia)). lia.
Qed.

(** [cells] big-endian 32-bit words make one number, of which the low 64 bits are kept. *)
Lemma read_cells_ok buf cells : u8s buf → 0 ≤ cells →
  read_cells buf cells =
    Ret (be_num (take (Z.to_nat (4 * Z.min cells (len buf / 4))) buf) mod U64).
Proof.
  intros Hb Hc. set (n := Z.min cells (len buf / 4)).
  assert (4 * (len buf / 4) ≤ len buf < 4 * (len buf / 4) + 4) as Hdiv
    by (pose proof (Z.div_mod (len buf) 4); pose proof (Z.mod_pos_bound (len buf) 4); lia).
  pose proof (len_nonneg buf) as Hl0.
  cut (returns (read_cells buf cells) (λ v, v = be_num (take (Z.to_nat (4 * n)) buf) mod U64)).
  { by intros (v & -> & ->)%returns_eq. }
  apply (returns_loop (λ '(i, v), 0 ≤ i ≤ n ∧ v = be_num (take (Z.to_nat (4 * i)) buf) mod U64)
    (λ '(i, _), Z.to_nat (len buf - i))); [|split; [lia|done]|unfold len; lia].
  intros [i v] [Hi ->]. unfold read_cells_body. case_decide as Hlt.
  - case_decide as Hend; [simpl; repeat f_equal; lia|].
    destruct (be_at_ok buf (i * 4)) as [-> Hw]; [done|lia..|]. cbn [mbind outcome_bind returns].
    split; [|unfold len in *; lia]. split; [lia|].
    rewrite shift_in by done. f_equal.
    replace (Z.to_nat (4 * (i + 1))) with (Z.to_nat (4 * i) + 4)%nat by lia.
    rewrite <-take_take_drop, be_num_app. replace (i * 4) with (4 * i) by lia.
    assert (len (take 4 (drop (Z.to_nat (4 * i)) buf)) = 4) as ->; [|done].
    unfold len in *. rewrite length_take, length_drop. lia.
  - simpl. repeat f_equal. lia.
Qed.

(** The low two cells of a longer number. *)
Lemma be_num_suffix l l' : u8s l' → len l' = 8 → be_num (l ++ l') mod U64 = be_num l'.
Proof.
  intros Hl Hn. rewrite be_num_app, Hn. pose proof (be_num_range l' Hl) as Hr. rewrite Hn in Hr.
  change (256 ^ 8) with U64 in *. rewrite Z.add_comm, Z.mod_add by lia. by apply Z.mod_small.
Qed.

Lemma read_cells_exact buf cells : u8s buf → 0 ≤ cells → len buf = 4 * cells →
  read_cells buf cells = Ret (be_num buf mod U64).
Proof.
  intros Hb Hc Hl. rewrite read_cells_ok by done. do 3 f_equal. apply take_ge.
  assert (len buf / 4 = cells) as -> by (rewrite Hl, Z.mul_comm; apply Z.div_mul; lia).
  unfold len in *. lia.
Qed.

Lemma read_cells_trunc_exact buf cells : u8s buf → 0 ≤ cells → len buf = 4 * cells →
  read_cells_trunc buf cells = Ret (be_num buf mod U64).
Proof.
  intros Hb Hc Hl. unfold read_cells_trunc. case_decide; [by apply read_cells_exact|].
  unfold sat_sub64. rewrite Z.max_l by lia. rewrite decide_False by lia.
  rewrite slice_ret by lia. cbn [mbind outcome_bind].
  set (k := Z.to_nat ((cells - 2) * 4)).
  rewrite take_ge by (rewrite length_drop; unfold len in *; lia).
  assert (len (drop k buf) = 8) as Hd by (unfold len, k in *; rewrite length_drop; lia).
  rewrite read_cells_exact by (done || by apply Forall_drop || lia). f_equal.
  pose proof (Forall_drop _ k _ Hb) as Hbd.
  rewrite <-(be_num_suffix (take k buf) (drop k buf)) by done. rewrite take_drop.
  apply Z.mod_small. apply Z.mod_pos_bound. lia.
Qed.

Lemma read_addr_cells_exact buf cells : u8s buf → 0 ≤ cells → len buf = 4 * cells →
  read_addr_cells buf cells = Ret (be_num buf mod U64).
Proof.
  intros. unfold read_addr_cells. case_decide; [by apply read_cells_trunc_exact|by apply read_cells_exact].
Qed.

(** ** The token loop on arbitrary bytes *)

(** [m] ends: it returns a value satisfying [Q] or, where [p] allows it, panics. *)
Definition ends {A} (p : bool) (m : outcome A) (Q : A → Prop) : Prop :=
  match m with Ret a => Q a | Panic => p = true | _ => False end.

Section ends_rules.
Context {A B : Type} (p : bool).
Implicit Types (m : outcome A) (f : A → outcome B) (Q : A → Prop).

Lemma ends_returns m Q : returns m Q → ends p m Q.
Proof. by destruct m. Qed.

Lemma ends_mono m Q Q' : ends p m Q → (∀ a, Q a → Q' a) → ends p m Q'.
Proof. destruct m; simpl; auto. Qed.

Lemma ends_bind m f (Q : B → Prop) : ends p m (λ a, ends p (f a) Q) → ends p (a ← m; f a) Q.
Proof. by destruct m. Qed.

Lemma ends_fuelled m Q : ends p m Q → fuelled m.
Proof. by destruct m. Qed.
End ends_rules.

Lemma ends_loop {S R} p (I : S → Prop) (mu : S → nat) (body : S → outcome (S + R)) (Q : R → Prop) :
  (∀ s, I s → ends p (body s) (λ r,
     match r with inl s' => I s' ∧ (mu s' < mu s)%nat | inr r => Q r end)) →
  ∀ fuel s, I s → (mu s < fuel)%nat → ends p (loop fuel body s) Q.
Proof.
  intros Hbody. induction fuel as [|n IH]; intros s HI Hmu; [lia|]. simpl.
  apply ends_bind. eapply ends_mono; [by apply Hbody|].
  intros [s'|r]; [|done]. intros [HI' Hlt]. apply IH; [done|lia].
Qed.

Lemma align4_ok v : 0 ≤ v → v + 3 < U64 →
  v ≤ align4 v ≤ v + 3 ∧ align4 v mod 4 = 0.
Proof.
  intros Hv Hb. unfold align4, add64, wrap64. rewrite (Z.mod_small (v + 3)) by lia.
  assert (Z.land (v + 3) (not64 3) = v + 3 - (v + 3) mod 4) as ->
    by (apply (land_not64_pow2 _ 2); unfold is_u64; lia).
  pose proof (Z.mod_pos_bound (v + 3) 4 ltac:(lia)).
  split; [lia|]. rewrite Zminus_mod, Z.mod_mod, Z.sub_diag by lia. done.
Qed.

Section walk_ends.
Context {A R : Type} (h : handlers A R) (sb strings : list Z).
Context (Hsb : u8s sb) (Hlen : len sb < U32).
Context (p : bool) (I : A → Prop) (Q : R → Prop).
Context (Hbegin : ∀ name a, u8s name → I a → ends p (on_begin h name a) I).
Context (Hend : ∀ a, I a → ends p (on_end h a) (λ r, match r with inl a => I a | inr r => Q r end)).
Context (Hprop : ∀ name value a, u8s value → len value < U32 → I a →
  ends p (on_prop h name value a) (λ r, match r with inl a => I a | inr r => Q r end)).

Lemma u8s_slice (l s : list Z) a b : u8s l → slice l a b = Ret s → u8s s.
Proof.
  unfold slice. intros Hl H. case_decide; [|done]. injection H as <-.
  by apply Forall_take, Forall_drop.
Qed.

(** However damaged the block, the loop ends. *)
Lemma walk_ends a : I a →
  ends p (walk h sb strings a) (λ r, match r with inl a => I a | inr r => Q r end).
Proof.
  intros HI. apply (ends_loop p (λ '(o, a), 0 ≤ o ∧ I a) (λ '(o, _), Z.to_nat (len sb - o)));
    [|done|unfold len; lia].
  clear a HI. intros [o a] [Ho HI]. unfold walk_body. case_decide as Hlt; [|done].
  destruct (be_at_ok sb o) as [-> _]; [done|lia..|]. cbn [mbind outcome_bind].
  set (token := be_num _).
  destruct (decide (token = FDT_BEGIN_NODE)); [|destruct (decide (token = FDT_END_NODE));
    [|destruct (decide (token = FDT_PROP)); [|destruct (decide (token = FDT_NOP))]]].
  - rewrite scan_nul_ok by lia. cbn [mbind outcome_bind].
    set (n := until_nul _). pose proof (until_nul_len (drop (Z.to_nat (o + 4)) sb)) as Hn. fold n in Hn.
    unfold n. rewrite slice_until by lia. fold n. cbn [mbind outcome_bind].
    apply ends_bind. eapply ends_mono.
    { apply Hbegin; [|done]. eapply (u8s_slice sb); [done|]. apply (slice_until sb (o + 4)). lia. }
    intros a' HI'. assert (len (drop (Z.to_nat (o + 4)) sb) ≤ len sb) as Hd.
    { unfold len. rewrite length_drop. lia. }
    destruct (align4_ok (o + 4 + len n + 1)); [lia..|]. simpl. split; [split; [lia|done]|lia].
  - apply ends_bind. eapply ends_mono; [by apply Hend|]. intros [a'|r] Hr; simpl; [|done].
    split; [split; [lia|done]|lia].
  - case_decide; [done|]. destruct (be_at_ok sb (o + 4)) as [-> Hln]; [done|lia..|].
    destruct (be_at_ok sb (o + 4 + 4)) as [-> Hno]; [done|lia..|]. cbn [mbind outcome_bind].
    set (ln := be_num (take 4 (drop (Z.to_nat (o + 4)) sb))) in *. clearbody token.
    unfold is_u32 in *.
    case_decide; [done|]. destruct (slice sb _ _) as [value| | |] eqn:Hv;
      [|rewrite slice_ret in Hv by lia; done..]. cbn [mbind outcome_bind].
    rewrite get_string_ok by lia. cbn [mbind outcome_bind]. apply ends_bind.
    eapply ends_mono; [apply Hprop; [by eapply u8s_slice| |done]|].
    { rewrite (slice_len _ _ _ _ Hv). lia. }
    destruct (align4_ok (o + 4 + 8 + ln)); [lia..|].
    intros [a'|r] Hr; simpl; [|done]. split; [split; [lia|done]|lia].
  - simpl. split; [split; [lia|done]|lia].
  - done.
Qed.
End walk_ends.

(** The header of any image is read; the structure block it delimits is less than 4 GiB. *)
Definition bytes_mem (m : mem) : Prop := ∀ a, is_u8 (m a).

Lemma load_bytes_u8s m a n : bytes_mem m → u8s (load_bytes m a n).
Proof. intros Hm. revert a. induction n; intros a; simpl; constructor; [apply Hm|apply IHn]. Qed.

Lemma open_fdt_ok m pa : bytes_mem m →
  returns (open_fdt m pa) (λ o, match o with
    | Some f => u8s (struct_block f) ∧ len (struct_block f) < U32
    | None => True
    end).
Proof.
  intros Hm. unfold open_fdt. set (h := load_bytes m pa 40).
  assert (u8s h) as Hh by by apply load_bytes_u8s.
  assert (len h = 40) as Hl by (unfold len, h; by rewrite length_load_bytes).
  clearbody h. destruct (be_at_ok h 0) as [-> _]; [done|lia..|]. cbn [mbind outcome_bind].
  case_decide; [done|].
  destruct (be_at_ok h 4) as [-> _]; [done|lia..|]. destruct (be_at_ok h 8) as [-> _]; [done|lia..|].
  destruct (be_at_ok h 12) as [-> _]; [done|lia..|]. destruct (be_at_ok h 36) as [-> Hs]; [done|lia..|].
  destruct (be_at_ok h 32) as [-> _]; [done|lia..|]. cbn [mbind outcome_bind returns struct_block].
  split; [by apply load_bytes_u8s|]. unfold len, is_u32 in *. rewrite length_load_bytes. lia.
Qed.

(** ** The token loop on well-formed blocks *)

Ltac u32_const := first [done | split; vm_compute; [discriminate|reflexivity]].

Inductive token :=
| TBegin (name : list Z)
| TEnd
| TProp (nameoff : Z) (value : list Z)
| TNop.

Definition pad4 (l : list Z) : list Z := l ++ replicate (Z.to_nat ((- len l) mod 4)) 0.

Definition encode_token (t : token) : list Z :=
  match t with
  | TBegin name => be32 FDT_BEGIN_NODE ++ pad4 (name ++ [0])
  | TEnd => be32 FDT_END_NODE
  | TProp nameoff value => be32 FDT_PROP ++ be32 (len value) ++ be32 nameoff ++ pad4 value
  | TNop => be32 FDT_NOP
  end.

(** A structure block as the format describes it. *)
Definition encode (ts : list token) : list Z := concat (encode_token <$> ts) ++ be32 FDT_END.

Definition token_ok (t : token) : Prop :=
  match t with
  | TBegin name => Forall (λ b, b ≠ 0) name
  | TProp nameoff value => len value < U32 ∧ is_u32 nameoff
  | _ => True
  end.

Section encoded.
Context {A R : Type} (h : handlers A R) (strings : list Z).

Definition react (t : token) (a : A) : outcome (A + R) :=
  match t with
  | TBegin name => a ← on_begin h name a; Ret (inl a)
  | TEnd => on_end h a
  | TProp nameoff value => on_prop h (until_nul (drop (Z.to_nat nameoff) strings)) value a
  | TNop => Ret (inl a)
  end.

(** The handlers' reactions to the tokens, in order, up to the first return. *)
Fixpoint run (ts : list token) (a : A) : outcome (A + R) :=
  match ts with
  | [] => Ret (inl a)
  | t :: ts => r ← react t a; match r with inl a => run ts a | inr r => Ret (inr r) end
  end.

Lemma len_pad4 l : len (pad4 l) mod 4 = 0 ∧ len l ≤ len (pad4 l) ≤ len l + 3.
Proof.
  unfold pad4. rewrite len_app. set (k := (- len l) mod 4).
  assert (len (replicate (Z.to_nat k) 0) = Z.of_nat (Z.to_nat k)) as ->
    by (unfold len; by rewrite length_replicate). unfold k.
  pose proof (Z.mod_pos_bound (- len l) 4 ltac:(lia)). rewrite Z2Nat.id by lia. split; [|lia].
  rewrite Zplus_mod, Z.mod_mod, <-Zplus_mod, Z.add_opp_diag_r by lia. done.
Qed.

Lemma align4_pad x l : 0 ≤ x → x mod 4 = 0 → x + len l + 3 < U64 →
  align4 (x + len l) = x + len (pad4 l).
Proof.
  intros Hx Hm Hb. pose proof (len_nonneg l). destruct (align4_ok (x + len l)) as [H1 H2]; [lia..|].
  destruct (len_pad4 l) as [H3 H4].
  assert ((x + len (pad4 l)) mod 4 = 0) as H5 by (rewrite Zplus_mod, Hm, H3; done).
  generalize dependent (align4 (x + len l)). generalize dependent (len (pad4 l)). intros.
  clear Hm H3. Z.to_euclidean_division_equations. lia.
Qed.

Lemma be32_len v : len (be32 v) = 4.
Proof. done. Qed.

Lemma len_encode_token t : 4 ≤ len (encode_token t) ∧ len (encode_token t) mod 4 = 0.
Proof.
  destruct t as [name| |no v|]; cbn [encode_token]; rewrite ?len_app, ?be32_len; try (split; done || lia).
  - destruct (len_pad4 (name ++ [0])) as [H1 H2]. pose proof (len_nonneg (name ++ [0])).
    split; [lia|]. by rewrite Zplus_mod, H1.
  - destruct (len_pad4 v) as [H1 H2]. pose proof (len_nonneg v). split; [lia|].
    replace (4 + (4 + (4 + len (pad4 v)))) with (12 + len (pad4 v)) by lia. by rewrite Zplus_mod, H1.
Qed.

Section step.
Context (pre post : list Z) (Hpre : len pre mod 4 = 0).

(** One turn of the loop at [t] is the handler's reaction to it. *)
Definition consumed (t : token) : Prop := ∀ a,
  token_ok t → len (pre ++ encode_token t ++ post) < U32 →
  walk_body h (pre ++ encode_token t ++ post) strings (len pre, a) =
    (r ← react t a;
     Ret (match r with inl a => inl (len pre + len (encode_token t), a) | inr r => inr (inr r) end)).

Lemma begin_consumed name : consumed (TBegin name).
Proof.
  intros a Hok Hlen. destruct (len_encode_token (TBegin name)) as [Ht _].
  rewrite !len_app in Hlen. pose proof (len_nonneg post). pose proof (len_nonneg pre).
  unfold walk_body. rewrite decide_True by (rewrite !len_app; lia).
  cbn [encode_token] in *. rewrite <-?app_assoc.
  rewrite (be_at_mid pre _ _ (len pre)) by u32_const. cbn [mbind outcome_bind]. rewrite decide_True by done.
  set (sb := pre ++ be32 FDT_BEGIN_NODE ++ pad4 (name ++ [0]) ++ post).
  rewrite !len_app, be32_len in Hlen, Ht.
  destruct (len_pad4 (name ++ [0])) as [_ Hp]. rewrite len_app in Hp. change (len [0]) with 1 in Hp.
  assert (len sb = len pre + (4 + (len (pad4 (name ++ [0])) + len post))) as Hsb
    by (unfold sb; by rewrite !len_app, be32_len).
  assert (until_nul (drop (Z.to_nat (len pre + 4)) sb) = name) as Hname.
  { unfold sb. rewrite app_assoc, drop_app_length'.
    - unfold pad4. rewrite <-!app_assoc. by apply until_nul_app.
    - unfold len, be32. rewrite length_app. simpl. lia. }
  pose proof (len_nonneg name).
  rewrite scan_nul_ok by lia. rewrite Hname. cbn [mbind outcome_bind].
  rewrite <-Hname at 1. rewrite slice_until by lia. rewrite Hname. cbn [mbind outcome_bind].
  simpl react. destruct (on_begin h name a); try done. cbn [mbind outcome_bind].
  repeat f_equal. rewrite len_app, be32_len.
  replace (len pre + 4 + len name + 1) with ((len pre + 4) + len (name ++ [0]))
    by (rewrite len_app; change (len [0]) with 1; lia).
  rewrite align4_pad; [lia|lia| |rewrite len_app; change (len [0]) with 1; lia].
  by rewrite Zplus_mod, Hpre.
Qed.

Lemma prop_consumed no v : consumed (TProp no v).
Proof.
  intros a Hok Hlen. destruct (len_encode_token (TProp no v)) as [Ht _].
  rewrite !len_app in Hlen. pose proof (len_nonneg post). pose proof (len_nonneg pre).
  unfold walk_body. rewrite decide_True by (rewrite !len_app; lia).
  cbn [encode_token] in *. rewrite <-?app_assoc.
  destruct Hok as [Hv Hno]. rewrite (be_at_mid pre _ _ (len pre)) by u32_const. cbn [mbind outcome_bind].
  set (sb := pre ++ be32 FDT_PROP ++ be32 (len v) ++ be32 no ++ pad4 v ++ post).
  destruct (len_pad4 v) as [_ Hp]. pose proof (len_nonneg v).
  assert (len sb = len pre + (4 + (4 + (4 + (len (pad4 v) + len post))))) as Hsb
    by (unfold sb; by rewrite !len_app, !be32_len).
  rewrite !len_app, !be32_len in Hlen, Ht.
  rewrite 2!decide_False by done. rewrite decide_True by done. rewrite decide_False by lia.
  assert (be_at sb (len pre + 4) = Ret (len v)) as ->.
  { unfold sb. rewrite app_assoc. apply be_at_mid; [by rewrite len_app|]. unfold is_u32. lia. }
  assert (be_at sb (len pre + 4 + 4) = Ret no) as ->.
  { unfold sb. rewrite (app_assoc pre), (app_assoc _ (be32 (len v))).
    apply be_at_mid; [by rewrite !len_app, !be32_len|done]. }
  cbn [mbind outcome_bind]. rewrite decide_False by lia.
  assert (slice sb (len pre + 4 + 8) (len pre + 4 + 8 + len v) = Ret v) as ->.
  { unfold sb, pad4. rewrite (app_assoc pre), (app_assoc _ (be32 (len v))), (app_assoc _ (be32 no)).
    rewrite <-(app_assoc v). apply slice_mid; [|done]. rewrite !len_app, !be32_len. lia. }
  cbn [mbind outcome_bind]. rewrite get_string_ok by apply Hno. cbn [mbind outcome_bind].
  simpl react. destruct (on_prop h _ v a) as [[a'|r]| | |]; try done. cbn [mbind outcome_bind].
  repeat f_equal. rewrite !len_app, !be32_len. rewrite align4_pad; [lia|lia| |lia].
  rewrite <-Z.add_assoc, Zplus_mod, Hpre. done.
Qed.

Lemma walk_token t : consumed t.
Proof.
  destruct t as [name| |no v|]; [apply begin_consumed| |apply prop_consumed|];
    intros a _ Hlen; cbn [encode_token] in *; rewrite !len_app, be32_len in Hlen;
    pose proof (len_nonneg post); unfold walk_body;
    rewrite decide_True, (be_at_mid pre _ _ (len pre)) by (rewrite ?len_app, ?be32_len; done || u32_const || lia).
  - simpl. by destruct (on_end h a) as [[]| | |].
  - done.
Qed.
End step.

Lemma walk_tokens ts pre fuel a : Forall token_ok ts → len pre mod 4 = 0 →
  len (pre ++ encode ts) < U32 → (length ts < fuel)%nat →
  loop fuel (walk_body h (pre ++ encode ts) strings) (len pre, a) = run ts a.
Proof.
  revert pre fuel a. induction ts as [|t ts IH]; intros pre fuel a Hok Hpre Hlen Hf.
  - apply loop_exit; [simpl in Hf; lia|]. unfold walk_body, encode. simpl concat.
    change ([] ++ be32 FDT_END) with (be32 FDT_END).
    rewrite decide_True by (rewrite len_app, be32_len; lia).
    replace (pre ++ be32 FDT_END) with (pre ++ be32 FDT_END ++ []) by by rewrite app_nil_r.
    by rewrite (be_at_mid pre _ _ (len pre)) by u32_const.
  - apply Forall_cons in Hok as [Ht Hok]. destruct fuel as [|fuel]; [lia|]. simpl in Hf.
    assert (pre ++ encode (t :: ts) = pre ++ encode_token t ++ encode ts) as Heq
      by (unfold encode; simpl; by rewrite <-app_assoc).
    rewrite Heq in Hlen |- *. cbn [loop run]. rewrite walk_token by done.
    destruct (react t a) as [[a'|r]| | |]; try done. cbn [mbind outcome_bind].
    destruct (len_encode_token t) as [_ Hm].
    rewrite app_assoc, <-len_app. apply IH; [done| | |lia].
    + rewrite len_app, Zplus_mod, Hpre, Hm. done.
    + by rewrite <-app_assoc.
Qed.

Lemma length_encode ts : (length ts ≤ length (encode ts))%nat.
Proof.
  unfold encode. rewrite length_app. induction ts as [|t ts IH]; [simpl; lia|].
  change (concat (encode_token <$> t :: ts)) with (encode_token t ++ concat (encode_token <$> ts)).
  rewrite length_app. destruct (len_encode_token t) as [H _]. unfold len in H. simpl in *. lia.
Qed.

Lemma walk_encode ts a : Forall token_ok ts → len (encode ts) < U32 →
  walk h (encode ts) strings a = run ts a.
Proof.
  intros Hok Hlen. unfold walk. apply (walk_tokens ts []); try done.
  pose proof (length_encode ts). lia.
Qed.
End encoded.

(** ** Trees *)

(** A node: its name, its properties (offset of the name in the strings block, value) and its
    children, in the order of the block: the properties come first. *)
Inductive node := Node (name : list Z) (props : list (Z * list Z)) (children : list node).

Fixpoint tokens_of (n : node) : list token :=
  match n with
  | Node name props children =>
      TBegin name :: ((λ p, TProp p.1 p.2) <$> props) ++ flat_map tokens_of children ++ [TEnd]
  end.

Fixpoint height (n : node) : Z :=
  match n with Node _ _ children => 1 + fold_right (λ c, Z.max (height c)) 0 children end.

Lemma node_nested_ind (P : node → Prop) :
  (∀ name props children, Forall P children → P (Node name props children)) → ∀ n, P n.
Proof.
  intros H. fix IH 1. intros [name props children]. apply H. induction children; constructor; auto.
Qed.

Lemma height_children cs : 0 ≤ fold_right (λ c, Z.max (height c)) 0 cs.
Proof. induction cs as [|c cs IH]; cbn [fold_right]; lia. Qed.

Lemma height_pos n : 1 ≤ height n.
Proof. destruct n as [nm ps cs]. cbn [height]. pose proof (height_children cs). lia. Qed.

Lemma height_child c cs : c ∈ cs → height c ≤ fold_right (λ c, Z.max (height c)) 0 cs.
Proof. induction cs as [|c' cs IH]; [by intros ?%elem_of_nil|]. intros [->|Hc]%elem_of_cons; simpl; [lia|]. apply IH in Hc. lia. Qed.

Lemma run_app {A R} (h : handlers A R) strings ts ts' a :
  run h strings (ts ++ ts') a =
    (r ← run h strings ts a; match r with inl a => run h strings ts' a | inr r => Ret (inr r) end).
Proof.
  revert a. induction ts as [|t ts IH]; intros a; simpl; [done|].
  destruct (react h strings t a) as [[a'|r]| | |]; try done. simpl. apply IH.
Qed.

(** The name a property refers to. *)
Definition string_at (strings : list Z) (off : Z) : list Z := until_nul (drop (Z.to_nat off) strings).

(** What [find_simplefb], [parse] and the UART search see as a number. *)
Definition value_u32 (value : list Z) : Z := be_num (take 4 value).

Definition props_ok (p : list Z → list Z → Prop) (strings : list Z) : list (Z * list Z) → Prop :=
  Forall (λ pr, u8s pr.2 ∧ len pr.2 < U32 ∧ is_u32 pr.1 ∧ p (string_at strings pr.1) pr.2).

(** A tree the format can hold, whose properties satisfy [p]. *)
Inductive tree_ok (p : list Z → list Z → Prop) (strings : list Z) : node → Prop :=
| tree_ok_node name props children :
    Forall (λ b, b ≠ 0) name → props_ok p strings props →
    Forall (tree_ok p strings) children → tree_ok p strings (Node name props children).

#[export] Instance u8s_dec l : Decision (u8s l).
Proof. unfold u8s. apply _. Defined.
#[export] Instance props_ok_dec p strings ps `{∀ nm v, Decision (p nm v)} :
  Decision (props_ok p strings ps).
Proof. unfold props_ok. apply _. Defined.

(** Checking a concrete tree. *)

Ltac check_tree :=
  lazymatch goal with
  | |- tree_ok _ _ _ => constructor; check_tree
  | |- Forall (tree_ok _ _) (_ :: _) => constructor; check_tree
  | |- Forall (tree_ok _ _) [] => constructor
  | |- _ => decide_by_computation
  end.

Lemma tokens_ok p strings n : tree_ok p strings n → Forall token_ok (tokens_of n).
Proof.
  induction n as [nm ps cs IH] using node_nested_ind. intros H. inversion_clear H as [? ? ? Hn Hp Hc].
  simpl. constructor; [done|]. apply Forall_app. split.
  - apply Forall_fmap. eapply Forall_impl; [exact Hp|]. intros [no v] (_ & Hl & Hno & _). by split.
  - apply Forall_app. split; [|by repeat constructor]. clear Hp. induction cs as [|c cs IHc]; [constructor|].
    apply Forall_cons in IH as [Hic IH]. apply Forall_cons in Hc as [Hcc Hc]. simpl.
    apply Forall_app. split; [by apply Hic|by apply IHc].
Qed.

(** ** Images *)

(** An image holding a structure block and a strings block at [pa], memory being zero around it. *)
Definition image_bytes (sb strings : list Z) : list Z :=
  be32 FDT_MAGIC ++ be32 (40 + len sb + len strings) ++ be32 40 ++ be32 (40 + len sb) ++
  be32 0 ++ be32 17 ++ be32 16 ++ be32 0 ++ be32 (len strings) ++ be32 (len sb) ++ sb ++ strings.
Definition image_at (pa : Z) (sb strings : list Z) : mem := λ a,
  if decide (pa ≤ a) then default 0 (image_bytes sb strings !! Z.to_nat (a - pa)) else 0.

(** NUL-terminated strings, one after the other. *)
Definition strings_at (l : list string) : list Z := l ≫= λ s, bytes s ++ [0].

Lemma image_bytes_mem pa sb strings : u8s (image_bytes sb strings) → bytes_mem (image_at pa sb strings).
Proof.
  intros H a. unfold image_at. case_decide; [|done].
  destruct (image_bytes sb strings !! Z.to_nat (a - pa)) eqn:Hb; [|done].
  by eapply (Forall_lookup_1 is_u8).
Qed.
