(* ===== verification/Dtb.v ===== *)
(** * Reading the memory map and the boot framebuffer from the device tree

    [parse] and [find_simplefb] of [src/mm/dtb.rs]: the reactions to nodes and properties that
    each adds to the token loop of [Fdt], over an explicit stack of 32 node contexts.

    Shown: both end on every image; on the encoding of a tree no deeper than the stack they
    compute what the recursive functions [collect] and [find_fb] on that tree say; and a cell
    count of 2^32-1 makes [parse] panic. *)
From S2P Require Import Prelude Bits Memory Region Framebuffer Fdt.
Local Open Scope Z_scope.

Record NodeContext := mkCtx {
  addr_cells : Z;
  size_cells : Z;
  in_reserved : bool;
  is_memory : bool
}.

Record DtbInfo := mkInfo { total_size : Z }.

(** The context of the parent of a root node, and the initial contents of the stacks. *)
Definition root_ctx : NodeContext := mkCtx 2 2 false false.

Definition with_addr_cells (v : Z) (c : NodeContext) : NodeContext :=
  mkCtx v (size_cells c) (in_reserved c) (is_memory c).
Definition with_size_cells (v : Z) (c : NodeContext) : NodeContext :=
  mkCtx (addr_cells c) v (in_reserved c) (is_memory c).
Definition with_reserved (c : NodeContext) : NodeContext :=
  mkCtx (addr_cells c) (size_cells c) true (is_memory c).
Definition with_memory (c : NodeContext) : NodeContext :=
  mkCtx (addr_cells c) (size_cells c) (in_reserved c) true.

(** ** [parse] *)

(** The locals of [parse] that the token loop changes. *)
Record parser := mkParser { stack : list NodeContext; depth : Z; pmap : MemoryMap }.

Definition parent_of (st : list NodeContext) (d : Z) : outcome NodeContext :=
  if decide (d = 0) then Ret root_ctx else aget st (d - 1).

Definition parse_begin (name : list Z) (s : parser) : outcome parser :=
  parent ← parent_of (stack s) (depth s);
  r ← name_starts_with name (bytes "reserved-memory");
  let ctx := if (r : bool) then with_reserved parent else parent in
  m ← name_starts_with name (bytes "memory");
  let ctx := if (m : bool) then with_memory ctx else ctx in
  if decide (depth s < len (stack s)) then
    st ← aset (stack s) (depth s) ctx;
    Ret (mkParser st (depth s + 1) (pmap s))
  else Ret s.

Definition parse_end (s : parser) : outcome (parser + Empty_set) :=
  Ret (inl (if decide (0 < depth s) then mkParser (stack s) (depth s - 1) (pmap s) else s)).

(** One iteration of the loop over the entries of [reg]. *)
Definition reg_body (ctx : NodeContext) (value : list Z) (st : Z * MemoryMap) :
    outcome (Z * MemoryMap + MemoryMap) :=
  let '(pos, map) := st in
  let entry_bytes := add32 (addr_cells ctx) (size_cells ctx) * 4 in
  if decide (pos + entry_bytes ≤ len value) then
    a ← slice value pos (pos + addr_cells ctx * 4);
    addr ← read_cells a (addr_cells ctx);
    b ← slice value (pos + addr_cells ctx * 4) (pos + entry_bytes);
    size ← read_cells b (size_cells ctx);
    Ret (inl (pos + entry_bytes,
      if is_memory ctx then add_region map addr size UsableRam
      else if in_reserved ctx then add_region map addr size Reserved else map))
  else Ret (inr map).

Definition parse_reg (ctx : NodeContext) (value : list Z) (map : MemoryMap) : outcome MemoryMap :=
  if decide (add32 (addr_cells ctx) (size_cells ctx) = 0) then Ret map
  else loop (S (length value)) (reg_body ctx value) (0, map).

(** A property holding a number, when it is long enough. *)
Definition if_u32 {X} (value : list Z) (f : Z → X) (x : X) : outcome X :=
  if decide (4 ≤ len value) then v ← read_be_u32 value; Ret (f v) else Ret x.

(** [match name { .. }]: the context and the map after a property. *)
Definition parse_match (name value : list Z) (ctx : NodeContext) (map : MemoryMap) :
    outcome (NodeContext * MemoryMap) :=
  if decide (name = bytes "#address-cells") then
    if_u32 value (λ v, (with_addr_cells v ctx, map)) (ctx, map)
  else if decide (name = bytes "#size-cells") then
    if_u32 value (λ v, (with_size_cells v ctx, map)) (ctx, map)
  else if decide (name = bytes "device_type") then
    m ← name_starts_with value (bytes "memory");
    Ret (if (m : bool) then with_memory ctx else ctx, map)
  else if decide (name = bytes "reg") then
    map ← parse_reg ctx value map; Ret (ctx, map)
  else Ret (ctx, map).

Definition parse_prop (name value : list Z) (s : parser) : outcome (parser + Empty_set) :=
  if decide (depth s = 0) then Ret (inl s)
  else
    ctx ← aget (stack s) (depth s - 1);
    '(ctx, map) ← parse_match name value ctx (pmap s);
    st ← aset (stack s) (depth s - 1) ctx;
    Ret (inl (mkParser st (depth s) map)).

Definition parse_handlers : handlers parser Empty_set :=
  mkHandlers parse_begin parse_end parse_prop.

Definition parse (m : mem) (dtb_pa : Z) (map : MemoryMap) : outcome (option DtbInfo * MemoryMap) :=
  if decide (dtb_pa = 0) then Ret (None, map)
  else
    f ← open_fdt m dtb_pa;
    match f with
    | None => Ret (None, map)
    | Some f =>
        r ← walk parse_handlers (struct_block f) (strings_block f)
              (mkParser (replicate 32 root_ctx) 0 map);
        match r with
        | inl s => Ret (Some (mkInfo (fdt_total_size f)), pmap s)
        | inr e => match (e : Empty_set) with end
        end
    end.

(** ** [find_simplefb] *)

Record SimpleFbState := mkFbState {
  is_simplefb : bool; fb_addr : Z; fb_size : Z; fb_width : Z; fb_height : Z; fb_stride : Z;
  fb_format : option SimpleFbFormat
}.

Definition no_fb : SimpleFbState := mkFbState false 0 0 0 0 0 None.

Definition parse_format (buf : list Z) : outcome (option SimpleFbFormat) :=
  en ← scan_nul buf 0;
  s ← slice buf 0 en;
  Ret (if decide (s = bytes "x8r8g8b8") then Some X8R8G8B8
       else if decide (s = bytes "a8r8g8b8") then Some A8R8G8B8 else None).

Record finder := mkFinder { f_stack : list NodeContext; fb_stack : list SimpleFbState; f_depth : Z }.

Definition fb_begin (name : list Z) (s : finder) : outcome finder :=
  parent ← parent_of (f_stack s) (f_depth s);
  if decide (f_depth s < len (f_stack s)) then
    st ← aset (f_stack s) (f_depth s) parent;
    fbs ← aset (fb_stack s) (f_depth s) no_fb;
    Ret (mkFinder st fbs (f_depth s + 1))
  else Ret s.

Definition fb_result (fb : SimpleFbState) : option SimpleFbInfo :=
  if is_simplefb fb && bool_decide (fb_addr fb ≠ 0) && bool_decide (fb_width fb ≠ 0) &&
     bool_decide (fb_height fb ≠ 0) && bool_decide (fb_stride fb ≠ 0)
  then (λ fmt, mkSimpleFb (fb_addr fb) (fb_size fb) (fb_width fb) (fb_height fb) (fb_stride fb) fmt)
       <$> fb_format fb
  else None.

Definition fb_end (s : finder) : outcome (finder + SimpleFbInfo) :=
  if decide (0 < f_depth s) then
    fb ← aget (fb_stack s) (f_depth s - 1);
    match fb_result fb with
    | Some info => Ret (inr info)
    | None => Ret (inl (mkFinder (f_stack s) (fb_stack s) (f_depth s - 1)))
    end
  else Ret (inl s).

Definition fb_reg (ctx : NodeContext) (value : list Z) (fb : SimpleFbState) : outcome SimpleFbState :=
  let tuple_cells := add32 (addr_cells ctx) (size_cells ctx) in
  if decide (tuple_cells = 0) then Ret fb
  else
    let entry_bytes := tuple_cells * 4 in
    if decide (len value < entry_bytes) then Ret fb
    else
      a ← slice value 0 (addr_cells ctx * 4);
      addr ← read_cells a (addr_cells ctx);
      b ← slice value (addr_cells ctx * 4) entry_bytes;
      size ← read_cells b (size_cells ctx);
      Ret (mkFbState (is_simplefb fb) addr size (fb_width fb) (fb_height fb) (fb_stride fb)
             (fb_format fb)).

Definition fb_match (name value : list Z) (ctx : NodeContext) (fb : SimpleFbState) :
    outcome (NodeContext * SimpleFbState) :=
  if decide (name = bytes "#address-cells") then
    if_u32 value (λ v, (with_addr_cells v ctx, fb)) (ctx, fb)
  else if decide (name = bytes "#size-cells") then
    if_u32 value (λ v, (with_size_cells v ctx, fb)) (ctx, fb)
  else if decide (name = bytes "compatible") then
    hit ← value_has_string value (bytes "simple-framebuffer");
    Ret (ctx, if (hit : bool) then mkFbState true (fb_addr fb) (fb_size fb) (fb_width fb)
                (fb_height fb) (fb_stride fb) (fb_format fb) else fb)
  else if decide (name = bytes "reg") then fb ← fb_reg ctx value fb; Ret (ctx, fb)
  else if decide (name = bytes "width") then
    if_u32 value (λ v, (ctx, mkFbState (is_simplefb fb) (fb_addr fb) (fb_size fb) v (fb_height fb)
                               (fb_stride fb) (fb_format fb))) (ctx, fb)
  else if decide (name = bytes "height") then
    if_u32 value (λ v, (ctx, mkFbState (is_simplefb fb) (fb_addr fb) (fb_size fb) (fb_width fb) v
                               (fb_stride fb) (fb_format fb))) (ctx, fb)
  else if decide (name = bytes "stride") then
    if_u32 value (λ v, (ctx, mkFbState (is_simplefb fb) (fb_addr fb) (fb_size fb) (fb_width fb)
                               (fb_height fb) v (fb_format fb))) (ctx, fb)
  else if decide (name = bytes "format") then
    fmt ← parse_format value;
    Ret (ctx, mkFbState (is_simplefb fb) (fb_addr fb) (fb_size fb) (fb_width fb) (fb_height fb)
           (fb_stride fb) fmt)
  else Ret (ctx, fb).

Definition fb_prop (name value : list Z) (s : finder) : outcome (finder + SimpleFbInfo) :=
  if decide (f_depth s = 0) then Ret (inl s)
  else
    ctx ← aget (f_stack s) (f_depth s - 1);
    fb ← aget (fb_stack s) (f_depth s - 1);
    '(ctx, fb) ← fb_match name value ctx fb;
    st ← aset (f_stack s) (f_depth s - 1) ctx;
    fbs ← aset (fb_stack s) (f_depth s - 1) fb;
    Ret (inl (mkFinder st fbs (f_depth s))).

Definition fb_handlers : handlers finder SimpleFbInfo := mkHandlers fb_begin fb_end fb_prop.

Definition find_simplefb (m : mem) (dtb_pa : Z) : outcome (option SimpleFbInfo) :=
  if decide (dtb_pa = 0) then Ret None
  else
    f ← open_fdt m dtb_pa;
    match f with
    | None => Ret None
    | Some f =>
        r ← walk fb_handlers (struct_block f) (strings_block f)
              (mkFinder (replicate 32 root_ctx) (replicate 32 no_fb) 0);
        Ret (match r with inl _ => None | inr info => Some info end)
    end.

(** ** On arbitrary images *)

Lemma read_cells_u64 buf cells : u8s buf → 0 ≤ cells →
  returns (read_cells buf cells) is_u64.
Proof. intros Hb Hc. rewrite read_cells_ok by done. apply Z.mod_pos_bound. lia. Qed.

Lemma add_region_wf m st size k : wf_map m → is_u64 st → is_u64 size → wf_map (add_region m st size k).
Proof.
  intros [Hf Hl] Hst Hsz. unfold add_region. case_decide as Hc; [done|].
  unfold is_u64 in *. split.
  - apply Forall_app. split; [done|]. constructor; [|done]. unfold wf_region, sat_add64. simpl. lia.
  - rewrite len_app. change (len [_]) with 1. lia.
Qed.

Lemma add_region_prefix m st size k : m `prefix_of` add_region m st size k.
Proof. unfold add_region. case_decide; [done|]. by eexists. Qed.

(** What a reader of regions may do to the map it is given. *)
Definition extends (m m' : MemoryMap) : Prop := m `prefix_of` m' ∧ wf_map m'.

Lemma extends_add m m' st size k : extends m m' → is_u64 st → is_u64 size →
  extends m (add_region m' st size k).
Proof.
  intros [Hp Hw] Hst Hsz. split; [|by apply add_region_wf].
  etrans; [done|apply add_region_prefix].
Qed.

Definition ctx_ok (c : NodeContext) : Prop := is_u32 (addr_cells c) ∧ is_u32 (size_cells c).

Lemma root_ctx_ok : ctx_ok root_ctx.
Proof. unfold ctx_ok, is_u32. simpl. lia. Qed.

Lemma slice_ends {A} p (l : list A) a b (P : list A → Prop) : p = true →
  (∀ s, slice l a b = Ret s → P s) → ends p (slice l a b) P.
Proof. intros -> H. destruct (slice l a b) eqn:Hs; simpl; auto; unfold slice in Hs; by case_decide. Qed.

Lemma reg_ends ctx value m map : ctx_ok ctx → u8s value → extends m map →
  ends true (parse_reg ctx value map) (extends m).
Proof.
  intros [Ha Hs] Hv Hm. unfold parse_reg. case_decide as Hz; [done|].
  assert (0 ≤ add32 (addr_cells ctx) (size_cells ctx)) as Hn by (apply Z.mod_pos_bound; lia).
  unfold is_u32 in *.
  apply (ends_loop true (λ '(pos, map), 0 ≤ pos ∧ extends m map)
    (λ '(pos, _), Z.to_nat (len value - pos))); [|by split|unfold len; lia].
  intros [pos mp] [Hpos Hmp]. unfold reg_body. case_decide; [|done].
  apply ends_bind, slice_ends; [done|]. intros a Hsa. apply ends_bind.
  eapply ends_mono; [apply ends_returns, read_cells_u64; [by eapply u8s_slice|lia]|]. intros addr Haddr.
  apply ends_bind, slice_ends; [done|]. intros b Hsb. apply ends_bind.
  eapply ends_mono; [apply ends_returns, read_cells_u64; [by eapply u8s_slice|lia]|]. intros size Hsize.
  simpl. split; [|lia]. split; [lia|]. repeat case_match; try done; by apply extends_add.
Qed.

Lemma if_u32_ok {X} value (f : Z → X) x (P : X → Prop) : u8s value →
  (∀ v, is_u32 v → P (f v)) → P x → returns (if_u32 value f x) P.
Proof.
  intros Hv Hf Hx. unfold if_u32. case_decide as Hl; [|done].
  destruct value as [|b0 [|b1 [|b2 [|b3 l]]]]; try (unfold len in Hl; simpl in Hl; lia).
  assert (u8s [b0; b1; b2; b3]) as H4.
  { unfold u8s in *. rewrite !Forall_cons in *. naive_solver. }
  rewrite read_be_u32_ok by done. simpl. apply Hf. apply (be_num_range _ H4).
Qed.

Record parser_ok (m : MemoryMap) (s : parser) : Prop := {
  ps_len : len (stack s) = 32;
  ps_depth : 0 ≤ depth s ≤ 32;
  ps_ctx : Forall ctx_ok (stack s);
  ps_map : extends m (pmap s)
}.

Lemma parent_ok st d : Forall ctx_ok st → 0 ≤ d ≤ len st → returns (parent_of st d) ctx_ok.
Proof.
  intros Hst Hd. unfold parent_of. case_decide; [apply root_ctx_ok|].
  destruct (aget_total st (d - 1)) as (c & -> & Hc); [lia|]. simpl.
  by eapply Forall_lookup_1.
Qed.

Lemma match_ends name value ctx m map : ctx_ok ctx → u8s value → extends m map →
  ends true (parse_match name value ctx map) (λ '(c, mp), ctx_ok c ∧ extends m mp).
Proof.
  intros Hc Hv Hm. pose proof Hc as [Ha Hs]. unfold parse_match. repeat case_decide; try done.
  - by apply ends_returns, if_u32_ok.
  - by apply ends_returns, if_u32_ok.
  - rewrite name_starts_with_ok. simpl. by case_bool_decide.
  - apply ends_bind. eapply ends_mono; [by apply reg_ends|]. done.
Qed.

Lemma parse_walk_ends sb strings m map : u8s sb → len sb < U32 → extends m map →
  ends true (walk parse_handlers sb strings (mkParser (replicate 32 root_ctx) 0 map))
    (λ r, match r with inl s => parser_ok m s | inr e => False end).
Proof.
  intros Hsb Hlen Hm. apply walk_ends; [done|done|..].
  - intros name s _ [Hl Hd Hc Hmap]. simpl. unfold parse_begin. apply ends_bind.
    eapply ends_mono; [apply ends_returns, parent_ok; [done|lia]|]. intros c Hcok.
    rewrite !name_starts_with_ok. cbn [mbind outcome_bind]. case_decide as Hlt; [|by split].
    rewrite aset_ret by lia. simpl. split; simpl; [by rewrite len_insert|lia| |done].
    apply Forall_insert; [done|]. by repeat case_bool_decide.
  - intros s [Hl Hd Hc Hmap]. simpl. case_decide; split; simpl; try done; lia.
  - intros name value s Hv _ [Hl Hd Hc Hmap]. simpl. unfold parse_prop. case_decide; [by split|].
    destruct (aget_total (stack s) (depth s - 1)) as (c & -> & Hcl); [lia|]. cbn [mbind outcome_bind].
    apply ends_bind. eapply ends_mono.
    { apply match_ends; [by eapply Forall_lookup_1|done|done]. }
    intros [c' mp] [Hc' Hmp]. rewrite aset_ret by lia. simpl.
    split; simpl; [by rewrite len_insert|lia|by apply Forall_insert|done].
  - split; cbn [stack depth pmap]; [done|lia|apply Forall_replicate, root_ctx_ok|done].
Qed.

(** C37. [parse] is robust: on any memory contents, damaged or hostile, it ends; and unless it
    panics the regions it was given are still the first ones of the map, and every region it
    added lies within 64 bits and in the map's capacity. *)
Theorem parse_robust m pa map : bytes_mem m → wf_map map →
  ends true (parse m pa map) (λ '(_, map'), map `prefix_of` map' ∧ wf_map map').
Proof.
  intros Hm Hw. assert (extends map map) as Hmap by done. unfold parse. case_decide; [done|].
  apply ends_bind. eapply ends_mono; [by apply ends_returns, open_fdt_ok|].
  intros [f|] Hf; [|done]. destruct Hf as [Hsb Hlen]. apply ends_bind.
  eapply ends_mono; [by apply (parse_walk_ends _ _ map)|]. intros [s|[]] Hs; apply Hs.
Qed.

(** ** On the encoding of a tree *)

(** A list of regions to add, in order. *)
Definition add_all (rs : list (Z * Z * RegionKind)) (map : MemoryMap) : MemoryMap :=
  fold_left (λ m '(a, s, k), add_region m a s k) rs map.

Section spec.
Context (strings : list Z).

(** What a node inherits. *)
Definition enter (name : list Z) (c : NodeContext) : NodeContext :=
  let c := if bool_decide (bytes "reserved-memory" `prefix_of` name) then with_reserved c else c in
  if bool_decide (bytes "memory" `prefix_of` name) then with_memory c else c.

Definition prop_ctx (name value : list Z) (c : NodeContext) : NodeContext :=
  if decide (name = bytes "#address-cells" ∧ 4 ≤ len value) then with_addr_cells (value_u32 value) c
  else if decide (name = bytes "#size-cells" ∧ 4 ≤ len value) then with_size_cells (value_u32 value) c
  else if decide (name = bytes "device_type" ∧ bytes "memory" `prefix_of` value) then with_memory c
  else c.

(** The first [n] entries of a [reg] value: [a] cells of address, [s] of size, each number
    reduced to 64 bits. *)
Fixpoint entries (n : nat) (a s : Z) (value : list Z) : list (Z * Z) :=
  match n with
  | O => []
  | S n =>
      (be_num (take (Z.to_nat (4 * a)) value) mod U64,
       be_num (take (Z.to_nat (4 * s)) (drop (Z.to_nat (4 * a)) value)) mod U64) ::
      entries n a s (drop (Z.to_nat (4 * (a + s))) value)
  end.

Definition kind_of (c : NodeContext) : option RegionKind :=
  if is_memory c then Some UsableRam else if in_reserved c then Some Reserved else None.

Definition tag (c : NodeContext) (l : list (Z * Z)) : list (Z * Z * RegionKind) :=
  match kind_of c with Some k => (λ e, (e.1, e.2, k)) <$> l | None => [] end.

Definition prop_regions (name value : list Z) (c : NodeContext) : list (Z * Z * RegionKind) :=
  if decide (name = bytes "reg" ∧ addr_cells c + size_cells c ≠ 0) then
    tag c (entries (Z.to_nat (len value / (4 * (addr_cells c + size_cells c))))
             (addr_cells c) (size_cells c) value)
  else [].

Fixpoint props_effect (ps : list (Z * list Z)) (c : NodeContext) :
    NodeContext * list (Z * Z * RegionKind) :=
  match ps with
  | [] => (c, [])
  | (no, v) :: ps =>
      let r := props_effect ps (prop_ctx (string_at strings no) v c) in
      (r.1, prop_regions (string_at strings no) v c ++ r.2)
  end.

(** The regions a tree describes, its parent's context being [c]: those of its own [reg], then
    its children's. *)
Fixpoint collect (c : NodeContext) (n : node) : list (Z * Z * RegionKind) :=
  match n with
  | Node name props children =>
      let r := props_effect props (enter name c) in r.2 ++ flat_map (collect r.1) children
  end.

(** Cell counts that do not overflow when added. *)
Definition small_cells (name value : list Z) : Prop :=
  name = bytes "#address-cells" ∨ name = bytes "#size-cells" → 4 ≤ len value →
  value_u32 value < 2 ^ 31.
#[local] Instance small_cells_dec name value : Decision (small_cells name value).
Proof. unfold small_cells. apply _. Defined.
Definition small_ctx (c : NodeContext) : Prop :=
  0 ≤ addr_cells c < 2 ^ 31 ∧ 0 ≤ size_cells c < 2 ^ 31.

Lemma add_all_app rs rs' map : add_all (rs ++ rs') map = add_all rs' (add_all rs map).
Proof. apply fold_left_app. Qed.

Lemma enter_small name c : small_ctx c → small_ctx (enter name c).
Proof. intros H. unfold enter. by repeat case_bool_decide. Qed.

Lemma value_u32_ok {X} value (f : Z → X) x : u8s value →
  if_u32 value f x = Ret (if decide (4 ≤ len value) then f (value_u32 value) else x).
Proof.
  intros Hv. unfold if_u32, value_u32. case_decide as Hl; [|done].
  destruct value as [|b0 [|b1 [|b2 [|b3 l]]]]; try (unfold len in Hl; simpl in Hl; lia).
  rewrite read_be_u32_ok; [done|]. unfold u8s in *. rewrite !Forall_cons in *. naive_solver.
Qed.

Lemma value_u32_range value : u8s value → 4 ≤ len value → is_u32 (value_u32 value).
Proof.
  intros Hv Hl. unfold value_u32, is_u32. pose proof (be_num_range (take 4 value)) as H.
  assert (len (take 4 value) = 4) as Hn by (unfold len in *; rewrite length_take; lia).
  rewrite Hn in H. apply H. by apply Forall_take.
Qed.

Lemma prop_ctx_small name value c : small_ctx c → u8s value → small_cells name value →
  small_ctx (prop_ctx name value c).
Proof.
  intros [Ha Hs] Hv Hsm. unfold prop_ctx. case_decide as H1.
  { destruct H1 as [-> Hl]. pose proof (value_u32_range _ Hv Hl) as [? _].
    split; simpl; [|done]. split; [done|]. apply Hsm; auto. }
  case_decide as H2; [|by case_decide].
  destruct H2 as [-> Hl]. pose proof (value_u32_range _ Hv Hl) as [? _].
  split; simpl; [done|]. split; [done|]. apply Hsm; auto.
Qed.

Lemma reg_loop_ok c value n fuel pos map :
  small_ctx c → u8s value → 0 < addr_cells c + size_cells c → 0 ≤ pos ≤ len value →
  Z.of_nat n = (len value - pos) / (4 * (addr_cells c + size_cells c)) → (n < fuel)%nat →
  loop fuel (reg_body c value) (pos, map) =
    Ret (add_all (tag c (entries n (addr_cells c) (size_cells c) (drop (Z.to_nat pos) value))) map).
Proof.
  intros [Ha Hs] Hv He. set (a := addr_cells c) in *. set (s := size_cells c) in *.
  revert fuel pos map. induction n as [|n IH]; intros fuel pos map Hpos Hn Hf;
    (destruct fuel as [|fuel]; [lia|]).
  all: pose proof (Z.div_mod (len value - pos) (4 * (a + s)) ltac:(lia)) as Hdm.
  all: pose proof (Z.mod_pos_bound (len value - pos) (4 * (a + s)) ltac:(lia)) as Hmb.
  all: rewrite <-Hn in Hdm.
  all: assert (add32 a s = a + s) as Hadd by (apply Z.mod_small; change U32 with (2 * 2 ^ 31); lia).
  all: cbn [loop]; unfold reg_body at 2; fold a s; rewrite Hadd.
  - rewrite decide_False by lia. unfold tag, entries. by destruct (kind_of c).
  - rewrite Nat2Z.inj_succ in Hdm. assert (4 * (a + s) ≤ len value - pos) as Hroom by nia.
    rewrite decide_True by lia. rewrite (slice_ret value pos (pos + a * 4)) by lia.
    cbn [mbind outcome_bind]. replace (Z.to_nat (pos + a * 4 - pos)) with (Z.to_nat (4 * a)) by lia.
    set (l := drop (Z.to_nat pos) value).
    assert (u8s l) as Hl by by apply Forall_drop.
    assert (len l = len value - pos) as Hll by (unfold l, len in *; rewrite length_drop; lia).
    rewrite read_cells_exact; [|by apply Forall_take|lia|unfold len in *; rewrite length_take; lia].
    rewrite slice_ret by lia. cbn [mbind outcome_bind].
    replace (Z.to_nat (pos + (a + s) * 4 - (pos + a * 4))) with (Z.to_nat (4 * s)) by lia.
    replace (Z.to_nat (pos + a * 4)) with (Z.to_nat pos + Z.to_nat (4 * a))%nat by lia.
    rewrite <-drop_drop. fold l.
    rewrite read_cells_exact; [|by apply Forall_take, Forall_drop|lia|
      unfold len in *; rewrite length_take, length_drop; lia].
    cbn [mbind outcome_bind]. rewrite IH; [|lia| |lia].
    + f_equal. cbn [entries]. replace (Z.to_nat (pos + (a + s) * 4))
        with (Z.to_nat pos + Z.to_nat (4 * (a + s)))%nat by lia.
      rewrite <-drop_drop. fold l. unfold tag, kind_of.
      destruct (is_memory c); [done|]. by destruct (in_reserved c).
    + replace (len value - (pos + (a + s) * 4)) with (len value - pos + (-1) * (4 * (a + s))) by lia.
      rewrite Z.div_add by lia. lia.
Qed.

Lemma parse_reg_ok c value map : small_ctx c → u8s value →
  parse_reg c value map = Ret (add_all (prop_regions (bytes "reg") value c) map).
Proof.
  intros Hc Hv. pose proof Hc as [Ha Hs]. unfold parse_reg, prop_regions.
  assert (add32 (addr_cells c) (size_cells c) = addr_cells c + size_cells c) as ->
    by (apply Z.mod_small; change U32 with (2 * 2 ^ 31); lia).
  case_decide as Hz; [by rewrite decide_False by tauto|]. rewrite decide_True by done.
  pose proof (len_nonneg value).
  assert (len value / (4 * (addr_cells c + size_cells c)) ≤ len value) as Hq
    by (apply Z.div_le_upper_bound; nia).
  assert (0 ≤ len value / (4 * (addr_cells c + size_cells c))) by (apply Z.div_pos; lia).
  rewrite (reg_loop_ok c value (Z.to_nat (len value / (4 * (addr_cells c + size_cells c)))));
    try done; try lia.
  - rewrite Z.sub_0_r. lia.
  - unfold len in *. lia.
Qed.

Ltac other_name :=
  unfold prop_regions; rewrite decide_False by (intros [Hx _]; vm_compute in Hx; discriminate).

Lemma parse_match_ok name value c map : small_ctx c → u8s value →
  parse_match name value c map = Ret (prop_ctx name value c, add_all (prop_regions name value c) map).
Proof.
  intros Hc Hv. unfold parse_match. rewrite !value_u32_ok by done.
  destruct (decide (name = bytes "#address-cells")) as [->|H1].
  { assert (prop_regions (bytes "#address-cells") value c = []) as -> by by other_name.
    unfold prop_ctx. destruct (decide (4 ≤ len value)); [by rewrite decide_True|].
    rewrite decide_False by tauto. by do 2 other_name. }
  destruct (decide (name = bytes "#size-cells")) as [->|H2].
  { assert (prop_regions (bytes "#size-cells") value c = []) as -> by by other_name.
    unfold prop_ctx. destruct (decide (4 ≤ len value)); other_name; [by rewrite decide_True|].
    rewrite decide_False by tauto. by other_name. }
  unfold prop_ctx. rewrite (decide_False (P := name = bytes "#address-cells" ∧ _)) by tauto.
  rewrite (decide_False (P := name = bytes "#size-cells" ∧ _)) by tauto.
  destruct (decide (name = bytes "device_type")) as [->|H3].
  { rewrite name_starts_with_ok. cbn [mbind outcome_bind].
    assert (prop_regions (bytes "device_type") value c = []) as -> by by other_name.
    case_bool_decide; [by rewrite decide_True|by rewrite decide_False by tauto]. }
  rewrite (decide_False (P := name = bytes "device_type" ∧ _)) by tauto.
  destruct (decide (name = bytes "reg")) as [->|H4]; [by rewrite parse_reg_ok|].
  unfold prop_regions. by rewrite (decide_False (P := name = bytes "reg" ∧ _)) by tauto.
Qed.
(** Traversing part of a tree leaves the stack below the current depth as it was. *)
Definition same_below {A} (d : Z) (st st' : list A) : Prop :=
  len st' = len st ∧ take (Z.to_nat d) st' = take (Z.to_nat d) st.

Lemma same_below_insert {A} d (st : list A) i x : d ≤ i → same_below d st (<[Z.to_nat i := x]> st).
Proof. intros Hi. split; [apply len_insert|]. apply take_insert_ge. lia. Qed.

Lemma same_below_trans {A} d d' (st st' st'' : list A) : d' ≤ d →
  same_below d' st st' → same_below d st' st'' → same_below d' st st''.
Proof.
  intros Hd [H1 H2] [H3 H4]. split; [congruence|]. rewrite <-H2.
  replace (Z.to_nat d') with (Z.to_nat d' `min` Z.to_nat d)%nat by lia.
  by rewrite <-!take_take, H4.
Qed.

Lemma same_below_lookup {A} d (st st' : list A) i : same_below d st st' → 0 ≤ i < d →
  st' !! Z.to_nat i = st !! Z.to_nat i.
Proof.
  intros [_ H] Hi. rewrite <-(lookup_take_lt st' (Z.to_nat d)), H by lia.
  apply lookup_take_lt. lia.
Qed.

Lemma same_below_parent d st st' : 0 ≤ d ≤ len st → same_below d st st' →
  parent_of st' d = parent_of st d.
Proof.
  intros Hd H. unfold parent_of. case_decide; [done|]. destruct (aget_total st (d - 1)) as (c & -> & Hc); [lia|].
  apply aget_ret. split; [lia|]. rewrite <-Hc. apply (same_below_lookup d); [done|lia].
Qed.

Lemma run_parse_props ps c st d map : props_ok small_cells strings ps → small_ctx c →
  len st = 32 → 0 < d ≤ 32 → st !! Z.to_nat (d - 1) = Some c →
  run parse_handlers strings ((λ p, TProp p.1 p.2) <$> ps) (mkParser st d map) =
    Ret (inl (mkParser (<[Z.to_nat (d - 1) := (props_effect ps c).1]> st) d
                (add_all (props_effect ps c).2 map))) ∧ small_ctx (props_effect ps c).1.
Proof.
  revert c st map. induction ps as [|[no v] ps IH]; intros c st map Hps Hc Hl Hd Htop.
  { simpl. by rewrite list_insert_id. }
  apply Forall_cons in Hps as [(Hv & _ & _ & Hsm) Hps].
  change ((λ p, TProp p.1 p.2) <$> (no, v) :: ps)
    with (TProp no v :: ((λ p : Z * list Z, TProp p.1 p.2) <$> ps)).
  cbn [run react parse_handlers on_prop]. unfold parse_prop. cbn [depth stack pmap].
  rewrite decide_False by lia. rewrite (proj2 (aget_ret st (d - 1) c)) by (split; [lia|done]).
  cbn [mbind outcome_bind]. rewrite parse_match_ok by done. cbn [mbind outcome_bind].
  rewrite aset_ret by lia. cbn [mbind outcome_bind].
  destruct (IH (prop_ctx (string_at strings no) v c)
    (<[Z.to_nat (d - 1) := prop_ctx (string_at strings no) v c]> st)
    (add_all (prop_regions (string_at strings no) v c) map)) as [Hrun Hs'].
  - done.
  - by apply prop_ctx_small.
  - by rewrite len_insert.
  - done.
  - apply list_lookup_insert_eq. unfold len in Hl. lia.
  - fold (string_at strings no). rewrite Hrun. split; [|exact Hs']. cbn [props_effect fst snd].
    by rewrite list_insert_insert_eq, add_all_app.
Qed.

(** What running the tokens of part of a tree does to the parser. *)
Definition collected (rs : list (Z * Z * RegionKind)) (s : parser) (r : parser + Empty_set) : Prop :=
  ∃ s', r = inl s' ∧ depth s' = depth s ∧ pmap s' = add_all rs (pmap s) ∧
    same_below (depth s) (stack s) (stack s').

Definition parses (n : node) : Prop := ∀ c s, small_ctx c → tree_ok small_cells strings n →
  len (stack s) = 32 → 0 ≤ depth s → depth s + height n ≤ 32 →
  parent_of (stack s) (depth s) = Ret c →
  returns (run parse_handlers strings (tokens_of n) s) (collected (collect c n) s).

Lemma run_parse_children cs c s h : Forall parses cs → Forall (tree_ok small_cells strings) cs →
  (∀ n, n ∈ cs → height n ≤ h) → small_ctx c →
  len (stack s) = 32 → 0 ≤ depth s → depth s + h ≤ 32 →
  parent_of (stack s) (depth s) = Ret c →
  returns (run parse_handlers strings (flat_map tokens_of cs) s) (collected (flat_map (collect c) cs) s).
Proof.
  intros Hp Hok. revert s. induction Hp as [|n cs Hn _ IH]; intros s Hh Hc Hl Hd Hdh Hpar.
  { simpl. exists s. by repeat split. }
  apply Forall_cons in Hok as [Hon Hok]. cbn [flat_map]. rewrite run_app. apply returns_bind.
  assert (height n ≤ h) by (apply Hh; by left). pose proof (height_pos n).
  eapply returns_mono; [apply (Hn c); try done; lia|]. intros r (s1 & -> & Hd1 & Hm1 & Hb1).
  eapply returns_mono; [apply (IH Hok s1)|].
  - intros n' Hn'. apply Hh. by right.
  - done.
  - rewrite (proj1 Hb1). done.
  - lia.
  - lia.
  - rewrite Hd1. rewrite <-Hpar. apply same_below_parent; [lia|done].
  - intros r (s2 & -> & Hd2 & Hm2 & Hb2). exists s2. split; [done|]. split; [congruence|].
    split; [by rewrite Hm2, Hm1, add_all_app|]. rewrite Hd1 in Hb2.
    by apply (same_below_trans (depth s) (depth s) _ (stack s1)).
Qed.

Lemma run_parse_node n : parses n.
Proof.
  induction n as [nm ps cs IH] using node_nested_ind. intros c s Hc Hok Hl Hd Hh Hpar.
  inversion_clear Hok as [? ? ? Hnm Hps Hcs]. cbn [tokens_of run react parse_handlers on_begin].
  pose proof (height_children cs) as Hf0.
  cbn [height] in Hh. unfold parse_begin. rewrite Hpar. cbn [mbind outcome_bind].
  rewrite !name_starts_with_ok. cbn [mbind outcome_bind]. fold (enter nm c).
  rewrite decide_True by lia. rewrite aset_ret by lia. cbn [mbind outcome_bind].
  set (st1 := <[Z.to_nat (depth s) := enter nm c]> (stack s)).
  destruct (run_parse_props ps (enter nm c) st1 (depth s + 1) (pmap s) Hps) as [Hrun Hsm].
  - by apply enter_small.
  - unfold st1. by rewrite len_insert.
  - lia.
  - unfold st1. replace (depth s + 1 - 1) with (depth s) by lia.
    apply list_lookup_insert_eq. unfold len in Hl. lia.
  - rewrite run_app. rewrite Hrun. cbn [mbind outcome_bind]. clear Hrun.
    replace (depth s + 1 - 1) with (depth s) by lia.
    set (pe := props_effect ps (enter nm c)) in *.
    set (s1 := mkParser (<[Z.to_nat (depth s) := pe.1]> st1) (depth s + 1) (add_all pe.2 (pmap s))).
    assert (len (stack s1) = 32) as Hl1 by (unfold s1, st1; simpl; by rewrite !len_insert).
    assert (same_below (depth s) (stack s) (stack s1)) as Hb.
    { apply (same_below_trans (depth s) (depth s) _ st1); [lia|apply same_below_insert; lia|].
      apply same_below_insert. lia. }
    rewrite run_app. apply returns_bind. eapply returns_mono.
    { apply (run_parse_children cs pe.1 s1 (fold_right (λ c, Z.max (height c)) 0 cs)); try done.
      - intros n. apply height_child.
      - simpl. lia.
      - simpl. lia.
      - unfold parent_of, s1. cbn [depth stack]. rewrite decide_False by lia. apply aget_ret.
        replace (depth s + 1 - 1) with (depth s) by lia. split; [lia|].
        apply list_lookup_insert_eq. unfold st1. rewrite length_insert. unfold len in Hl. lia. }
    intros r (s2 & -> & Hd2 & Hm2 & Hb2). cbn [run react parse_handlers on_end parse_end].
    cbn [mbind outcome_bind returns]. assert (depth s2 = depth s + 1) as Hd2' by done.
    unfold parse_end. rewrite decide_True by lia. cbn [mbind outcome_bind returns]. eexists. split; [done|]. cbn [depth stack pmap].
    split; [lia|]. split.
    + rewrite Hm2. cbn [collect]. fold pe. by rewrite add_all_app.
    + apply (same_below_trans (depth s + 1) (depth s) _ (stack s1)); [lia|done|]. exact Hb2.
Qed.
End spec.

(** C24. [parse] on the encoding (smaller than 4 GiB, at a non-null address) of a tree whose cell counts are below 2^31 ([small_cells]; above, the code's
    arithmetic overflows: [parse_cells_overflow]): the map gains exactly the regions [collect] finds by
    recursion on the tree, in the tree's order, with the kind that the names and device types
    on the path give, whatever the nesting up to the 32 levels of the stack. *)
Theorem parse_tree m pa map total strings tree :
  pa ≠ 0 → open_fdt m pa = Ret (Some (mkFdt total (encode (tokens_of tree)) strings)) →
  tree_ok small_cells strings tree → height tree ≤ 32 → len (encode (tokens_of tree)) < U32 →
  parse m pa map = Ret (Some (mkInfo total), add_all (collect strings root_ctx tree) map).
Proof.
  intros Hpa Hopen Htree Hh Hlen. unfold parse. rewrite decide_False by done.
  rewrite Hopen. cbn [mbind outcome_bind struct_block strings_block fdt_total_size].
  rewrite walk_encode; [|by eapply tokens_ok|done].
  destruct (proj1 (returns_eq _ _) (run_parse_node strings tree root_ctx
    (mkParser (replicate 32 root_ctx) 0 map) ltac:(done) Htree ltac:(done) ltac:(done)
    ltac:(simpl; lia) ltac:(done))) as (r & -> & s' & -> & _ & Hm & _).
  cbn [mbind outcome_bind]. by rewrite Hm.
Qed.

(** A board: RAM at 0x0 and at 0x40000000, of which 64 KiB at 0x40010000 are reserved. *)
Definition demo_strings : list Z := strings_at ["#address-cells"; "#size-cells"; "reg"; "device_type"]%string.
Definition demo_tree : node :=
  Node [] [(0, be32 2); (15, be32 1)] [
    Node (bytes "memory@0") [(31, bytes "memory" ++ [0]);
      (27, be32 0 ++ be32 0 ++ be32 0x3C000000 ++ be32 0 ++ be32 0x40000000 ++ be32 0x1000000)] [];
    Node (bytes "reserved-memory") [(0, be32 2); (15, be32 1)]
      [Node (bytes "firmware@40010000") [(27, be32 0 ++ be32 0x40010000 ++ be32 0x10000)] []]].

Lemma parse_tree_witness :
  parse (image_at 0x8000000 (encode (tokens_of demo_tree)) demo_strings) 0x8000000 MemoryMap_new =
    Ret (Some (mkInfo 315), add_all (collect demo_strings root_ctx demo_tree) MemoryMap_new).
Proof.
  apply parse_tree; [done|vm_compute; reflexivity| |vm_compute; discriminate|vm_compute; reflexivity].
  check_tree.
Defined.

Lemma demo_regions : add_all (collect demo_strings root_ctx demo_tree) MemoryMap_new =
  [mkRegion 0 0x3C000000 UsableRam; mkRegion 0x40000000 0x41000000 UsableRam;
   mkRegion 0x40010000 0x40020000 Reserved].
Proof. vm_compute. reflexivity. Qed.

Definition overflow_tree : node :=
  Node [] [(0, be32 0xFFFFFFFF); (15, be32 2); (27, be32 0)] [].

(** A hostile or damaged image can still stop the kernel: cell counts are added in 32 bits, so
    one address cell less than 2^32 and two size cells make an "entry" of four bytes, and
    slicing its address out of it panics. *)
Theorem parse_cells_overflow map :
  parse (image_at 0x8000000 (encode (tokens_of overflow_tree)) demo_strings) 0x8000000 map = Panic.
Proof. vm_compute. reflexivity. Qed.

Definition misnamed_tree : node :=
  Node [] [(0, be32 2); (15, be32 1)] [
    Node (bytes "memory-controller@7c003000") [(27, be32 0 ++ be32 0x7c003000 ++ be32 0x1000)] [];
    Node (bytes "reserved-memory") []
      [Node (bytes "memory@3e000000") [(27, be32 0 ++ be32 0x3e000000 ++ be32 0x10000)] []]].

(** The name test is a prefix test: a memory controller's registers, and a reserved block whose
    node is itself called memory@.., are entered in the map as usable RAM. *)
Theorem parse_memory_prefix :
  parse (image_at 0x8000000 (encode (tokens_of misnamed_tree)) demo_strings) 0x8000000 MemoryMap_new =
    Ret (Some (mkInfo 263), [mkRegion 0x7c003000 0x7c004000 UsableRam;
                             mkRegion 0x3e000000 0x3e010000 UsableRam]).
Proof. vm_compute. reflexivity. Qed.

(** A memory node after a chain of [n] nested nodes. *)
Fixpoint nested (n : nat) : node :=
  match n with O => Node (bytes "leaf") [] [] | S n => Node (bytes "bus") [] [nested n] end.
Definition deep_tree (n : nat) : node :=
  Node [] [(0, be32 2); (15, be32 1)]
    [nested n; Node (bytes "memory@0") [(27, be32 0 ++ be32 0 ++ be32 0x40000000)] []].

(** A node below the 32 levels of the stack is not counted where it begins but is where it ends: on one
    level more the parser believes to be outside the root afterwards, takes its default cell counts, and the
    memory that follows is lost. *)
Theorem parse_deep_nesting :
  parse (image_at 0x8000000 (encode (tokens_of (deep_tree 30))) demo_strings) 0x8000000 MemoryMap_new =
    Ret (Some (mkInfo 551), [mkRegion 0 0x40000000 UsableRam]) ∧
  parse (image_at 0x8000000 (encode (tokens_of (deep_tree 31))) demo_strings) 0x8000000 MemoryMap_new =
    Ret (Some (mkInfo 563), []).
Proof. vm_compute. split; reflexivity. Qed.

(** A node that has cell counts for its children: its own registers are decoded with these, not with its
    parent's. *)
Definition own_cells_tree : node :=
  Node [] [(0, be32 2); (15, be32 1)] [
    Node (bytes "memory@0") [(0, be32 1); (15, be32 1); (27, be32 0 ++ be32 0x10000000 ++ be32 0x40000000)] []].

Theorem parse_own_cells :
  parse (image_at 0x8000000 (encode (tokens_of own_cells_tree)) demo_strings) 0x8000000 MemoryMap_new =
    Ret (Some (mkInfo 207), [mkRegion 0 0x10000000 UsableRam]).
Proof. vm_compute. reflexivity. Qed.

(** *** The framebuffer *)
Section fb_spec.
Context (strings : list Z).

Definition fb_reg_spec (c : NodeContext) (value : list Z) (fb : SimpleFbState) : SimpleFbState :=
  let a := addr_cells c in let s := size_cells c in
  if decide (a + s ≠ 0 ∧ 4 * (a + s) ≤ len value) then
    mkFbState (is_simplefb fb) (be_num (take (Z.to_nat (4 * a)) value) mod U64)
      (be_num (take (Z.to_nat (4 * s)) (drop (Z.to_nat (4 * a)) value)) mod U64)
      (fb_width fb) (fb_height fb) (fb_stride fb) (fb_format fb)
  else fb.

Definition format_spec (value : list Z) : option SimpleFbFormat :=
  if decide (until_nul value = bytes "x8r8g8b8") then Some X8R8G8B8
  else if decide (until_nul value = bytes "a8r8g8b8") then Some A8R8G8B8 else None.

(** What one property says about its node's framebuffer. *)
Definition fb_effect (name value : list Z) (c : NodeContext) (fb : SimpleFbState) : SimpleFbState :=
  let '(mkFbState sf a s w h st fmt) := fb in
  if decide (name = bytes "compatible") then
    mkFbState (sf || bool_decide (bytes "simple-framebuffer" ∈ strings_of (length value) value)) a s w h st fmt
  else if decide (name = bytes "reg") then fb_reg_spec c value fb
  else if decide (name = bytes "format") then mkFbState sf a s w h st (format_spec value)
  else if decide (len value < 4) then fb
  else if decide (name = bytes "width") then mkFbState sf a s (value_u32 value) h st fmt
  else if decide (name = bytes "height") then mkFbState sf a s w (value_u32 value) st fmt
  else if decide (name = bytes "stride") then mkFbState sf a s w h (value_u32 value) fmt
  else fb.

(** [prop_ctx] without the device type, which only [parse] looks at. *)
Definition cells_ctx (name value : list Z) (c : NodeContext) : NodeContext :=
  if decide (name = bytes "device_type") then c else prop_ctx name value c.

Fixpoint fb_props (ps : list (Z * list Z)) (c : NodeContext) (fb : SimpleFbState) :
    NodeContext * SimpleFbState :=
  match ps with
  | [] => (c, fb)
  | (no, v) :: ps =>
      fb_props ps (cells_ctx (string_at strings no) v c) (fb_effect (string_at strings no) v c fb)
  end.

(** The framebuffer a tree describes: its children's, in order, before its own. *)
Fixpoint find_fb (c : NodeContext) (n : node) : option SimpleFbInfo :=
  match n with
  | Node _ props children =>
      let r := fb_props props c no_fb in
      match fold_right (λ n found, match find_fb r.1 n with Some i => Some i | None => found end)
              None children with
      | Some i => Some i
      | None => fb_result r.2
      end
  end.

Lemma fb_reg_ok c value fb : small_ctx c → u8s value →
  fb_reg c value fb = Ret (fb_reg_spec c value fb).
Proof.
  intros [Ha Hs] Hv. unfold fb_reg, fb_reg_spec. cbv zeta.
  assert (add32 (addr_cells c) (size_cells c) = addr_cells c + size_cells c) as ->
    by (apply Z.mod_small; change U32 with (2 * 2 ^ 31); lia).
  case_decide as Hz; [by rewrite decide_False by tauto|].
  case_decide as Hl; [by rewrite decide_False by lia|]. rewrite decide_True by lia.
  set (a := addr_cells c) in *. set (s := size_cells c) in *.
  rewrite (slice_ret value 0 (a * 4)) by lia. cbn [mbind outcome_bind].
  rewrite (slice_ret value (a * 4) ((a + s) * 4)) by lia.
  replace (Z.to_nat (a * 4 - 0)) with (Z.to_nat (4 * a)) by lia.
  replace (Z.to_nat ((a + s) * 4 - a * 4)) with (Z.to_nat (4 * s)) by lia.
  replace (Z.to_nat (a * 4)) with (Z.to_nat (4 * a)) by lia. change (drop (Z.to_nat 0) value) with value.
  rewrite (read_cells_exact (take (Z.to_nat (4 * a)) value)); [|by apply Forall_take|lia|
    unfold len in *; rewrite length_take; lia].
  cbn [mbind outcome_bind]. rewrite read_cells_exact; [done|by apply Forall_take, Forall_drop|lia|].
  unfold len in *. rewrite length_take, length_drop. lia.
Qed.

Lemma parse_format_ok value : parse_format value = Ret (format_spec value).
Proof.
  unfold parse_format. pose proof (len_nonneg value). rewrite scan_nul_ok by lia.
  cbn [mbind outcome_bind]. rewrite (slice_until value 0) by lia. done.
Qed.

(** One comparison of a known property name. *)
Ltac known_name :=
  first [ rewrite decide_True by reflexivity
        | rewrite decide_True by (split; [reflexivity|done])
        | rewrite decide_False by (let Hx := fresh in intros Hx; vm_compute in Hx; discriminate)
        | rewrite decide_False by (let Hx := fresh in intros [Hx _]; vm_compute in Hx; discriminate)
        | rewrite decide_False by (by intros [_ ?]) ].

Ltac split_names name :=
  repeat match goal with
  | |- context [decide (name = bytes ?s)] =>
      destruct (decide (name = bytes s)) as [->|]; [by repeat known_name|]
  end.

Lemma fb_match_ok name value c fb : small_ctx c → u8s value →
  fb_match name value c fb = Ret (cells_ctx name value c, fb_effect name value c fb).
Proof.
  intros Hc Hv. unfold fb_match, cells_ctx, prop_ctx, fb_effect. destruct fb as [sf a s w h st fmt].
  rewrite !value_u32_ok, fb_reg_ok, parse_format_ok, value_has_string_ok by done.
  cbn [mbind outcome_bind is_simplefb fb_addr fb_size fb_width fb_height fb_stride fb_format].
  destruct (decide (4 ≤ len value)) as [Hl|Hl];
    [rewrite (decide_False (P := len value < 4)) by lia|rewrite (decide_True (P := len value < 4)) by lia].
  all: set (hit := bool_decide (bytes "simple-framebuffer" ∈ strings_of (length value) value)).
  all: assert (sf || hit = if hit then true else sf) as -> by (destruct hit; [apply orb_true_r|apply orb_false_r]).
  all: clearbody hit.
  all: destruct hit; split_names name.
  all: by rewrite !(decide_False (P := _ = _ ∧ _)) by tauto.
Qed.
Lemma cells_ctx_small name value c : small_ctx c → u8s value → small_cells name value →
  small_ctx (cells_ctx name value c).
Proof. intros. unfold cells_ctx. case_decide; [done|by apply prop_ctx_small]. Qed.

Lemma run_fb_props ps c fb st fbs d : props_ok small_cells strings ps → small_ctx c →
  len st = 32 → len fbs = 32 → 0 < d ≤ 32 →
  st !! Z.to_nat (d - 1) = Some c → fbs !! Z.to_nat (d - 1) = Some fb →
  run fb_handlers strings ((λ p, TProp p.1 p.2) <$> ps) (mkFinder st fbs d) =
    Ret (inl (mkFinder (<[Z.to_nat (d - 1) := (fb_props ps c fb).1]> st)
                (<[Z.to_nat (d - 1) := (fb_props ps c fb).2]> fbs) d)) ∧
  small_ctx (fb_props ps c fb).1.
Proof.
  revert c fb st fbs. induction ps as [|[no v] ps IH]; intros c fb st fbs Hps Hc Hl Hlf Hd Htop Hfb.
  { simpl. by rewrite !list_insert_id. }
  apply Forall_cons in Hps as [(Hv & _ & _ & Hsm) Hps].
  change ((λ p, TProp p.1 p.2) <$> (no, v) :: ps)
    with (TProp no v :: ((λ p : Z * list Z, TProp p.1 p.2) <$> ps)).
  cbn [run react fb_handlers on_prop]. unfold fb_prop. cbn [f_depth f_stack fb_stack].
  rewrite decide_False by lia. rewrite (proj2 (aget_ret st (d - 1) c)) by (split; [lia|done]).
  rewrite (proj2 (aget_ret fbs (d - 1) fb)) by (split; [lia|done]).
  cbn [mbind outcome_bind]. rewrite fb_match_ok by done. cbn [mbind outcome_bind].
  rewrite (aset_ret st) by lia. rewrite (aset_ret fbs) by lia. cbn [mbind outcome_bind].
  fold (string_at strings no). set (nm := string_at strings no) in *.
  destruct (IH (cells_ctx nm v c) (fb_effect nm v c fb)
    (<[Z.to_nat (d - 1) := cells_ctx nm v c]> st)
    (<[Z.to_nat (d - 1) := fb_effect nm v c fb]> fbs)) as [Hrun Hs'].
  - done.
  - by apply cells_ctx_small.
  - by rewrite len_insert.
  - by rewrite len_insert.
  - done.
  - apply list_lookup_insert_eq. unfold len in Hl. lia.
  - apply list_lookup_insert_eq. unfold len in Hlf. lia.
  - rewrite Hrun. split; [|exact Hs']. cbn [fb_props]. fold nm. by rewrite !list_insert_insert_eq.
Qed.

(** Running the tokens of part of a tree returns the framebuffer found there, or nothing is found
    and the stacks are as before below the current depth. *)
Definition searched (found : option SimpleFbInfo) (s : finder) (r : finder + SimpleFbInfo) : Prop :=
  match found with
  | Some i => r = inr i
  | None => ∃ s', r = inl s' ∧ f_depth s' = f_depth s ∧
      same_below (f_depth s) (f_stack s) (f_stack s') ∧
      same_below (f_depth s) (fb_stack s) (fb_stack s')
  end.

Definition finds (n : node) : Prop := ∀ c s, small_ctx c → tree_ok small_cells strings n →
  len (f_stack s) = 32 → len (fb_stack s) = 32 → 0 ≤ f_depth s → f_depth s + height n ≤ 32 →
  parent_of (f_stack s) (f_depth s) = Ret c →
  returns (run fb_handlers strings (tokens_of n) s) (searched (find_fb c n) s).

Definition find_children (c : NodeContext) (cs : list node) : option SimpleFbInfo :=
  fold_right (λ n found, match find_fb c n with Some i => Some i | None => found end) None cs.

Lemma run_fb_children cs c s h : Forall finds cs → Forall (tree_ok small_cells strings) cs →
  (∀ n, n ∈ cs → height n ≤ h) → small_ctx c →
  len (f_stack s) = 32 → len (fb_stack s) = 32 → 0 ≤ f_depth s → f_depth s + h ≤ 32 →
  parent_of (f_stack s) (f_depth s) = Ret c →
  returns (run fb_handlers strings (flat_map tokens_of cs) s) (searched (find_children c cs) s).
Proof.
  intros Hp Hok. revert s. induction Hp as [|n cs Hn _ IH]; intros s Hh Hc Hl Hlf Hd Hdh Hpar.
  { simpl. exists s. by repeat split. }
  apply Forall_cons in Hok as [Hon Hok]. cbn [flat_map]. rewrite run_app. apply returns_bind.
  assert (height n ≤ h) by (apply Hh; by left). pose proof (height_pos n).
  eapply returns_mono; [apply (Hn c); try done; lia|]. intros r Hr. cbn [find_children fold_right].
  unfold searched in Hr. destruct (find_fb c n) as [i|]; [by rewrite Hr|].
  destruct Hr as (s1 & -> & Hd1 & Hb1 & Hf1). fold (find_children c cs).
  eapply returns_mono; [apply (IH Hok s1)|]; rewrite ?(proj1 Hb1), ?(proj1 Hf1), ?Hd1; try done.
  - intros n' Hn'. apply Hh. by right.
  - rewrite <-Hpar. apply same_below_parent; [lia|done].
  - intros r Hr. unfold searched in Hr |- *. destruct (find_children c cs); [done|].
    destruct Hr as (s2 & -> & Hd2 & Hb2 & Hf2). exists s2. rewrite Hd1 in *.
    split; [done|]. split; [congruence|]. split.
    + by apply (same_below_trans (f_depth s) (f_depth s) _ (f_stack s1)).
    + by apply (same_below_trans (f_depth s) (f_depth s) _ (fb_stack s1)).
Qed.

Lemma run_fb_node n : finds n.
Proof.
  induction n as [nm ps cs IH] using node_nested_ind. intros c s Hc Hok Hl Hlf Hd Hh Hpar.
  inversion_clear Hok as [? ? ? Hnm Hps Hcs]. cbn [tokens_of run react fb_handlers on_begin].
  pose proof (height_children cs) as Hf0. cbn [height] in Hh.
  unfold fb_begin. rewrite Hpar. cbn [mbind outcome_bind].
  rewrite decide_True by lia. rewrite (aset_ret (f_stack s)) by lia.
  rewrite (aset_ret (fb_stack s)) by lia. cbn [mbind outcome_bind].
  destruct (run_fb_props ps c no_fb (<[Z.to_nat (f_depth s) := c]> (f_stack s))
    (<[Z.to_nat (f_depth s) := no_fb]> (fb_stack s)) (f_depth s + 1) Hps Hc) as [Hrun Hsm];
    rewrite ?len_insert; try done; try lia;
    replace (f_depth s + 1 - 1) with (f_depth s) in * by lia.
  { apply list_lookup_insert_eq. unfold len in Hl. lia. }
  { apply list_lookup_insert_eq. unfold len in Hlf. lia. }
  rewrite run_app, Hrun. cbn [mbind outcome_bind]. clear Hrun. rewrite !list_insert_insert_eq.
  set (pe := fb_props ps c no_fb) in *.
  set (s1 := mkFinder (<[Z.to_nat (f_depth s) := pe.1]> (f_stack s))
    (<[Z.to_nat (f_depth s) := pe.2]> (fb_stack s)) (f_depth s + 1)).
  rewrite run_app. apply returns_bind. eapply returns_mono.
  { apply (run_fb_children cs pe.1 s1 (fold_right (λ c, Z.max (height c)) 0 cs)); try done;
      unfold s1; cbn [f_depth f_stack fb_stack]; rewrite ?len_insert; try done; try lia.
    - intros n. apply height_child.
    - unfold parent_of. rewrite decide_False by lia. apply aget_ret.
      replace (f_depth s + 1 - 1) with (f_depth s) by lia. split; [lia|].
      apply list_lookup_insert_eq. unfold len in Hl. lia. }
  intros r Hr. cbn [find_fb]. fold pe. fold (find_children pe.1 cs). unfold searched in Hr |- *.
  destruct (find_children pe.1 cs) as [i|]; [by rewrite Hr|].
  destruct Hr as (s2 & -> & Hd2 & Hb2 & Hf2). cbn [run react fb_handlers on_end]. unfold fb_end.
  assert (f_depth s2 = f_depth s + 1) as Hd2' by done. rewrite decide_True by lia.
  assert (aget (fb_stack s2) (f_depth s2 - 1) = Ret pe.2) as ->.
  { apply aget_ret. rewrite Hd2'. replace (f_depth s + 1 - 1) with (f_depth s) by lia.
    split; [lia|]. rewrite (same_below_lookup _ _ _ (f_depth s) Hf2) by (simpl; lia). simpl.
    apply list_lookup_insert_eq. unfold len in Hlf. lia. }
  cbn [mbind outcome_bind]. destruct (fb_result pe.2) as [i|]; [done|].
  cbn [mbind outcome_bind returns]. eexists. split; [done|]. cbn [f_depth f_stack fb_stack].
  split; [lia|]. split.
  - apply (same_below_trans (f_depth s + 1) (f_depth s) _ (f_stack s1)); [lia| |exact Hb2].
    by apply same_below_insert.
  - apply (same_below_trans (f_depth s + 1) (f_depth s) _ (fb_stack s1)); [lia| |exact Hf2].
    by apply same_below_insert.
Qed.
End fb_spec.

(** C36. [find_simplefb] on the encoding (smaller than 4 GiB, at a non-null address) of a tree of at most 32 levels, the code's stack, whose cell counts are
    below 2^31 ([small_cells]), finds exactly the framebuffer the recursive
    function [find_fb] finds: the first node, children before parents, that is compatible with
    "simple-framebuffer" and has an address, a width, a height, a stride and a known format. *)
Theorem find_simplefb_tree m pa total strings tree :
  pa ≠ 0 → open_fdt m pa = Ret (Some (mkFdt total (encode (tokens_of tree)) strings)) →
  tree_ok small_cells strings tree → height tree ≤ 32 → len (encode (tokens_of tree)) < U32 →
  find_simplefb m pa = Ret (find_fb strings root_ctx tree).
Proof.
  intros Hpa Hopen Htree Hh Hlen. unfold find_simplefb. rewrite decide_False by done.
  rewrite Hopen. cbn [mbind outcome_bind struct_block strings_block].
  rewrite walk_encode; [|by eapply tokens_ok|done].
  destruct (proj1 (returns_eq _ _) (run_fb_node strings tree root_ctx
    (mkFinder (replicate 32 root_ctx) (replicate 32 no_fb) 0) ltac:(done) Htree ltac:(done) ltac:(done)
    ltac:(done) ltac:(simpl; lia) ltac:(done))) as (r & -> & Hr).
  unfold searched in Hr. destruct (find_fb strings root_ctx tree); [by rewrite Hr|].
  by destruct Hr as (s' & -> & _).
Qed.

Definition demo_fb_strings : list Z :=
  demo_strings ++ strings_at ["compatible"; "width"; "height"; "stride"; "format"]%string.
Definition demo_fb_tree : node :=
  Node [] [(0, be32 2); (15, be32 1)] [
    Node (bytes "chosen") [] [
      Node (bytes "framebuffer@3e000000") [
        (43, bytes "vendor,fb" ++ [0] ++ bytes "simple-framebuffer" ++ [0]);
        (27, be32 0 ++ be32 0x3e000000 ++ be32 0x7E9000);
        (54, be32 1920); (60, be32 1080); (67, be32 7680); (74, bytes "a8r8g8b8" ++ [0])] []]].

Lemma find_simplefb_tree_witness :
  find_simplefb (image_at 0x8000000 (encode (tokens_of demo_fb_tree)) demo_fb_strings) 0x8000000 =
    Ret (find_fb demo_fb_strings root_ctx demo_fb_tree).
Proof.
  apply (find_simplefb_tree _ _ 357);
    [done|vm_compute; reflexivity| |vm_compute; discriminate|vm_compute; reflexivity].
  check_tree.
Defined.

Lemma demo_fb_found : find_fb demo_fb_strings root_ctx demo_fb_tree =
  Some (mkSimpleFb 0x3e000000 0x7E9000 1920 1080 7680 A8R8G8B8).
Proof. vm_compute. reflexivity. Qed.

Lemma parse_robust_witness :
  ends true (parse (image_at 0x8000000 (encode (tokens_of demo_tree)) demo_strings) 0x8000000
               [mkRegion 0x80000 0x90000 KernelImage])
    (λ '(_, map'), [mkRegion 0x80000 0x90000 KernelImage] `prefix_of` map' ∧ wf_map map').
Proof.
  apply parse_robust; [apply image_bytes_mem; decide_by_computation|].
  split; [|vm_compute; discriminate]. constructor; [|constructor].
  split; [|split]; vm_compute; try discriminate; reflexivity.
Defined.
