(* ===== verification/DtbUart.v ===== *)
(** * Finding the console UART in the device tree

    [find_uart] of [src/mm/dtb.rs]: the console's path is looked up in /aliases and /chosen, the
    node with that path is searched for while the path of the current node is kept in a
    buffer of 256 bytes, and the address of its [reg] is translated to a physical address
    through the [ranges] of the nodes above it.

    Shown: the search ends on every image; translation is the composition of the levels' maps,
    each of which moves the first matching window. *)
From S2P Require Import Prelude Bits Memory Region Framebuffer Fdt Dtb.
Local Open Scope Z_scope.

Record UartInfo := mkUartInfo {
  u_addr : Z; u_size : Z; u_reg_shift : Z; u_reg_io_width : Z;
  u_clock_hz : option Z; u_skip_init : bool
}.

Record Range := mkRng { child_base : Z; parent_base : Z; rsize : Z }.

Record RegNode := mkRegNode {
  rn_addr_cells : Z; rn_size_cells : Z; ranges : list Range; ranges_len : Z
}.

Record SmallBuf := mkBuf { sbuf : list Z; slen : Z }.

Definition SmallBuf_new : SmallBuf := mkBuf (replicate 256 0) 0.

Definition clear (b : SmallBuf) : SmallBuf := mkBuf (sbuf b) 0.

(** [self.buf[self.len] = b; self.len += 1]. *)
Definition put (x : Z) (b : SmallBuf) : outcome SmallBuf :=
  l ← aset (sbuf b) (slen b) x; Ret (mkBuf l (slen b + 1)).

Fixpoint set_from_loop (src : list Z) (stop : option Z) (b : SmallBuf) : outcome SmallBuf :=
  match src with
  | [] => Ret b
  | x :: src =>
      if decide (x = 0) then Ret b
      else if decide (stop = Some x) then Ret b
      else if decide (len (sbuf b) ≤ slen b) then Ret b
      else b ← put x b; set_from_loop src stop b
  end.
Definition set_from (src : list Z) (stop : option Z) (b : SmallBuf) : outcome SmallBuf :=
  set_from_loop src stop (clear b).

Definition as_slice (b : SmallBuf) : outcome (list Z) := slice (sbuf b) 0 (slen b).

(** ** A property of /chosen or /aliases *)

Record section := mkSection { s_depth : Z; inside : bool; section_depth : Z }.

Definition section_begin (section_name name : list Z) (s : section) : outcome section :=
  let is_root := bool_decide (s_depth s = 0) && bool_decide (name = []) in
  let depth := s_depth s + 1 in
  if negb is_root && bool_decide (depth = 2) && bool_decide (name = section_name)
  then Ret (mkSection depth true depth)
  else Ret (mkSection depth (inside s) (section_depth s)).

Definition section_end (s : section) : outcome (section + SmallBuf) :=
  let ins := if inside s && bool_decide (s_depth s = section_depth s) then false else inside s in
  Ret (inl (mkSection (if decide (0 < s_depth s) then s_depth s - 1 else s_depth s) ins (section_depth s))).

Definition section_prop (wanted : list Z) (stop : option Z) (out : SmallBuf)
    (name value : list Z) (s : section) : outcome (section + SmallBuf) :=
  if inside s then
    if decide (name = wanted) then o ← set_from value stop out; Ret (inr o) else Ret (inl s)
  else Ret (inl s).

Definition section_handlers (section_name wanted : list Z) (stop : option Z) (out : SmallBuf) :
    handlers section SmallBuf :=
  mkHandlers (section_begin section_name) section_end (section_prop wanted stop out).

Definition scan_stdout_path (m : mem) (dtb_pa : Z) (out : SmallBuf) : outcome SmallBuf :=
  let out := clear out in
  f ← open_fdt m dtb_pa;
  match f with
  | None => Ret out
  | Some f =>
      r ← walk (section_handlers (bytes "chosen") (bytes "stdout-path") (Some 58) out)
            (struct_block f) (strings_block f) (mkSection 0 false 0);
      Ret (match r with inl _ => out | inr out => out end)
  end.

Definition read_alias_path (m : mem) (dtb_pa : Z) (alias : list Z) (out : SmallBuf) :
    outcome (bool * SmallBuf) :=
  let out := clear out in
  f ← open_fdt m dtb_pa;
  match f with
  | None => Ret (false, out)
  | Some f =>
      r ← walk (section_handlers (bytes "aliases") alias None out)
            (struct_block f) (strings_block f) (mkSection 0 false 0);
      Ret (match r with inl _ => (false, out) | inr out => (true, out) end)
  end.

(** ** The node with a given path *)

Definition path_matches (path : SmallBuf) (target : list Z) : outcome bool :=
  if decide (slen path = len target) then
    s ← slice (sbuf path) 0 (slen path); Ret (bool_decide (s = target))
  else Ret false.

Definition RP1_PREFIX : list Z := bytes "/axi/pcie@1000120000/rp1/".

Definition is_rp1_path (path : SmallBuf) : outcome bool :=
  if decide (len RP1_PREFIX ≤ slen path) then
    s ← slice (sbuf path) 0 (len RP1_PREFIX); Ret (bool_decide (s = RP1_PREFIX))
  else Ret false.

Definition RP1_CHILD_BASE : Z := 0xC040000000.
Definition RP1_PHYS_BASE : Z := 0x1C00000000.

Definition rp1_fixup (addr : Z) : Z :=
  if decide (RP1_CHILD_BASE ≤ addr) then add64 RP1_PHYS_BASE (addr - RP1_CHILD_BASE)
  else add64 RP1_PHYS_BASE addr.

(** The first of the [n] ranges from the [i]-th on that contains [cur]. *)
Fixpoint map_range (n : nat) (i : Z) (rs : list Range) (cur : Z) : outcome (option Z) :=
  match n with
  | O => Ret None
  | S n =>
      range ← aget rs i;
      if decide (child_base range ≤ cur ∧ cur < sat_add64 (child_base range) (rsize range))
      then Ret (Some (add64 (parent_base range) (cur - child_base range)))
      else map_range n (i + 1) rs cur
  end.

(** [while idx > 0]. *)
Fixpoint translate_loop (idx : nat) (stack : list RegNode) (cur : Z) : outcome (option Z) :=
  match idx with
  | O => Ret (Some cur)
  | S idx' =>
      parent ← aget stack (Z.of_nat idx');
      if decide (0 < ranges_len parent) then
        mapped ← map_range (Z.to_nat (ranges_len parent)) 0 (ranges parent) cur;
        match mapped with
        | Some next => translate_loop idx' stack next
        | None => Ret None
        end
      else translate_loop idx' stack cur
  end.

Definition translate_addr (addr depth : Z) (stack : list RegNode) : outcome (option Z) :=
  if decide (depth = 0) then Ret (Some addr) else translate_loop (Z.to_nat (depth - 1)) stack addr.

Record search := mkSearch {
  r_depth : Z;
  r_stack : list RegNode;
  path : SmallBuf;
  path_len_stack : list Z;
  reg_shift : Z;
  reg_io_width : Z;
  clock_hz : option Z;
  skip_init : bool
}.

Definition no_range : Range := mkRng 0 0 0.
Definition root_reg : RegNode := mkRegNode 2 2 (replicate 4 no_range) 0.

Definition search_new : search :=
  mkSearch 0 (replicate 32 root_reg) SmallBuf_new (replicate 32 0) 0 4 None false.

(** [for &b in name.iter() { if path.len >= path.buf.len() { break; } .. }]. *)
Fixpoint push_name (name : list Z) (b : SmallBuf) : outcome SmallBuf :=
  match name with
  | [] => Ret b
  | x :: name => if decide (len (sbuf b) ≤ slen b) then Ret b else b ← put x b; push_name name b
  end.

Definition enter_path (is_root : bool) (name : list Z) (b : SmallBuf) : outcome SmallBuf :=
  if is_root then Ret b
  else
    b ← (if decide (slen b < len (sbuf b)) then put 47 b else Ret b);
    push_name name b.

Definition reg_begin (name : list Z) (s : search) : outcome search :=
  let depth := r_depth s in
  pls ← (if decide (depth < len (path_len_stack s))
         then aset (path_len_stack s) depth (slen (path s)) else Ret (path_len_stack s));
  let is_root := bool_decide (depth = 0) && bool_decide (name = []) in
  p ← enter_path is_root name (path s);
  parent ← (if decide (depth = 0) then Ret root_reg else aget (r_stack s) (depth - 1));
  let ctx := mkRegNode (rn_addr_cells parent) (rn_size_cells parent) (ranges parent) 0 in
  st ← (if decide (depth < len (r_stack s)) then aset (r_stack s) depth ctx else Ret (r_stack s));
  Ret (mkSearch (if decide (depth < len (r_stack s)) then depth + 1 else depth) st p pls
         (reg_shift s) (reg_io_width s) (clock_hz s) (skip_init s)).

Definition reg_end (s : search) : outcome (search + option UartInfo) :=
  if decide (0 < r_depth s) then
    l ← aget (path_len_stack s) (r_depth s - 1);
    Ret (inl (mkSearch (r_depth s - 1) (r_stack s) (mkBuf (sbuf (path s)) l) (path_len_stack s)
                (reg_shift s) (reg_io_width s) (clock_hz s) (skip_init s)))
  else Ret (inl s).

(** One iteration of the loop over the entries of [ranges]. *)
Definition ranges_body (addr_cells parent_addr_cells size_cells : Z) (value : list Z)
    (st : Z * RegNode) : outcome (Z * RegNode + RegNode) :=
  let '(pos, ctx) := st in
  let entry_bytes := add32 (add32 addr_cells parent_addr_cells) size_cells * 4 in
  if decide (pos + entry_bytes ≤ len value ∧ ranges_len ctx < len (ranges ctx)) then
    a ← slice value pos (pos + addr_cells * 4);
    child ← read_addr_cells a addr_cells;
    b ← slice value (pos + addr_cells * 4) (pos + add32 addr_cells parent_addr_cells * 4);
    parent ← read_cells_trunc b parent_addr_cells;
    c ← slice value (pos + add32 addr_cells parent_addr_cells * 4) (pos + entry_bytes);
    size ← read_cells c size_cells;
    rs ← aset (ranges ctx) (ranges_len ctx) (mkRng child parent size);
    Ret (inl (pos + entry_bytes,
      mkRegNode (rn_addr_cells ctx) (rn_size_cells ctx) rs (ranges_len ctx + 1)))
  else Ret (inr ctx).

Definition parse_ranges (parent_addr_cells : Z) (value : list Z) (ctx : RegNode) : outcome RegNode :=
  let a := rn_addr_cells ctx in
  let s := rn_size_cells ctx in
  if decide (add32 (add32 a parent_addr_cells) s = 0) then Ret ctx
  else loop (S (length value)) (ranges_body a parent_addr_cells s value)
         (0, mkRegNode a s (ranges ctx) 0).

(** The [reg] of the wanted node; [None]: the reader continues. *)
Definition uart_reg (s : search) (ctx : RegNode) (value : list Z) : outcome (option (option UartInfo)) :=
  let a := rn_addr_cells ctx in
  let tuple_cells := add32 a (rn_size_cells ctx) in
  if decide (tuple_cells = 0) then Ret None
  else
    let entry_bytes := tuple_cells * 4 in
    if decide (len value < entry_bytes) then Ret None
    else
      x ← slice value 0 (a * 4);
      addr ← read_addr_cells x a;
      y ← slice value (a * 4) entry_bytes;
      size ← read_cells y (rn_size_cells ctx);
      phys ← translate_addr addr (r_depth s) (r_stack s);
      rp1 ← is_rp1_path (path s);
      let phys := match phys with
                  | None => if (rp1 : bool) then Some (rp1_fixup addr) else None
                  | some => some
                  end in
      match phys with
      | None => Ret (Some None)
      | Some phys =>
          let phys := if rp1 && bool_decide (phys < 0x100000000) then rp1_fixup addr else phys in
          Ret (Some (Some (mkUartInfo phys size (reg_shift s) (reg_io_width s) (clock_hz s)
                             (skip_init s))))
      end.

Definition with_ctx (s : search) (ctx : RegNode) : outcome (search + option UartInfo) :=
  st ← aset (r_stack s) (r_depth s - 1) ctx;
  Ret (inl (mkSearch (r_depth s) st (path s) (path_len_stack s) (reg_shift s) (reg_io_width s)
              (clock_hz s) (skip_init s))).

Definition with_settings (s : search) (shift width : Z) (clk : option Z) (skip : bool) :
    search + option UartInfo :=
  inl (mkSearch (r_depth s) (r_stack s) (path s) (path_len_stack s) shift width clk skip).

Definition reg_prop (target name value : list Z) (s : search) : outcome (search + option UartInfo) :=
  if decide (r_depth s = 0) then Ret (inl s)
  else
    parent_addr_cells ← (if decide (2 ≤ r_depth s)
                         then p ← aget (r_stack s) (r_depth s - 2); Ret (rn_addr_cells p) else Ret 0);
    ctx ← aget (r_stack s) (r_depth s - 1);
    if decide (name = bytes "#address-cells") then
      c ← if_u32 value (λ v, mkRegNode v (rn_size_cells ctx) (ranges ctx) (ranges_len ctx)) ctx;
      with_ctx s c
    else if decide (name = bytes "#size-cells") then
      c ← if_u32 value (λ v, mkRegNode (rn_addr_cells ctx) v (ranges ctx) (ranges_len ctx)) ctx;
      with_ctx s c
    else if decide (name = bytes "ranges") then
      c ← parse_ranges parent_addr_cells value ctx; with_ctx s c
    else
      hit ← path_matches (path s) target;
      if negb hit then Ret (inl s)
      else if decide (name = bytes "reg-shift") then
        v ← if_u32 value id (reg_shift s);
        Ret (with_settings s v (reg_io_width s) (clock_hz s) (skip_init s))
      else if decide (name = bytes "reg-io-width") then
        v ← if_u32 value id (reg_io_width s);
        Ret (with_settings s (reg_shift s) v (clock_hz s) (skip_init s))
      else if decide (name = bytes "clock-frequency") then
        v ← if_u32 value Some (clock_hz s);
        Ret (with_settings s (reg_shift s) (reg_io_width s) v (skip_init s))
      else if decide (name = bytes "skip-init") then
        Ret (with_settings s (reg_shift s) (reg_io_width s) (clock_hz s) true)
      else if decide (name = bytes "reg") then
        r ← uart_reg s ctx value;
        Ret (match r with None => inl s | Some info => inr info end)
      else Ret (inl s).

Definition reg_handlers (target : list Z) : handlers search (option UartInfo) :=
  mkHandlers reg_begin reg_end (reg_prop target).

Definition find_reg_by_path (m : mem) (dtb_pa : Z) (target : list Z) : outcome (option UartInfo) :=
  f ← open_fdt m dtb_pa;
  match f with
  | None => Ret None
  | Some f =>
      r ← walk (reg_handlers target) (struct_block f) (strings_block f) search_new;
      Ret (match r with inl _ => None | inr info => info end)
  end.

Definition find_uart (m : mem) (dtb_pa : Z) : outcome (option UartInfo) :=
  if decide (dtb_pa = 0) then Ret None
  else
    stdout ← scan_stdout_path m dtb_pa SmallBuf_new;
    r ← read_alias_path m dtb_pa (bytes "serial0") SmallBuf_new;
    '(target, alias) ←
      (if (r.1 : bool) then Ret (r.2, SmallBuf_new)
       else if decide (slen stdout ≠ 0) then
         b ← aget (sbuf stdout) 0;
         if decide (b = 47) then Ret (stdout, SmallBuf_new) else Ret (r.2, stdout)
       else Ret (r.2, SmallBuf_new));
    target ←
      (if decide (slen target = 0 ∧ slen alias ≠ 0) then
         al ← as_slice alias;
         r ← read_alias_path m dtb_pa al target;
         Ret r.2
       else Ret target);
    if decide (slen target = 0) then Ret None
    else t ← as_slice target; find_reg_by_path m dtb_pa t.

(** A board whose GPIO UART sits behind PCIe on the RP1 chip, two bus windows away. *)
Definition pi5_strings : list Z := strings_at
  ["#address-cells"; "#size-cells"; "reg"; "ranges"; "serial0"; "stdout-path"; "clock-frequency"; "skip-init"]%string.
Definition pi5_tree : node :=
  Node [] [(0, be32 2); (15, be32 2)] [
    Node (bytes "aliases") [(38, bytes "/axi/pcie@1000120000/rp1/serial@30000" ++ [0])] [];
    Node (bytes "chosen") [(46, bytes "serial10:115200n8" ++ [0])] [];
    Node (bytes "axi") [(0, be32 2); (15, be32 2); (31, [])] [
      Node (bytes "pcie@1000120000") [(0, be32 3); (15, be32 2);
        (31, be32 0x2000000 ++ be32 0 ++ be32 0 ++ be32 0x1f ++ be32 0 ++ be32 0 ++ be32 0xfffffffc)] [
        Node (bytes "rp1") [(0, be32 2); (15, be32 2);
          (31, be32 0xc0 ++ be32 0x40000000 ++ be32 0x2000000 ++ be32 0 ++ be32 0 ++ be32 0 ++ be32 0x400000)] [
          Node (bytes "serial@30000") [(58, be32 50000000); (27, be32 0xc0 ++ be32 0x40030000 ++ be32 0 ++ be32 0x100)] []]]]].

(** ** The search ends on arbitrary images *)

Record buf_ok (b : SmallBuf) : Prop := {
  b_size : len (sbuf b) = 256;
  b_len : 0 ≤ slen b ≤ 256
}.

Lemma new_ok : buf_ok SmallBuf_new.
Proof. split; simpl; [done|lia]. Qed.

Lemma clear_ok b : buf_ok b → buf_ok (clear b).
Proof. intros [? _]. split; simpl; [done|lia]. Qed.

Lemma put_ok x b : buf_ok b → slen b < len (sbuf b) → returns (put x b) buf_ok.
Proof.
  intros [Hs Hl] Hlt. unfold put. rewrite aset_ret by lia. simpl.
  split; simpl; [by rewrite len_insert|lia].
Qed.

Lemma set_from_ok src stop b : buf_ok b → returns (set_from src stop b) buf_ok.
Proof.
  intros Hb. unfold set_from. generalize (clear_ok b Hb). generalize (clear b). clear b Hb.
  induction src as [|x src IH]; intros b Hb; simpl; [done|]. repeat (case_decide; [done|]).
  apply returns_bind. eapply returns_mono; [apply put_ok; [done|lia]|]. apply IH.
Qed.

Lemma push_name_ok name b : buf_ok b → returns (push_name name b) buf_ok.
Proof.
  revert b. induction name as [|x name IH]; intros b Hb; simpl; [done|]. case_decide; [done|].
  apply returns_bind. eapply returns_mono; [apply put_ok; [done|lia]|]. apply IH.
Qed.

Lemma prefix_slice b n : buf_ok b → 0 ≤ n ≤ slen b →
  slice (sbuf b) 0 n = Ret (take (Z.to_nat n) (sbuf b)).
Proof.
  intros [Hs Hl] Hn. rewrite slice_ret by lia. rewrite Z.sub_0_r. done.
Qed.

Lemma as_slice_ok b : buf_ok b → returns (as_slice b) (λ _, True).
Proof. intros Hb. unfold as_slice. rewrite prefix_slice; [done|done|]. destruct Hb. lia. Qed.

Lemma section_ends name wanted stop out sb strings s : u8s sb → len sb < U32 → buf_ok out →
  ends true (walk (section_handlers name wanted stop out) sb strings s)
    (λ r, match r with inl _ => True | inr b => buf_ok b end).
Proof.
  intros Hsb Hlen Hout. apply (walk_ends _ _ _ Hsb Hlen true (λ _, True)); [..|done].
  - intros nm s' _ _. simpl. unfold section_begin. by case_match.
  - intros s' _. done.
  - intros nm v s' _ _ _. simpl. unfold section_prop. case_match; [|done]. case_decide; [|done].
    apply ends_bind. eapply ends_mono; [by apply ends_returns, set_from_ok|]. done.
Qed.

Lemma scan_stdout_ends m pa out : bytes_mem m → buf_ok out →
  ends true (scan_stdout_path m pa out) buf_ok.
Proof.
  intros Hm Hout%clear_ok. unfold scan_stdout_path. apply ends_bind.
  eapply ends_mono; [by apply ends_returns, open_fdt_ok|]. intros [f|] Hf; [|done].
  destruct Hf as [Hsb Hlen]. apply ends_bind. eapply ends_mono; [by apply section_ends|].
  by intros [s|b] Hb.
Qed.

Lemma read_alias_ends m pa alias out : bytes_mem m → buf_ok out →
  ends true (read_alias_path m pa alias out) (λ r, buf_ok r.2).
Proof.
  intros Hm Hout%clear_ok. unfold read_alias_path. apply ends_bind.
  eapply ends_mono; [by apply ends_returns, open_fdt_ok|]. intros [f|] Hf; [|done].
  destruct Hf as [Hsb Hlen]. apply ends_bind. eapply ends_mono; [by apply section_ends|].
  by intros [s|b] Hb.
Qed.

Record reg_ok (r : RegNode) : Prop := {
  rg_addr : is_u32 (rn_addr_cells r);
  rg_size : is_u32 (rn_size_cells r);
  rg_ranges : len (ranges r) = 4;
  rg_len : 0 ≤ ranges_len r ≤ 4
}.

Lemma root_reg_ok : reg_ok root_reg.
Proof. split; simpl; unfold is_u32; done || lia. Qed.

Record search_ok (s : search) : Prop := {
  so_depth : 0 ≤ r_depth s ≤ 32;
  so_stack : len (r_stack s) = 32;
  so_regs : Forall reg_ok (r_stack s);
  so_path : buf_ok (path s);
  so_pls : len (path_len_stack s) = 32;
  so_lens : Forall (λ l, 0 ≤ l ≤ 256) (path_len_stack s)
}.

Lemma stack_get s i : search_ok s → 0 ≤ i < 32 → returns (aget (r_stack s) i) reg_ok.
Proof.
  intros Hs Hi. destruct (aget_total (r_stack s) i) as (r & -> & Hr); [by rewrite so_stack|].
  simpl. eapply Forall_lookup_1; [by apply so_regs|done].
Qed.

Lemma reg_begin_ok name s : search_ok s → returns (reg_begin name s) search_ok.
Proof.
  intros Hs. pose proof Hs as [Hd Hst Hrg Hp Hpl Hls]. pose proof (b_len _ Hp). unfold reg_begin.
  apply returns_bind. eapply (returns_mono _ (λ l, len l = 32 ∧ Forall (λ l, 0 ≤ l ≤ 256) l)).
  { case_decide; [|done]. rewrite aset_ret by lia. simpl. rewrite len_insert. split; [done|].
    by apply Forall_insert. }
  intros pls [Hpls Hlens]. apply returns_bind. eapply (returns_mono _ buf_ok).
  { unfold enter_path. case_match; [done|]. apply returns_bind. eapply (returns_mono _ buf_ok).
    - destruct (decide (slen (path s) < len (sbuf (path s)))); [by apply put_ok|done].
    - intros b Hb. by apply push_name_ok. }
  intros p Hpok. apply returns_bind. eapply (returns_mono _ reg_ok).
  { case_decide; [apply root_reg_ok|]. apply stack_get; [done|lia]. }
  intros parent [Hpa Hps Hpr Hpn]. apply returns_bind.
  assert (reg_ok (mkRegNode (rn_addr_cells parent) (rn_size_cells parent) (ranges parent) 0)) as Hctx
    by (split; simpl; done || lia).
  eapply (returns_mono _ (λ st, len st = 32 ∧ Forall reg_ok st)).
  { case_decide; [|done]. rewrite aset_ret by lia. simpl. rewrite len_insert. split; [done|].
    by apply Forall_insert. }
  intros st [Hlst Hrst]. simpl. split; simpl; try done. case_decide; lia.
Qed.

Lemma ranges_ends a pa sc value n ctx pos : u8s value → 0 ≤ a → 0 ≤ pa → 0 ≤ sc → 0 ≤ pos →
  add32 (add32 a pa) sc ≠ 0 → reg_ok ctx → (Z.to_nat (len value - pos) < n)%nat →
  ends true (loop n (ranges_body a pa sc value) (pos, ctx)) reg_ok.
Proof.
  intros Hv Ha Hpa Hsc Hpos Hne Hctx Hn.
  assert (0 ≤ add32 (add32 a pa) sc) as He by (apply Z.mod_pos_bound; lia).
  apply (ends_loop true (λ '(pos, ctx), 0 ≤ pos ∧ reg_ok ctx) (λ '(pos, _), Z.to_nat (len value - pos)));
    [|done|done].
  clear pos ctx Hpos Hctx Hn. intros [pos ctx] [Hpos Hctx]. unfold ranges_body.
  case_decide as Hc; [|done]. destruct Hc as [Hroom Hfree].
  assert (∀ x c, u8s x → 0 ≤ c → returns (read_cells_trunc x c) (λ _, True)) as Htr.
  { intros x c Hx Hc. unfold read_cells_trunc.
    assert (∀ y k, u8s y → 0 ≤ k → returns (read_cells y k) (λ _, True)) as Hrc
      by (intros; by rewrite read_cells_ok).
    case_decide; [by apply Hrc|]. case_decide as Hlen; [done|].
    unfold sat_sub64 in *. rewrite slice_ret by lia. simpl. apply Hrc; [|lia].
    by apply Forall_take, Forall_drop. }
  apply ends_bind, slice_ends; [done|]. intros x Hx. apply ends_bind.
  eapply (ends_mono _ _ (λ _, True)); [apply ends_returns|].
  { unfold read_addr_cells. case_decide; [apply Htr; [by eapply u8s_slice|done]|].
    rewrite read_cells_ok; [done|by eapply u8s_slice|done]. }
  intros child _. apply ends_bind, slice_ends; [done|]. intros y Hy. apply ends_bind.
  eapply ends_mono; [apply ends_returns, Htr; [by eapply u8s_slice|done]|].
  intros parent _. apply ends_bind, slice_ends; [done|]. intros z Hz. apply ends_bind.
  eapply ends_mono; [apply ends_returns, read_cells_u64; [by eapply u8s_slice|done]|].
  intros size _. destruct Hctx as [H1 H2 H3 H4]. rewrite aset_ret by lia. simpl.
  split; [|lia]. split; [lia|]. split; simpl; try done; [by rewrite len_insert|lia].
Qed.

Lemma mapped_range_ok n i rs cur : 0 ≤ i → i + Z.of_nat n ≤ len rs →
  returns (map_range n i rs cur) (λ _, True).
Proof.
  revert i. induction n as [|n IH]; intros i Hi Hn; simpl; [done|].
  destruct (aget_total rs i) as (r & -> & _); [lia|]. simpl. case_decide; [done|]. apply IH; lia.
Qed.

Lemma translate_loop_ok idx stack cur : Forall reg_ok stack → Z.of_nat idx ≤ len stack →
  returns (translate_loop idx stack cur) (λ _, True).
Proof.
  intros Hst. revert cur. induction idx as [|idx IH]; intros cur Hidx; cbn [translate_loop]; [done|].
  destruct (aget_total stack (Z.of_nat idx)) as (r & -> & Hr); [lia|]. cbn [mbind outcome_bind].
  apply (Forall_lookup_1 _ _ _ _ Hst) in Hr. destruct Hr as [_ _ Hl Hn].
  case_decide; [|apply IH; lia]. apply returns_bind.
  eapply returns_mono; [apply mapped_range_ok; lia|]. intros [next|] _; [apply IH; lia|done].
Qed.

Lemma uart_reg_ends s ctx value : search_ok s → reg_ok ctx → u8s value →
  ends true (uart_reg s ctx value) (λ _, True).
Proof.
  intros Hs [Ha Hz _ _] Hv. unfold is_u32 in *. unfold uart_reg. case_decide; [done|].
  case_decide; [done|]. apply ends_bind, slice_ends; [done|]. intros x Hx. apply ends_bind.
  assert (u8s x) as Hux by by eapply u8s_slice.
  eapply (ends_mono _ _ (λ _, True)); [apply ends_returns|].
  { unfold read_addr_cells, read_cells_trunc. repeat case_decide; try done;
      try (by rewrite read_cells_ok by (done || lia)).
    unfold sat_sub64 in *. rewrite slice_ret by lia. simpl.
    rewrite read_cells_ok; [done|by apply Forall_take, Forall_drop|lia]. }
  intros addr _. apply ends_bind, slice_ends; [done|]. intros y Hy. apply ends_bind.
  eapply ends_mono; [apply ends_returns, read_cells_u64; [by apply (u8s_slice _ _ _ _ Hv Hy)|lia]|].
  intros size _. apply ends_bind. eapply (ends_mono _ _ (λ _, True)).
  { apply ends_returns. unfold translate_addr.
    case_decide; [done|]. apply translate_loop_ok; [by apply so_regs|].
    rewrite so_stack by done. pose proof (so_depth _ Hs). lia. }
  intros phys _. apply ends_bind. eapply (ends_mono _ _ (λ _, True)).
  { apply ends_returns. unfold is_rp1_path. case_decide; [|done].
    rewrite prefix_slice; [done|by apply so_path|]. split; [apply len_nonneg|done]. }
  intros rp1 _. by repeat case_match.
Qed.

Lemma with_ctx_ok s ctx : search_ok s → 0 < r_depth s → reg_ok ctx →
  returns (with_ctx s ctx) (λ r, match r with inl s => search_ok s | inr _ => True end).
Proof.
  intros [] Hd Hc. unfold with_ctx. rewrite aset_ret by lia. simpl. split; simpl; try done.
  - by rewrite len_insert.
  - by apply Forall_insert.
Qed.

Lemma reg_prop_ends target name value s : search_ok s → u8s value →
  ends true (reg_prop target name value s) (λ r, match r with inl s => search_ok s | inr _ => True end).
Proof.
  intros Hs Hv. pose proof (so_depth _ Hs) as Hd. unfold reg_prop. case_decide; [done|].
  apply ends_bind. eapply (ends_mono _ _ (λ pa, 0 ≤ pa)).
  { case_decide; [|done]. apply ends_returns, returns_bind.
    eapply returns_mono; [apply stack_get; [done|lia]|]. intros p [Hp _ _ _]. simpl. apply Hp. }
  intros pa Hpa. apply ends_bind. eapply ends_mono; [apply ends_returns, stack_get; [done|lia]|].
  intros ctx Hctx. pose proof Hctx as [H1 H2 H3 H4].
  assert (∀ c, reg_ok c → ends true (with_ctx s c)
    (λ r, match r with inl s => search_ok s | inr _ => True end)) as Hw.
  { intros c Hc. apply ends_returns, with_ctx_ok; [done|lia|done]. }
  case_decide. { apply ends_bind. eapply ends_mono; [by apply ends_returns, (if_u32_ok _ _ _ reg_ok)|done]. }
  case_decide. { apply ends_bind. eapply ends_mono; [by apply ends_returns, (if_u32_ok _ _ _ reg_ok)|done]. }
  case_decide.
  { apply ends_bind. eapply ends_mono; [|exact Hw]. unfold parse_ranges. case_decide; [done|].
    unfold is_u32 in *. apply ranges_ends; try done; try lia. unfold len. lia. }
  apply ends_bind. eapply (ends_mono _ _ (λ _, True)).
  { apply ends_returns. unfold path_matches. case_decide; [|done].
    rewrite prefix_slice; [done|by apply so_path|]. pose proof (b_len _ (so_path _ Hs)). lia. }
  intros hit _. case_match; [done|].
  assert (∀ X (f : Z → X) (x : X), returns (if_u32 value f x) (λ _, True)) as Hif
    by (intros; by apply if_u32_ok).
  repeat (case_decide; [first
    [ apply ends_bind; eapply ends_mono; [apply ends_returns, Hif|]; intros v _; by destruct Hs
    | by destruct Hs
    | apply ends_bind; eapply ends_mono; [by apply uart_reg_ends|]; by intros [i|] _ ]|]).
  done.
Qed.

Lemma find_reg_ends m pa target : bytes_mem m →
  ends true (find_reg_by_path m pa target) (λ _, True).
Proof.
  intros Hm. unfold find_reg_by_path. apply ends_bind.
  eapply ends_mono; [by apply ends_returns, open_fdt_ok|]. intros [f|] Hf; [|done].
  destruct Hf as [Hsb Hlen]. apply ends_bind. eapply ends_mono; [|by intros].
  apply (walk_ends _ _ _ Hsb Hlen true search_ok (λ _, True)).
  - intros name s _ Hs. by apply ends_returns, reg_begin_ok.
  - intros s Hs. simpl. unfold reg_end. case_decide; [|done].
    destruct (aget_total (path_len_stack s) (r_depth s - 1)) as (l & -> & Hl).
    { rewrite so_pls by done. pose proof (so_depth _ Hs). lia. }
    pose proof (Forall_lookup_1 _ _ _ _ (so_lens _ Hs) Hl) as Hb. cbn beta in Hb.
    destruct Hs as [? ? ? [] ? ?]. simpl. split; simpl; try done; try lia.
  - intros name value s Hv _ Hs. by apply reg_prop_ends.
  - split; cbn [search_new r_depth r_stack path path_len_stack]; try done; try lia.
    + apply Forall_replicate, root_reg_ok.
    + apply Forall_replicate. lia.
Qed.

(** [find_uart] is robust: on any memory contents the search for the console UART, which walks
    the image up to four times, ends. *)
Theorem find_uart_robust m pa : bytes_mem m → ends true (find_uart m pa) (λ _, True).
Proof.
  intros Hm. unfold find_uart. case_decide; [done|]. pose proof new_ok as Hnew.
  apply ends_bind. eapply ends_mono; [by apply scan_stdout_ends|]. intros out Hout.
  apply ends_bind. eapply ends_mono; [by apply read_alias_ends|]. intros r Hr. apply ends_bind.
  eapply (ends_mono _ _ (λ ta, buf_ok ta.1 ∧ buf_ok ta.2)).
  { case_match; [done|]. case_decide; [|done].
    destruct (aget_total (sbuf out) 0) as (b & -> & _); [rewrite b_size by done; lia|]. simpl.
    by case_decide. }
  intros [target alias] [Ht Ha]. cbn [fst snd] in *. apply ends_bind. eapply (ends_mono _ _ buf_ok).
  { case_decide; [|done]. apply ends_bind.
    eapply ends_mono; [by apply ends_returns, as_slice_ok|]. intros al _. apply ends_bind.
    eapply ends_mono; [by apply read_alias_ends|]. done. }
  intros t Htok. case_decide; [done|]. apply ends_bind.
  eapply ends_mono; [by apply ends_returns, as_slice_ok|]. intros tl _. by apply find_reg_ends.
Qed.

Lemma find_uart_robust_witness :
  ends true (find_uart (image_at 0x8000000 (encode (tokens_of pi5_tree)) pi5_strings) 0x8000000)
    (λ _, True).
Proof. apply find_uart_robust, image_bytes_mem. decide_by_computation. Defined.

(** ** Translation *)

(** One level's map: the first window that contains the address moves it. *)
Fixpoint window (rs : list Range) (cur : Z) : option Z :=
  match rs with
  | [] => None
  | r :: rs =>
      if decide (child_base r ≤ cur < Z.min (child_base r + rsize r) U64_MAX)
      then Some ((parent_base r + (cur - child_base r)) mod U64) else window rs cur
  end.

(** The levels from the innermost outwards; a level without windows changes nothing. *)
Fixpoint through (levels : list (list Range)) (cur : Z) : option Z :=
  match levels with
  | [] => Some cur
  | [] :: levels => through levels cur
  | rs :: levels => next ← window rs cur; through levels next
  end.

Definition windows_of (r : RegNode) : list Range := take (Z.to_nat (ranges_len r)) (ranges r).

Lemma map_range_window n i rs cur : 0 ≤ i → i + Z.of_nat n ≤ len rs →
  map_range n i rs cur = Ret (window (take n (drop (Z.to_nat i) rs)) cur).
Proof.
  revert i. induction n as [|n IH]; intros i Hi Hn; cbn [map_range]; [done|].
  destruct (aget_total rs i) as (r & -> & Hr); [lia|]. cbn [mbind outcome_bind].
  rewrite (drop_S _ _ _ Hr). cbn [take window].
  destruct (decide (child_base r ≤ cur ∧ cur < sat_add64 (child_base r) (rsize r))) as [Hin|Hin].
  - rewrite decide_True; [done|]. unfold sat_add64 in Hin. lia.
  - rewrite decide_False by (unfold sat_add64 in Hin; lia). rewrite IH by lia.
    by replace (Z.to_nat (i + 1)) with (S (Z.to_nat i)) by lia.
Qed.

Lemma translate_loop_through idx stack cur : Forall reg_ok stack → (idx ≤ length stack)%nat →
  translate_loop idx stack cur = Ret (through (rev (windows_of <$> take idx stack)) cur).
Proof.
  intros Hst. revert cur. induction idx as [|idx IH]; intros cur Hidx; cbn [translate_loop]; [done|].
  destruct (aget_total stack (Z.of_nat idx)) as (r & -> & Hr); [unfold len; lia|].
  rewrite Nat2Z.id in Hr. cbn [mbind outcome_bind]. rewrite (take_S_r _ _ _ Hr).
  rewrite fmap_app, rev_app_distr. cbn [fmap list_fmap rev app through].
  apply (Forall_lookup_1 _ _ _ _ Hst) in Hr. destruct Hr as [_ _ Hl Hn].
  assert (length (windows_of r) = Z.to_nat (ranges_len r)) as Hw
    by (unfold windows_of; rewrite length_take; unfold len in Hl; lia).
  case_decide as Hpos.
  - rewrite map_range_window by lia. cbn [mbind outcome_bind].
    change (take (Z.to_nat (ranges_len r)) (drop (Z.to_nat 0) (ranges r))) with (windows_of r).
    destruct (windows_of r) as [|w ws] eqn:Hws; [simpl in Hw; lia|].
    destruct (window (w :: ws) cur) as [next|]; [|done]. apply IH. lia.
  - destruct (windows_of r) as [|w ws] eqn:Hws; [|simpl in Hw; lia]. apply IH. lia.
Qed.

(** C38. Address translation: the address of a node at depth [d] goes through the windows of every
    node above it, innermost first; a level that has windows but none for the address makes
    the translation fail. *)
Theorem translate_addr_through addr d stack : Forall reg_ok stack → 1 ≤ d ≤ len stack →
  translate_addr addr d stack = Ret (through (rev (windows_of <$> take (Z.to_nat (d - 1)) stack)) addr).
Proof.
  intros Hst Hd. unfold translate_addr. rewrite decide_False by lia.
  apply translate_loop_through; [done|]. unfold len in Hd. lia.
Qed.

(** The two windows of [pi5_tree], the UART five levels down. *)
Definition pi5_stack : list RegNode :=
  [mkRegNode 2 2 (replicate 4 no_range) 0;
   mkRegNode 2 2 (replicate 4 no_range) 0;
   mkRegNode 3 2 [mkRng 0 0x1f00000000 0xfffffffc; no_range; no_range; no_range] 1;
   mkRegNode 2 2 [mkRng 0xc040000000 0 0x400000; no_range; no_range; no_range] 1;
   mkRegNode 2 2 (replicate 4 no_range) 0].

Lemma translate_addr_through_witness :
  translate_addr 0xc040030000 5 pi5_stack =
    Ret (through (rev (windows_of <$> take (Z.to_nat (5 - 1)) pi5_stack)) 0xc040030000).
Proof.
  apply translate_addr_through; [|split; vm_compute; discriminate].
  repeat constructor; vm_compute; try discriminate; reflexivity.
Defined.

Lemma pi5_translation :
  through (rev (windows_of <$> take 4 pi5_stack)) 0xc040030000 = Some 0x1f00030000.
Proof. vm_compute. reflexivity. Qed.

(** The whole search on the image of that tree: serial0 wins over stdout-path. *)
Lemma pi5_uart :
  find_uart (image_at 0x8000000 (encode (tokens_of pi5_tree)) pi5_strings) 0x8000000 =
    Ret (Some (mkUartInfo 0x1f00030000 0x100 0 4 (Some 50000000) false)).
Proof. vm_compute. reflexivity. Qed.
