(* ===== verification/Timer.v ===== *)
(** * The generic timer

    [src/arch/aarch64/timer.rs].  The counter and the timer registers are hardware ([Clock]).
    Shown: a delay ends at the first reading of the counter that is far enough from its start,
    and so lasts at least the time asked for. *)
From S2P Require Import Prelude.
Local Open Scope Z_scope.

(** CNTPCT_EL0, CNTFRQ_EL0, and arming the timer: CNTP_TVAL_EL0 := ticks, CNTP_CTL_EL0 := 1. *)
Class Clock (W : Type) := {
  cntpct : W → Z * W;
  cntfrq : W → Z;
  arm : Z → W → W
}.

Section timer.
Context {W : Type} `{Clock W}.

Definition counter (w : W) : Z * W := cntpct w.
Definition frequency (w : W) : Z := cntfrq w.
Definition set_timer (ticks : Z) (w : W) : W := arm ticks w.

(** The result is the new value of TICK_TICKS. *)
Definition init_tick (ms : Z) (w : W) : Z * W :=
  let ticks := mul64 (frequency w) ms / 1000 in
  let t := Z.max ticks 1 in
  (t, set_timer t w).

Definition tick (tick_ticks : Z) (w : W) : W :=
  if decide (tick_ticks ≠ 0) then set_timer tick_ticks w else w.

Definition delay_body (start ticks : Z) (w : W) : outcome (W + W) :=
  let '(now, w) := counter w in
  if decide (sub64 now start < ticks) then Ret (inl w) else Ret (inr w).

Definition delay_ms (fuel : nat) (ms : Z) (w : W) : outcome W :=
  let ticks := mul64 (frequency w) ms / 1000 in
  let '(start, w) := counter w in
  loop fuel (delay_body start ticks) w.

(** The clock after [n] readings, and the [n]-th reading (the 0-th starts the delay). *)
Fixpoint after (n : nat) (w : W) : W :=
  match n with O => w | S n => after n (cntpct w).2 end.
Definition reading (n : nat) (w : W) : Z := (cntpct (after n w)).1.
Definition elapsed (n : nat) (w : W) : Z := sub64 (reading n w) (reading 0 w).

Lemma after_step n w : after n (cntpct w).2 = (cntpct (after n w)).2.
Proof. revert w. induction n as [|n IH]; intros w; simpl; [done|]. by rewrite IH. Qed.

Lemma delay_loop_ok k n fuel start ticks w : (k < fuel)%nat →
  (∀ i, (i < k)%nat → sub64 (reading (n + i) w) start < ticks) →
  ticks ≤ sub64 (reading (n + k) w) start →
  loop fuel (delay_body start ticks) (after n w) = Ret (after (S (n + k)) w).
Proof.
  revert n fuel. induction k as [|k IH]; intros n fuel Hf Hlt Hge; (destruct fuel as [|fuel]; [lia|]);
    cbn [loop]; unfold delay_body at 2, counter.
  - unfold reading in Hge. rewrite Nat.add_0_r in *. destruct (cntpct (after n w)) as [now w'] eqn:Hw.
    simpl in Hge. rewrite decide_False by lia. cbn [mbind outcome_bind after].
    by rewrite after_step, Hw.
  - specialize (Hlt 0%nat ltac:(lia)) as H0. unfold reading in H0. rewrite Nat.add_0_r in H0.
    destruct (cntpct (after n w)) as [now w'] eqn:Hw. simpl in H0. rewrite decide_True by done.
    cbn [mbind outcome_bind]. assert (w' = after (S n) w) as -> by (cbn [after]; by rewrite after_step, Hw).
    rewrite (IH (S n)); [by replace (S n + k)%nat with (n + S k)%nat by lia|lia| |].
    + intros i Hi. replace (S n + i)%nat with (n + S i)%nat by lia. apply Hlt. lia.
    + by replace (S n + k)%nat with (n + S k)%nat by lia.
Qed.

(** A delay is at least as long as asked, and no longer than the clock's resolution and the
    loop's polling allow: it returns at the first reading of the counter by which [ms]
    milliseconds have passed, less one tick, whatever the counter starts from, even across its
    wrap-around. *)
Theorem delay_ms_lasts fuel ms n w :
  0 ≤ cntfrq w → 0 ≤ ms → cntfrq w * ms < U64 →
  (0 < n ≤ fuel)%nat → cntfrq w * ms < 1000 * (elapsed n w + 1) →
  (∀ i, (0 < i < n)%nat → 1000 * (elapsed i w + 1) ≤ cntfrq w * ms) →
  delay_ms fuel ms w = Ret (after (S n) w).
Proof.
  intros Hf Hms Hov Hn Hge Hlt. unfold delay_ms, counter, frequency, mul64, wrap64.
  rewrite Z.mod_small by nia. set (p := cntfrq w * ms) in *.
  pose proof (Z.div_mod p 1000 ltac:(lia)) as Hd. pose proof (Z.mod_pos_bound p 1000 ltac:(lia)) as Hm.
  assert (reading 0 w = (cntpct w).1) as Hr0 by done.
  destruct (cntpct w) as [start w1] eqn:Hw. simpl in Hr0.
  assert (w1 = after 1 w) as -> by (simpl; by rewrite Hw).
  replace (S n) with (S (1 + (n - 1))) by lia. unfold elapsed in *. rewrite Hr0 in *.
  apply delay_loop_ok; [lia| |].
  - intros i Hi. specialize (Hlt (1 + i)%nat ltac:(lia)). lia.
  - replace (1 + (n - 1))%nat with n by lia. lia.
Qed.

(** A counter of constant frequency that moves on between readings, by less than 2^32. *)
Record steady (hz : Z) : Prop := {
  st_freq w : cntfrq w = hz;
  st_range w : is_u64 (cntpct w).1;
  st_step w : ∃ δ, 1 ≤ δ < 2 ^ 32 ∧ (cntpct (cntpct w).2).1 = wrap64 ((cntpct w).1 + δ)
}.

Lemma steady_loop hz start ticks fuel w : steady hz → is_u64 start → ticks < 2 ^ 63 →
  let e := sub64 (cntpct w).1 start in
  (Z.to_nat (ticks - e) < fuel)%nat →
  ∃ n, loop fuel (delay_body start ticks) w = Ret (after (S n) w).
Proof.
  intros Hc Hs Ht. revert w. induction fuel as [|fuel IH]; intros w e Hf; [lia|].
  cbn [loop]. unfold delay_body at 2, counter. destruct (st_step hz Hc w) as (δ & Hd & Hnext).
  pose proof (st_range hz Hc w) as Hr. unfold is_u64 in *.
  destruct (cntpct w) as [now w'] eqn:Hw. cbn [fst snd] in *. fold e.
  case_decide as Hlt; cbn [mbind outcome_bind].
  - destruct (IH w') as [n Hn]; [|exists (S n); cbn [after]; rewrite Hw; exact Hn].
    rewrite Hnext. unfold sub64, wrap64 in *.
    assert (e = (now - start) mod U64) as He by done.
    assert (0 ≤ e) by (rewrite He; apply Z.mod_pos_bound; lia).
    assert (((now + δ) mod U64 - start) mod U64 = e + δ) as ->; [|lia].
    rewrite Zminus_mod_idemp_l. replace (now + δ - start) with (now - start + δ) by lia.
    rewrite <-Zplus_mod_idemp_l, <-He. apply Z.mod_small. lia.
  - exists O. cbn [after]. by rewrite Hw.
Qed.

(** On a steady clock every delay ends. *)
Lemma delay_returns hz fuel ms w : steady hz → 0 ≤ hz → 0 ≤ ms → hz * ms < 2 ^ 63 →
  (Z.to_nat (hz * ms / 1000) < fuel)%nat → ∃ n, delay_ms fuel ms w = Ret (after (S n) w).
Proof.
  intros Hc Hhz Hms Hov Hf. unfold delay_ms, counter, frequency. rewrite (st_freq hz Hc).
  unfold mul64, wrap64. rewrite (Z.mod_small (hz * ms)) by nia.
  pose proof (st_range hz Hc w) as Hr. destruct (cntpct w) as [start w'] eqn:Hw. cbn [fst] in Hr.
  assert (0 ≤ hz * ms / 1000 ≤ hz * ms) as Hdiv.
  { assert (0 ≤ hz * ms) by nia. split; [apply Z.div_pos; lia|apply Z.div_le_upper_bound; lia]. }
  destruct (steady_loop hz start (hz * ms / 1000) fuel w') as [n Hn]; [done|done|lia| |].
  - assert (0 ≤ sub64 (cntpct w').1 start) by (apply Z.mod_pos_bound; lia). lia.
  - exists (S n). cbn [after]. by rewrite Hw.
Qed.

(** What a clock reading keeps, a delay keeps. *)
Lemma after_keeps (P : W → Prop) n w : (∀ w, P w → P (cntpct w).2) → P w → P (after n w).
Proof. intros HP. revert w. induction n as [|n IH]; intros w Hw; [done|]. apply IH, HP, Hw. Qed.
End timer.

(** A clock of 1 MHz that advances by 300 ticks between readings. *)
Record sim_clock := mkSim { now : Z; armed : list Z }.
#[export] Instance sim_clock_clock : Clock sim_clock := {
  cntpct c := (now c, mkSim (wrap64 (now c + 300)) (armed c));
  cntfrq _ := 1000000;
  arm t c := mkSim (now c) (armed c ++ [t])
}.

(** Two milliseconds across the counter's wrap-around: seven readings. *)
Lemma delay_ms_lasts_witness :
  delay_ms 10 2 (mkSim (U64 - 500) []) = Ret (after 8 (mkSim (U64 - 500) [])).
Proof.
  apply (delay_ms_lasts 10 2 7); [vm_compute; discriminate|lia|vm_compute; reflexivity|lia|
    vm_compute; reflexivity|].
  intros i Hi. destruct i as [|[|[|[|[|[|[|i]]]]]]]; try lia; vm_compute; discriminate.
Defined.
