(* ===== verification/Intc.v ===== *)
(** * Interrupt controllers

    [src/drivers/gic.rs] (Raspberry Pi 5) and [src/drivers/local_intc.rs] (QEMU).
    Shown: setting a priority changes only the byte of its interrupt. *)
From S2P Require Import Prelude Bits Memory Layout Mmio.
Local Open Scope Z_scope.

Definition GICD_CTLR : Z := 0x000.
Definition GICD_IGROUPR0 : Z := 0x080.
Definition GICD_ISENABLER0 : Z := 0x100.
Definition GICD_ICENABLER0 : Z := 0x180.
Definition GICD_IPRIORITYR : Z := 0x400.
Definition GICC_CTLR : Z := 0x000.
Definition GICC_PMR : Z := 0x004.
Definition GICC_BPR : Z := 0x008.
Definition GICC_IAR : Z := 0x00C.
Definition GICC_EOIR : Z := 0x010.
Definition SPURIOUS_IRQ : Z := 1023.
Definition TIMER_PPI : Z := 30.

Definition LOCAL_BASE : Z := 0x40000000.
Definition TIMER_INT_CTRL_OFFSET : Z := 0x40.
Definition IRQ_SOURCE_OFFSET : Z := 0x60.
Definition CORE_STRIDE : Z := 0x4.
Definition CNTP_IRQ_BIT : Z := Z.shiftl 1 1.

(** The new value of a priority register. *)
Definition priority_value (val irq prio : Z) : Z :=
  let shift := mul32 (Z.land irq 3) 8 in
  Z.lor (Z.land val (not32 (shl32 0xFF shift))) (shl32 prio shift).

Section gic.
Context {W : Type} `{Hardware W}.

Definition set_priority (irq prio : Z) (w : W) : W :=
  let reg := GICD_BASE + GICD_IPRIORITYR + Z.land irq (not32 3) in
  let '(val, w) := read32 reg w in
  write32 reg (priority_value val irq prio) w.

Definition enable_timer_ppi (w : W) : W :=
  write32 (GICD_BASE + GICD_ISENABLER0) (shl32 1 TIMER_PPI) w.

Definition init_dist (w : W) : W :=
  let w := write32 (GICD_BASE + GICD_CTLR) 0 w in
  let w := write32 (GICD_BASE + GICD_IGROUPR0) 0xFFFFFFFF w in
  let w := write32 (GICD_BASE + GICD_ICENABLER0) 0xFFFFFFFF w in
  let w := set_priority TIMER_PPI 0x80 w in
  write32 (GICD_BASE + GICD_CTLR) 0x3 w.

Definition init_cpu (w : W) : W :=
  let w := write32 (GICC_BASE + GICC_CTLR) 0 w in
  let w := write32 (GICC_BASE + GICC_PMR) 0xFF w in
  let w := write32 (GICC_BASE + GICC_BPR) 0 w in
  let w := write32 (GICC_BASE + GICC_CTLR) 0x3 w in
  let w := write32 (GICD_BASE + GICD_IGROUPR0) 0xFFFFFFFF w in
  let w := set_priority TIMER_PPI 0x80 w in
  enable_timer_ppi w.

Definition ack_irq (w : W) : option Z * W :=
  let '(iar, w) := read32 (GICC_BASE + GICC_IAR) w in
  let id := Z.land iar 0x3ff in
  (if decide (id = SPURIOUS_IRQ) then None else Some id, w).

Definition end_irq (id : Z) (w : W) : W := write32 (GICC_BASE + GICC_EOIR) id w.

Definition timer_irq_id : Z := TIMER_PPI.

(** QEMU's per-core controller. *)
Definition enable_generic_timer_irq (b : board) (core : Z) (w : W) : W :=
  match b with
  | Qemu => write32 (LOCAL_BASE + TIMER_INT_CTRL_OFFSET + core * CORE_STRIDE) CNTP_IRQ_BIT w
  | Rpi5 => w
  end.

Definition generic_timer_pending (b : board) (core : Z) (w : W) : bool * W :=
  match b with
  | Qemu =>
      let '(v, w) := read32 (LOCAL_BASE + IRQ_SOURCE_OFFSET + core * CORE_STRIDE) w in
      (bool_decide (Z.land v CNTP_IRQ_BIT ≠ 0), w)
  | Rpi5 => (false, w)
  end.
End gic.

Lemma not32_testbit x i : is_u32 x → 0 ≤ i →
  Z.testbit (not32 x) i = (i <? 32) && negb (Z.testbit x i).
Proof.
  intros Hx Hi. unfold not32. change U32_MAX with (Z.ones 32).
  assert (Z.ones 32 - x = Z.ldiff (Z.ones 32) x) as ->.
  { rewrite Z.sub_nocarry_ldiff; [done|]. apply Z.ldiff_ones_r_low; [unfold is_u32 in Hx; lia|].
    destruct (decide (x = 0)) as [->|]; [done|]. apply Z.log2_lt_pow2; unfold is_u32 in Hx; [lia|].
    change (2 ^ 32) with U32. lia. }
  rewrite Z.ldiff_spec, Z.testbit_ones_nonneg by lia. done.
Qed.

(** Interrupt priorities are packed four to a register: setting one interrupt's priority writes
    exactly its own byte and keeps the other three. *)
Theorem priority_value_byte val irq prio k : is_u32 val → is_u8 prio → 0 ≤ irq → 0 ≤ k < 4 →
  byte_of (priority_value val irq prio) k = if decide (k = irq mod 4) then prio else byte_of val k.
Proof.
  intros Hv Hp Hi Hk. unfold priority_value. change 3 with (2 ^ 2 - 1). rewrite land_mask by lia.
  change (2 ^ 2) with 4. pose proof (Z.mod_pos_bound irq 4 ltac:(lia)) as Hm.
  assert (mul32 (irq mod 4) 8 = 8 * (irq mod 4)) as -> by (unfold mul32, wrap32; rewrite Z.mul_comm; apply Z.mod_small; lia).
  set (i := irq mod 4) in *. cbv zeta.
  assert (∀ b, is_u8 b → shl32 b (8 * i) = b * 2 ^ (8 * i)) as Hshl.
  { intros b Hb. unfold shl32, wrap32. rewrite (Z.mod_small (8 * i)), Z.shiftl_mul_pow2 by lia.
    apply Z.mod_small. assert (0 < 2 ^ (8 * i)) by lia.
    assert (2 ^ (8 * i) ≤ 2 ^ 24) by (apply Z.pow_le_mono_r; lia). unfold is_u8 in Hb.
    change U32 with (256 * 2 ^ 24). nia. }
  rewrite !Hshl by (done || unfold is_u8; lia). unfold byte_of.
  apply Z.bits_inj'. intros n Hn. change 256 with (2 ^ 8).
  destruct (decide (n < 8)) as [Hn8|Hn8].
  - rewrite Z.mod_pow2_bits_low, Z.div_pow2_bits by lia.
    rewrite Z.lor_spec, Z.land_spec, not32_testbit by (try lia; unfold is_u32;
      assert (0 < 2 ^ (8 * i)) by lia; assert (2 ^ (8 * i) ≤ 2 ^ 24) by (apply Z.pow_le_mono_r; lia);
      change U32 with (256 * 2 ^ 24); nia).
    rewrite !Z.mul_pow2_bits by lia. change 0xFF with (Z.ones 8).
    rewrite Z.testbit_ones by lia. assert ((n + 8 * k <? 32) = true) as -> by lia. rewrite andb_true_l.
    case_decide as Hki.
    + rewrite Hki. replace (n + 8 * i - 8 * i) with n by lia.
      assert ((0 <=? n) && (n <? 8) = true) as -> by lia. by rewrite andb_false_r.
    + rewrite Z.mod_pow2_bits_low, Z.div_pow2_bits by lia.
      assert ((0 <=? n + 8 * k - 8 * i) && (n + 8 * k - 8 * i <? 8) = false) as -> by lia.
      rewrite andb_true_r. destruct (decide (n + 8 * k < 8 * i)).
      * rewrite (Z.testbit_neg_r prio) by lia. by rewrite orb_false_r.
      * rewrite <-(Z.mod_small prio (2 ^ 8)) by (exact Hp). rewrite Z.mod_pow2_bits_high by lia.
        by rewrite orb_false_r.
  - rewrite Z.mod_pow2_bits_high by lia. case_decide.
    + rewrite <-(Z.mod_small prio (2 ^ 8)) by (exact Hp). by rewrite Z.mod_pow2_bits_high by lia.
    + by rewrite Z.mod_pow2_bits_high by lia.
Qed.

Lemma priority_value_byte_witness :
  byte_of (priority_value 0x11223344 TIMER_PPI 0x80) 2 = (if decide (2 = TIMER_PPI mod 4) then 0x80 else byte_of 0x11223344 2).
Proof. apply priority_value_byte; vm_compute; intuition congruence. Defined.
