(* ===== verification/Interrupts.v ===== *)
(** * Interrupts

    [src/kernel/interrupts.rs]: the handler of IRQ exceptions, which on a timer interrupt polls the
    keyboard, re-arms the timer and reschedules, and the per-core set-up.

    Shown: a timer interrupt composes the keyboard's and the scheduler's contracts and
    acknowledges exactly the interrupt it took; any other interrupt changes nothing but the
    controller. *)
From S2P Require Import Prelude Layout Sync Ring Memory Mmio Uart Log Keyboard Vfs Trap Smp Process Scheduler Timer.
From S2P Require Import Intc.
Local Open Scope Z_scope.

(** What the handler works on: drivers and devices, the process table, TICK_TICKS, and whether the
    executing core takes IRQs. *)
Record machine (W : Type) := mkMachine {
  dev : io W;
  tbl : procs;
  tick_ticks : Z;
  irq_enabled : bool
}.
Arguments mkMachine {W}.
Arguments dev {W}.
Arguments tbl {W}.
Arguments tick_ticks {W}.
Arguments irq_enabled {W}.

Section handler.
Context {W : Type} `{Hardware W, Clock W} (b : board) (cpu : Z).

Definition with_hw (w : W) (d : io W) : io W := mkIo (uart d) (console d) (input d) w.

Definition enable_irq (s : machine W) : machine W :=
  mkMachine (dev s) (tbl s) (tick_ticks s) true.

Definition init_per_cpu (fuel : nat) (tick_ms : Z) (s : machine W) : outcome (machine W) :=
  let '(t, w) := init_tick tick_ms (hw (dev s)) in
  let w := match b with
           | Qemu => enable_generic_timer_irq b cpu w
           | Rpi5 => init_cpu (if decide (cpu = 0) then init_dist w else w)
           end in
  '(u, w) ← log b fuel (bytes "irq init cpu" ++ dec cpu) (uart (dev s)) w;
  Ret (enable_irq (mkMachine (mkIo u (console (dev s)) (input (dev s)) w) (tbl s) t (irq_enabled s))).

(** The part common to both boards: the frame to return to, the value written to TTBR0. *)
Definition handle_tick (frame : Z) (s : machine W) : outcome (Z * option Z * machine W) :=
  p ← Keyboard.poll (uart (dev s)) (input (dev s)) (hw (dev s));
  let '(inp, w) := p in
  let w := tick (tick_ticks s) w in
  r ← schedule_from_irq cpu frame (tbl s);
  let '(next, root, t) := r in
  Ret (next, root, mkMachine (mkIo (uart (dev s)) (console (dev s)) inp w) t (tick_ticks s)
                     (irq_enabled s)).

Definition on_hw (f : W → W) (s : machine W) : machine W :=
  mkMachine (with_hw (f (hw (dev s))) (dev s)) (tbl s) (tick_ticks s) (irq_enabled s).

Definition irq_handler (frame : Z) (s : machine W) : outcome (Z * option Z * machine W) :=
  match b with
  | Rpi5 =>
      let '(irq_id, w) := ack_irq (hw (dev s)) in
      let s := on_hw (λ _, w) s in
      match irq_id with
      | None => Ret (frame, None, s)
      | Some id =>
          if decide (id ≠ timer_irq_id) then Ret (frame, None, on_hw (end_irq id) s)
          else
            r ← handle_tick frame s;
            Ret (r.1.1, r.1.2, on_hw (end_irq id) r.2)
      end
  | Qemu =>
      let '(pending, w) := generic_timer_pending b cpu (hw (dev s)) in
      let s := on_hw (λ _, w) s in
      if negb pending then Ret (frame, None, s) else handle_tick frame s
  end.

(** The interrupt the controller reports, and the devices after asking. *)
Definition reported (w : W) : option Z * W :=
  match b with
  | Rpi5 => ack_irq w
  | Qemu => let '(p, w) := generic_timer_pending b cpu w in (if p then Some timer_irq_id else None, w)
  end.

(** What follows the handling of interrupt [id]. *)
Definition acknowledge (id : Z) (w : W) : W :=
  match b with Rpi5 => end_irq id w | Qemu => w end.
End handler.

Section properties.
Context {W : Type} `{Hardware W, Clock W} (b : board) (cpu frame : Z) (s : machine W).

(** An interrupt other than the timer's returns to the interrupted frame with the process
    table, the keyboard buffer and the timer as they were; on the Pi 5 the controller is told
    of its end, unless it was spurious. *)
Theorem irq_other irq w :
  reported b cpu (hw (dev s)) = (irq, w) → irq ≠ Some timer_irq_id →
  irq_handler b cpu frame s =
    Ret (frame, None, on_hw (λ _, match irq with Some id => acknowledge b id w | None => w end) s).
Proof.
  unfold reported, irq_handler, acknowledge. intros Hrep Hne. destruct b.
  - rewrite Hrep. destruct irq as [id|]; [|done]. rewrite decide_True by congruence. done.
  - destruct (generic_timer_pending _ _ _) as [[|] w1]; simplify_eq. done.
Qed.

(** The timer interrupt: the next process is the scheduler's queue head (the FIFO contract),
    everything waiting on the serial line is moved to the keyboard buffer as far as it has room,
    and the interrupt taken is acknowledged last. *)
Theorem irq_timer w `{!Pl011 W (uart (dev s))} :
  UART_READY (uart (dev s)) = true →
  healthy (tbl s) → 0 ≤ cpu < MAX_CPUS →
  locked (input (dev s)) = false → Keyboard.wf (data (input (dev s))) →
  reported b cpu (hw (dev s)) = (Some timer_irq_id, w) →
  returns (irq_handler b cpu frame s) (λ '(next, _, s'),
    next = (fifo_interrupt cpu frame (fifo_of (tbl s))).1 ∧
    stands_for (tbl s') (fifo_interrupt cpu frame (fifo_of (tbl s))).2 ∧ healthy (tbl s') ∧
    locked (input (dev s')) = false ∧ Keyboard.wf (data (input (dev s'))) ∧
    Keyboard.queue (data (input (dev s'))) =
      (poll_spec (Keyboard.queue (data (input (dev s)))) (rx w)).1 ∧
    ∃ w1, tx w1 = tx w ∧ hw (dev s') = acknowledge b timer_irq_id (tick (tick_ticks s) w1)).
Proof.
  intros Hready Hh Hcpu Hl Hw Hrep.
  assert (returns (handle_tick cpu frame (on_hw (λ _, w) s)) (λ '(next, _, s'),
    next = (fifo_interrupt cpu frame (fifo_of (tbl s))).1 ∧
    stands_for (tbl s') (fifo_interrupt cpu frame (fifo_of (tbl s))).2 ∧ healthy (tbl s') ∧
    locked (input (dev s')) = false ∧ Keyboard.wf (data (input (dev s'))) ∧
    Keyboard.queue (data (input (dev s'))) =
      (poll_spec (Keyboard.queue (data (input (dev s)))) (rx w)).1 ∧
    ∃ w1, tx w1 = tx w ∧ hw (dev s') = tick (tick_ticks s) w1)) as Htick.
  { unfold handle_tick. apply returns_bind. cbn [on_hw dev with_hw uart input hw tbl tick_ticks].
    eapply returns_mono; [by apply (poll_ok (uart (dev s)))|].
    intros [inp w1] (Hl1 & Hw1 & Hq & Htx). apply returns_bind.
    eapply returns_mono; [apply (schedule_fifo_ok cpu frame (tbl s) (fifo_of (tbl s)) Hh Hcpu),
      fifo_of_stands|].
    intros [[next root] t] (Hh' & -> & Hst). cbn [returns dev tbl input hw].
    split; [done|]. split; [done|]. split; [done|]. split; [done|]. split; [done|].
    split; [by rewrite <-Hq|]. by exists w1. }
  unfold reported, acknowledge in *. unfold irq_handler. destruct b.
  - rewrite Hrep. rewrite decide_False by (intros H'; by apply H'). apply returns_bind.
    eapply returns_mono; [exact Htick|]. intros [[next root] s'] (? & ? & ? & ? & ? & ? & w1 & Htx & Hhw).
    cbn [fst snd returns]. cbn [on_hw dev tbl input with_hw hw]. split_and!; try done.
    exists w1. by rewrite Hhw.
  - destruct (generic_timer_pending _ _ _) as [[|] w1]; simplify_eq. exact Htick.
Qed.
End properties.

(** ** A Pi 5 core with a byte waiting and the timer pending *)
Record irq_dev := mkIrqDev { i_port : port; i_iar : Z; i_ended : list Z; i_armed : list Z }.
Definition irq_uart : Uart.state := set_ready (set_base 0x107d001000 (Uart.state_new Rpi5)).

#[export] Instance irq_dev_hw : Hardware irq_dev := {|
  read32 reg d :=
    if decide (reg = GICC_BASE + GICC_IAR) then (i_iar d, d)
    else let '(v, p) := @read32 port (port_hw irq_uart) reg (i_port d) in
         (v, mkIrqDev p (i_iar d) (i_ended d) (i_armed d));
  write32 reg v d :=
    if decide (reg = GICC_BASE + GICC_EOIR) then mkIrqDev (i_port d) 1023 (i_ended d ++ [v]) (i_armed d)
    else mkIrqDev (@write32 port (port_hw irq_uart) reg v (i_port d)) (i_iar d) (i_ended d) (i_armed d)
|}.
#[export] Instance irq_dev_clock : Clock irq_dev := {|
  cntpct d := (0, d); cntfrq d := 54000000;
  arm t d := mkIrqDev (i_port d) (i_iar d) (i_ended d) (i_armed d ++ [t])
|}.
#[export] Program Instance irq_dev_pl011 : Pl011 irq_dev irq_uart := {|
  rx d := wrap8 <$> p_rx (i_port d); tx d := p_tx (i_port d)
|}.
Next Obligation.
  intros [p i e a]. pose proof (@fr_read port (port_hw irq_uart) irq_uart (port_pl011 irq_uart ltac:(done)) p) as Hp. exact Hp.
Qed.
Next Obligation.
  intros [p i e a] c cs Hw.
  pose proof (@dr_read port (port_hw irq_uart) irq_uart (port_pl011 irq_uart ltac:(done)) p c cs Hw) as Hp. simpl in *.
  destruct (p_rx p) as [|d ds]; [done|]. exact Hp.
Qed.
Next Obligation.
  intros [p i e a] v. pose proof (@dr_write port (port_hw irq_uart) irq_uart (port_pl011 irq_uart ltac:(done)) p v) as Hp.
  exact Hp.
Qed.

Definition irq_machine (iar : Z) : machine irq_dev :=
  mkMachine (mkIo irq_uart (lock_new None) (lock_new RingBuffer_new)
    (mkIrqDev (mkPort [104] []) iar [] [])) demo 540000 true.

Lemma irq_other_witness :
  irq_handler Rpi5 0 0x5000 (irq_machine 33) =
    Ret (0x5000, None, on_hw (λ _, acknowledge Rpi5 33 (hw (dev (irq_machine 33)))) (irq_machine 33)).
Proof. apply (irq_other Rpi5 0 0x5000 (irq_machine 33) (Some 33)); [reflexivity|discriminate]. Defined.

Lemma irq_timer_witness :
  returns (irq_handler Rpi5 0 0x5500 (irq_machine 30)) (λ '(next, _, s'),
    next = (fifo_interrupt 0 0x5500 (fifo_of (tbl (irq_machine 30)))).1 ∧
    Keyboard.queue (data (input (dev s'))) = [104] ∧ ∃ l, i_ended (hw (dev s')) = l ++ [30]).
Proof.
  eapply returns_mono; [apply (irq_timer Rpi5 0 0x5500 (irq_machine 30) (hw (dev (irq_machine 30))))|].
  - reflexivity.
  - exact (reachable_healthy _ _ _ demo_reachable).
  - split; vm_compute; [discriminate|reflexivity].
  - reflexivity.
  - split; vm_compute; intuition congruence.
  - reflexivity.
  - intros [[next root] s'] (Hn & _ & _ & _ & _ & Hq & w1 & _ & Hhw).
    split; [exact Hn|]. split; [rewrite Hq; vm_compute; reflexivity|]. rewrite Hhw. by exists (i_ended w1).
Defined.
