(* ===== verification/Heap.v ===== *)
(** * The kernel heap

    [src/mm/heap.rs]: the global allocator, which serves EL1 from a linked-list heap over 8 MiB of
    frames and, where [current_el] says 0, through system calls.  The heap algorithm is the crate
    linked_list_allocator ([KernelHeap], a parameter with its documented contract); [Layout] is the one of
    Rust's core library.

    Shown, against the frame allocator's interface [PageSource]: the heap is given frames that
    were free and no longer are, and is given them when there is such a run; and that the branch for EL0
    is never reached, as the register it tests cannot be read at EL0. *)
From stdpp Require Import gmap.
From S2P Require Import Prelude Bits Sync Layout Frame.
Local Open Scope Z_scope.

Definition HEAP_SIZE : Z := 8 * 1024 * 1024.

(** core::alloc::Layout. *)
Record Layout := mkLayout { lsize : Z; lalign : Z }.
#[export] Instance layout_eq_dec : EqDecision Layout.
Proof. solve_decision. Defined.

Definition is_power_of_two (a : Z) : bool := bool_decide (a ≠ 0) && (Z.land a (a - 1) =? 0).

(** [None] is LayoutError: the alignment is not a power of two, or the size rounded up to it
    exceeds isize::MAX. *)
Definition from_size_align (size align : Z) : option Layout :=
  if is_power_of_two align && bool_decide (size ≤ 2 ^ 63 - align) then Some (mkLayout size align)
  else None.

(** A layout an allocation may be asked for. *)
Definition layout_ok (l : Layout) : Prop := 0 < lsize l ∧ from_size_align (lsize l) (lalign l) = Some l.

(** LockedHeap and what it promises ([GlobalAlloc]'s contract and first fit); a null pointer is 0.  Freeing
    or resizing is defined of live blocks with the layout they were allocated with, and for a new size
    that makes a layout; of other arguments nothing is known, a result least of all.  [lh_room r h]: some
    hole has [r] bytes at least; of it a request that is aligned to 8 or less and smaller by 32 (the
    rounding to two words and the rest that must hold a list node) is served. *)
Class KernelHeap (H : Type) := {
  lh_empty : H;
  lh_init : Z → Z → H → H;
  lh_alloc : Layout → H → Z * H;
  lh_dealloc : Z → Layout → H → outcome H;
  lh_realloc : Z → Layout → Z → H → outcome (Z * H);
  lh_live : H → gmap Z Layout;
  lh_room : Z → H → Prop;
  lh_wf : H → Prop;
  lh_room_le r r' h : lh_room r h → r' ≤ r → lh_room r' h;
  lh_init_ok st size h : 0 < st → st mod 4096 = 0 → 0 < size →
    lh_wf (lh_init st size h) ∧ lh_live (lh_init st size h) = ∅ ∧ lh_room size (lh_init st size h);
  lh_alloc_ok l h : lh_wf h → layout_ok l →
    let '(p, h') := lh_alloc l h in lh_wf h' ∧
      (p = 0 ∧ lh_live h' = lh_live h ∨
       0 < p ∧ lh_live h !! p = None ∧ lh_live h' = <[p := l]> (lh_live h)) ∧
      ∀ r, lh_room r h → lalign l ≤ 8 → lsize l + 32 ≤ r → p ≠ 0 ∧ lh_room (r - lsize l - 32) h';
  lh_dealloc_ok p l h : lh_wf h → lh_live h !! p = Some l →
    returns (lh_dealloc p l h) (λ h', lh_wf h' ∧ lh_live h' = delete p (lh_live h) ∧ ∀ r, lh_room r h → lh_room r h');
  lh_realloc_ok p l n h : lh_wf h → lh_live h !! p = Some l → layout_ok (mkLayout n (lalign l)) →
    returns (lh_realloc p l n h) (λ '(q, h'), lh_wf h' ∧
      (q = 0 ∧ lh_live h' = lh_live h ∨
       0 < q ∧ delete p (lh_live h) !! q = None ∧
         lh_live h' = <[q := mkLayout n (lalign l)]> (delete p (lh_live h))) ∧
      ∀ r, lh_room r h → lalign l ≤ 8 → n + 32 ≤ r → q ≠ 0 ∧ lh_room (r - n - 32) h')
}.

Section init.
Context {S H : Type} (alloc_contiguous : Z → S → outcome (option Z * S)) `{KernelHeap H}.

(** The frame allocator and the heap afterwards. *)
Definition init_kernel_heap (s : S) (h : H) : outcome (S * H) :=
  let pages := HEAP_SIZE / PAGE_SIZE in
  r ← alloc_contiguous pages s;
  match r.1 with
  | None => Ret (r.2, h)
  | Some paddr => Ret (r.2, lh_init (phys_to_virt paddr) HEAP_SIZE h)
  end.

Definition init (s : S) (h : H) : outcome (S * H) := init_kernel_heap s h.
End init.

(** ** The global allocator *)

(** The kernel heap inside a larger state, and the allocation system calls of user code. *)
Record kernel_ops (S : Type) := mkKernelOps {
  k_alloc : Layout → S → Z * S;
  k_dealloc : Z → Layout → S → outcome S;
  k_realloc : Z → Layout → Z → S → outcome (Z * S)
}.
Record user_ops (S : Type) := mkUserOps {
  u_alloc : Z → Z → S → outcome (Z * S);
  u_free : Z → Z → Z → S → outcome (Z * S);
  u_realloc : Z → Z → Z → Z → S → outcome (Z * S)
}.
Arguments mkKernelOps {S}.
Arguments k_alloc {S}.
Arguments k_dealloc {S}.
Arguments k_realloc {S}.
Arguments mkUserOps {S}.
Arguments u_alloc {S}.
Arguments u_free {S}.
Arguments u_realloc {S}.

(** Run at exception level [el].  CurrentEL can be read at EL1 and above; at EL0 the instruction is
    undefined: it traps to EL1, where [sync_handler] logs a fault and parks the core. *)
Definition current_el (el : Z) : outcome Z := if decide (el = 0) then Halt else Ret el.

(** [#[alloc_error_handler]]: an allocation that cannot be served parks the core. *)
Definition oom {A} (_ : Layout) : outcome A := Halt.

Section global.
Context {S : Type} (k : kernel_ops S) (u : user_ops S) (el : Z).

(** A system call's result as a pointer. *)
Definition null_if_error (ptr : Z) : Z := if decide (ptr = 0 ∨ ptr = U64_MAX) then 0 else ptr.

Definition alloc (layout : Layout) (s : S) : outcome (Z * S) :=
  e ← current_el el;
  if decide (e = 0) then
    '(ptr, s) ← u_alloc u (lsize layout) (lalign layout) s; Ret (null_if_error ptr, s)
  else Ret (k_alloc k layout s).

Definition dealloc (ptr : Z) (layout : Layout) (s : S) : outcome S :=
  e ← current_el el;
  if decide (e = 0) then r ← u_free u ptr (lsize layout) (lalign layout) s; Ret r.2
  else k_dealloc k ptr layout s.

Definition realloc (ptr : Z) (layout : Layout) (new_size : Z) (s : S) : outcome (Z * S) :=
  e ← current_el el;
  if decide (e = 0) then
    '(new_ptr, s) ← u_realloc u ptr (lsize layout) new_size (lalign layout) s;
    Ret (null_if_error new_ptr, s)
  else k_realloc k ptr layout new_size s.

(** The allocator is never the system calls' client: at EL0 each of its operations traps before the first
    call, and at any other level it is the kernel heap. *)
Lemma allocator_needs_el1 l p n s :
  (el = 0 → alloc l s = Halt ∧ dealloc p l s = Halt ∧ realloc p l n s = Halt) ∧
  (el ≠ 0 → alloc l s = Ret (k_alloc k l s) ∧ dealloc p l s = k_dealloc k p l s ∧
    realloc p l n s = k_realloc k p l n s).
Proof.
  unfold alloc, dealloc, realloc, current_el. split; intros He; case_decide; try done.
  cbn [mbind outcome_bind]. by rewrite !decide_False.
Qed.
End global.

(** ** Layouts *)

Lemma is_power_of_two_spec a : 0 ≤ a < U64 →
  is_power_of_two a = true ↔ ∃ k, 0 ≤ k < 64 ∧ a = 2 ^ k.
Proof.
  intros Ha. unfold is_power_of_two. rewrite andb_true_iff, bool_decide_eq_true, Z.eqb_eq. split.
  - intros [Hne Hz]. set (k := Z.log2 a). assert (2 ^ k ≤ a < 2 ^ Z.succ k) as Hk by (apply Z.log2_spec; lia).
    pose proof (Z.log2_nonneg a) as Hk0. fold k in Hk0.
    assert (k < 64) as Hk64 by (apply Z.log2_lt_pow2; change (2 ^ 64) with U64; lia).
    exists k. split; [lia|]. destruct (decide (a = 2 ^ k)) as [|Hd]; [done|]. exfalso.
    rewrite Z.pow_succ_r in Hk by lia.
    assert (Z.testbit (Z.land a (a - 1)) k = true) as Hb; [|by rewrite Hz, Z.bits_0 in Hb].
    rewrite Z.land_spec. apply andb_true_iff. split; apply Z.testbit_true; try lia.
    + assert (a / 2 ^ k = 1) as ->; [|done]. symmetry. apply (Z.div_unique _ _ _ (a - 2 ^ k)); lia.
    + assert ((a - 1) / 2 ^ k = 1) as ->; [|done]. symmetry.
      apply (Z.div_unique _ _ _ (a - 1 - 2 ^ k)); lia.
  - intros (k & Hk & ->). split; [lia|]. change (2 ^ k - 1) with (Z.pred (2 ^ k)). rewrite <-Z.ones_equiv, Z.land_ones by lia.
    by rewrite Z.mod_same by lia.
Qed.

(** ** What the heap is given *)
Section boot.
Context {S H : Type} `{PageSource S, KernelHeap H}.

Lemma init_heap_ok (s : S) (h : H) : ps_wf s →
  returns (init_kernel_heap ps_alloc s h) (λ '(s', h'), ps_wf s' ∧
    ((h' = h ∧ (∀ j, ps_free s' j ↔ ps_free s j) ∧ ∀ i, 0 ≤ i → ¬ ∀ j, i ≤ j < i + 2048 → ps_free s j) ∨
     ∃ p, p mod 4096 = 0 ∧ 0 ≤ p < 2 ^ 64 ∧ h' = lh_init (phys_to_virt p) HEAP_SIZE h ∧
       (∀ j, p / 4096 ≤ j < p / 4096 + 2048 → ps_free s j ∧ ¬ ps_free s' j) ∧
       ∀ j, ps_free s' j → ps_free s j)).
Proof.
  intros Hwf. unfold init_kernel_heap. change (HEAP_SIZE / PAGE_SIZE) with 2048.
  destruct (ps_alloc_ok s 2048 Hwf) as (r & s' & -> & Hwf' & Hr); [lia|].
  cbn [mbind outcome_bind fst snd]. destruct r as [p|]; cbn [returns]; split; try done.
  - destruct Hr as (Hp & Hrange & Hin & Hout). right. by exists p.
  - left. by destruct Hr.
Qed.

(** The kernel heap is backed by 2048 consecutive frames that were free before and are not
    afterwards, seen through the higher half; only when there is no such run does the heap stay as it
    was, and then so do the free frames. *)
Theorem init_kernel_heap_frames (s : S) (h : H) : ps_wf s →
  returns (init_kernel_heap ps_alloc s h) (λ '(s', h'), ps_wf s' ∧
    ((h' = h ∧ (∀ j, ps_free s' j ↔ ps_free s j) ∧ ∀ i, 0 ≤ i → ¬ ∀ j, i ≤ j < i + 2048 → ps_free s j) ∨
     ∃ p, p mod 4096 = 0 ∧ 0 ≤ p < 2 ^ 64 ∧ h' = lh_init (phys_to_virt p) HEAP_SIZE h ∧
       (∀ j, p / 4096 ≤ j < p / 4096 + 2048 → ps_free s j ∧ ¬ ps_free s' j) ∧
       ∀ j, ps_free s' j → ps_free s j)).
Proof. apply init_heap_ok. Qed.
End boot.

(** A heap that hands out blocks upwards and uses none again. *)
Record bump := mkBump { next_free : Z; limit : Z; blocks : gmap Z Layout }.
Definition round_up (v a : Z) : Z := (v + a - 1) / a * a.
Definition bump_alloc (l : Layout) (h : bump) : Z * bump :=
  let p := round_up (next_free h) (lalign l) in
  if decide (p + lsize l ≤ limit h) then (p, mkBump (p + lsize l) (limit h) (<[p := l]> (blocks h))) else (0, h).
Definition bump_dealloc (p : Z) (l : Layout) (h : bump) : outcome bump :=
  if decide (blocks h !! p = Some l) then Ret (mkBump (next_free h) (limit h) (delete p (blocks h))) else Panic.
Definition bump_realloc (p : Z) (l : Layout) (n : Z) (h : bump) : outcome (Z * bump) :=
  let '(q, h') := bump_alloc (mkLayout n (lalign l)) h in
  if decide (q = 0) then Ret (0, h) else h' ← bump_dealloc p l h'; Ret (q, h').

Definition bump_wf (h : bump) : Prop :=
  0 ≤ next_free h ∧ (next_free h = 0 → limit h ≤ 0) ∧ map_Forall (λ p _, 0 < p < next_free h) (blocks h).

Lemma layout_ok_align l : layout_ok l → 0 < lalign l.
Proof.
  intros [_ Hl]. unfold from_size_align in Hl. destruct (is_power_of_two (lalign l)) eqn:Hp; [|done].
  simpl in Hl. case_bool_decide; [|done]. unfold is_power_of_two in Hp. apply andb_prop in Hp as [Hz Hp].
  apply bool_decide_eq_true in Hz. destruct (lalign l) as [|a|a]; [done|lia|].
  apply Z.eqb_eq in Hp. apply Z.land_neg in Hp || (exfalso; assert (Z.neg a - 1 < 0) by lia;
    assert (Z.land (Z.neg a) (Z.neg a - 1) < 0) by (apply Z.land_neg; lia); lia).
Qed.

Lemma round_up_bounds v a : 0 < a → v ≤ round_up v a < v + a.
Proof. intros Ha. unfold round_up. Z.to_euclidean_division_equations. nia. Qed.

Lemma bump_alloc_ok l h : bump_wf h → layout_ok l → let '(p, h') := bump_alloc l h in bump_wf h' ∧
  (p = 0 ∧ h' = h ∨ 0 < p ∧ next_free h ≤ p ∧ blocks h !! p = None ∧ blocks h' = <[p := l]> (blocks h)) ∧
  ∀ r, 0 < next_free h ∧ next_free h + r ≤ limit h → lalign l ≤ 8 → lsize l + 32 ≤ r →
    p ≠ 0 ∧ 0 < next_free h' ∧ next_free h' + (r - lsize l - 32) ≤ limit h'.
Proof.
  intros (H0 & Hz & Hb) Hl. pose proof (layout_ok_align l Hl) as Ha. destruct Hl as [Hs _].
  pose proof (round_up_bounds (next_free h) (lalign l) Ha) as Hp. unfold bump_alloc.
  set (p := round_up _ _) in *. clearbody p. case_decide as Hfit.
  - assert (0 < p) as Hpos.
    { destruct (decide (next_free h = 0)) as [Hn|]; [specialize (Hz Hn)|]; lia. }
    assert (blocks h !! p = None) as Hnone.
    { destruct (blocks h !! p) as [l'|] eqn:Hl'; [|done]. apply Hb in Hl'. lia. }
    split; [|split; [right|]]; unfold bump_wf; cbn [next_free limit blocks].
    + split; [lia|]. split; [lia|]. apply map_Forall_insert_2; [lia|].
      eapply map_Forall_impl; [exact Hb|]. intros q l' Hq. cbn in *. lia.
    + split_and!; try done; lia.
    + intros r Hr Ha8 Hfr. lia.
  - split; [done|]. split; [by left|]. intros r Hr Ha8 Hfr. lia.
Qed.

#[export] Program Instance bump_heap : KernelHeap bump := {
  lh_empty := mkBump 0 0 ∅;
  lh_init st size _ := mkBump st (st + size) ∅;
  lh_alloc := bump_alloc; lh_dealloc := bump_dealloc; lh_realloc := bump_realloc;
  lh_live := blocks; lh_wf := bump_wf;
  lh_room r h := 0 < next_free h ∧ next_free h + r ≤ limit h
}.
Next Obligation. intros r r' h [? ?] ?. cbn in *. lia. Qed.
Next Obligation. intros st size h Hst _ Hsz. unfold bump_wf. cbn. split_and!; try done; lia. Qed.
Next Obligation.
  intros l h Hh Hl. pose proof (bump_alloc_ok l h Hh Hl) as Hok. destruct (bump_alloc l h) as [p h'].
  destruct Hok as (Hwf & Hc & Hr). split; [done|]. split; [|exact Hr]. naive_solver.
Qed.
Next Obligation.
  intros p l h (H0 & Hz & Hb) Hl. unfold bump_dealloc. rewrite decide_True by done. cbn [returns].
  split; [|done]. split; [done|]. split; [done|]. by apply map_Forall_delete.
Qed.
Next Obligation.
  intros p l n h Hh Hp Hl. unfold bump_realloc.
  pose proof (bump_alloc_ok _ h Hh Hl) as Hok. destruct (bump_alloc _ h) as [q h'].
  destruct Hok as (Hwf & Hc & Hr). cbn [lsize lalign] in Hr. case_decide as Hq.
  - split; [done|]. split; [by left|]. intros r Hro Ha Hn. by destruct (Hr r Hro Ha Hn).
  - destruct Hc as [[-> _]|(Hq0 & Hge & Hnone & Hb)]; [done|]. unfold bump_dealloc.
    assert (blocks h' !! p = Some l) as Hp'.
    { rewrite Hb, lookup_insert_ne; [done|]. intros ->. congruence. }
    rewrite decide_True by done. cbn [mbind outcome_bind returns next_free limit blocks].
    split; [|split; [right|exact Hr]].
    + destruct Hwf as (? & ? & Hw). split; [done|]. split; [done|]. by apply map_Forall_delete.
    + split; [done|]. split; [by rewrite lookup_delete_ne by (intros ->; congruence)|].
      rewrite Hb. apply delete_insert_ne. intros ->. congruence.
Qed.

(** 4096 frames, of which the first 64 are in use. *)
Definition demo_frames : SpinLock (option FrameAllocator) :=
  lock_new (Some (mkFA 4096 0x1000 (U64_MAX :: replicate 63 0))).

Lemma init_kernel_heap_frames_witness :
  returns (init_kernel_heap ps_alloc demo_frames lh_empty) (λ '(s', h'), ps_wf s' ∧
    ((h' = lh_empty ∧ (∀ j, ps_free s' j ↔ ps_free demo_frames j) ∧
        ∀ i, 0 ≤ i → ¬ ∀ j, i ≤ j < i + 2048 → ps_free demo_frames j) ∨
     ∃ p, p mod 4096 = 0 ∧ 0 ≤ p < 2 ^ 64 ∧ h' = lh_init (phys_to_virt p) HEAP_SIZE lh_empty ∧
       (∀ j, p / 4096 ≤ j < p / 4096 + 2048 → ps_free demo_frames j ∧ ¬ ps_free s' j) ∧
       ∀ j, ps_free s' j → ps_free demo_frames j)).
Proof.
  apply init_kernel_heap_frames. split; [done|]. cbn [data demo_frames lock_new].
  split; [split; vm_compute; [discriminate|reflexivity]|]. split; [vm_compute; reflexivity|].
  change (bitmap (mkFA 4096 0x1000 (U64_MAX :: replicate 63 0))) with (U64_MAX :: replicate 63 0).
  constructor; [unfold is_u64; lia|]. apply Forall_replicate. unfold is_u64. lia.
Defined.
