(* ===== verification/Syscall.v ===== *)
(** * System calls

    [src/kernel/syscall.rs]: the handler of synchronous exceptions.  The registers of the caller are
    the trap frame; the call number is x8, the arguments x0 to x3, the result x0.

    Shown: a call changes no register but x0, whatever the number and arguments; anything but an
    SVC halts the core; descriptors and devices behave as their components promise; every call
    that does not sleep returns, with the process table well formed. *)
From stdpp Require Import gmap.
From S2P Require Import Prelude Layout Sync Ring Memory Mmio Uart Log Keyboard Framebuffer Vfs Trap Smp Process.
From S2P Require Import Scheduler Timer Heap.
Local Open Scope Z_scope.

Definition SYSCALL_OPEN : Z := 1.
Definition SYSCALL_READ : Z := 2.
Definition SYSCALL_WRITE : Z := 3.
Definition SYSCALL_CLOSE : Z := 4.
Definition SYSCALL_SLEEP_MS : Z := 5.
Definition SYSCALL_ALLOC : Z := 6.
Definition SYSCALL_REALLOC : Z := 7.
Definition SYSCALL_FREE : Z := 8.

(** The kernel as the handler sees it. *)
Record kernel (W H : Type) := mkKernel { kprocs : procs; kio : io W; kheap : H }.
Arguments mkKernel {W H}.
Arguments kprocs {W H}.
Arguments kio {W H}.
Arguments kheap {W H}.

(** The addresses that can be accessed at EL1, where the handler runs.  The buffers of user code are read and
    written in place: an access elsewhere is a data abort, for which [sync_handler] logs a fault and
    parks the core. *)
Class AddressSpace := accessible : Z → bool.

Section handler.
Context {W H : Type} `{HW : Hardware W, HD : Dma W, HC : Clock W, HK : KernelHeap H, HA : AddressSpace}.
Context (b : board) (fuel : nat) (cpu : Z).
Implicit Types (s : kernel W H) (tf : TrapFrame).

(** The [n] bytes from [ptr] on can be accessed; accessing them. *)
Definition mapped (ptr n : Z) : bool := forallb accessible (seqZ ptr n).
Definition touch (ptr n : Z) : outcome unit := if mapped ptr n then Ret tt else Halt.

Definition memory s : mem := get_mem (hw (kio s)).
Definition with_device (w : W) (i : io W) : io W := mkIo (uart i) (console i) (input i) w.
Definition store_memory (ptr : Z) (bs : list Z) s : kernel W H :=
  mkKernel (kprocs s)
    (with_device (put_mem (store_bytes ptr bs (memory s)) (hw (kio s))) (kio s)) (kheap s).

(** The kernel's heap; the handler runs at EL1 and makes no system calls. *)
Definition with_heap (s : kernel W H) (h : H) : kernel W H := mkKernel (kprocs s) (kio s) h.
Definition heap_ops : kernel_ops (kernel W H) := {|
  k_alloc l s := let '(p, h) := lh_alloc l (kheap s) in (p, with_heap s h);
  k_dealloc p l s := h ← lh_dealloc p l (kheap s); Ret (with_heap s h);
  k_realloc p l n s := '(q, h) ← lh_realloc p l n (kheap s); Ret (q, with_heap s h)
|}.
Definition no_user_ops : user_ops (kernel W H) :=
  mkUserOps (λ _ _ _, Panic) (λ _ _ _ _, Panic) (λ _ _ _ _ _, Panic).

Definition kalloc (l : Layout) s : outcome (Z * kernel W H) := Heap.alloc heap_ops no_user_ops 1 l s.
Definition kdealloc (p : Z) (l : Layout) s : outcome (kernel W H) :=
  Heap.dealloc heap_ops no_user_ops 1 p l s.
Definition krealloc (p : Z) (l : Layout) (n : Z) s : outcome (Z * kernel W H) :=
  Heap.realloc heap_ops no_user_ops 1 p l n s.

(** The result of an allocation as the caller sees it. *)
Definition or_error (ptr : Z) : Z := if decide (ptr = 0) then U64_MAX else ptr.

(** The calls: each computes the new x0.  A path is compared with the names of [lookup] of its length. *)
Definition name_lengths : list Z := [1; 4; 8; 9].

Definition sys_open (ptr len flags : Z) s : outcome (Z * kernel W H) :=
  let flags := from_bits flags in
  if decide (ptr = 0 ∨ len = 0) then Ret (U64_MAX, s)
  else
    _ ← (if decide (len ∈ name_lengths) then touch ptr len else Ret tt);
    let path := load_bytes (memory s) ptr (Z.to_nat len) in
    match open_bytes path flags with
    | None => Ret (U64_MAX, s)
    | Some desc =>
        r ← alloc_fd_current cpu desc (kprocs s);
        Ret (match r.1 with Some fd => fd | None => U64_MAX end, mkKernel r.2 (kio s) (kheap s))
    end.

(** The buffer is written as far as there is input. *)
Definition sys_read (fd ptr len : Z) s : outcome (Z * kernel W H) :=
  if decide (ptr = 0 ∨ len = 0) then Ret (0, s)
  else
    d ← get_fd_current cpu fd (kprocs s);
    let s := mkKernel d.2 (kio s) (kheap s) in
    match d.1 with
    | None => Ret (U64_MAX, s)
    | Some desc =>
        r ← Vfs.read desc (Z.to_nat len) (kio s);
        _ ← touch ptr (Prelude.len r.1);
        Ret (Prelude.len r.1, store_memory ptr r.1 (mkKernel (kprocs s) r.2 (kheap s)))
    end.

(** A device that takes no output does not read the buffer. *)
Definition sys_write (fd ptr len : Z) s : outcome (Z * kernel W H) :=
  if decide (ptr = 0 ∨ len = 0) then Ret (0, s)
  else
    d ← get_fd_current cpu fd (kprocs s);
    let s := mkKernel d.2 (kio s) (kheap s) in
    match d.1 with
    | None => Ret (U64_MAX, s)
    | Some desc =>
        _ ← (if decide (f_write (flags desc) = true ∧ handle desc = DevFb0) then touch ptr len else Ret tt);
        let bytes := load_bytes (memory s) ptr (Z.to_nat len) in
        r ← Vfs.write b fuel desc bytes (kio s);
        Ret (r.1, mkKernel (kprocs s) r.2 (kheap s))
    end.

Definition sys_close (fd : Z) s : outcome (Z * kernel W H) :=
  r ← close_fd_current cpu fd (kprocs s);
  Ret (if (r.1 : bool) then 0 else U64_MAX, mkKernel r.2 (kio s) (kheap s)).

Definition sys_sleep_ms (ms : Z) s : outcome (Z * kernel W H) :=
  w ← delay_ms fuel ms (hw (kio s));
  Ret (0, mkKernel (kprocs s) (with_device w (kio s)) (kheap s)).

Definition sys_alloc (size align : Z) s : outcome (Z * kernel W H) :=
  if decide (size = 0) then Ret (0, s)
  else
    match from_size_align size (Z.max align 1) with
    | None => Ret (U64_MAX, s)
    | Some layout => '(ptr, s) ← kalloc layout s; Ret (or_error ptr, s)
    end.

Definition sys_realloc (ptr old_size new_size align : Z) s : outcome (Z * kernel W H) :=
  match from_size_align (Z.max old_size 1) (Z.max align 1) with
  | None => Ret (U64_MAX, s)
  | Some layout =>
      if decide (ptr = 0) then
        if decide (new_size = 0) then Ret (0, s)
        else
          match from_size_align new_size (Z.max align 1) with
          | None => Ret (U64_MAX, s)
          | Some new_layout => '(new_ptr, s) ← kalloc new_layout s; Ret (or_error new_ptr, s)
          end
      else if decide (new_size = 0) then s ← kdealloc ptr layout s; Ret (0, s)
      else '(new_ptr, s) ← krealloc ptr layout new_size s; Ret (or_error new_ptr, s)
  end.

Definition sys_free (ptr size align : Z) s : outcome (Z * kernel W H) :=
  if decide (ptr = 0 ∨ size = 0) then Ret (0, s)
  else
    match from_size_align size (Z.max align 1) with
    | None => Ret (U64_MAX, s)
    | Some layout => s ← kdealloc ptr layout s; Ret (0, s)
    end.

(** [match syscall]. *)
Definition dispatch (n a0 a1 a2 a3 : Z) s : outcome (Z * kernel W H) :=
  if decide (n = SYSCALL_OPEN) then sys_open a0 a1 a2 s
  else if decide (n = SYSCALL_READ) then sys_read a0 a1 a2 s
  else if decide (n = SYSCALL_WRITE) then sys_write a0 a1 a2 s
  else if decide (n = SYSCALL_CLOSE) then sys_close a0 s
  else if decide (n = SYSCALL_SLEEP_MS) then sys_sleep_ms a0 s
  else if decide (n = SYSCALL_ALLOC) then sys_alloc a0 a1 s
  else if decide (n = SYSCALL_REALLOC) then sys_realloc a0 a1 a2 a3 s
  else if decide (n = SYSCALL_FREE) then sys_free a0 a1 a2 s
  else Ret (U64_MAX, s).

(** The exception class of ESR_EL1; 0x15 is SVC from AArch64. *)
Definition exception_class (esr : Z) : Z := Z.land (Z.shiftr esr 26) 0x3f.

(** The line logged for a fault at the address [far]. *)
Definition report_fault (esr far : Z) tf s : outcome (kernel W H) :=
  '(u, w) ← log b fuel (bytes "sync fault: ec=" ++ hex (exception_class esr) ++ bytes " esr=" ++ hex esr ++
              bytes " far=" ++ hex far ++ bytes " elr=" ++ hex (elr tf)) (uart (kio s)) (hw (kio s));
  Ret (mkKernel (kprocs s) (mkIo u (console (kio s)) (input (kio s)) w) (kheap s)).

(** The frame is updated in place and returned; a fault is logged and parks the core in an endless loop. *)
Definition sync_handler (esr far : Z) tf s : outcome (TrapFrame * kernel W H) :=
  if decide (exception_class esr ≠ 0x15) then
    _ ← report_fault esr far tf s;
    Halt
  else
    n ← aget (x tf) 8;
    a0 ← aget (x tf) 0;
    a1 ← aget (x tf) 1;
    a2 ← aget (x tf) 2;
    a3 ← aget (x tf) 3;
    '(v, s) ← dispatch n a0 a1 a2 a3 s;
    tf ← set_x 0 v tf;
    Ret (tf, s).
End handler.

Section properties.
Context {W H : Type} `{HW : Hardware W, HD : Dma W, HC : Clock W, HK : KernelHeap H, HA : AddressSpace}.
Context (b : board) (fuel : nat) (cpu : Z).
Implicit Types (s : kernel W H) (tf : TrapFrame).

(** What a call that returns has done. *)
Lemma sync_handler_inv esr far tf tf' s s' : sync_handler b fuel cpu esr far tf s = Ret (tf', s') →
  exception_class esr = 0x15 ∧ ∃ n a0 a1 a2 a3 v,
    aget (x tf) 8 = Ret n ∧ aget (x tf) 0 = Ret a0 ∧ aget (x tf) 1 = Ret a1 ∧ aget (x tf) 2 = Ret a2 ∧
    aget (x tf) 3 = Ret a3 ∧ dispatch b fuel cpu n a0 a1 a2 a3 s = Ret (v, s') ∧
    tf' = mkFrame (<[0%nat := v]> (x tf)) (pad tf) (elr tf) (spsr tf) (sp_el0 tf) (pad2 tf).
Proof.
  unfold sync_handler. case_decide; [by destruct (report_fault _ _ _ _ _ _)|].
  intros (n & Hn & (a0 & Ha0 & (a1 & Ha1 & (a2 & Ha2 & (a3 & Ha3 & Hrest)%bind_ret_inv)%bind_ret_inv)
    %bind_ret_inv)%bind_ret_inv)%bind_ret_inv.
  apply bind_ret_inv in Hrest as ([v s1] & Hd & (tf1 & Hset & Heq)%bind_ret_inv).
  injection Heq as <- <-. unfold set_x in Hset. apply bind_ret_inv in Hset as (l & Hl & Heq).
  injection Heq as <-. apply aset_inv in Hl as [_ ->]. split; [lia|]. by exists n, a0, a1, a2, a3, v.
Qed.

(** A system call returns to the caller with every register as it was except x0: the other 30
    general registers, the return address, the saved state and the stack pointer are untouched,
    for every call number and all arguments. *)
Theorem syscall_preserves_registers esr far tf tf' s s' :
  sync_handler b fuel cpu esr far tf s = Ret (tf', s') →
  elr tf' = elr tf ∧ spsr tf' = spsr tf ∧ sp_el0 tf' = sp_el0 tf ∧ length (x tf') = length (x tf) ∧
  ∀ i, i ≠ O → x tf' !! i = x tf !! i.
Proof.
  intros (_ & n & a0 & a1 & a2 & a3 & v & _ & _ & _ & _ & _ & _ & ->)%sync_handler_inv. simpl.
  rewrite length_insert. split_and!; try done. intros i Hi. by apply list_lookup_insert_ne.
Qed.

(** A fault is logged, with its exception class and the registers that locate it, and parks the core. *)
Lemma fault_halts esr far tf s : exception_class esr ≠ 0x15 → returns (report_fault b fuel esr far tf s) (λ _, True) →
  sync_handler b fuel cpu esr far tf s = Halt.
Proof.
  intros He Hr. unfold sync_handler. rewrite decide_True by done. by destruct (report_fault _ _ _ _ _ _).
Qed.

(** *** What the calls return *)

Lemma kalloc_ok l s : kalloc l s = Ret ((lh_alloc l (kheap s)).1, with_heap s (lh_alloc l (kheap s)).2).
Proof. unfold kalloc, Heap.alloc. simpl. by destruct (lh_alloc l (kheap s)). Qed.

Lemma krealloc_ok p l n s :
  krealloc p l n s = ('(q, h) ← lh_realloc p l n (kheap s); Ret (q, with_heap s h)).
Proof. done. Qed.

Lemma kdealloc_ok p l s : kdealloc p l s = (h ← lh_dealloc p l (kheap s); Ret (with_heap s h)).
Proof. done. Qed.

(** Parts of a buffer that can be accessed. *)
Lemma mapped_le ptr n k : mapped ptr n = true → k ≤ n → mapped ptr k = true.
Proof.
  unfold mapped. rewrite !forallb_forall. intros Hm Hk a Ha. apply Hm.
  apply list_elem_of_In, elem_of_seqZ. apply list_elem_of_In, elem_of_seqZ in Ha. lia.
Qed.

Lemma touch_ok ptr n k : mapped ptr n = true → k ≤ n → touch ptr k = Ret tt.
Proof. intros Hm Hk. unfold touch. by rewrite (mapped_le ptr n k). Qed.

Lemma get_fd_returns fd s : procs_ok (kprocs s) → 0 ≤ cpu < MAX_CPUS → 0 ≤ fd →
  returns (get_fd_current cpu fd (kprocs s)) (λ '(_, p), p = kprocs s).
Proof.
  intros Hs Hcpu Hfd. destruct (cpu_cases _ Hs cpu Hcpu) as [Hi|(i & p & Hr)].
  - unfold get_fd_current. case_decide; [done|]. by rewrite (with_current_idle _ Hs cpu _ Hi).
  - by rewrite (get_fd_ok _ cpu i p fd Hs Hr Hfd).
Qed.

(** What a call needs of the devices, and keeps: the drivers' locks are free, the keyboard buffer
    is well formed, and a console, if one is installed, has a framebuffer it can draw to. *)
Record devices_ok (i : io W) : Prop := {
  dv_ready : UART_READY (uart i) = true;
  dv_input : locked (input i) = false;
  dv_keys : Keyboard.wf (data (input i));
  dv_screen : locked (console i) = true ∨ ∃ t, screen_ok i t
}.

Record kernel_ok s : Prop := {
  kn_procs : procs_ok (kprocs s);
  kn_devices : devices_ok (kio s);
  kn_memory : ∀ a, 0 ≤ memory s a;
  kn_heap : lh_wf (kheap s)
}.

(** What a call's arguments must be: a buffer lies in accessible memory, outside the kernel's own data (which
    is not part of [memory]); a block to free or resize is live and has the given layout, and gets a
    size that makes a layout.  Null pointers, empty buffers and layouts that are refused are fine. *)
Definition buffer_ok (ptr n : Z) : Prop := ptr = 0 ∨ n = 0 ∨ mapped ptr n = true.
Definition block_ok (ptr size align : Z) s : Prop :=
  ∀ l, from_size_align size (Z.max align 1) = Some l → lh_live (kheap s) !! ptr = Some l.
Definition args_ok (n a0 a1 a2 a3 : Z) s : Prop :=
  (n = SYSCALL_OPEN → buffer_ok a0 a1) ∧
  (n = SYSCALL_READ ∨ n = SYSCALL_WRITE → buffer_ok a1 a2) ∧
  (n = SYSCALL_REALLOC → a0 ≠ 0 → block_ok a0 (Z.max a1 1) a3 s ∧
     (a2 ≠ 0 → from_size_align a2 (Z.max a3 1) ≠ None)) ∧
  (n = SYSCALL_FREE → a0 ≠ 0 → a1 ≠ 0 → block_ok a0 a1 a2 s).

Definition sys_ok s (r : Z * kernel W H) : Prop :=
  procs_ok (kprocs r.2) ∧
  locked (input (kio r.2)) = false ∧ Keyboard.wf (data (input (kio r.2))) ∧
  locked (console (kio r.2)) = locked (console (kio s)) ∧ lh_wf (kheap r.2).

Lemma sys_ok_same s v (s' : kernel W H) : kernel_ok s → procs_ok (kprocs s') →
  input (kio s') = input (kio s) → console (kio s') = console (kio s) → lh_wf (kheap s') → sys_ok s (v, s').
Proof. intros [_ [? Hi Hk ?] _] Hp Hin Hc Hh. unfold sys_ok. simpl. by rewrite Hin, Hc. Qed.

Lemma buffer_touch ptr n k : buffer_ok ptr n → ¬ (ptr = 0 ∨ n = 0) → k ≤ n → touch ptr k = Ret tt.
Proof. intros [?|[?|?]] Hne Hk; [tauto..|]. by eapply touch_ok. Qed.

Context (Hfuel : (0 < fuel)%nat) (Hcpu : 0 ≤ cpu < MAX_CPUS).

Lemma sys_open_ok ptr n flags s : kernel_ok s → buffer_ok ptr n → returns (sys_open cpu ptr n flags s) (sys_ok s).
Proof.
  intros Hs Hbuf. pose proof (kn_procs s Hs) as Hp. pose proof (kn_heap s Hs) as Hh. unfold sys_open.
  case_decide as Hne; [by apply sys_ok_same|].
  assert ((if decide (n ∈ name_lengths) then touch ptr n else Ret tt) = Ret tt) as ->.
  { case_decide; [|done]. by apply (buffer_touch ptr n). }
  cbn [mbind outcome_bind]. case_match; [|by apply sys_ok_same]. apply returns_bind.
  pose proof (exec_ok 0 0 (AllocFd cpu f) _ Hp Hcpu) as Hex. simpl in Hex.
  apply returns_bind_inv in Hex. eapply returns_mono; [exact Hex|].
  intros [r p'] Hp'. by apply sys_ok_same.
Qed.

Lemma sys_close_ok fd s : kernel_ok s → 0 ≤ fd → returns (sys_close cpu fd s) (sys_ok s).
Proof.
  intros Hs Hfd. pose proof (kn_procs s Hs) as Hp. pose proof (kn_heap s Hs) as Hh.
  unfold sys_close. apply returns_bind.
  pose proof (exec_ok 0 0 (CloseFd cpu fd) _ Hp (conj Hcpu Hfd)) as Hex. simpl in Hex.
  apply returns_bind_inv in Hex. eapply returns_mono; [exact Hex|].
  intros [r p'] Hp'. by apply sys_ok_same.
Qed.

Lemma sys_read_ok fd ptr n s `{!Pl011 W (uart (kio s))} : kernel_ok s → 0 ≤ fd → 0 ≤ n → buffer_ok ptr n →
  returns (sys_read cpu fd ptr n s) (sys_ok s).
Proof.
  intros Hs Hfd Hn Hbuf. pose proof (kn_procs s Hs) as Hp. pose proof (kn_heap s Hs) as Hh.
  unfold sys_read. case_decide as Hne; [by apply sys_ok_same|].
  apply returns_bind. eapply returns_mono; [by apply get_fd_returns|]. intros [o p] ->. cbn [fst snd].
  destruct o as [desc|]; [|by apply sys_ok_same]. cbn [kio kheap kprocs]. apply returns_bind.
  destruct (kn_devices s Hs) as [Hr Hi Hk Hsc]. unfold Vfs.read.
  assert (touch ptr (@Prelude.len Z []) = Ret tt) as Ht0 by (apply (buffer_touch ptr n _ Hbuf Hne); unfold Prelude.len; simpl; lia).
  destruct (negb (f_read (flags desc))).
  { cbn [returns fst snd]. rewrite Ht0. by apply sys_ok_same. }
  destruct (handle desc); [cbn [returns fst snd]; rewrite Ht0; by apply sys_ok_same|]. apply returns_bind.
  eapply returns_mono; [by apply (Keyboard.read_ok (uart (kio s)))|].
  intros [[bs inp] w] (Hl & Hw & _ & Hbs). cbn [returns fst snd].
  rewrite (buffer_touch ptr n _ Hbuf Hne); [unfold sys_ok; simpl; done|].
  destruct (poll_spec _ _) as [q rest]. destruct Hbs as [-> _]. unfold Prelude.len. rewrite length_take. lia.
Qed.

Lemma load_bytes_nonneg m a n : (∀ x, 0 ≤ m x) → Forall (λ c, 0 ≤ c) (load_bytes m a n).
Proof. intros Hm. revert a. induction n; intros a; simpl; constructor; auto. Qed.

Lemma sys_write_ok fd ptr n s `{!Pl011 W (uart (kio s))} : kernel_ok s → 0 ≤ fd → buffer_ok ptr n →
  returns (sys_write b fuel cpu fd ptr n s) (sys_ok s).
Proof.
  intros Hs Hfd Hbuf. pose proof (kn_procs s Hs) as Hp. pose proof (kn_heap s Hs) as Hhp.
  unfold sys_write. case_decide as Hne; [by apply sys_ok_same|].
  apply returns_bind. eapply returns_mono; [by apply get_fd_returns|]. intros [o p] ->. cbn [fst snd].
  destruct o as [desc|]; [|by apply sys_ok_same]. cbn [kio kheap kprocs].
  assert ((if decide (f_write (flags desc) = true ∧ handle desc = DevFb0) then touch ptr n else Ret tt) = Ret tt)
    as ->.
  { case_decide; [|done]. by apply (buffer_touch ptr n). }
  cbn [mbind outcome_bind]. apply returns_bind.
  destruct (kn_devices s Hs) as [Hr Hi Hk Hsc].
  destruct (f_write (flags desc)) eqn:Hfw.
  - destruct (handle desc) eqn:Hh.
    + assert (∃ t, locked (console (kio s)) = true ∨ screen_ok (kio s) t) as [t Ht].
      { destruct Hsc as [?|[t ?]]; [exists None; by left|exists t; by right]. }
      eapply returns_mono; [apply (Vfs.write_ok b fuel Hfuel desc _ (kio s) t Hr Hh Hfw); [|done]|].
      { apply load_bytes_nonneg. apply (kn_memory s Hs). }
      intros [v i'] (_ & Hin & _ & Hlc & _). cbn [fst snd returns].
      unfold sys_ok. simpl. by rewrite Hin.
    + unfold Vfs.write. rewrite Hfw, Hh. by apply sys_ok_same.
  - unfold Vfs.write. rewrite Hfw. by apply sys_ok_same.
Qed.

(** The allocator's calls change the heap only. *)
Lemma sys_ok_id s v : kernel_ok s → sys_ok s (v, s).
Proof. intros Hs. apply sys_ok_same; try done; apply Hs. Qed.

Lemma sys_ok_heap s v h : kernel_ok s → lh_wf h → sys_ok s (v, with_heap s h).
Proof. intros Hs Hh. by apply sys_ok_same; [|apply Hs|..]. Qed.

Lemma layout_made size align l : 0 < size → from_size_align size align = Some l →
  l = mkLayout size align ∧ layout_ok l.
Proof.
  intros Hs Hl. unfold from_size_align in Hl. destruct (_ && _) eqn:Hc; [|done]. injection Hl as <-.
  split; [done|]. split; [done|]. cbn [lsize lalign]. unfold from_size_align. by rewrite Hc.
Qed.

Lemma kalloc_sys_ok s l v : kernel_ok s → layout_ok l → sys_ok s (v, with_heap s (lh_alloc l (kheap s)).2).
Proof.
  intros Hs Hl. apply sys_ok_heap; [done|]. pose proof (lh_alloc_ok l (kheap s) (kn_heap s Hs) Hl) as Ha.
  destruct (lh_alloc l (kheap s)). apply Ha.
Qed.

Lemma kdealloc_sys_ok p l s : kernel_ok s → lh_live (kheap s) !! p = Some l →
  returns (s' ← kdealloc p l s; Ret (0, s')) (sys_ok s).
Proof.
  intros Hs Hl. rewrite kdealloc_ok. apply returns_bind, returns_bind.
  eapply returns_mono; [by apply lh_dealloc_ok, Hl; apply Hs|].
  intros h (Hh & _ & _). by apply sys_ok_heap.
Qed.

Lemma sys_alloc_ok size align s : kernel_ok s → 0 ≤ size → returns (sys_alloc size align s) (sys_ok s).
Proof.
  intros Hs Hsz. assert (sys_ok s (0, s) ∧ sys_ok s (U64_MAX, s)) as [H0 HM] by (split; by apply sys_ok_id).
  unfold sys_alloc. case_decide; [done|]. destruct (from_size_align _ _) as [l|] eqn:Hl; [|done].
  apply layout_made in Hl as [-> Hl]; [|lia]. rewrite kalloc_ok. by apply kalloc_sys_ok.
Qed.

Lemma sys_realloc_ok ptr old new align s : kernel_ok s → 0 ≤ new →
  (ptr ≠ 0 → block_ok ptr (Z.max old 1) align s ∧ (new ≠ 0 → from_size_align new (Z.max align 1) ≠ None)) →
  returns (sys_realloc ptr old new align s) (sys_ok s).
Proof.
  intros Hs Hn Hb. assert (sys_ok s (0, s) ∧ sys_ok s (U64_MAX, s)) as [H0 HM] by (split; by apply sys_ok_id).
  unfold sys_realloc. destruct (from_size_align (Z.max old 1) _) as [l|] eqn:Hl; [|done]. case_decide.
  - case_decide; [done|]. destruct (from_size_align new _) as [l'|] eqn:Hl'; [|done].
    apply layout_made in Hl' as [-> Hl']; [|lia]. rewrite kalloc_ok. by apply kalloc_sys_ok.
  - destruct (Hb ltac:(done)) as [Hlive Hnew]. specialize (Hlive l Hl). case_decide; [by apply kdealloc_sys_ok|].
    apply layout_made in Hl as [-> _]; [|lia]. rewrite krealloc_ok. apply returns_bind, returns_bind.
    eapply returns_mono; [apply lh_realloc_ok; [apply Hs|exact Hlive|]|].
    + destruct (from_size_align new _) as [l'|] eqn:Hl'; [|by destruct (Hnew ltac:(done))].
      by apply layout_made in Hl' as [-> ?]; [|lia].
    + intros [q h] (Hh & _). by apply sys_ok_heap.
Qed.

Lemma sys_free_ok ptr size align s : kernel_ok s → (ptr ≠ 0 → size ≠ 0 → block_ok ptr size align s) →
  returns (sys_free ptr size align s) (sys_ok s).
Proof.
  intros Hs Hb. assert (sys_ok s (0, s) ∧ sys_ok s (U64_MAX, s)) as [H0 HM] by (split; by apply sys_ok_id).
  unfold sys_free. case_decide as Hne; [done|]. destruct (from_size_align _ _) as [l|] eqn:Hl; [|done].
  apply kdealloc_sys_ok; [done|]. apply (Hb ltac:(tauto) ltac:(tauto) l Hl).
Qed.

(** C25. In a well-formed kernel ([kernel_ok]: process table, keyboard buffer, screen and heap in order, locks
    free, a serial line), every system call but the sleeping one returns when its arguments are in order ([args_ok]: buffers lie
    in memory EL1 can access, outside the kernel's own data; a block to free or resize is live, with the
    layout it has, and its new size makes a layout), whatever the call number and the other arguments: no
    deadlock, no panic, no fault and no endless loop, with the process table well formed, the keyboard
    buffer well formed and free, the console's lock as it was and the heap well formed. *)
Theorem syscalls_return esr far tf s n a0 a1 a2 a3 `{!Pl011 W (uart (kio s))} :
  kernel_ok s → exception_class esr = 0x15 → length (x tf) = 31%nat → Forall is_u64 (x tf) →
  x tf !! 8%nat = Some n → x tf !! 0%nat = Some a0 → x tf !! 1%nat = Some a1 →
  x tf !! 2%nat = Some a2 → x tf !! 3%nat = Some a3 → n ≠ SYSCALL_SLEEP_MS → args_ok n a0 a1 a2 a3 s →
  returns (sync_handler b fuel cpu esr far tf s) (λ '(_, s'),
    procs_ok (kprocs s') ∧ locked (input (kio s')) = false ∧
    Keyboard.wf (data (input (kio s'))) ∧ locked (console (kio s')) = locked (console (kio s)) ∧
    lh_wf (kheap s')).
Proof.
  intros Hs He Hlen Hu H8 H0 H1 H2 H3 Hn (Hopen & Hbuf & Hre & Hfr). unfold sync_handler. rewrite decide_False by lia.
  assert (∀ i v, 0 ≤ i → x tf !! Z.to_nat i = Some v → aget (x tf) i = Ret v ∧ 0 ≤ v) as Hget.
  { intros i v Hi Hv. split; [by apply aget_ret|]. apply (Forall_lookup_1 _ _ _ _ Hu Hv). }
  destruct (Hget 8 _ ltac:(lia) H8) as [-> _]. destruct (Hget 0 _ ltac:(lia) H0) as [-> P0].
  destruct (Hget 1 _ ltac:(lia) H1) as [-> _]. destruct (Hget 2 _ ltac:(lia) H2) as [-> P2].
  destruct (Hget 3 _ ltac:(lia) H3) as [-> _]. cbn [mbind outcome_bind]. apply returns_bind.
  assert (returns (dispatch b fuel cpu n a0 a1 a2 a3 s) (sys_ok s)) as Hd.
  { unfold dispatch.
    case_decide; [by apply sys_open_ok; [|apply Hopen]|]. case_decide; [by apply sys_read_ok; [..|apply Hbuf; left]|].
    case_decide; [by apply sys_write_ok; [..|apply Hbuf; right]|]. case_decide; [by apply sys_close_ok|].
    case_decide; [done|]. case_decide; [by apply sys_alloc_ok|].
    case_decide; [by apply sys_realloc_ok; [..|apply Hre]|]. case_decide; [by apply sys_free_ok; [|apply Hfr]|].
    by apply sys_ok_id. }
  eapply returns_mono; [exact Hd|]. intros [v s'] (Hp & Hl & Hw & Hc).
  unfold set_x. rewrite aset_ret by (unfold len; lia). done.
Qed.

(** Writing to an open framebuffer descriptor through the system call: the caller gets the
    number of bytes it asked to write, and exactly those bytes of its memory appear on the
    screen, or on the serial line when there is no console. *)
Theorem write_syscall_delivers esr far tf s fd ptr n desc t `{!Pl011 W (uart (kio s))} :
  kernel_ok s → exception_class esr = 0x15 → length (x tf) = 31%nat →
  x tf !! 8%nat = Some SYSCALL_WRITE → x tf !! 0%nat = Some fd → x tf !! 1%nat = Some ptr →
  x tf !! 2%nat = Some n → ptr ≠ 0 → 0 < n → mapped ptr n = true →
  get_fd_current cpu fd (kprocs s) = Ret (Some desc, kprocs s) →
  handle desc = DevFb0 → f_write (flags desc) = true →
  locked (console (kio s)) = false → screen_ok (kio s) t →
  returns (sync_handler b fuel cpu esr far tf s) (λ '(tf', s'),
    let bytes := load_bytes (memory s) ptr (Z.to_nat n) in
    x tf' !! 0%nat = Some n ∧
    match t with
    | Some t => screen_ok (kio s') (Some (screen_put (data (console (kio s))) bytes t))
    | None => tx (hw (kio s')) = tx (hw (kio s)) ++ crlf bytes
    end).
Proof.
  intros Hs He Hlen H8 H0 H1 H2 Hptr Hn Hmap Hfd Hh Hw Hl Ht. unfold sync_handler.
  rewrite decide_False by lia.
  assert (∀ i v, 0 ≤ i → x tf !! Z.to_nat i = Some v → aget (x tf) i = Ret v) as Hget
    by (intros; by apply aget_ret).
  destruct (aget_total (x tf) 3) as (a3 & Ha3 & _); [unfold len; lia|].
  rewrite (Hget 8 _ ltac:(lia) H8), (Hget 0 _ ltac:(lia) H0), (Hget 1 _ ltac:(lia) H1),
    (Hget 2 _ ltac:(lia) H2), Ha3. cbn [mbind outcome_bind]. apply returns_bind.
  unfold dispatch. rewrite 2!decide_False, decide_True by done.
  unfold sys_write. rewrite decide_False by lia. rewrite Hfd. cbn [mbind outcome_bind fst snd kio].
  rewrite decide_True, (touch_ok ptr n n) by (done || lia). cbn [mbind outcome_bind].
  apply returns_bind. set (bs := load_bytes _ _ _).
  destruct (kn_devices s Hs) as [Hr _ _ _].
  assert (len bs = n) as Hbs by (unfold bs, len; rewrite length_load_bytes; lia).
  eapply returns_mono; [apply (Vfs.write_ok b fuel Hfuel desc bs (kio s) t Hr Hh Hw); [|by right]|].
  { apply load_bytes_nonneg. apply (kn_memory s Hs). }
  intros [v i'] (-> & _ & _ & _ & Hout). rewrite Hl in Hout. rewrite decide_False in Hout by done.
  cbn [fst snd returns]. unfold set_x. rewrite aset_ret by (unfold len; lia).
  cbn [mbind outcome_bind returns x kio]. split.
  - rewrite Hbs. apply list_lookup_insert_eq. lia.
  - destruct t; [exact Hout|]. apply Hout.
Qed.
End properties.

(** ** Malformed calls *)
Section malformed.
Context {W H : Type} `{HW : Hardware W, HD : Dma W, HC : Clock W, HK : KernelHeap H, HA : AddressSpace}.
Context (b : board) (fuel : nat).
Context (cpu : Z) (Hcpu : 0 ≤ cpu < MAX_CPUS).
Implicit Types (s : kernel W H) (tf : TrapFrame).

(** The descriptor a number of the current process stands for. *)
Definition descriptor (fd : Z) s : option FileDesc :=
  match CURRENT (kprocs s) !! Z.to_nat cpu with
  | Some i =>
      if decide (i = INVALID_IDX ∨ MAX_FDS ≤ fd) then None
      else
        match slots (table (kprocs s)) !! Z.to_nat i with
        | Some (Some p) => default None (fds p !! Z.to_nat fd)
        | _ => None
        end
  | None => None
  end.

(** An alignment that is no power of two, or a size that rounding up would carry past the largest
    object; alignment 0 stands for 1. *)
Definition bad_layout (size align : Z) : Prop :=
  (∀ k, 0 ≤ k → Z.max align 1 ≠ 2 ^ k) ∨ 2 ^ 63 < size + Z.max align 1.

(** A path that can be compared with the names: accessible, or of a length none of them has. *)
Definition path_readable (ptr n : Z) : Prop := n ∉ name_lengths ∨ mapped ptr n = true.

(** The calls that do nothing, with what they return: number, arguments, result. *)
Inductive refused s : Z → Z → Z → Z → Z → Z → Prop :=
| unknown_call n a0 a1 a2 a3 : ¬ 1 ≤ n ≤ 8 → refused s n a0 a1 a2 a3 U64_MAX
| open_empty ptr n a2 a3 : ptr = 0 ∨ n = 0 → refused s SYSCALL_OPEN ptr n a2 a3 U64_MAX
| open_unknown ptr n a2 a3 (path := load_bytes (memory s) ptr (Z.to_nat n)) : path_readable ptr n →
    path ≠ bytes "/dev/fb0" → path ≠ bytes "/dev/kbd0" → refused s SYSCALL_OPEN ptr n a2 a3 U64_MAX
| open_full ptr n a2 a3 : path_readable ptr n → idle (kprocs s) cpu ∨ (∀ fd, 0 ≤ fd < MAX_FDS → descriptor fd s ≠ None) →
    refused s SYSCALL_OPEN ptr n a2 a3 U64_MAX
| read_empty fd ptr n a3 : ptr = 0 ∨ n = 0 → refused s SYSCALL_READ fd ptr n a3 0
| read_closed fd ptr n a3 : ptr ≠ 0 → n ≠ 0 → descriptor fd s = None →
    refused s SYSCALL_READ fd ptr n a3 U64_MAX
| read_unreadable fd ptr n a3 d : descriptor fd s = Some d → f_read (flags d) = false ∨ handle d = DevFb0 →
    refused s SYSCALL_READ fd ptr n a3 0
| write_empty fd ptr n a3 : ptr = 0 ∨ n = 0 → refused s SYSCALL_WRITE fd ptr n a3 0
| write_closed fd ptr n a3 : ptr ≠ 0 → n ≠ 0 → descriptor fd s = None →
    refused s SYSCALL_WRITE fd ptr n a3 U64_MAX
| write_unwritable fd ptr n a3 d : descriptor fd s = Some d → f_write (flags d) = false ∨ handle d = DevKbd0 →
    refused s SYSCALL_WRITE fd ptr n a3 0
| close_none fd a1 a2 a3 : idle (kprocs s) cpu ∨ MAX_FDS ≤ fd → refused s SYSCALL_CLOSE fd a1 a2 a3 U64_MAX
| alloc_empty align a2 a3 : refused s SYSCALL_ALLOC 0 align a2 a3 0
| alloc_layout size align a2 a3 : size ≠ 0 → bad_layout size align →
    refused s SYSCALL_ALLOC size align a2 a3 U64_MAX
| realloc_layout ptr old n align : bad_layout (Z.max old 1) align →
    refused s SYSCALL_REALLOC ptr old n align U64_MAX
| realloc_empty old align : ¬ bad_layout (Z.max old 1) align → refused s SYSCALL_REALLOC 0 old 0 align 0
| realloc_new_layout old n align : n ≠ 0 → bad_layout n align → refused s SYSCALL_REALLOC 0 old n align U64_MAX
| free_empty ptr size align a3 : ptr = 0 ∨ size = 0 → refused s SYSCALL_FREE ptr size align a3 0
| free_layout ptr size align a3 : ptr ≠ 0 → size ≠ 0 → bad_layout size align →
    refused s SYSCALL_FREE ptr size align a3 U64_MAX.

Lemma layout_refused size align : is_u64 align →
  from_size_align size (Z.max align 1) = None ↔ bad_layout size align.
Proof.
  intros Ha. unfold from_size_align, bad_layout.
  assert (0 ≤ Z.max align 1 < U64) as Hr by (unfold is_u64 in Ha; lia).
  pose proof (is_power_of_two_spec _ Hr) as Hp.
  destruct (is_power_of_two (Z.max align 1)).
  - destruct (proj1 Hp eq_refl) as (k & Hk & Heq). simpl. case_bool_decide; split; try done.
    + intros [Hn|Hn]; [|lia]. exfalso. apply (Hn k); [lia|done].
    + intros _. right. lia.
  - simpl. split; [|done]. intros _. left. intros k Hk Heq. assert (false = true) as ?; [|done].
    apply Hp. exists k. split; [|done]. split; [lia|].
    destruct (decide (k < 64)) as [|Hge]; [done|].
    pose proof (Z.pow_le_mono_r 2 64 k ltac:(lia) ltac:(lia)). lia.
Qed.

Lemma get_fd_descriptor fd s : procs_ok (kprocs s) → 0 ≤ fd →
  get_fd_current cpu fd (kprocs s) = Ret (descriptor fd s, kprocs s).
Proof.
  intros Hs Hfd. unfold descriptor. destruct (cpu_cases _ Hs cpu Hcpu) as [[H0 Hi]|(i & p & Hr)].
  - rewrite Hi, decide_True by (by left). unfold get_fd_current. case_decide; [done|].
    by rewrite (with_current_idle _ Hs cpu _ (conj H0 Hi)).
  - rewrite (get_fd_ok _ cpu i p fd Hs Hr Hfd). destruct Hr as (_ & -> & Hne & [_ ->]).
    case_decide; [rewrite decide_False by (intros [?|?]; [done|lia])|rewrite decide_True by (right; lia)]; done.
Qed.

Lemma put_same s i p : procs_ok (kprocs s) → slots (table (kprocs s)) !! Z.to_nat i = Some (Some p) →
  put_proc (kprocs s) i p = kprocs s.
Proof.
  intros Hs Hp. unfold put_proc. rewrite (list_insert_id _ _ _ Hp).
  etrans; [|apply (with_table_same (kprocs s)); apply Hs]. unfold table, with_slots.
  by destruct (data (PROCESS_TABLE (kprocs s))).
Qed.

Lemma alloc_fd_refused desc s : procs_ok (kprocs s) →
  idle (kprocs s) cpu ∨ (∀ fd, 0 ≤ fd < MAX_FDS → descriptor fd s ≠ None) →
  alloc_fd_current cpu desc (kprocs s) = Ret (None, kprocs s).
Proof.
  intros Hs Hno. unfold alloc_fd_current. destruct (cpu_cases _ Hs cpu Hcpu) as [Hi|(i & p & Hr)].
  { by rewrite (with_current_mut_idle _ Hs cpu _ Hi). }
  destruct Hno as [[_ Hi]|Hno]; [destruct Hr as (_ & Hi' & Hne & _); congruence|].
  pose proof Hr as (Hc & Hi & Hne & Hp).
  pose proof (ok_fds _ _ (ok_table _ Hs) _ _ Hp) as Hl.
  destruct (proj1 (returns_eq _ _) (alloc_fd_ok desc p Hl)) as ([[fd|] p'] & Heq & Hres).
  { destruct Hres as (Hfd & Hfree & _). exfalso. apply (Hno fd Hfd). unfold descriptor.
    rewrite Hi, decide_False by (intros [?|?]; [done|lia]). destruct Hp as [_ ->]. by rewrite Hfree. }
  destruct Hres as [_ ->].
  rewrite (with_current_mut_runs _ Hs cpu _ i p None p Hr Heq). simpl.
  destruct Hp as [_ Hp]. by rewrite put_same.
Qed.

Lemma store_nothing ptr s : store_memory ptr [] s = s.
Proof. destruct s as [? [] ?]. unfold store_memory, with_device, memory. simpl. by rewrite put_get. Qed.

Lemma same_kernel s : mkKernel (kprocs s) (kio s) (kheap s) = s.
Proof. by destruct s. Qed.

#[local] Ltac refusal H :=
  cbv [SYSCALL_OPEN SYSCALL_READ SYSCALL_WRITE SYSCALL_CLOSE SYSCALL_SLEEP_MS SYSCALL_ALLOC SYSCALL_REALLOC
    SYSCALL_FREE] in H;
  inversion H; subst; try done; try lia.

Lemma open_refused ptr n a2 a3 v s : procs_ok (kprocs s) → refused s SYSCALL_OPEN ptr n a2 a3 v →
  sys_open cpu ptr n a2 s = Ret (v, s).
Proof.
  intros Hs Href. unfold sys_open. case_decide as He; [by refusal Href|].
  assert ((if decide (n ∈ name_lengths) then touch ptr n else Ret tt) = Ret tt) as ->.
  { assert (path_readable ptr n) as Hr by (refusal Href; tauto). case_decide; [|done].
    destruct Hr as [?|Hm]; [done|]. by apply (touch_ok ptr n). }
  cbn [mbind outcome_bind]. destruct (open_bytes _ _) as [d|] eqn:Ho; [|by refusal Href].
  apply open_exact in Ho as [_ Ho]. refusal Href; [tauto|].
  rewrite alloc_fd_refused by done. simpl. by rewrite same_kernel.
Qed.

Lemma read_refused fd ptr n a3 v s : procs_ok (kprocs s) → 0 ≤ fd → refused s SYSCALL_READ fd ptr n a3 v →
  sys_read cpu fd ptr n s = Ret (v, s).
Proof.
  intros Hs Hfd Href. unfold sys_read. case_decide as He; [by refusal Href|].
  rewrite get_fd_descriptor by done. simpl. rewrite same_kernel.
  refusal Href; [by destruct (descriptor fd s)|].
  match goal with Hd : descriptor fd s = Some _, Hw : _ ∨ _ |- _ => rewrite Hd; unfold Vfs.read; destruct Hw as [Hw|Hw]; rewrite Hw end.
  - simpl. by rewrite same_kernel, store_nothing.
  - destruct (negb _); simpl; by rewrite same_kernel, store_nothing.
Qed.

Lemma write_refused fd ptr n a3 v s : procs_ok (kprocs s) → 0 ≤ fd → refused s SYSCALL_WRITE fd ptr n a3 v →
  sys_write b fuel cpu fd ptr n s = Ret (v, s).
Proof.
  intros Hs Hfd Href. unfold sys_write. case_decide as He; [by refusal Href|].
  rewrite get_fd_descriptor by done. simpl. rewrite same_kernel.
  refusal Href; [by destruct (descriptor fd s)|].
  match goal with Hd : descriptor fd s = Some ?d, Hw : f_write _ = false ∨ _ |- _ =>
    rewrite Hd; destruct (decide _) as [[Hf Hh]|_]; [destruct Hw; congruence|]; unfold Vfs.write;
    destruct Hw as [Hw|Hw]; rewrite Hw end.
  - simpl. by rewrite same_kernel.
  - destruct (negb _); simpl; by rewrite same_kernel.
Qed.

Lemma close_refused fd a1 a2 a3 v s : procs_ok (kprocs s) → refused s SYSCALL_CLOSE fd a1 a2 a3 v →
  sys_close cpu fd s = Ret (v, s).
Proof.
  intros Hs Href. unfold sys_close, close_fd_current. case_decide.
  - simpl. rewrite same_kernel. by refusal Href.
  - refusal Href. match goal with Hi : _ ∨ _ |- _ => destruct Hi as [Hi|]; [|done] end.
    rewrite (with_current_mut_idle _ Hs cpu) by done. simpl. by rewrite same_kernel.
Qed.

Lemma heap_refused n a0 a1 a2 a3 v s : Forall is_u64 [a0; a1; a2; a3] →
  n = SYSCALL_ALLOC ∨ n = SYSCALL_REALLOC ∨ n = SYSCALL_FREE → refused s n a0 a1 a2 a3 v →
  dispatch b fuel cpu n a0 a1 a2 a3 s = Ret (v, s).
Proof.
  intros (H0 & [H1 [H2 [H3 _]%Forall_cons_1]%Forall_cons_1]%Forall_cons_1)%Forall_cons_1 Hn Href.
  destruct Hn as [->|[->| ->]]; refusal Href;
    unfold dispatch; rewrite ?decide_False by done; rewrite decide_True by done;
    unfold sys_alloc, sys_realloc, sys_free;
    repeat match goal with Hb : bad_layout _ _ |- _ => apply layout_refused in Hb; [|done]; rewrite Hb end;
    repeat case_decide; try lia; try done; case_match eqn:Hf; try done.
  apply layout_refused in Hf; done.
Qed.

Lemma dispatch_refused n a0 a1 a2 a3 v s : procs_ok (kprocs s) → Forall is_u64 [a0; a1; a2; a3] →
  refused s n a0 a1 a2 a3 v → dispatch b fuel cpu n a0 a1 a2 a3 s = Ret (v, s).
Proof.
  intros Hs Hu Href.
  destruct (decide (n = SYSCALL_ALLOC ∨ n = SYSCALL_REALLOC ∨ n = SYSCALL_FREE)) as [Hh|Hh];
    [by apply heap_refused|].
  assert (0 ≤ a0) as H0 by (apply Forall_cons_1 in Hu as [[? _] _]; done).
  unfold dispatch. case_decide; [subst; by eapply open_refused|]. case_decide; [subst; by eapply read_refused|].
  case_decide; [subst; by eapply write_refused|]. case_decide; [subst; by eapply close_refused|].
  case_decide; [subst; by refusal Href|]. repeat (case_decide; [tauto|]).
  inversion Href; subst; try done; tauto.
Qed.

(** C26. Malformed calls of these kinds ([refused]) are refused and do nothing: an unknown number; an open of
    a null or empty path, of an accessible path that names no device, or with no free descriptor or no
    process; a read or write with a null or empty buffer, on a number that is no open descriptor, or on one
    opened for the other direction; a close of a number out of range or without a process; an allocation, a
    free, or a reallocation of a null pointer, whose size and alignment make no layout, a reallocation whose
    old size and alignment make none, and all three where they have nothing to do (size 0, null pointer).  The
    caller gets u64::MAX, or 0 where the call has nothing to do or the descriptor is of the other
    direction; no other register, and nothing in the process table, the drivers, the devices, the memory or
    the heap, has changed.  Two malformed calls are not refused by the code and not covered: the new size of
    a live block is not checked ([realloc_size_unchecked]), and closing a number in range that is not open
    succeeds ([close_closed_succeeds]). *)
Theorem malformed_call_refused esr far tf s n a0 a1 a2 a3 v :
  procs_ok (kprocs s) → exception_class esr = 0x15 → Forall is_u64 (x tf) → length (x tf) = 31%nat →
  x tf !! 8%nat = Some n → x tf !! 0%nat = Some a0 → x tf !! 1%nat = Some a1 →
  x tf !! 2%nat = Some a2 → x tf !! 3%nat = Some a3 → refused s n a0 a1 a2 a3 v →
  sync_handler b fuel cpu esr far tf s =
    Ret (mkFrame (<[0%nat := v]> (x tf)) (pad tf) (elr tf) (spsr tf) (sp_el0 tf) (pad2 tf), s).
Proof.
  intros Hs He Hu Hlen H8 H0 H1 H2 H3 Href. unfold sync_handler. rewrite decide_False by lia.
  assert (∀ i r, 0 ≤ i → x tf !! Z.to_nat i = Some r → aget (x tf) i = Ret r) as Hget
    by (intros; by apply aget_ret).
  rewrite (Hget 8 _ ltac:(lia) H8), (Hget 0 _ ltac:(lia) H0), (Hget 1 _ ltac:(lia) H1),
    (Hget 2 _ ltac:(lia) H2), (Hget 3 _ ltac:(lia) H3). cbn [mbind outcome_bind].
  rewrite (dispatch_refused n a0 a1 a2 a3 v s Hs); [|repeat (constructor; [by eapply Forall_lookup_1|]); constructor|done].
  cbn [mbind outcome_bind]. unfold set_x. by rewrite aset_ret by (unfold len; lia).
Qed.

(** A reallocation of a non-null pointer hands the new size to the allocator unchecked, also one that makes no
    layout, which the allocator's contract excludes. *)
Theorem realloc_size_unchecked ptr old new align l s : ptr ≠ 0 → new ≠ 0 → is_u64 align →
  from_size_align (Z.max old 1) (Z.max align 1) = Some l → bad_layout new align →
  sys_realloc ptr old new align s =
    ('(q, h) ← lh_realloc ptr l new (kheap s); Ret (or_error q, with_heap s h)) ∧ ¬ layout_ok (mkLayout new (lalign l)).
Proof.
  intros Hp Hn Ha Hl Hbad. assert (lalign l = Z.max align 1) as Hal.
  { unfold from_size_align in Hl. destruct (_ && _); [|done]. by injection Hl as <-. }
  split.
  - unfold sys_realloc. rewrite Hl, !decide_False by done. rewrite krealloc_ok.
    by destruct (lh_realloc ptr l new (kheap s)) as [[q h]| | |].
  - intros [_ Hok]. cbn [lsize lalign] in Hok. rewrite Hal, (proj2 (layout_refused new align Ha) Hbad) in Hok. done.
Qed.

(** Closing a number in range that is not open succeeds, and changes nothing. *)
Theorem close_closed_succeeds fd s : procs_ok (kprocs s) → ¬ idle (kprocs s) cpu → 0 ≤ fd < MAX_FDS →
  descriptor fd s = None → sys_close cpu fd s = Ret (0, s).
Proof.
  intros Hs Hrun Hfd Hd. destruct (cpu_cases _ Hs cpu Hcpu) as [?|(i & p & Hr)]; [done|].
  pose proof Hr as (_ & Hi & Hne & Hp). pose proof (ok_fds _ _ (ok_table _ Hs) _ _ Hp) as Hl.
  unfold descriptor in Hd. rewrite Hi, decide_False in Hd by (intros [?|?]; [done|lia]).
  destruct Hp as [Hi0 Hp]. rewrite Hp in Hd. unfold sys_close, close_fd_current. rewrite decide_False by lia.
  unfold len in Hl. destruct (lookup_lt_is_Some_2 (fds p) (Z.to_nat fd)) as [o Ho]; [lia|].
  rewrite Ho in Hd. cbn in Hd. unfold Datatypes.id in Hd. subst o.
  assert (aset (fds p) fd None = Ret (fds p)) as Hset.
  { rewrite aset_ret by (unfold len; lia). by rewrite list_insert_id. }
  rewrite (with_current_mut_runs _ Hs cpu _ i p true p Hr) by (rewrite Hset; by destruct p).
  cbn [mbind outcome_bind fst snd default]. rewrite put_same by done. by rewrite same_kernel.
Qed.
End malformed.

(** ** A shell process with the keyboard and the screen open, on a board without a display *)
#[export] Instance demo_dev_clock : Clock demo_dev := {
  cntpct d := (0, d); cntfrq _ := 1000; arm _ d := d
}.

Definition stdio_ops : list op :=
  [SetInitFd 0 (Some (mkDesc DevKbd0 (OpenFlags_new true false false)));
   SetInitFd 1 (Some (mkDesc DevFb0 (OpenFlags_new false true false)));
   SetInitFd 2 (Some (mkDesc DevFb0 (OpenFlags_new false true false)));
   Create (bytes "shell") 0x80000 0 User None; Start 0].
Definition stdio_procs : procs :=
  match run_ops demo_stacks demo_root stdio_ops procs_new with Ret s => s | _ => procs_new end.

Definition demo_kernel : kernel demo_dev bump :=
  mkKernel stdio_procs
    (mkIo demo_uart (lock_new None) (lock_new RingBuffer_new)
      (mkDemo (mkPort [] []) (store_bytes 0x2000 [104; 105; 10] (λ _, 0))))
    (mkBump 0x10000 0x20000 ∅).

(** Memory from 4 KiB to 16 MiB can be accessed. *)
Definition demo_space : AddressSpace := λ a, bool_decide (0x1000 ≤ a < 0x1000000).
#[local] Existing Instance demo_space.

#[export] Instance demo_kernel_pl011 : Pl011 demo_dev (uart (kio demo_kernel)) := demo_dev_pl011.

Lemma stdio_procs_ok : procs_ok stdio_procs.
Proof.
  apply (reachable_ok demo_stacks demo_root), (quiet_reachable demo_stacks demo_root).
  apply (run_ops_quiet _ _ stdio_ops). vm_compute. reflexivity.
Qed.

Lemma demo_kernel_ok : kernel_ok demo_kernel.
Proof.
  split; [apply stdio_procs_ok| | |].
  - split; [reflexivity|reflexivity| |right; by exists None].
    split; vm_compute; intuition congruence.
  - intros a. unfold memory, demo_kernel. cbn [kio hw get_mem demo_dev_dma d_mem store_bytes].
    unfold store8. repeat case_decide; lia.
  - split; [simpl; lia|]. split; [simpl; lia|]. apply map_Forall_empty.
Qed.

Definition SVC_ESR : Z := 0x56000000.
Definition call_frame (n a0 a1 a2 : Z) : TrapFrame :=
  mkFrame ([a0; a1; a2] ++ replicate 5 0 ++ [n] ++ replicate 22 0) 0 0x80000 5 0 0.

Lemma syscall_preserves_registers_witness :
  ∃ tf' s', sync_handler Qemu 1 0 SVC_ESR 0 (call_frame 3 1 0x2000 3) demo_kernel = Ret (tf', s') ∧
    elr tf' = 0x80000.
Proof.
  destruct (sync_handler Qemu 1 0 SVC_ESR 0 (call_frame 3 1 0x2000 3) demo_kernel) as [[tf' s']| | |] eqn:Hc;
    [|exfalso; vm_compute in Hc; discriminate..].
  exists tf', s'. split; [done|].
  destruct (syscall_preserves_registers Qemu 1 0 SVC_ESR 0 (call_frame 3 1 0x2000 3) tf' demo_kernel s' Hc)
    as [He _]. exact He.
Defined.

(** A path of three bytes; a write of the three bytes at 0x2000; a free of a block just allocated. *)
Lemma syscalls_return_witness :
  let ok s (r : outcome (TrapFrame * kernel demo_dev bump)) := returns r (λ '(_, s'),
    procs_ok (kprocs s') ∧ locked (input (kio s')) = false ∧ Keyboard.wf (data (input (kio s'))) ∧
    locked (console (kio s')) = locked (console (kio (s : kernel demo_dev bump))) ∧ lh_wf (kheap s')) in
  let s1 := with_heap demo_kernel (mkBump 0x10040 0x20000 {[0x10000 := mkLayout 64 8]}) in
  ok demo_kernel (sync_handler Qemu 1 0 SVC_ESR 0 (call_frame 1 0x2000 3 2) demo_kernel) ∧
  ok demo_kernel (sync_handler Qemu 1 0 SVC_ESR 0 (call_frame 3 1 0x2000 3) demo_kernel) ∧
  ok s1 (sync_handler Qemu 1 0 SVC_ESR 0 (call_frame 8 0x10000 64 8) s1).
Proof.
  intros ok s1.
  assert (0 ≤ 0 < MAX_CPUS) as Hcpu by (split; vm_compute; [discriminate|reflexivity]).
  pose proof demo_kernel_ok as Hok.
  assert (kernel_ok s1) as Hok1.
  { destruct Hok as [Hp Hd Hm _]. split; [exact Hp|exact Hd|exact Hm|].
    split; [simpl; lia|]. split; [simpl; lia|]. apply map_Forall_singleton. simpl. lia. }
  split_and!.
  - apply (syscalls_return Qemu 1 0 ltac:(lia) Hcpu SVC_ESR 0 (call_frame 1 0x2000 3 2) demo_kernel 1 0x2000 3 2 0);
      [exact Hok|reflexivity|reflexivity|decide_by_computation|reflexivity..|done|].
    split_and!; [by right; right|by intros [?|?]|done|done].
  - apply (syscalls_return Qemu 1 0 ltac:(lia) Hcpu SVC_ESR 0 (call_frame 3 1 0x2000 3) demo_kernel 3 1 0x2000 3 0);
      [exact Hok|reflexivity|reflexivity|decide_by_computation|reflexivity..|done|].
    split_and!; [done|by right; right|done|done].
  - apply (syscalls_return Qemu 1 0 ltac:(lia) Hcpu SVC_ESR 0 (call_frame 8 0x10000 64 8) s1 8 0x10000 64 8 0);
      [exact Hok1|reflexivity|reflexivity|decide_by_computation|reflexivity..|done|].
    split_and!; [done|by intros [?|?]|done|]. intros _ _ _ l Hl. vm_compute in Hl. injection Hl as <-. reflexivity.
Defined.

Lemma write_syscall_delivers_witness :
  returns (sync_handler Qemu 1 0 SVC_ESR 0 (call_frame 3 1 0x2000 3) demo_kernel) (λ '(tf', s'),
    x tf' !! 0%nat = Some 3 ∧ p_tx (d_port (hw (kio s'))) = [104; 105; 13; 10]).
Proof.
  eapply returns_mono.
  - apply (write_syscall_delivers Qemu 1 0 ltac:(lia)
      SVC_ESR 0 (call_frame 3 1 0x2000 3)
      demo_kernel 1 0x2000 3 (mkDesc DevFb0 (OpenFlags_new false true false)) None);
      [apply demo_kernel_ok|reflexivity|reflexivity|reflexivity|reflexivity|reflexivity|reflexivity|
       lia|lia|vm_compute; reflexivity|vm_compute; reflexivity|reflexivity|reflexivity|reflexivity|done].
  - intros [tf' s'] [Hx Htx]. split; [exact Hx|exact Htx].
Defined.

(** Reading from the screen's descriptor, opening a path that names nothing, and an alignment of 3. *)
Lemma malformed_call_refused_witness :
  sync_handler Qemu 1 0 SVC_ESR 0 (call_frame 2 1 0x2000 3) demo_kernel = Ret (call_frame 2 0 0x2000 3, demo_kernel) ∧
  sync_handler Qemu 1 0 SVC_ESR 0 (call_frame 1 0x2000 3 2) demo_kernel =
    Ret (call_frame 1 U64_MAX 3 2, demo_kernel) ∧
  sync_handler Qemu 1 0 SVC_ESR 0 (call_frame 6 64 3 0) demo_kernel =
    Ret (call_frame 6 U64_MAX 3 0, demo_kernel).
Proof.
  split_and!.
  - apply (malformed_call_refused Qemu 1 0 ltac:(split; [lia|vm_compute; reflexivity]) SVC_ESR 0 (call_frame 2 1 0x2000 3) demo_kernel
      2 1 0x2000 3 0 0); [apply stdio_procs_ok|reflexivity|decide_by_computation|reflexivity..|].
    eapply read_unreadable; [vm_compute; reflexivity|by left].
  - apply (malformed_call_refused Qemu 1 0 ltac:(split; [lia|vm_compute; reflexivity]) SVC_ESR 0 (call_frame 1 0x2000 3 2) demo_kernel
      1 0x2000 3 2 0 U64_MAX); [apply stdio_procs_ok|reflexivity|decide_by_computation|reflexivity..|].
    apply open_unknown; [left; by decide_by_computation|vm_compute; discriminate..].
  - apply (malformed_call_refused Qemu 1 0 ltac:(split; [lia|vm_compute; reflexivity]) SVC_ESR 0 (call_frame 6 64 3 0) demo_kernel
      6 64 3 0 0 U64_MAX); [apply stdio_procs_ok|reflexivity|decide_by_computation|reflexivity..|].
    apply alloc_layout; [lia|]. apply layout_refused; [by split; vm_compute|vm_compute; reflexivity].
Defined.
