(* ===== verification/Vectors.v ===== *)
(** * Exception vectors and context switch

    [src/arch/aarch64/exception.S], instruction by instruction: the vector table, the vectors of interrupts
    and synchronous exceptions, [restore_context] and [start_first].  Addresses are those of the kernel's
    virtual address space, whose translation is the business of [Paging].

    Shown: the vectors build the [TrapFrame] that [irq_handler] and [sync_handler] are written against, and
    leave into exactly the state of the frame the handler returns, whichever that is: an interrupt is
    invisible to the code it interrupts, a process resumes with the registers it was interrupted with, a
    fresh one starts at its entry, and a system call changes x0 alone.  The vector registers are not part of
    the frame: an interrupt can change them. *)
From S2P Require Import Prelude Bits Layout Memory Trap Process Mmio Vfs Timer Heap Syscall Aarch64.
Local Open Scope Z_scope.

Definition TF_SIZE : Z := 0x120.

Definition VEC (l : string) : list line := [Op (B l); Space 0x7c].

Definition vector_table : list line :=
  Lbl "vector_table" ::
  VEC "sync_current_sp0" ++ VEC "irq_current_sp0" ++ VEC "fiq_current_sp0" ++ VEC "serr_current_sp0" ++
  VEC "sync_current_spx" ++ VEC "irq_current_spx" ++ VEC "fiq_current_spx" ++ VEC "serr_current_spx" ++
  VEC "sync_lower_a64" ++ VEC "irq_lower_a64" ++ VEC "fiq_lower_a64" ++ VEC "serr_lower_a64" ++
  VEC "sync_lower_a32" ++ VEC "irq_lower_a32" ++ VEC "fiq_lower_a32" ++ VEC "serr_lower_a32".

Definition handlers : list line := [
  Lbl "sync_current_sp0"; Op (B "default_handler");
  Lbl "irq_current_sp0"; Op (B "default_handler");
  Lbl "fiq_current_sp0"; Op (B "default_handler");
  Lbl "serr_current_sp0"; Op (B "default_handler");
  Lbl "sync_current_spx"; Op (B "sync_vector");
  Lbl "irq_current_spx"; Op (B "irq_vector");
  Lbl "fiq_current_spx"; Op (B "default_handler");
  Lbl "serr_current_spx"; Op (B "default_handler");
  Lbl "sync_lower_a64"; Op (B "sync_vector");
  Lbl "irq_lower_a64"; Op (B "irq_vector");
  Lbl "fiq_lower_a64"; Op (B "default_handler");
  Lbl "serr_lower_a64"; Op (B "default_handler");
  Lbl "sync_lower_a32"; Op (B "default_handler");
  Lbl "irq_lower_a32"; Op (B "default_handler");
  Lbl "fiq_lower_a32"; Op (B "default_handler");
  Lbl "serr_lower_a32"; Op (B "default_handler");
  Lbl "default_handler"; Op Wfe; Op (B "default_handler")].

(** Lines 57 to 82, and again 113 to 138. *)
Definition save_context : list instr := [
  SubI SP SP TF_SIZE;
  Stp (X 0) (X 1) SP 0; Stp (X 2) (X 3) SP 16; Stp (X 4) (X 5) SP 32; Stp (X 6) (X 7) SP 48;
  Stp (X 8) (X 9) SP 64; Stp (X 10) (X 11) SP 80; Stp (X 12) (X 13) SP 96; Stp (X 14) (X 15) SP 112;
  Stp (X 16) (X 17) SP 128; Stp (X 18) (X 19) SP 144; Stp (X 20) (X 21) SP 160; Stp (X 22) (X 23) SP 176;
  Stp (X 24) (X 25) SP 192; Stp (X 26) (X 27) SP 208; Stp (X 28) (X 29) SP 224; Stp (X 30) XZR SP 240;
  Mrs (X 0) ELR_EL1; Mrs (X 1) SPSR_EL1; Mrs (X 2) SP_EL0;
  Stp (X 0) (X 1) SP 256; Str (X 2) SP 272;
  Mov (X 0) SP].

(** Lines 84 to 109, 140 to 165 and 169 to 193. *)
Definition load_context : list instr := [
  Mov SP (X 0);
  Ldp (X 0) (X 1) SP 256; Ldr (X 2) SP 272;
  Msr ELR_EL1 (X 0); Msr SPSR_EL1 (X 1); Msr SP_EL0 (X 2);
  Ldp (X 30) XZR SP 240; Ldp (X 28) (X 29) SP 224; Ldp (X 26) (X 27) SP 208; Ldp (X 24) (X 25) SP 192;
  Ldp (X 22) (X 23) SP 176; Ldp (X 20) (X 21) SP 160; Ldp (X 18) (X 19) SP 144; Ldp (X 16) (X 17) SP 128;
  Ldp (X 14) (X 15) SP 112; Ldp (X 12) (X 13) SP 96; Ldp (X 10) (X 11) SP 80; Ldp (X 8) (X 9) SP 64;
  Ldp (X 6) (X 7) SP 48; Ldp (X 4) (X 5) SP 32; Ldp (X 2) (X 3) SP 16; Ldp (X 0) (X 1) SP 0;
  AddI SP SP TF_SIZE].

Definition vector (name handler : string) : list line :=
  Lbl name :: (Op <$> save_context) ++ [Op (Bl handler)] ++ (Op <$> load_context) ++ [Op Eret].

Definition restore_context : list line := Lbl "restore_context" :: (Op <$> load_context) ++ [Op Eret].
Definition start_first : list line := [Lbl "start_first"; Op (Mov SP (X 1)); Op (Br (X 0))].

Definition exception_S : list line :=
  vector_table ++ handlers ++ vector "irq_vector" "irq_handler" ++ vector "sync_vector" "sync_handler" ++
  restore_context ++ start_first.

(** Virtual addresses. *)
Definition direct (s : sysreg → Z) (m : mem) (a : Z) : option Z := Some a.

(** ** Frames in memory *)

(** The 36 words at [a] are the frame's, in the order of the [repr(C)] struct. *)
Definition frame_at (m : mem) (a : Z) (f : TrapFrame) : Prop :=
  length (x f) = 31%nat ∧ load_words m a 36 = frame_words f.

(** What the vector saves of the state [c] at [a].  It does not write the last word, [_pad2]. *)
Definition frame_of (a : Z) (c : cpu) : TrapFrame :=
  mkFrame (xs c) 0 a (pstate c) (sys c SP_EL0) (load64 (memory c) (sys c SP_EL1 - 8)).

Section frames.
Context (code : list line) (org : Z) (sym : string → Z).
Notation exec := (exec code org sym direct).
Notation exec_block := (exec_block code org sym direct).

(** Stores of pairs of registers, upwards. *)
Fixpoint stps (off : Z) (rs : list (reg * reg)) : list instr :=
  match rs with (r1, r2) :: rs => Stp r1 r2 SP off :: stps (off + 16) rs | [] => [] end.

Definition values (rs : list (reg * reg)) (c : cpu) : list Z := rs ≫= λ r, [get r.1 c; get r.2 c].

Lemma exec_stp r1 r2 off c a : get SP c = a → 0 ≤ a + off → a + off + 16 ≤ U64 →
  exec (Stp r1 r2 SP off) c = Ret (with_memory (store64 (a + off + 8) (get r2 c) (store64 (a + off) (get r1 c) (memory c))) c).
Proof.
  intros Ha H1 H2. cbn [Aarch64.exec]. rewrite Ha. unfold store, phys, direct. cbn [mbind outcome_bind memory with_memory].
  unfold add64, wrap64. rewrite (Z.mod_small (a + off)), (Z.mod_small (a + off + 8)) by lia. by destruct r2.
Qed.

Lemma exec_str r off c a : get SP c = a → 0 ≤ a + off < U64 →
  exec (Str r SP off) c = Ret (with_memory (store64 (a + off) (get r c) (memory c)) c).
Proof.
  intros Ha H1. cbn [Aarch64.exec]. rewrite Ha. unfold store, phys, direct. cbn [mbind outcome_bind].
  unfold add64, wrap64. by rewrite (Z.mod_small (a + off)) by lia.
Qed.

Lemma exec_ldr r off c a : get SP c = a → 0 ≤ a + off < U64 →
  exec (Ldr r SP off) c = Ret (set r (load64 (memory c) (a + off)) c).
Proof.
  intros Ha H1. cbn [Aarch64.exec]. rewrite Ha. unfold load, phys, direct. cbn [mbind outcome_bind].
  unfold add64, wrap64. by rewrite (Z.mod_small (a + off)) by lia.
Qed.

Lemma exec_ldp r1 r2 off c a : get SP c = a → 0 ≤ a + off → a + off + 16 ≤ U64 →
  exec (Ldp r1 r2 SP off) c = Ret (set r2 (load64 (memory c) (a + off + 8)) (set r1 (load64 (memory c) (a + off)) c)).
Proof.
  intros Ha H1 H2. cbn [Aarch64.exec]. rewrite Ha. unfold load, phys, direct. cbn [mbind outcome_bind].
  unfold add64, wrap64. by rewrite (Z.mod_small (a + off)), (Z.mod_small (a + off + 8)) by lia.
Qed.

Lemma get_with_memory r m c : get r (with_memory m c) = get r c.
Proof. by destruct r. Qed.

Lemma exec_stps rs off c a : get SP c = a → 0 ≤ a + off → a + off + 16 * len rs ≤ U64 →
  exec_block (stps off rs) c = Ret (with_memory (store_words (a + off) (values rs c) (memory c)) c).
Proof.
  unfold len. revert off c. induction rs as [|[r1 r2] rs IH]; intros off c Ha H1 H2; [by destruct c|].
  cbn [stps Aarch64.exec_block]. simpl length in H2. rewrite (exec_stp r1 r2 off c a) by (done || lia). cbn [mbind outcome_bind].
  rewrite IH by (rewrite ?get_with_memory; done || lia). f_equal.
  assert (∀ m, values rs (with_memory m c) = values rs c) as Hv.
  { intros m. unfold values. f_equal. }
  rewrite Hv. cbn [values mbind list_bind app fst snd store_words].
  replace (a + off + 8 + 8) with (a + (off + 16)) by lia. done.
Qed.

(** ** Saving *)
Definition kernel_mode (c : cpu) : Prop := length (xs c) = 31%nat ∧ sp_reg (pstate c) = SP_EL1.

Definition low_regs : list (reg * reg) :=
  [(X 0, X 1); (X 2, X 3); (X 4, X 5); (X 6, X 7); (X 8, X 9); (X 10, X 11); (X 12, X 13); (X 14, X 15); (X 16, X 17);
   (X 18, X 19); (X 20, X 21); (X 22, X 23); (X 24, X 25); (X 26, X 27); (X 28, X 29); (X 30, XZR)].

Lemma save_context_eq : save_context =
  [SubI SP SP TF_SIZE] ++ stps 0 low_regs ++ [Mrs (X 0) ELR_EL1; Mrs (X 1) SPSR_EL1; Mrs (X 2) SP_EL0] ++
  stps 256 [(X 0, X 1)] ++ [Str (X 2) SP 272; Mov (X 0) SP].
Proof. reflexivity. Qed.

Lemma low_values c : length (xs c) = 31%nat → values low_regs c = xs c ++ [0].
Proof.
  destruct c as [l s p v m]. cbn [xs]. intros Hl. do 31 (destruct l as [|? l]; [done|]). destruct l; [|done]. reflexivity.
Qed.

(** The state in which the vector calls the handler: the frame is on the stack, x0 points to it. *)
Definition entered (f : Z) (c : cpu) : cpu :=
  mkCpu (<[0%nat := f]> (<[2%nat := sys c SP_EL0]> (<[1%nat := sys c SPSR_EL1]> (<[0%nat := sys c ELR_EL1]> (xs c)))))
    (set_sysf SP_EL1 f (sys c)) (pstate c) (vs c)
    (store_words f (xs c ++ [0; sys c ELR_EL1; sys c SPSR_EL1; sys c SP_EL0]) (memory c)).

Lemma save_context_ok c a : kernel_mode c → sys c SP_EL1 = a + TF_SIZE → 0 ≤ a → a + TF_SIZE < U64 →
  exec_block save_context c = Ret (entered a c).
Proof.
  intros [Hl Hsp] Ha H0 H1. unfold TF_SIZE in *. rewrite save_context_eq.
  rewrite exec_block_app. cbn [Aarch64.exec_block Aarch64.exec mbind outcome_bind get set].
  rewrite Hsp, Ha. replace (sub64 (a + 288) TF_SIZE) with a by (unfold sub64, wrap64, TF_SIZE; rewrite Z.mod_small by lia; lia).
  set (c1 := set_sys SP_EL1 a c).
  assert (get SP c1 = a) as Hsp1 by (cbn [get c1 set_sys pstate sys]; rewrite Hsp; done).
  rewrite exec_block_app, (exec_stps low_regs 0 c1 a Hsp1) by (unfold len; simpl length; lia). rewrite low_values by done.
  cbn [mbind outcome_bind]. rewrite exec_block_app. cbn [Aarch64.exec_block Aarch64.exec mbind outcome_bind].
  set (c2 := set (X 2) _ _).
  assert (get SP c2 = a) as Hsp2 by exact Hsp1.
  rewrite exec_block_app, (exec_stps [(X 0, X 1)] 256 c2 a Hsp2) by (unfold len; simpl length; lia). cbn [mbind outcome_bind].
  cbn [Aarch64.exec_block]. rewrite (exec_str (X 2) 272 _ a) by (done || lia). cbn [mbind outcome_bind Aarch64.exec].
  rewrite !get_with_memory, Hsp2. f_equal. unfold entered.
  destruct c as [l s p v m]. cbn [xs sys pstate vs memory] in *.
  do 3 (destruct l as [|? l]; [done|]).
  cbn -[store64 store_words sp_reg app set_sysf]. unfold with_xs, with_memory, c1, set_sys. cbn [xs sys pstate vs memory].
  f_equal. set (ws := z :: z0 :: z1 :: l) in *.
  change (ws ++ [0; s ELR_EL1; s SPSR_EL1; s SP_EL0]) with (ws ++ [0] ++ [s ELR_EL1; s SPSR_EL1] ++ [s SP_EL0]).
  rewrite app_assoc, !store_words_app.
  assert (len (ws ++ [0]) = 32) as -> by (unfold len; rewrite length_app, Hl; done).
  rewrite Z.add_0_r. simpl store_words. by replace (a + 8 * 32 + 8 * len [s ELR_EL1; s SPSR_EL1]) with (a + 272) by (unfold len; simpl; lia).
Qed.

(** The memory the handler finds: the frame of the interrupted state, and nothing else changed. *)
Lemma entered_frame c a : kernel_mode c → Forall is_u64 (xs c) → is_u64 (sys c ELR_EL1) → is_u64 (sys c SPSR_EL1) →
  is_u64 (sys c SP_EL0) →
  frame_at (memory (entered a c)) a
    (mkFrame (xs c) 0 (sys c ELR_EL1) (sys c SPSR_EL1) (sys c SP_EL0) (load64 (memory c) (a + 280))) ∧
  ∀ y, y < a ∨ a + 280 ≤ y → memory (entered a c) y = memory c y.
Proof.
  intros [Hl _] Hx H1 H2 H3. unfold entered. cbn [memory]. split; [split; [done|]|].
  - assert (length (xs c ++ [0; sys c ELR_EL1; sys c SPSR_EL1; sys c SP_EL0]) = 35%nat) as Hw
      by (rewrite length_app; simpl; lia).
    change 36%nat with (35 + 1)%nat. rewrite load_words_app. unfold frame_words. cbn [x Trap.pad elr spsr sp_el0 pad2].
    rewrite <-Hw at 1. rewrite load_store_words.
    + rewrite <-app_assoc. do 2 f_equal. cbn [load_words app]. do 4 f_equal. f_equal.
      apply load64_ext. intros y Hy. apply store_words_out. unfold len. rewrite Hw. lia.
    + apply Forall_app. split; [done|]. repeat (apply Forall_cons; split; [first [done|by split]|]). by apply Forall_nil.
  - intros y Hy. apply store_words_out. unfold len. rewrite length_app. simpl. lia.
Qed.

(** ** Loading *)
Definition ldps (l : list (reg * reg * Z)) : list instr := (λ '(r1, r2, off), Ldp r1 r2 SP off) <$> l.
Definition loads (m : mem) (f : Z) (l : list (reg * reg * Z)) (c : cpu) : cpu :=
  fold_left (λ c '(r1, r2, off), set r2 (load64 m (f + off + 8)) (set r1 (load64 m (f + off)) c)) l c.

Lemma get_sp_set r v c : r ≠ SP → get SP (set r v c) = get SP c.
Proof. by destruct r. Qed.
Lemma memory_set r v c : memory (set r v c) = memory c.
Proof. by destruct r. Qed.

Lemma exec_ldps l c f : get SP c = f → Forall (λ '(r1, r2, off), r1 ≠ SP ∧ r2 ≠ SP ∧ 0 ≤ f + off ∧ f + off + 16 ≤ U64) l →
  exec_block (ldps l) c = Ret (loads (memory c) f l c).
Proof.
  intros Hf Hl. revert c Hf. induction Hl as [|[[r1 r2] off] l (H1 & H2 & H3 & H4) _ IH]; intros c Hf; [done|].
  cbn [ldps fmap list_fmap Aarch64.exec_block]. rewrite (exec_ldp r1 r2 off c f) by done. cbn [mbind outcome_bind].
  change ((λ '(r1, r2, off), Ldp r1 r2 SP off) <$> l) with (ldps l).
  rewrite IH by (by rewrite !get_sp_set). by rewrite !memory_set.
Qed.

Definition high_to_low : list (reg * reg * Z) :=
  [(X 30, XZR, 240); (X 28, X 29, 224); (X 26, X 27, 208); (X 24, X 25, 192); (X 22, X 23, 176); (X 20, X 21, 160);
   (X 18, X 19, 144); (X 16, X 17, 128); (X 14, X 15, 112); (X 12, X 13, 96); (X 10, X 11, 80); (X 8, X 9, 64);
   (X 6, X 7, 48); (X 4, X 5, 32); (X 2, X 3, 16); (X 0, X 1, 0)].

Lemma load_context_eq : load_context =
  [Mov SP (X 0); Ldp (X 0) (X 1) SP 256; Ldr (X 2) SP 272; Msr ELR_EL1 (X 0); Msr SPSR_EL1 (X 1); Msr SP_EL0 (X 2)] ++
  ldps high_to_low ++ [AddI SP SP TF_SIZE].
Proof. reflexivity. Qed.

(** The state of the frame [tf] at [f], before [eret] takes PSTATE and the program counter. *)
Definition loaded (f : Z) (tf : TrapFrame) (c : cpu) : cpu :=
  mkCpu (x tf)
    (set_sysf SP_EL1 (f + TF_SIZE) (set_sysf SP_EL0 (sp_el0 tf) (set_sysf SPSR_EL1 (spsr tf)
      (set_sysf ELR_EL1 (elr tf) (set_sysf SP_EL1 f (sys c))))))
    (pstate c) (vs c) (memory c).

Lemma frame_word m f tf i w : frame_at m f tf → frame_words tf !! i = Some w → load64 m (f + 8 * Z.of_nat i) = w.
Proof. intros [_ Hf] Hw. rewrite <-Hf in Hw. by apply load64_words in Hw. Qed.

Lemma with_xs_twice l l' c : with_xs l (with_xs l' c) = with_xs l c.
Proof. done. Qed.

Lemma loads_frame m f tf c : frame_at m f tf → length (xs c) = 31%nat → loads m f high_to_low c = with_xs (x tf) c.
Proof.
  intros Hf Hl. pose proof (proj1 Hf) as Hx.
  assert (load_words m f 31 = x tf) as Hw.
  { destruct Hf as [_ Hf]. change 36%nat with (31 + 5)%nat in Hf. rewrite load_words_app in Hf.
    apply app_inj_1 in Hf as [? _]; [done|]. by rewrite Hx. }
  rewrite <-Hw. destruct c as [l s p v mm]. cbn [xs] in Hl.
  do 31 (destruct l as [|? l]; [done|]). destruct l; [|done].
  cbn -[load64 Z.add]. rewrite !with_xs_twice. f_equal.
  repeat (apply (f_equal2 cons); [f_equal; lia|]). done.
Qed.

Lemma restore_sys l s p v m f e sp s0 : sp_reg p = SP_EL1 → (3 ≤ length l)%nat → default 0 (l !! 0%nat) = f →
  load64 m (f + 256) = e → load64 m (f + 264) = sp → load64 m (f + 272) = s0 → 0 ≤ f → f + TF_SIZE < U64 →
  exec_block [Mov SP (X 0); Ldp (X 0) (X 1) SP 256; Ldr (X 2) SP 272; Msr ELR_EL1 (X 0); Msr SPSR_EL1 (X 1); Msr SP_EL0 (X 2)]
    (mkCpu l s p v m) =
  Ret (mkCpu (<[2%nat := s0]> (<[1%nat := sp]> (<[0%nat := e]> l)))
    (set_sysf SP_EL0 s0 (set_sysf SPSR_EL1 sp (set_sysf ELR_EL1 e (set_sysf SP_EL1 f s)))) p v m).
Proof.
  intros Hsp Hl Hf He Hs Hs0 H0 H1. unfold TF_SIZE in H1. do 3 (destruct l as [|? l]; [simpl in Hl; lia|]). simpl in Hf. subst z.
  cbn [Aarch64.exec_block].
  assert (exec (Mov SP (X 0)) (mkCpu (f :: z0 :: z1 :: l) s p v m) = Ret (mkCpu (f :: z0 :: z1 :: l) (set_sysf SP_EL1 f s) p v m)) as ->.
  { cbn [Aarch64.exec set pstate]. by rewrite Hsp. }
  cbn [mbind outcome_bind].
  assert (set_sysf SP_EL1 f s SP_EL1 = f) as Hset by done.
  rewrite (exec_ldp (X 0) (X 1) 256 _ f) by (first [cbn [get sys pstate]; by rewrite Hsp|lia]). cbn [mbind outcome_bind memory].
  rewrite He, <-Z.add_assoc. change (256 + 8) with 264. rewrite Hs.
  unfold set. cbn [with_xs xs sys pstate vs memory insert list_insert].
  rewrite with_xs_twice. unfold with_xs. cbn [xs sys pstate vs memory].
  rewrite (exec_ldr (X 2) 272 _ f) by (first [cbn [get sys pstate]; by rewrite Hsp|lia]). cbn [mbind outcome_bind memory]. rewrite Hs0.
  reflexivity.
Qed.

Lemma load_context_ok c f tf : kernel_mode c → get (X 0) c = f → frame_at (memory c) f tf → 0 ≤ f → f + TF_SIZE < U64 →
  exec_block load_context c = Ret (loaded f tf c).
Proof.
  intros [Hl Hsp] Hx0 Hf H0 H1. rewrite load_context_eq, exec_block_app. destruct c as [l s p v m].
  cbn [xs pstate memory get] in *.
  assert (length (frame_words tf) = 36%nat) as Hfw by (unfold frame_words; rewrite length_app, (proj1 Hf); done).
  assert (frame_words tf = x tf ++ [Trap.pad tf; elr tf; spsr tf; sp_el0 tf; pad2 tf]) as Hw by done.
  rewrite (restore_sys l s p v m f (elr tf) (spsr tf) (sp_el0 tf)); [|done|lia|done|..|done|done].
  - cbn [mbind outcome_bind]. unfold TF_SIZE in H1. rewrite exec_block_app.
    set (c1 := mkCpu _ _ p v m). assert (get SP c1 = f) as Hsp1 by (cbn [c1 get sys pstate]; rewrite Hsp; done).
    rewrite (exec_ldps high_to_low c1 f Hsp1) by (repeat constructor; (done || lia)). cbn [mbind outcome_bind].
    change (memory c1) with m. rewrite (loads_frame m f tf c1 Hf) by (cbn [c1 xs]; by rewrite !length_insert).
    cbn [Aarch64.exec_block Aarch64.exec mbind outcome_bind]. unfold loaded. f_equal.
    assert (get SP (with_xs (x tf) c1) = f) as -> by exact Hsp1.
    unfold add64, wrap64. rewrite Z.mod_small by (unfold TF_SIZE; lia).
    unfold set, with_xs, set_sys. cbn [c1 xs sys pstate vs memory]. by rewrite Hsp.
  - apply (frame_word m f tf 32 _ Hf). rewrite Hw, lookup_app_r by (rewrite (proj1 Hf); lia). by rewrite (proj1 Hf).
  - apply (frame_word m f tf 33 _ Hf). rewrite Hw, lookup_app_r by (rewrite (proj1 Hf); lia). by rewrite (proj1 Hf).
  - apply (frame_word m f tf 34 _ Hf). rewrite Hw, lookup_app_r by (rewrite (proj1 Hf); lia). by rewrite (proj1 Hf).
Qed.
End frames.

(** ** Through a vector *)
Section vectors.
Context (org : Z) (sym : string → Z) (ext : string → cpu → outcome cpu).
Notation steps := (steps exception_S org sym ext direct).
Notation goto := (goto exception_S org).

(** The offsets at which interrupts and synchronous exceptions enter, from EL1 and from EL0, and the Rust
    function each calls. *)
Inductive route : Z → string → Prop :=
| sync_el1 : route 0x200 "sync_handler"
| irq_el1 : route 0x280 "irq_handler"
| sync_el0 : route 0x400 "sync_handler"
| irq_el0 : route 0x480 "irq_handler".

(** A state that can be interrupted at [a]: words fit their registers, and the kernel's stack has room for a
    frame, which will be at [f]. *)
Record interruptible (a f : Z) (c : cpu) : Prop := {
  in_xs : length (xs c) = 31%nat;
  in_words : Forall is_u64 (xs c);
  in_pc : is_u64 a;
  in_pstate : is_u64 (pstate c);
  in_sp_el0 : is_u64 (sys c SP_EL0);
  in_stack : sys c SP_EL1 = f + TF_SIZE;
  in_room : 0 ≤ f ∧ f + TF_SIZE < U64
}.

(** What the vectors ask of a handler: it returns at EL1 on the kernel's stack pointer, with the address of
    a frame whose SPSR leads to EL1 or EL0 in AArch64 state. *)
Record gives (c : cpu) (f : Z) (tf : TrapFrame) : Prop := {
  gv_xs : length (xs c) = 31%nat;
  gv_mode : el (pstate c) = 1 ∧ sp_reg (pstate c) = SP_EL1;
  gv_x0 : get (X 0) c = f;
  gv_frame : frame_at (memory c) f tf;
  gv_room : 0 ≤ f ∧ f + TF_SIZE < U64;
  gv_spsr : el (spsr tf) ≤ 1 ∧ Z.testbit (spsr tf) 4 = false
}.

(** The state the frame [tf] at [f] stands for, on what the handler has left of the rest. *)
Definition resumed (f : Z) (tf : TrapFrame) (c : cpu) : cpu := with_pstate (spsr tf) (loaded f tf c).

Definition masked (p : Z) : Z := Z.lor (Z.land p 0xF0000000) 0x3C5.

Lemma masked_mode p : el (masked p) = 1 ∧ sp_reg (masked p) = SP_EL1.
Proof.
  assert (∀ i, 0 ≤ i < 28 → Z.testbit (masked p) i = Z.testbit 0x3C5 i) as Hb.
  { intros i Hi. unfold masked. rewrite Z.lor_spec, Z.land_spec.
    change 0xF0000000 with (Z.shiftl 15 28). by rewrite Z.shiftl_spec_low, andb_false_r by lia. }
  assert (el (masked p) = 1) as He.
  { unfold el. apply Z.bits_inj'. intros i Hi. rewrite Z.land_spec, Z.shiftr_spec by done.
    destruct (decide (i < 2)) as [Hlt|].
    - rewrite Hb by lia. assert (i = 0 ∨ i = 1) as [-> | ->] by lia; done.
    - change 3 with (Z.ones 2). rewrite Z.ones_spec_high, andb_false_r by lia. symmetry.
      apply Z.bits_above_log2; simpl; lia. }
  split; [done|]. unfold sp_reg. rewrite He.
  assert (sp_sel (masked p) = 1) as ->; [|done].
  unfold sp_sel. apply Z.bits_inj'. intros i Hi. rewrite Z.land_spec.
  destruct (decide (i = 0)) as [->|]; [by rewrite Hb by lia|].
  change 1 with (Z.ones 1). by rewrite Z.ones_spec_high, andb_false_r by lia.
Qed.

(** Where a vector's code is. *)
Record vector_code (k : Z) (h : string) : Prop := {
  vc_save : block_at exception_S k save_context = true;
  vc_call : fetch exception_S (k + 92) = Some (Bl h);
  vc_extern : label exception_S h = None;
  vc_load : block_at exception_S (k + 96) load_context = true;
  vc_eret : fetch exception_S (k + 188) = Some Eret
}.

Lemma irq_code : vector_code 2120 "irq_handler".
Proof. by split; vm_compute. Qed.
Lemma sync_code : vector_code 2312 "sync_handler".
Proof. by split; vm_compute. Qed.

(** Each route leads to the vector that calls its handler. *)
Lemma route_code vec h c : route vec h → ∃ k, vector_code k h ∧ steps (At vec, c) (At k, c).
Proof.
  destruct 1.
  all: first [exists 2120; split; [apply irq_code|]; by do 2 (eapply steps_next; [by vm_compute|]); apply rtc_refl
             |exists 2312; split; [apply sync_code|]; by do 2 (eapply steps_next; [by vm_compute|]); apply rtc_refl].
Qed.

(** [load_context] and [eret] take the state of the frame. *)
Lemma leaves k c f tf : block_at exception_S k load_context = true → fetch exception_S (k + 92) = Some Eret → gives c f tf →
  steps (At k, c) (goto (elr tf), resumed f tf c).
Proof.
  intros Hload Heret [Hl [Hel Hm] Hx0 Hf [H2 H3] [Hs1 Hs2]].
  eapply steps_trans; [eapply block_steps; [exact Hload|by apply (load_context_ok _ _ _ c f tf)]|].
  change (4 * len load_context) with 92. apply steps_one. unfold step. cbn [fst snd]. rewrite Heret. cbn [pstate loaded]. rewrite Hel.
  assert (legal_return 1 (loaded f tf c) = true) as ->; [|done].
  unfold legal_return. change (sys (loaded f tf c) (spsr_of 1)) with (spsr tf). rewrite Hs2.
  by rewrite (bool_decide_eq_true_2 (el (spsr tf) ≤ 1)) by done.
Qed.

Lemma vector_steps k h c f c2 f' tf : vector_code k h → kernel_mode c → sys c SP_EL1 = f + TF_SIZE → 0 ≤ f → f + TF_SIZE < U64 →
  ext h (set (X 30) (org + (k + 92) + 4) (entered f c)) = Ret c2 → gives c2 f' tf →
  steps (At k, c) (goto (elr tf), resumed f' tf c2).
Proof.
  intros [Hsave Hcall Hext Hload Heret] Hk Hsp H0 H1 He Hg.
  eapply steps_trans; [eapply block_steps; [exact Hsave|by apply save_context_ok]|].
  change (k + 4 * len save_context) with (k + 92).
  eapply steps_next; [unfold step; cbn [fst snd]; rewrite Hcall, Hext, He; reflexivity|].
  replace (k + 92 + 4) with (k + 96) by lia.
  apply leaves; [done| |done]. by replace (k + 96 + 92) with (k + 188) by lia.
Qed.
(** ** What the vectors do *)

(** From [s] the program comes to a call of the Rust function [h], which starts in state [c1]. *)
Definition calls (s : loc * cpu) (h : string) (c1 : cpu) : Prop := ∃ o c0,
  steps s (At o, c0) ∧ fetch exception_S o = Some (Bl h) ∧ label exception_S h = None ∧
  c1 = set (X 30) (org + o + 4) c0.

(** The exception entry of [c] at [a], up to the call. *)
Lemma exception_calls vec h a f c : route vec h → interruptible a f c → ∃ c1,
  calls (take_exception a vec c) h c1 ∧
  frame_at (memory c1) f (frame_of a c) ∧ get (X 0) c1 = f ∧ sys c1 SP_EL1 = f ∧ pstate c1 = masked (pstate c) ∧
  vs c1 = vs c ∧ length (xs c1) = 31%nat ∧ (∀ y, y < f ∨ f + TF_SIZE ≤ y → memory c1 y = memory c y) ∧
  ∀ c2 f' tf, ext h c1 = Ret c2 → gives c2 f' tf → steps (take_exception a vec c) (goto (elr tf), resumed f' tf c2).
Proof.
  intros Hr [Hl Hw Hpc Hps Hsp0 Hsp [H0 H1]]. destruct (masked_mode (pstate c)) as [Hel Hm].
  set (c0 := (take_exception a 0 c).2).
  assert (kernel_mode c0) as Hk by (split; [done|exact Hm]).
  destruct (route_code vec h c0 Hr) as (k & Hcode & Hto).
  exists (set (X 30) (org + (k + 92) + 4) (entered f c0)).
  destruct (entered_frame c0 f Hk) as [Hf Hout]; [done..|].
  split.
  { exists (k + 92), (entered f c0). split; [|split; [apply Hcode|split; [apply Hcode|done]]].
    eapply steps_trans; [exact Hto|]. change (k + 92) with (k + 4 * len save_context).
    eapply block_steps; [apply Hcode|by apply save_context_ok]. }
  split.
  { unfold frame_of. rewrite Hsp. unfold TF_SIZE. replace (f + 288 - 8) with (f + 280) by lia. exact Hf. }
  split.
  { unfold get, set, entered, with_xs. cbn [xs]. rewrite list_lookup_insert_ne by done.
    rewrite list_lookup_insert_eq; [done|]. rewrite !length_insert. change (xs c0) with (xs c). lia. }
  do 3 (split; [done|]). split; [by cbn [set with_xs xs entered]; rewrite !length_insert|]. split.
  { intros y Hy. apply Hout. unfold TF_SIZE in Hy. lia. }
  intros c2 f' tf He Hg. eapply steps_trans; [|by eapply vector_steps].
  exact Hto.
Qed.

Lemma exception_called vec h a f c : route vec h → interruptible a f c → ∃ c1,
  frame_at (memory c1) f (frame_of a c) ∧ get (X 0) c1 = f ∧ sys c1 SP_EL1 = f ∧ pstate c1 = masked (pstate c) ∧
  vs c1 = vs c ∧ length (xs c1) = 31%nat ∧ (∀ y, y < f ∨ f + TF_SIZE ≤ y → memory c1 y = memory c y) ∧
  ∀ c2 f' tf, ext h c1 = Ret c2 → gives c2 f' tf → steps (take_exception a vec c) (goto (elr tf), resumed f' tf c2).
Proof.
  intros Hr Hi. destruct (exception_calls vec h a f c Hr Hi) as (c1 & _ & H). by exists c1.
Qed.

(** C9. What an exception does, instruction by instruction, whether an interrupt or a system call, from EL1 or
    EL0: the handler is called with interrupts masked and the address of a [TrapFrame] that holds the
    31 registers, the return address, the saved PSTATE and SP_EL0 of the interrupted state, stored below the
    kernel's stack pointer with nothing else of memory changed; and whichever frame it returns, the core leaves
    with exactly the registers, PSTATE, SP_EL0 and address of that frame, its stack pointer above it. *)
Theorem exception_saves_and_resumes vec h a f c : route vec h → interruptible a f c → ∃ c1,
  frame_at (memory c1) f (frame_of a c) ∧ get (X 0) c1 = f ∧ sys c1 SP_EL1 = f ∧ pstate c1 = masked (pstate c) ∧
  length (xs c1) = 31%nat ∧ (∀ y, y < f ∨ f + TF_SIZE ≤ y → memory c1 y = memory c y) ∧
  ∀ c2 f' tf, ext h c1 = Ret c2 → gives c2 f' tf → ∃ c3,
    steps (take_exception a vec c) (goto (elr tf), c3) ∧ xs c3 = x tf ∧ pstate c3 = spsr tf ∧
    sys c3 SP_EL1 = f' + TF_SIZE ∧ sys c3 SP_EL0 = sp_el0 tf ∧ memory c3 = memory c2.
Proof.
  intros Hr Hi. destruct (exception_called vec h a f c Hr Hi) as (c1 & Hf & Hx0 & Hsp & Hp & _ & Hl & Hm & Hgo).
  exists c1. do 6 (split; [done|]). intros c2 f' tf He Hg. exists (resumed f' tf c2). by split; [apply Hgo|].
Qed.

(** A context switch restores a state whole: code interrupted at [a] in state [c], whose frame is still in
    memory when a handler, on any core and for whatever exception, returns its address, continues at [a] with
    every general register, PSTATE and both stack pointers as they were. *)
Theorem interrupted_state_resumes vec h a f c vec' h' a' f' d : route vec h → interruptible a f c →
  el (pstate c) ≤ 1 → Z.testbit (pstate c) 4 = false → route vec' h' → interruptible a' f' d →
  ∃ c1 d1, calls (take_exception a vec c) h c1 ∧ frame_at (memory c1) f (frame_of a c) ∧ get (X 0) c1 = f ∧
    calls (take_exception a' vec' d) h' d1 ∧ get (X 0) d1 = f' ∧
    ∀ d2, ext h' d1 = Ret d2 → length (xs d2) = 31%nat → el (pstate d2) = 1 → sp_reg (pstate d2) = SP_EL1 →
      get (X 0) d2 = f → load_words (memory d2) f 36 = load_words (memory c1) f 36 → ∃ d3,
        steps (take_exception a' vec' d) (goto a, d3) ∧ xs d3 = xs c ∧ pstate d3 = pstate c ∧
        sys d3 SP_EL1 = sys c SP_EL1 ∧ sys d3 SP_EL0 = sys c SP_EL0.
Proof.
  intros Hr Hi Hel Hb Hr' Hi'.
  destruct (exception_calls vec h a f c Hr Hi) as (c1 & Hc & Hf & Hx0 & _).
  destruct (exception_calls vec' h' a' f' d Hr' Hi') as (d1 & Hd & _ & Hx0' & _ & _ & _ & _ & _ & Hgo).
  exists c1, d1. do 5 (split; [done|]). intros d2 He Hl He1 Hm Hd0 Hmem.
  exists (resumed f (frame_of a c) d2). split.
  { apply (Hgo d2 f (frame_of a c)); [done|]. split; [done|done|done| |apply Hi|done].
    split; [apply Hf|]. by rewrite Hmem, (proj2 Hf). }
  by rewrite (in_stack _ _ _ Hi).
Qed.
End vectors.

(** ** Processes and system calls *)
Section kernel.
Context (org : Z) (sym : string → Z) (ext : string → cpu → outcome cpu).
Notation steps := (steps exception_S org sym ext direct).
Notation goto := (goto exception_S org).

(** C11. A process that has never run starts as it was created: when a handler returns the context of
    [init_context], the core continues at the process's entry with all registers 0, at EL1 on its own stack
    pointer with interrupts enabled, the stack 16-byte aligned and at most 15 bytes below its top. *)
Theorem fresh_process_starts vec h a f c entry top : route vec h → interruptible a f c → is_u64 entry →
  TRAP_FRAME_SIZE + 15 ≤ top < U64 →
  ∃ c1, get (X 0) c1 = f ∧ ∀ c2, ext h c1 = Ret c2 → length (xs c2) = 31%nat → el (pstate c2) = 1 → sp_reg (pstate c2) = SP_EL1 →
    get (X 0) c2 = (init_context entry top).1 → frame_at (memory c2) (init_context entry top).1 (init_context entry top).2 →
    ∃ c3, steps (take_exception a vec c) (goto entry, c3) ∧ xs c3 = replicate 31 0 ∧
      el (pstate c3) = 1 ∧ sp_reg (pstate c3) = SP_EL1 ∧ Z.testbit (pstate c3) 7 = false ∧
      sys c3 SP_EL1 mod 16 = 0 ∧ top - 15 ≤ sys c3 SP_EL1 ≤ top.
Proof.
  intros Hr Hi He Ht. destruct (exception_called org sym ext vec h a f c Hr Hi) as (c1 & _ & Hx0 & _ & _ & _ & _ & _ & Hgo).
  exists c1. split; [done|]. intros c2 Hc Hl Hel Hm Hd0 Hf. set (g := (init_context entry top).1) in *.
  assert (0 ≤ g ∧ g + TF_SIZE ≤ top ∧ top - 15 ≤ g + TF_SIZE ∧ g mod 16 = 0) as (H0 & H1 & H2 & H3).
  { unfold g, init_context. cbn [fst]. rewrite TRAP_FRAME_SIZE_eq in *.
    assert (sub64 top 288 = top - 288) as -> by (unfold sub64, wrap64; rewrite Z.mod_small; lia).
    assert (is_u64 (top - 288)) as Hu by (unfold is_u64; lia).
    change 15 with (2 ^ 4 - 1). rewrite land_not64_pow2 by (done || lia). change (2 ^ 4) with 16. unfold TF_SIZE.
    assert (top - 288 - (top - 288) mod 16 = 16 * ((top - 288) / 16)) as Hd
      by (pose proof (Z.div_mod (top - 288) 16); lia).
    pose proof (Z.mod_pos_bound (top - 288) 16). rewrite Hd at 4. rewrite Z.mul_comm, Z.mod_mul by done. lia. }
  exists (resumed g (TrapFrame_new entry) c2). split.
  { apply (Hgo c2 g (TrapFrame_new entry)); [done|]. split; [done|done|done|exact Hf|lia|]. by split; vm_compute. }
  split; [done|]. split; [by vm_compute|]. split; [by vm_compute|]. split; [by vm_compute|].
  change (sys (resumed g (TrapFrame_new entry) c2) SP_EL1) with (g + TF_SIZE). unfold TF_SIZE in *.
  split; [|lia]. rewrite Z.add_mod, H3 by lia. done.
Qed.

(** C12. A system call, from the [svc] instruction to the instruction after it, with the vector's code around the
    handler's: the vector calls the handler with the caller's whole state in the frame, and when that has run
    the caller continues with the result of the call in x0, and x1 to x30, PSTATE and both stack
    pointers as they were.  (The vector registers are the caller's own to save: [vector_registers_lost].) *)
Theorem svc_returns {W H} `{HW : Hardware W, HD : Dma W, HC : Clock W, HK : KernelHeap H,
    HA : AddressSpace} (b : board) (fuel : nat) (n : Z) esr far (s s' : kernel W H) tf' vec a f c :
  vec = 0x200 ∨ vec = 0x400 → interruptible a f c → el (pstate c) ≤ 1 → Z.testbit (pstate c) 4 = false →
  ∃ c1, calls org sym ext (take_exception a vec c) "sync_handler" c1 ∧ get (X 0) c1 = f ∧ frame_at (memory c1) f (frame_of a c) ∧
    ∀ c2, sync_handler b fuel n esr far (frame_of a c) s = Ret (tf', s') → ext "sync_handler" c1 = Ret c2 →
      length (xs c2) = 31%nat → el (pstate c2) = 1 → sp_reg (pstate c2) = SP_EL1 → get (X 0) c2 = f → frame_at (memory c2) f tf' →
      ∃ v c3, dispatch b fuel n (xs c !!! 8%nat) (xs c !!! 0%nat) (xs c !!! 1%nat) (xs c !!! 2%nat) (xs c !!! 3%nat) s = Ret (v, s') ∧
        steps (take_exception a vec c) (goto a, c3) ∧ xs c3 = <[0%nat := v]> (xs c) ∧ pstate c3 = pstate c ∧
        sys c3 SP_EL1 = sys c SP_EL1 ∧ sys c3 SP_EL0 = sys c SP_EL0.
Proof.
  intros Hv Hi Hel Hb. assert (route vec "sync_handler") as Hr by (destruct Hv as [-> | ->]; constructor).
  destruct (exception_calls org sym ext vec _ a f c Hr Hi) as (c1 & Hc1 & Hf & Hx0 & _ & _ & _ & _ & _ & Hgo).
  exists c1. do 3 (split; [done|]). intros c2 Hs He Hl Hel2 Hm Hx2 Hf2.
  apply sync_handler_inv in Hs as (_ & k & a0 & a1 & a2 & a3 & v & Hk & H0 & H1 & H2 & H3 & Hd & ->).
  cbn [frame_of x] in *. exists v. exists (resumed f (mkFrame (<[0%nat := v]> (xs c)) 0 a (pstate c) (sys c SP_EL0) (pad2 (frame_of a c))) c2).
  assert (∀ i r, aget (xs c) i = Ret r → xs c !!! Z.to_nat i = r) as Hget.
  { intros i r [_ Hr']%aget_ret. by apply list_lookup_total_correct. }
  apply Hget in Hk, H0, H1, H2, H3. change (Z.to_nat 8) with 8%nat in Hk. change (Z.to_nat 0) with 0%nat in H0.
  change (Z.to_nat 1) with 1%nat in H1. change (Z.to_nat 2) with 2%nat in H2. change (Z.to_nat 3) with 3%nat in H3.
  split; [by rewrite Hk, H0, H1, H2, H3|].
  split.
  { apply (Hgo c2 f (mkFrame (<[0%nat := v]> (xs c)) 0 a (pstate c) (sys c SP_EL0) (pad2 (frame_of a c)))); [done|].
    split; [done|done|done|exact Hf2|apply Hi|done]. }
  by rewrite (in_stack _ _ _ Hi).
Qed.

End kernel.

(** The frame has no room for the vector registers, and the vectors do not save them: what the compiled code of
    a handler leaves there, the interrupted code finds. *)
Definition uses_v0 (v : Z) (h : string) (c : cpu) : outcome cpu :=
  Ret (mkCpu (xs c) (sys c) (pstate c) (<[0%nat := v]> (vs c)) (memory c)).

Theorem vector_registers_lost org sym v vec h a f c : route vec h → interruptible a f c →
  el (pstate c) ≤ 1 → Z.testbit (pstate c) 4 = false → ∃ c3,
  steps exception_S org sym (uses_v0 v) direct (take_exception a vec c) (goto exception_S org a, c3) ∧
  xs c3 = xs c ∧ pstate c3 = pstate c ∧ sys c3 SP_EL1 = sys c SP_EL1 ∧ vs c3 = <[0%nat := v]> (vs c).
Proof.
  intros Hr Hi Hel Hb.
  destruct (exception_called org sym (uses_v0 v) vec h a f c Hr Hi) as (c1 & Hf & Hx0 & _ & Hp & Hvs & Hl & _ & Hgo).
  destruct (masked_mode (pstate c)) as [He Hm].
  eexists (resumed f (frame_of a c) _). split.
  { apply (Hgo _ f (frame_of a c)); [done|]. split; cbn [xs pstate get memory]; rewrite ?Hp; [done|done|done|done|apply Hi|done]. }
  cbn [resumed with_pstate loaded xs pstate sys vs frame_of]. rewrite Hvs. split_and!; try done.
  by rewrite (in_stack _ _ _ Hi).
Qed.

(** ** Entry without an exception *)

(** [restore_context] leaves as the vectors do, with the frame it is given. *)
Lemma restore_context_ok org sym ext c f tf : gives c f tf →
  steps exception_S org sym ext direct (At 2504, c) (goto exception_S org (elr tf), resumed f tf c).
Proof.
  intros Hg. apply leaves; [by vm_compute|by vm_compute|done].
Qed.

(** [start_first] jumps to the entry in x0 on the stack in x1 and changes nothing else. *)
Lemma start_first_ok org sym ext c :
  steps exception_S org sym ext direct (At 2600, c)
    (goto exception_S org (get (X 0) c), set_sys (sp_reg (pstate c)) (get (X 1) c) c).
Proof.
  eapply steps_next; [by vm_compute|]. apply steps_one. reflexivity.
Qed.

Lemma entry_labels : label exception_S "restore_context" = Some 2504 ∧ label exception_S "start_first" = Some 2600.
Proof. by vm_compute. Qed.

(** ** Concrete runs *)

(** A handler that writes the frame [tf] to [f] and returns its address. *)
Definition answers (f : Z) (tf : TrapFrame) (h : string) (c : cpu) : outcome cpu :=
  Ret (mkCpu (f :: replicate 30 0) (sys c) 0x3C5 (vs c) (store_words f (frame_words tf) (memory c))).

Lemma answers_frame f tf m : length (x tf) = 31%nat → Forall is_u64 (frame_words tf) →
  frame_at (store_words f (frame_words tf) m) f tf.
Proof.
  intros Hl Hu. split; [done|]. replace 36%nat with (length (frame_words tf)) by (unfold frame_words; rewrite length_app, Hl; done).
  by apply load_store_words.
Qed.

(** A process about to call the kernel, its stack pointer at 0x90120; and a core elsewhere. *)
Definition caller : cpu :=
  mkCpu (x (call_frame 3 1 0x2000 3)) (λ r, if decide (r = SP_EL1) then 0x90120 else 0) 0x5 (replicate 32 7) (λ _, 0).
Definition other : cpu :=
  mkCpu (replicate 31 9) (λ r, if decide (r = SP_EL1) then 0xa0120 else 0) 0x60000005 (replicate 32 8) (λ _, 1).

Lemma caller_interruptible : interruptible 0x80000 0x90000 caller.
Proof. split; [reflexivity| |done..]. repeat (apply Forall_cons; split; [done|]). by apply Forall_nil. Qed.
Lemma other_interruptible : interruptible 0x70000 0xa0000 other.
Proof. split; [reflexivity| |done..]. repeat (apply Forall_cons; split; [done|]). by apply Forall_nil. Qed.

Lemma caller_frame : frame_of 0x80000 caller = call_frame 3 1 0x2000 3.
Proof. by vm_compute. Qed.

Definition demo_return (tf : TrapFrame) : string → cpu → outcome cpu := answers 0xb0000 tf.

Lemma exception_saves_and_resumes_witness : ∃ c3,
  steps exception_S 0 (λ _, 0) (demo_return (TrapFrame_new 0x40000)) direct (take_exception 0x80000 0x280 caller)
    (goto exception_S 0 0x40000, c3) ∧ xs c3 = replicate 31 0 ∧ sys c3 SP_EL1 = 0xb0120.
Proof.
  destruct (exception_saves_and_resumes 0 (λ _, 0) (demo_return (TrapFrame_new 0x40000)) 0x280 "irq_handler" 0x80000 0x90000 caller
    irq_el1 caller_interruptible) as (c1 & Hf & Hx0 & Hsp & Hp & Hl & Hm & Hgo).
  destruct (Hgo _ 0xb0000 (TrapFrame_new 0x40000) eq_refl) as (c3 & Hs & Hx & _ & Hsp3 & _).
  - split; [done|done|done| |done|done]. apply answers_frame; [done|]. by apply words_u64; vm_compute.
  - by exists c3.
Defined.

Lemma interrupted_state_resumes_witness : ∃ c3,
  steps exception_S 0 (λ _, 0) (answers 0x90000 (frame_of 0x80000 caller)) direct (take_exception 0x70000 0x480 other)
    (goto exception_S 0 0x80000, c3) ∧ xs c3 = xs caller ∧ sys c3 SP_EL1 = 0x90120.
Proof.
  destruct (interrupted_state_resumes 0 (λ _, 0) (answers 0x90000 (frame_of 0x80000 caller)) 0x200 "sync_handler" 0x80000 0x90000 caller
    0x480 "irq_handler" 0x70000 0xa0000 other sync_el1 caller_interruptible) as (c1 & d1 & _ & Hf & Hx0 & _ & Hx1 & Hgo);
    [by vm_compute|done|constructor|apply other_interruptible|].
  destruct (Hgo _ eq_refl) as (d3 & Hs & Hx & Hp & Hsp & _); [done..| |by exists d3].
  rewrite (proj2 Hf). apply answers_frame; [done|]. apply words_u64. by vm_compute.
Defined.

Lemma fresh_process_starts_witness : ∃ c3,
  steps exception_S 0 (λ _, 0) (answers 0x9fee0 (TrapFrame_new 0x40000)) direct (take_exception 0x80000 0x280 caller)
    (goto exception_S 0 0x40000, c3) ∧ xs c3 = replicate 31 0 ∧ sys c3 SP_EL1 mod 16 = 0.
Proof.
  destruct (fresh_process_starts 0 (λ _, 0) (answers 0x9fee0 (TrapFrame_new 0x40000)) 0x280 "irq_handler" 0x80000 0x90000 caller
    0x40000 0xa0008 irq_el1 caller_interruptible) as (c1 & Hx0 & Hgo); [done|done|].
  destruct (Hgo _ eq_refl) as (c3 & Hs & Hx & _ & _ & _ & Ha & _); [done|done|done|by vm_compute| |by exists c3].
  apply answers_frame; [done|]. by apply words_u64; vm_compute.
Defined.

(** [write(1, 0x2000, 3)] on the kernel of [Syscall]. *)
#[local] Existing Instance demo_space.
Definition demo_reply : outcome (TrapFrame * kernel demo_dev bump) :=
  sync_handler Qemu 1 0 SVC_ESR 0 (call_frame 3 1 0x2000 3) demo_kernel.
Definition reply_frame : TrapFrame := match demo_reply with Ret (tf, _) => tf | _ => TrapFrame_new 0 end.

Lemma svc_returns_witness : ∃ v c3,
  steps exception_S 0 (λ _, 0) (answers 0x90000 reply_frame) direct (take_exception 0x80000 0x200 caller)
    (goto exception_S 0 0x80000, c3) ∧ xs c3 = <[0%nat := v]> (xs caller) ∧ sys c3 SP_EL1 = 0x90120.
Proof.
  destruct demo_reply as [[tf s']| | |] eqn:Hd; [|exfalso; vm_compute in Hd; discriminate..].
  assert (reply_frame = tf) as Ht by (unfold reply_frame; by rewrite Hd).
  destruct (svc_returns 0 (λ _, 0) (answers 0x90000 reply_frame) Qemu 1 0 SVC_ESR 0 demo_kernel s' tf 0x200 0x80000 0x90000 caller
    (or_introl eq_refl) caller_interruptible) as (c1 & _ & Hx0 & Hf & Hgo); [by vm_compute|done|].
  rewrite caller_frame in Hgo. fold demo_reply in Hgo.
  specialize (Hgo _ Hd eq_refl eq_refl eq_refl eq_refl eq_refl).
  destruct Hgo as (v & c3 & _ & Hs & Hx & _ & Hsp & _); [|exists v, c3; exact (conj Hs (conj Hx Hsp))].
  rewrite <-Ht. apply answers_frame; [by vm_compute|]. apply words_u64. by vm_compute.
Defined.
