(* ===== verification/Preempt.v ===== *)
(** * Preemption, from the interrupt to the registers

    The scheduler of [Scheduler] passes frames by address, and the vectors of [Vectors] build them and resume from
    them.  Shown: a process that is preempted on one core goes on, on whichever core the run queue gives it, at
    the instruction it was interrupted at and with every register as it was. *)
From S2P Require Import Prelude Memory Trap Smp Process Scheduler Syscall.
From S2P Require Import Aarch64 Vectors.
Local Open Scope Z_scope.

Section preempt.
Context (stacks user_root : Z).
Context (org : Z) (sym : string → Z) (ext : string → cpu → outcome cpu).
Notation steps := (steps exception_S org sym ext direct).
Notation goto := (goto exception_S org).

(** C10. Preemption is transparent down to the registers.  A core that runs the process of slot [i] in state [c] is
    interrupted at [a] while others wait: the vector comes to the call of [irq_handler] with the address [f] in x0
    and the whole state (general registers, return address, PSTATE, SP_EL0) in the frame there, the address the
    scheduler is given.  After as many further interrupts, on any cores, as there were others waiting, the next
    interrupt, on a core in any state [d], makes the scheduler return that address; and when the handler called
    there returns it with the frame's words as they were, the core goes on at [a] with the general registers, PSTATE
    and both stack pointers of [c]. *)
Theorem process_resumes s l i n n' c a f d a' f' vec vec' :
  reachable_quiet stacks user_root s → 0 ≤ n < MAX_CPUS → CURRENT s !! Z.to_nat n = Some i → i ≠ INVALID_IDX →
  S (length l) = length (queue (table s)) → on_cpus ((n', f') :: l) →
  route vec "irq_handler" → interruptible a f c → el (pstate c) ≤ 1 → Z.testbit (pstate c) 4 = false →
  route vec' "irq_handler" → interruptible a' f' d →
  returns (r ← schedule_from_irq n f s; r ← interrupts l r.2; schedule_from_irq n' f' r.2) (λ '(next, _, s'),
    CURRENT s' !! Z.to_nat n' = Some i ∧ ∃ c1 d1,
      calls org sym ext (take_exception a vec c) "irq_handler" c1 ∧
      get (X 0) c1 = f ∧ frame_at (memory c1) f (frame_of a c) ∧
      calls org sym ext (take_exception a' vec' d) "irq_handler" d1 ∧ get (X 0) d1 = f' ∧
      ∀ d2, ext "irq_handler" d1 = Ret d2 → length (xs d2) = 31%nat → el (pstate d2) = 1 → sp_reg (pstate d2) = SP_EL1 →
        get (X 0) d2 = next → load_words (memory d2) f 36 = load_words (memory c1) f 36 → ∃ d3,
          steps (take_exception a' vec' d) (goto a, d3) ∧ xs d3 = xs c ∧ pstate d3 = pstate c ∧
          sys d3 SP_EL1 = sys c SP_EL1 ∧ sys d3 SP_EL0 = sys c SP_EL0).
Proof.
  intros Hs Hn Hi Hne Hl Hon Hr Hc Hel Hb Hr' Hd.
  eapply returns_mono; [by apply (preempted_resumes stacks user_root s l i n f n' f')|].
  intros [[next root] s'] [Hcur ->]. split; [done|].
  destruct (interrupted_state_resumes org sym ext vec _ a f c vec' _ a' f' d Hr Hc Hel Hb Hr' Hd)
    as (c1 & d1 & Hcc & Hf & Hx0 & Hcd & Hx0' & Hgo).
  by exists c1, d1.
Qed.
End preempt.

Lemma process_resumes_witness :
  returns (r ← schedule_from_irq 0 0x90000 Scheduler.demo; r ← interrupts [(1, 0x6000)] r.2; schedule_from_irq 1 0xa0000 r.2)
    (λ '(next, _, s'), next = 0x90000 ∧ ∃ d3,
      steps exception_S 0 (λ _, 0) (answers 0x90000 (frame_of 0x80000 caller)) direct (take_exception 0x70000 0x280 other)
        (goto exception_S 0 0x80000, d3) ∧ xs d3 = xs caller ∧ sys d3 SP_EL1 = 0x90120).
Proof.
  eapply returns_mono; [apply (returns_conj _ (λ r, r.1.1 = 0x90000)); [|apply (process_resumes demo_stacks demo_root 0 (λ _, 0) (answers 0x90000 (frame_of 0x80000 caller))
    Scheduler.demo [(1, 0x6000)] 2 0 1 caller 0x80000 0x90000 other 0x70000 0xa0000 0x480 0x280)]|].
  - vm_compute. reflexivity.
  - apply demo_reachable.
  - done.
  - vm_compute. reflexivity.
  - done.
  - vm_compute. reflexivity.
  - repeat constructor; vm_compute; try reflexivity; discriminate.
  - constructor.
  - apply caller_interruptible.
  - by vm_compute.
  - done.
  - constructor.
  - apply other_interruptible.
  - intros [[next root] s'] [Hn [_ (c1 & d1 & _ & _ & Hf & _ & _ & Hgo)]]. split; [exact Hn|]. simpl in Hn.
    destruct (Hgo _ eq_refl) as (d3 & Hs & Hx & _ & Hsp & _); [done|done|done|by rewrite Hn| |by exists d3].
    rewrite (proj2 Hf). apply answers_frame; [done|]. apply words_u64. by vm_compute.
Defined.
