(* ===== verification/BootAsm.v ===== *)
(** * From reset to Rust

    [src/arch/aarch64/boot.S], instruction by instruction, at the addresses [src/linker.ld] gives it: [_start]
    on the first core, [secondary_start] on the others, and [boot_enable_mmu], with which both turn the MMU on.
    A numeric label is named after the line it stands on.

    Shown: the boot tables map exactly the first GiB and the RP1 window, in both halves; the first core
    reaches [kernel_main] at EL1 with the device tree pointer, a zeroed BSS, the vectors and the kernel's
    stack; every other core reaches [secondary_rust_entry] on a stack of its own or waits; and a core that
    builds the tables again leaves every other core that still uses them without any mapping meanwhile. *)
From S2P Require Import Prelude Bits Layout Memory Mmu.
From S2P Require Smp.
From S2P Require Import Aarch64.
Local Open Scope Z_scope.

(** ** The program *)
Definition _start : list line := [
  Lbl "_start";
  Op (MovW (X 20) (X 0));
  Op (Mrs (X 0) CurrentEL); Op (LsrI (X 0) (X 0) 2);
  Op (CmpI (X 0) 3); Op (Bc EQ "el3_to_el1");
  Op (CmpI (X 0) 2); Op (Bc EQ "el2_to_el1");
  Op (B "el1_start")].

(** Lines 45 to 64, and 207 to 226 with another label and target. *)
Definition drop_from_el3 (name target : string) : list line := [
  Lbl name;
  Op (MovI (X 1) (Z.lor (Z.shiftl 1 10) 1)); Op (Msr SCR_EL3 (X 1));
  Op (Msr CPTR_EL3 XZR);
  Op (MovI (X 1) 0x3); Op (Msr CNTHCTL_EL2 (X 1)); Op (Msr CNTVOFF_EL2 XZR);
  Op (MovI (X 1) 0x3C5); Op (Msr SPSR_EL3 (X 1));
  Op (Adr (X 1) target); Op (Msr ELR_EL3 (X 1));
  Op Eret].

(** Lines 66 to 85, and 228 to 247. *)
Definition drop_from_el2 (name target : string) : list line := [
  Lbl name;
  Op (MovI (X 1) 0x3); Op (Msr CNTHCTL_EL2 (X 1)); Op (Msr CNTVOFF_EL2 XZR);
  Op (Msr CPTR_EL2 XZR);
  Op (MovI (X 1) (Z.shiftl 1 31)); Op (Msr HCR_EL2 (X 1));
  Op (MovI (X 1) 0x3C5); Op (Msr SPSR_EL2 (X 1));
  Op (Adr (X 1) target); Op (Msr ELR_EL2 (X 1));
  Op Eret].

Definition el1_start : list line := [
  Lbl "el1_start";
  Op (Mrs (X 0) SCTLR_EL1);
  Op (BicI (X 0) (X 0) (Z.shiftl 1 0)); Op (BicI (X 0) (X 0) (Z.shiftl 1 2)); Op (BicI (X 0) (X 0) (Z.shiftl 1 12));
  Op (Msr SCTLR_EL1 (X 0)); Op Barrier;
  Op (MovI (X 1) (Z.shiftl 3 20)); Op (Msr CPACR_EL1 (X 1)); Op Barrier;
  Op (MovI (X 1) 1); Op (Msr SPSel (X 1));
  Op (Mrs (X 0) MPIDR_EL1); Op (AndI (X 0) (X 0) 3);
  Op (Cbz (X 0) "L121");
  Lbl "L109";
  Op (LdrSym (X 3) "__kernel_virt_base"); Op (LdrSym (X 1) "__secondary_table");
  Op (Sub (X 1) (X 1) (X 3));
  Op (LdrIdx (X 2) (X 1) (X 0));
  Op (Cbz (X 2) "L117");
  Op (B "secondary_el1_setup");
  Lbl "L117";
  Op Wfe;
  Op (B "L109")].

(** Three characters to the UART, with the 32-bit register [r]. *)
Definition early_puts (r : reg) (ch : Z) : list line := [
  Op (MovI r ch); Op (StrW r (X 21) 0);
  Op (MovI r 13); Op (StrW r (X 21) 0);
  Op (MovI r 10); Op (StrW r (X 21) 0)].

Definition first_core : list line := [
  Lbl "L121";
  Op (LdrSym (X 1) "__stack_end_phys"); Op (Mov SP (X 1));
  Op (MovI (X 21) 0x1c00030000)] ++
  early_puts (X 1) 66 ++ [
  Op (LdrSym (X 1) "__bss_start_phys"); Op (LdrSym (X 2) "__bss_end_phys");
  Lbl "L138";
  Op (Cmp (X 1) (X 2)); Op (Bc HS "L144");
  Op (StrPost XZR (X 1) 8);
  Op (B "L138");
  Lbl "L144"] ++
  early_puts (X 1) 98 ++ [
  Op (Bl "boot_enable_mmu")] ++
  early_puts (X 1) 109 ++ [
  Op (LdrSym (X 1) "vector_table"); Op (Msr VBAR_EL1 (X 1)); Op Barrier] ++
  early_puts (X 1) 118 ++ [
  Op (LdrSym (X 1) "__stack_end"); Op (Mov SP (X 1))] ++
  early_puts (X 1) 115 ++ [
  Op (Mov (X 0) (X 20))] ++
  early_puts (X 2) 107 ++ [
  Op (LdrSym (X 1) "kernel_main"); Op (Br (X 1));
  Lbl "L192";
  Op Wfe; Op (B "L192")].

Definition secondary_start : list line := [
  Lbl "secondary_start";
  Op (Mrs (X 0) CurrentEL); Op (LsrI (X 0) (X 0) 2);
  Op (CmpI (X 0) 3); Op (Bc EQ "secondary_el3_to_el1");
  Op (CmpI (X 0) 2); Op (Bc EQ "secondary_el2_to_el1");
  Op (B "secondary_el1_setup")].

Definition secondary_el1_setup : list line := [
  Lbl "secondary_el1_setup";
  Op (MovI (X 1) (Z.shiftl 3 20)); Op (Msr CPACR_EL1 (X 1)); Op Barrier;
  Op (MovI (X 1) 1); Op (Msr SPSel (X 1));
  Op (Mrs (X 0) MPIDR_EL1); Op (AndI (X 0) (X 0) 3); Op (Mov (X 19) (X 0));
  Op (LdrSym (X 3) "__kernel_virt_base"); Op (LdrSym (X 1) "__secondary_stacks");
  Op (Sub (X 1) (X 1) (X 3));
  Op (MovI (X 2) 0x4000); Op (Mul (X 4) (X 19) (X 2));
  Op (Add (X 1) (X 1) (X 4)); Op (Add SP (X 1) (X 2));
  Op (Bl "boot_enable_mmu");
  Op (LdrSym (X 1) "vector_table"); Op (Msr VBAR_EL1 (X 1)); Op Barrier;
  Op (LdrSym (X 1) "__secondary_stacks");
  Op (MovI (X 2) 0x4000); Op (Mul (X 4) (X 19) (X 2));
  Op (Add (X 1) (X 1) (X 4)); Op (Add SP (X 1) (X 2));
  Op (LdrSym (X 1) "secondary_rust_entry"); Op (Br (X 1));
  Lbl "L291";
  Op Wfe; Op (B "L291")].

(** 512 words of x1 from x0 on. *)
Definition clear_table (loop : string) : list line := [
  Op (MovI (X 2) 512);
  Lbl loop;
  Op (StrPost (X 1) (X 0) 8);
  Op (SubsI (X 2) (X 2) 1);
  Op (Bc NE loop)].

Definition boot_enable_mmu : list line :=
  [Lbl "boot_enable_mmu"; Op (Adr (X 0) "boot_l0"); Op (MovI (X 1) 0)] ++ clear_table "L301" ++
  [Op (Adr (X 0) "boot_l1")] ++ clear_table "L308" ++
  [Op (Adr (X 0) "boot_l2")] ++ clear_table "L315" ++ [
  Op (Adr (X 0) "boot_l0"); Op (Adr (X 1) "boot_l1");
  Op (OrrI (X 2) (X 1) 0x3);
  Op (Str (X 2) (X 0) 0);
  Op (MovI (X 3) 256);
  Op (StrIdx (X 2) (X 0) (X 3));
  Op (Adr (X 0) "boot_l1"); Op (Adr (X 1) "boot_l2");
  Op (OrrI (X 2) (X 1) 0x3);
  Op (Str (X 2) (X 0) 0);
  Op (Adr (X 1) "boot_l2_rp1");
  Op (OrrI (X 2) (X 1) 0x3);
  Op (MovI (X 3) 0x70);
  Op (StrIdx (X 2) (X 0) (X 3));
  Op (Adr (X 0) "boot_l2");
  Op (MovI (X 3) 0); Op (MovI (X 4) 512);
  Lbl "L344";
  Op (LslI (X 5) (X 3) 21);
  Op (MovI (X 6) 0x705);
  Op (CmpI (X 3) 0x1F8);
  Op (Bc LT "L352");
  Op (MovI (X 6) 0x401);
  Lbl "L352";
  Op (Orr (X 6) (X 6) (X 5));
  Op (StrPost (X 6) (X 0) 8);
  Op (AddI (X 3) (X 3) 1);
  Op (SubsI (X 4) (X 4) 1);
  Op (Bc NE "L344");
  Op (Adr (X 0) "boot_l2_rp1");
  Op (MovI (X 3) 0); Op (MovI (X 4) 512);
  Op (MovI (X 7) 0x1c); Op (LslI (X 7) (X 7) 32);
  Lbl "L365";
  Op (LslI (X 5) (X 3) 21);
  Op (Add (X 5) (X 7) (X 5));
  Op (MovI (X 6) 0x401);
  Op (Orr (X 6) (X 6) (X 5));
  Op (StrPost (X 6) (X 0) 8);
  Op (AddI (X 3) (X 3) 1);
  Op (SubsI (X 4) (X 4) 1);
  Op (Bc NE "L365");
  Op (MovI (X 0) 0xff); Op (LslI (X 0) (X 0) 8); Op (Msr MAIR_EL1 (X 0));
  Op (MovI (X 0) 16);
  Op (OrrI (X 0) (X 0) (Z.shiftl 16 16));
  Op (OrrI (X 0) (X 0) (Z.shiftl 1 8)); Op (OrrI (X 0) (X 0) (Z.shiftl 1 10)); Op (OrrI (X 0) (X 0) (Z.shiftl 3 12));
  Op (OrrI (X 0) (X 0) (Z.shiftl 1 24)); Op (OrrI (X 0) (X 0) (Z.shiftl 1 26)); Op (OrrI (X 0) (X 0) (Z.shiftl 3 28));
  Op (OrrI (X 0) (X 0) (Z.shiftl 2 30));
  Op (OrrI (X 0) (X 0) (Z.shiftl 2 32));
  Op (Msr TCR_EL1 (X 0)); Op Barrier;
  Op (Adr (X 1) "boot_l0"); Op (Msr TTBR0_EL1 (X 1)); Op (Msr TTBR1_EL1 (X 1)); Op Barrier; Op Barrier;
  Op (Mrs (X 0) SCTLR_EL1);
  Op (BicI (X 0) (X 0) (Z.shiftl 1 0)); Op (BicI (X 0) (X 0) (Z.shiftl 1 2)); Op (BicI (X 0) (X 0) (Z.shiftl 1 12));
  Op (Msr SCTLR_EL1 (X 0)); Op Barrier;
  Op (OrrI (X 0) (X 0) (Z.shiftl 1 0)); Op (Msr SCTLR_EL1 (X 0)); Op Barrier;
  Op RetI].

Definition boot_S : list line :=
  _start ++ drop_from_el3 "el3_to_el1" "el1_start" ++ drop_from_el2 "el2_to_el1" "el1_start" ++
  el1_start ++ first_core ++
  secondary_start ++ drop_from_el3 "secondary_el3_to_el1" "secondary_el1_setup" ++
  drop_from_el2 "secondary_el2_to_el1" "secondary_el1_setup" ++ secondary_el1_setup ++ boot_enable_mmu.

(** ** Where the linker places what the program names *)

(** Sizes of the output sections, and the offsets in them of the items of the Rust objects. *)
Record sections := mkSections {
  sz_boot : Z; sz_text : Z; sz_rodata : Z; sz_data : Z; sz_bss : Z;
  off_vector_table : Z; off_kernel_main : Z; off_secondary_rust_entry : Z;
  off_secondary_table : Z; off_secondary_stacks : Z
}.

(** [ALIGN]. *)
Definition ld_align (a n : Z) : Z := (a + n - 1) / n * n.

Definition boot_l0_at (s : sections) : Z := ld_align (KERNEL_PHYS_BASE + sz_boot s) 4096.
Definition boot_phys_end (s : sections) : Z := ld_align (boot_l0_at s + 4 * 4096) 0x200000.
Definition rodata_lma (s : sections) : Z := ld_align (boot_phys_end s + sz_text s) 16.
Definition data_lma (s : sections) : Z := ld_align (rodata_lma s + sz_rodata s) 16.
Definition bss_lma (s : sections) : Z := ld_align (data_lma s + sz_data s) 4096.

Definition kernel_start (s : sections) : Z := KERNEL_VIRT_BASE + boot_phys_end s.
Definition rodata_vma (s : sections) : Z := ld_align (kernel_start s + sz_text s) 16.
Definition data_vma (s : sections) : Z := ld_align (rodata_vma s + sz_rodata s) 16.
Definition bss_vma (s : sections) : Z := ld_align (data_vma s + sz_data s) 4096.
Definition stack_start (s : sections) : Z := ld_align (bss_vma s + sz_bss s) 16.

Definition link_table (s : sections) : list (string * Z) := [
  ("boot_l0", boot_l0_at s); ("boot_l1", boot_l0_at s + 0x1000);
  ("boot_l2", boot_l0_at s + 0x2000); ("boot_l2_rp1", boot_l0_at s + 0x3000);
  ("__kernel_virt_base", KERNEL_VIRT_BASE);
  ("__bss_start_phys", bss_lma s); ("__bss_end_phys", bss_lma s + sz_bss s);
  ("__stack_end_phys", bss_lma s + sz_bss s + 0x10000); ("__stack_end", stack_start s + 0x10000);
  ("vector_table", kernel_start s + off_vector_table s);
  ("kernel_main", kernel_start s + off_kernel_main s);
  ("secondary_rust_entry", kernel_start s + off_secondary_rust_entry s);
  ("__secondary_table", data_vma s + off_secondary_table s);
  ("__secondary_stacks", bss_vma s + off_secondary_stacks s)]%string.

Definition link (s : sections) (l : string) : Z :=
  default 0 (snd <$> List.find (λ e, bool_decide (e.1 = l)) (link_table s)).

(** What the program relies on. *)
Record linked (sym : string → Z) : Prop := {
  lk_l0 : KERNEL_PHYS_BASE + size boot_S ≤ sym "boot_l0" ∧ sym "boot_l0" mod 4096 = 0;
  lk_l1 : sym "boot_l1" = sym "boot_l0" + 0x1000;
  lk_l2 : sym "boot_l2" = sym "boot_l0" + 0x2000;
  lk_rp1 : sym "boot_l2_rp1" = sym "boot_l0" + 0x3000;
  lk_bss : sym "boot_l0" + 0x4000 ≤ sym "__bss_start_phys" ≤ sym "__bss_end_phys" ∧
    sym "__bss_end_phys" + 8 ≤ 2 ^ 30;
  lk_base : sym "__kernel_virt_base" = KERNEL_VIRT_BASE;
  lk_table : KERNEL_VIRT_BASE + sym "boot_l0" + 0x4000 ≤ sym "__secondary_table" ∧
    sym "__secondary_table" + 32 ≤ KERNEL_VIRT_BASE + 2 ^ 30;
  lk_stacks : KERNEL_VIRT_BASE + sym "boot_l0" + 0x4000 ≤ sym "__secondary_stacks" ∧
    sym "__secondary_stacks" + 0x10000 ≤ KERNEL_VIRT_BASE + 2 ^ 30;
  lk_entry : KERNEL_VIRT_BASE ≤ sym "kernel_main" ∧ KERNEL_VIRT_BASE ≤ sym "secondary_rust_entry"
}.

(** An image below 1 GiB, with the items inside their sections; the objects ask for no alignment above that of
    the script. *)
Record fits (s : sections) : Prop := {
  ft_sizes : size boot_S ≤ sz_boot s ∧ 0 ≤ sz_text s ∧ 0 ≤ sz_rodata s ∧ 0 ≤ sz_data s ∧ 0 ≤ sz_bss s;
  ft_items : 0 ≤ off_kernel_main s ∧ 0 ≤ off_secondary_rust_entry s ∧
    0 ≤ off_secondary_table s ∧ off_secondary_table s + 32 ≤ sz_data s ∧
    0 ≤ off_secondary_stacks s ∧ off_secondary_stacks s + 0x10000 ≤ sz_bss s;
  ft_end : bss_lma s + sz_bss s + 0x10000 ≤ 2 ^ 30
}.

Lemma ld_align_spec a n : 0 < n → a ≤ ld_align a n < a + n ∧ ld_align a n mod n = 0.
Proof.
  intros Hn. unfold ld_align. split; [|by apply Z.mod_mul; lia].
  pose proof (Z.div_mod (a + n - 1) n). pose proof (Z.mod_pos_bound (a + n - 1) n). lia.
Qed.

Lemma ld_align_base b k n a : 0 < n → b = k * n → ld_align (b + a) n = b + ld_align a n.
Proof.
  intros Hn ->. unfold ld_align. replace (k * n + a + n - 1) with (k * n + (a + n - 1)) by lia.
  rewrite Z.div_add_l by lia. lia.
Qed.

(** The kernel runs at its load addresses plus the base. *)
Lemma link_offset s : rodata_vma s = KERNEL_VIRT_BASE + rodata_lma s ∧ data_vma s = KERNEL_VIRT_BASE + data_lma s ∧
  bss_vma s = KERNEL_VIRT_BASE + bss_lma s.
Proof.
  assert (rodata_vma s = KERNEL_VIRT_BASE + rodata_lma s) as Hr.
  { unfold rodata_vma, rodata_lma, kernel_start. rewrite <-Z.add_assoc. by apply (ld_align_base _ (KERNEL_VIRT_BASE / 16)). }
  assert (data_vma s = KERNEL_VIRT_BASE + data_lma s) as Hd.
  { unfold data_vma, data_lma. rewrite Hr, <-Z.add_assoc. by apply (ld_align_base _ (KERNEL_VIRT_BASE / 16)). }
  split_and!; [done..|]. unfold bss_vma, bss_lma. rewrite Hd, <-Z.add_assoc. by apply (ld_align_base _ (KERNEL_VIRT_BASE / 4096)).
Qed.

Lemma link_linked s : fits s → linked (link s).
Proof.
  intros [(H1 & H2 & H3 & H4 & H5) (I1 & I2 & I3 & I4 & I5 & I6) He].
  destruct (link_offset s) as (_ & Hd & Hb).
  pose proof (ld_align_spec (KERNEL_PHYS_BASE + sz_boot s) 4096 ltac:(lia)) as L0.
  pose proof (ld_align_spec (boot_l0_at s + 4 * 4096) 0x200000 ltac:(lia)) as L1.
  pose proof (ld_align_spec (boot_phys_end s + sz_text s) 16 ltac:(lia)) as L2.
  pose proof (ld_align_spec (rodata_lma s + sz_rodata s) 16 ltac:(lia)) as L3.
  pose proof (ld_align_spec (data_lma s + sz_data s) 4096 ltac:(lia)) as L4.
  fold (boot_l0_at s) in L0. fold (boot_phys_end s) in L1. fold (rodata_lma s) in L2. fold (data_lma s) in L3. fold (bss_lma s) in L4.
  change (size boot_S) with 1004 in H1.
  change KERNEL_PHYS_BASE with 524288 in L0.
  split.
  - change (KERNEL_PHYS_BASE + size boot_S) with (524288 + 1004). change (link s "boot_l0") with (boot_l0_at s). lia.
  - reflexivity.
  - reflexivity.
  - reflexivity.
  - change (link s "boot_l0") with (boot_l0_at s). change (link s "__bss_start_phys") with (bss_lma s).
    change (link s "__bss_end_phys") with (bss_lma s + sz_bss s). lia.
  - reflexivity.
  - change (link s "boot_l0") with (boot_l0_at s). change (link s "__secondary_table") with (data_vma s + off_secondary_table s). lia.
  - change (link s "boot_l0") with (boot_l0_at s). change (link s "__secondary_stacks") with (bss_vma s + off_secondary_stacks s). lia.
  - change (link s "kernel_main") with (kernel_start s + off_kernel_main s).
    change (link s "secondary_rust_entry") with (kernel_start s + off_secondary_rust_entry s). unfold kernel_start. lia.
Qed.

(** ** Runs *)
Ltac run_simpl :=
  cbv [Aarch64.exec_block Aarch64.exec get set with_xs with_memory with_pstate set_sys xs sys pstate vs memory insert list_insert
       lookup list_lookup default from_option id mbind outcome_bind read_sys write_sys].

(** The 31 registers of a state. *)
Ltac explode l H := do 31 (destruct l as [|? l]; [discriminate H|]); destruct l; [|discriminate H].

(** The straight-line code from the current offset, [k] instructions without memory accesses; and jumps. *)
Ltac block k :=
  match goal with |- Aarch64.reaches boot_S ?org ?sym ?ext ?tr (At ?o, ?c) _ _ =>
    let b := eval vm_compute in (block_from boot_S o k) in
    let o' := eval vm_compute in (o + 4 * Z.of_nat k) in
    eapply (reaches_block boot_S org sym ext tr o b c); [vm_compute; reflexivity|run_simpl; reflexivity|];
    change (o + 4 * len b) with o'
  end.
Ltac store_block k tac :=
  match goal with |- Aarch64.reaches boot_S ?org ?sym ?ext ?tr (At ?o, ?c) _ _ =>
    let b := eval vm_compute in (block_from boot_S o k) in
    let o' := eval vm_compute in (o + 4 * Z.of_nat k) in
    eapply (reaches_block boot_S org sym ext tr o b c); [vm_compute; reflexivity|tac; reflexivity|];
    change (o + 4 * len b) with o'
  end.
Ltac fetched := vm_compute; reflexivity.
Ltac target_simpl :=
  match goal with |- context [target boot_S ?sym ?l] =>
    let t := eval vm_compute in (label boot_S l) in
    match t with Some ?o => change (target boot_S sym l) with (At o) end
  end;
  repeat match goal with |- context [At (?a + 4)] => let b := eval vm_compute in (a + 4) in change (At (a + 4)) with (At b) end.
Ltac value_simpl := repeat match goal with |- context [value boot_S ?org ?sym ?l] => change (value boot_S org sym l) with (sym l) end.
(** The jump at the current offset. *)
Ltac jump_step :=
  match goal with |- Aarch64.reaches boot_S ?org ?sym ?ext ?tr (At ?o, ?c) _ _ =>
    let f := eval vm_compute in (fetch boot_S o) in
    eapply reaches_next;
    [match f with
     | Some (B ?l) => apply (step_b boot_S org sym ext tr o l c)
     | Some (Bc ?k ?l) => apply (step_bc boot_S org sym ext tr o k l c)
     | Some (Cbz ?r ?l) => apply (step_cbz boot_S org sym ext tr o r l c)
     | Some (Bl ?l) =>
         let t := eval vm_compute in (label boot_S l) in
         match t with Some ?o' => apply (step_bl boot_S org sym ext tr o l o' c) end
     | Some (Br ?r) => apply (step_br boot_S org sym ext tr o r c)
     | Some RetI => apply (step_ret boot_S org sym ext tr o c)
     end; fetched|]
  end.
Ltac jump := jump_step; target_simpl.
Ltac branch := jump_step; target_simpl; cbn [pstate]; autorewrite with aarch64.
Ltac reg_simpl := cbv [get xs lookup list_lookup default from_option id].
Ltac no := rewrite bool_decide_eq_false_2 by lia; cbn [negb].
Ltac yes := rewrite bool_decide_eq_true_2 by lia; cbn [negb].

Section drop.
Context (sym : string → Z) (ext : string → cpu → outcome cpu).
Notation reaches := (reaches boot_S KERNEL_PHYS_BASE sym ext translate).

(** What a core at EL1, EL2 or EL3 must be for the return to EL1 to be legal: coming from EL3, the program relies
    on HCR_EL2.RW as the firmware left it. *)
Definition can_drop (c : cpu) : Prop :=
  el (pstate c) = 1 ∨ el (pstate c) = 2 ∨ (el (pstate c) = 3 ∧ Z.testbit (sys c HCR_EL2) 31 = true).

(** What the way to EL1 leaves of [c]. *)
Record dropped (c c1 : cpu) : Prop := {
  dr_xs : length (xs c1) = 31%nat;
  dr_x : drop 2 (xs c1) = drop 2 (xs c);
  dr_el : el (pstate c1) = 1;
  dr_memory : memory c1 = memory c;
  dr_sys : sys c1 SCTLR_EL1 = sys c SCTLR_EL1 ∧ sys c1 MPIDR_EL1 = sys c MPIDR_EL1;
  dr_masked : el (pstate c) ≠ 1 → pstate c1 = 0x3C5
}.

Lemma legal_to_el1 e c : e = 2 ∨ e = 3 → sys c (spsr_of e) = 0x3C5 → Z.testbit (sys c HCR_EL2) 31 = true →
  (e = 3 → Z.testbit (sys c SCR_EL3) 10 = true) → legal_return e c = true.
Proof.
  intros He Hs Hr Hn. unfold legal_return. rewrite Hs, Hr.
  destruct He as [-> | ->]; [done|]. by rewrite Hn.
Qed.

(** Both entries test CurrentEL and leave the levels above in the same way, for the code at [t]. *)
Ltac returns_to t :=
  eapply reaches_next; [eapply step_eret; [fetched|]|]; cbn [pstate]; autorewrite with aarch64;
  match goal with He : el _ = _ |- _ => rewrite He end;
  [by apply legal_to_el1; auto|];
  match goal with |- context [Aarch64.goto boot_S ?org ?a] => change (Aarch64.goto boot_S org a) with (At t) end;
  apply reaches_now; done.
Ltac drop_to p Hd t :=
  let He := fresh "He" in
  assert (Z.shiftr (Z.shiftl (el p) 2) 2 = el p) as He by (by rewrite Z.shiftr_shiftl_l by lia);
  block 3%nat; branch; rewrite He; clear He; destruct Hd as [?|[?|[??]]]; cbn [pstate sys] in *;
  [no; block 1%nat; branch; no; jump; apply reaches_now; split; cbn [xs pstate sys memory]; try done; by rewrite !compare_el
  |no; block 1%nat; branch; yes; block 10%nat; returns_to t
  |yes; block 10%nat; returns_to t].

Lemma drop_primary c : length (xs c) = 31%nat → can_drop c → reaches (At 4, c) (At 120) (dropped c).
Proof. intros Hl Hd. destruct c as [l s p v m]. cbn [xs] in Hl. explode l Hl. drop_to p Hd 120. Qed.

Lemma drop_secondary c : length (xs c) = 31%nat → can_drop c → reaches (At 432, c) (At 548) (dropped c).
Proof. intros Hl Hd. destruct c as [l s p v m]. cbn [xs] in Hl. explode l Hl. drop_to p Hd 548. Qed.

(** With HCR_EL2.RW clear, the return from EL3 is illegal: where the path through EL2 sets it, the path from EL3
    does not. *)
Lemma el3_needs_rw c : length (xs c) = 31%nat → el (pstate c) = 3 → Z.testbit (sys c HCR_EL2) 31 = false →
  reaches (At 4, c) (At 72) (λ c', step boot_S KERNEL_PHYS_BASE sym ext translate (At 72, c') = Panic).
Proof.
  intros Hl Hp Hr. destruct c as [l s p v m]. cbn [xs pstate sys] in *. explode l Hl.
  assert (Z.shiftr (Z.shiftl (el p) 2) 2 = el p) as He by (by rewrite Z.shiftr_shiftl_l by lia).
  block 3%nat. branch. rewrite He. yes. block 10%nat. apply reaches_now.
  unfold step. cbn [fst snd]. assert (fetch boot_S 72 = Some Eret) as -> by (by vm_compute).
  cbn [pstate]. rewrite compare_el, Hp. unfold legal_return. cbn [sys].
  match goal with |- context [Z.testbit (set_sysf ?a ?b ?f HCR_EL2) 31] => change (set_sysf a b f HCR_EL2) with (s HCR_EL2) end.
  rewrite Hr. by rewrite andb_false_r.
Qed.
End drop.

(** ** The boot tables *)
Definition zeros (n : nat) : list Z := replicate n 0.
(** The word of a 2 MiB block: normal memory below the peripherals, device memory from there on. *)
Definition l2_word (i : Z) : Z := Z.lor (if decide (i < 0x1F8) then 0x705 else 0x401) (Z.shiftl i 21).
Definition rp1_word (i : Z) : Z := Z.lor 0x401 (Z.shiftl 0x1c 32 + Z.shiftl i 21).
Definition words (f : Z → Z) (from : Z) (n : nat) : list Z := f <$> seqZ from (Z.of_nat n).

Definition build_tables (l0 l1 l2 rp1 : Z) (m : mem) : mem :=
  let m := store_words l0 (zeros 512) m in
  let m := store_words l1 (zeros 512) m in
  let m := store_words l2 (zeros 512) m in
  let m := store64 l0 (Z.lor l1 3) m in
  let m := store64 (l0 + 8 * 256) (Z.lor l1 3) m in
  let m := store64 l1 (Z.lor l2 3) m in
  let m := store64 (l1 + 8 * 0x70) (Z.lor rp1 3) m in
  let m := store_words l2 (words l2_word 0 512) m in
  store_words rp1 (words rp1_word 0 512) m.

Definition mmu_off (s : sysreg → Z) : Prop := Z.testbit (s SCTLR_EL1) 0 = false.

Lemma store_off l s p v m a w : mmu_off s → store translate a w (mkCpu l s p v m) = Ret (mkCpu l s p v (store64 a w m)).
Proof. intros Hoff. unfold store, phys, translate. cbn [sys memory]. by rewrite Hoff. Qed.

Lemma load_off l s p v m a : mmu_off s → load translate (mkCpu l s p v m) a = Ret (load64 m a).
Proof. intros Hoff. unfold load, phys, translate. cbn [sys memory]. by rewrite Hoff. Qed.

Ltac run_stores Hoff :=
  repeat (run_simpl; match goal with |- context [store translate ?a ?w (mkCpu ?l ?s ?p ?v ?m)] =>
    rewrite (store_off l s p v m a w Hoff) end); run_simpl.

(** The registers with the MMU on and the caches off: the regime is the one of [Mmu]. *)
Definition sctlr_on (v : Z) : Z :=
  Z.lor (Z.land (Z.land (Z.land v (not64 (Z.shiftl 1 0))) (not64 (Z.shiftl 1 2))) (not64 (Z.shiftl 1 12))) (Z.shiftl 1 0).
Definition enabled (l0 : Z) (s : sysreg → Z) : sysreg → Z := λ r,
  match r with
  | MAIR_EL1 => mair_value
  | TCR_EL1 => tcr_value
  | TTBR0_EL1 | TTBR1_EL1 => l0
  | SCTLR_EL1 => sctlr_on (s SCTLR_EL1)
  | _ => s r
  end.

Section enable.
Context (sym : string → Z) (ext : string → cpu → outcome cpu).
Notation reaches := (reaches boot_S KERNEL_PHYS_BASE sym ext translate).
Notation exec := (exec boot_S KERNEL_PHYS_BASE sym translate).

(** A turn of a loop that clears a table, and the whole loop. *)
Lemma clear_turn a n rest s p v m : mmu_off s → 0 ≤ a → a + 8 < U64 → 1 ≤ n < U64 →
  exec_block boot_S KERNEL_PHYS_BASE sym translate [StrPost (X 1) (X 0) 8; SubsI (X 2) (X 2) 1]
    (mkCpu (a :: 0 :: n :: rest) s p v m) =
  Ret (mkCpu (a + 8 :: 0 :: n - 1 :: rest) s (compare n 1 p) v (store64 a 0 m)).
Proof.
  intros Hoff Ha Ha' Hn. run_stores Hoff. unfold add64, sub64, wrap64. by rewrite !Z.mod_small by lia.
Qed.

Lemma clear_loop o k rest s p v m a n : mmu_off s →
  block_at boot_S o [StrPost (X 1) (X 0) 8; SubsI (X 2) (X 2) 1] = true → fetch boot_S (o + 8) = Some (Bc NE k) →
  label boot_S k = Some o → 0 ≤ a → a + 8 * Z.of_nat (S n) < U64 →
  reaches (At o, mkCpu (a :: 0 :: Z.of_nat (S n) :: rest) s p v m) (At (o + 12))
    (λ c, ∃ p', c = mkCpu (a + 8 * Z.of_nat (S n) :: 0 :: 0 :: rest) s p' v (store_words a (zeros (S n)) m) ∧
      el p' = el p ∧ sp_sel p' = sp_sel p).
Proof.
  intros Hoff Hb Hf Hk. revert p m a. induction n as [|n IH]; intros p m a Ha Hn;
    (eapply reaches_block; [exact Hb|by apply clear_turn; (done || lia)|]);
    change (o + 4 * len [StrPost (X 1) (X 0) 8; SubsI (X 2) (X 2) 1]) with (o + 8);
    (eapply reaches_next; [by eapply step_bc|]); cbn [pstate]; rewrite cond_ne; unfold target; rewrite Hk.
  - yes. replace (o + 8 + 4) with (o + 12) by lia. apply reaches_now. eexists. split; [reflexivity|].
    by rewrite compare_el, compare_sp_sel.
  - no. replace (Z.of_nat (S (S n)) - 1) with (Z.of_nat (S n)) by lia.
    eapply reaches_then; [apply IH; lia|]. intros c (p' & -> & Hel & Hsel). apply reaches_now. exists p'.
    rewrite compare_el in Hel. rewrite compare_sp_sel in Hsel. split; [|done].
    replace (a + 8 + 8 * Z.of_nat (S n)) with (a + 8 * Z.of_nat (S (S n))) by lia. reflexivity.
Qed.

(** The loops that fill a table: x0 runs through the table, x3 counts up, x4 down. *)
Definition filling (a x1 x2 i n x5 x6 : Z) (rest : list Z) (s : sysreg → Z) (p : Z) (v : list Z) (m : mem) : cpu :=
  mkCpu (a :: x1 :: x2 :: i :: n :: x5 :: x6 :: rest) s p v m.

Lemma words_cons f i n : words f i (S n) = f i :: words f (i + 1) n.
Proof. unfold words. rewrite seqZ_cons by lia. cbn [fmap list_fmap]. do 3 f_equal; lia. Qed.

Lemma fill_loop o e f x1 x2 rest s v n :
  (∀ a i k x5 x6 p m, 0 ≤ a → a + 8 < U64 → 0 ≤ i < 512 → 1 ≤ k ≤ 512 →
    reaches (At o, filling a x1 x2 i k x5 x6 rest s p v m) (if decide (k = 1) then At e else At o)
      (λ c, ∃ x5' x6' p', c = filling (a + 8) x1 x2 (i + 1) (k - 1) x5' x6' rest s p' v (store64 a (f i) m) ∧
        el p' = el p ∧ sp_sel p' = sp_sel p)) →
  ∀ a i x5 x6 p m, 0 ≤ a → a + 8 * Z.of_nat (S n) < U64 → 0 ≤ i → i + Z.of_nat (S n) ≤ 512 →
    reaches (At o, filling a x1 x2 i (Z.of_nat (S n)) x5 x6 rest s p v m) (At e)
      (λ c, ∃ x5' x6' p', c = filling (a + 8 * Z.of_nat (S n)) x1 x2 (i + Z.of_nat (S n)) 0 x5' x6' rest s p' v
          (store_words a (words f i (S n)) m) ∧
        el p' = el p ∧ sp_sel p' = sp_sel p).
Proof.
  intros Hturn. induction n as [|n IH]; intros a i x5 x6 p m Ha Ha' Hi Hi'; rewrite words_cons.
  - eapply reaches_then; [apply (Hturn a i); lia|]. intros c (x5' & x6' & p' & -> & He). apply reaches_now. by exists x5', x6', p'.
  - eapply reaches_then; [eapply (reaches_then _ _ _ _ _ _ (At o))|].
    + pose proof (Hturn a i (Z.of_nat (S (S n))) x5 x6 p m) as Ht. rewrite decide_False in Ht by lia. apply Ht; lia.
    + intros c Hc. apply reaches_now. exact Hc.
    + intros c (x5' & x6' & p' & -> & He & Hs). replace (Z.of_nat (S (S n)) - 1) with (Z.of_nat (S n)) by lia.
      eapply reaches_then; [apply IH; lia|]. intros c (x5'' & x6'' & p'' & -> & He' & Hs'). apply reaches_now.
      exists x5'', x6'', p''. split; [|by rewrite He', Hs'].
      replace (a + 8 * Z.of_nat (S (S n))) with (a + 8 + 8 * Z.of_nat (S n)) by lia.
      by replace (i + Z.of_nat (S (S n))) with (i + 1 + Z.of_nat (S n)) by lia.
Qed.

(** Their last branch. *)
Ltac turn_end :=
  unfold add64, sub64, wrap64; rewrite !Z.mod_small by lia; branch;
  case_decide; [yes|no]; apply reaches_now; eexists _, _, _; (split; [reflexivity|]); autorewrite with aarch64; done.

Lemma shl_21 i : 0 ≤ i < 512 → shl64 i 21 = Z.shiftl i 21.
Proof.
  intros Hi. unfold shl64, wrap64. change (21 mod 64) with 21. rewrite Z.shiftl_mul_pow2 by lia. by rewrite Z.mod_small by lia.
Qed.

Lemma l2_turn x1 x2 rest s v a i k x5 x6 p m : mmu_off s → 0 ≤ a → a + 8 < U64 → 0 ≤ i < 512 → 1 ≤ k ≤ 512 →
  reaches (At 792, filling a x1 x2 i k x5 x6 rest s p v m) (if decide (k = 1) then At 832 else At 792)
    (λ c, ∃ x5' x6' p', c = filling (a + 8) x1 x2 (i + 1) (k - 1) x5' x6' rest s p' v (store64 a (l2_word i) m) ∧
      el p' = el p ∧ sp_sel p' = sp_sel p).
Proof.
  intros Hoff Ha Ha' Hi Hk. unfold filling. block 3%nat. branch. rewrite cond_lt by lia.
  rewrite shl_21 by done.
  unfold l2_word. destruct (decide (i < 0x1F8)); [yes|no; block 1%nat]; store_block 4%nat ltac:(run_stores Hoff); turn_end.
Qed.

Lemma rp1_turn x1 x2 x7 rest s v a i k x5 x6 p m : mmu_off s → x7 = Z.shiftl 0x1c 32 → 0 ≤ a → a + 8 < U64 → 0 ≤ i < 512 → 1 ≤ k ≤ 512 →
  reaches (At 852, filling a x1 x2 i k x5 x6 (x7 :: rest) s p v m) (if decide (k = 1) then At 884 else At 852)
    (λ c, ∃ x5' x6' p', c = filling (a + 8) x1 x2 (i + 1) (k - 1) x5' x6' (x7 :: rest) s p' v (store64 a (rp1_word i) m) ∧
      el p' = el p ∧ sp_sel p' = sp_sel p).
Proof.
  intros Hoff Hx7 Ha Ha' Hi Hk. unfold filling, rp1_word. block 1%nat. rewrite shl_21 by done.
  assert (add64 x7 (Z.shiftl i 21) = Z.shiftl 0x1c 32 + Z.shiftl i 21) as Hadd.
  { subst x7. unfold add64, wrap64. rewrite Z.mod_small; [done|].
    rewrite !Z.shiftl_mul_pow2 by lia. lia. }
  block 1%nat. rewrite Hadd. store_block 5%nat ltac:(run_stores Hoff). turn_end.
Qed.

(** *** The whole function *)
Definition table_addresses (l0 l1 l2 rp1 : Z) : Prop :=
  0 ≤ l0 ∧ l1 = l0 + 0x1000 ∧ l2 = l0 + 0x2000 ∧ rp1 = l0 + 0x3000 ∧ l0 + 0x4000 ≤ 2 ^ 30.

Lemma enable_clears x0 x1 x2 rest s p v m : mmu_off s →
  table_addresses (sym "boot_l0") (sym "boot_l1") (sym "boot_l2") (sym "boot_l2_rp1") →
  reaches (At 660, mkCpu (x0 :: x1 :: x2 :: rest) s p v m) (At 724)
    (λ c, ∃ y0 p', c = mkCpu (y0 :: 0 :: 0 :: rest) s p' v
        (store_words (sym "boot_l2") (zeros 512) (store_words (sym "boot_l1") (zeros 512) (store_words (sym "boot_l0") (zeros 512) m))) ∧
      el p' = el p ∧ sp_sel p' = sp_sel p).
Proof.
  intros Hoff (H0 & H1 & H2 & H3 & H4).
  block 3%nat. value_simpl.
  eapply reaches_then; [apply (clear_loop 672 "L301" rest s p v m (sym "boot_l0") 511 Hoff); [by vm_compute..|lia|lia]|].
  intros c (p1 & -> & Hp1 & Hq1). change (672 + 12) with 684. block 2%nat. value_simpl.
  eapply reaches_then; [apply (clear_loop 692 "L308" rest s p1 v _ (sym "boot_l1") 511 Hoff); [by vm_compute..|lia|lia]|].
  intros c (p2 & -> & Hp2 & Hq2). change (692 + 12) with 704. block 2%nat. value_simpl.
  eapply reaches_then; [apply (clear_loop 712 "L315" rest s p2 v _ (sym "boot_l2") 511 Hoff); [by vm_compute..|lia|lia]|].
  intros c (p3 & -> & Hp3 & Hq3). apply reaches_now. eexists _, p3. split; [reflexivity|]. by rewrite Hp3, Hp2, Hp1, Hq3, Hq2, Hq1.
Qed.

Lemma enable_fills x0 x3 x4 x5 x6 x7 rest s p v m : mmu_off s →
  table_addresses (sym "boot_l0") (sym "boot_l1") (sym "boot_l2") (sym "boot_l2_rp1") →
  reaches (At 724, mkCpu (x0 :: 0 :: 0 :: x3 :: x4 :: x5 :: x6 :: x7 :: rest) s p v m) (At 884)
    (λ c, ∃ y0 y1 y2 y3 y4 y5 y6 y7 p', c = mkCpu (y0 :: y1 :: y2 :: y3 :: y4 :: y5 :: y6 :: y7 :: rest) s p' v
        (store_words (sym "boot_l2_rp1") (words rp1_word 0 512) (store_words (sym "boot_l2") (words l2_word 0 512)
          (store64 (sym "boot_l1" + 8 * 0x70) (Z.lor (sym "boot_l2_rp1") 3) (store64 (sym "boot_l1") (Z.lor (sym "boot_l2") 3)
            (store64 (sym "boot_l0" + 8 * 256) (Z.lor (sym "boot_l1") 3) (store64 (sym "boot_l0") (Z.lor (sym "boot_l1") 3) m)))))) ∧
      el p' = el p ∧ sp_sel p' = sp_sel p).
Proof.
  intros Hoff (H0 & H1 & H2 & H3 & H4).
  store_block 14%nat ltac:(run_stores Hoff). value_simpl.
  set (l0 := sym "boot_l0") in *. set (l1 := sym "boot_l1") in *. set (l2 := sym "boot_l2") in *. set (rp1 := sym "boot_l2_rp1") in *.
  assert (∀ k, 0 ≤ k < 0x1000 → add64 l0 k = l0 + k ∧ add64 l1 k = l1 + k) as Hadd.
  { intros k Hk. unfold add64, wrap64. rewrite !Z.mod_small by lia. done. }
  change (shl64 112 3) with (8 * 0x70). change (shl64 256 3) with (8 * 256).
  rewrite (proj1 (Hadd 0 ltac:(lia))), (proj2 (Hadd 0 ltac:(lia))), (proj1 (Hadd (8 * 256) ltac:(lia))),
    (proj2 (Hadd (8 * 0x70) ltac:(lia))), !Z.add_0_r.
  block 3%nat. value_simpl. fold l2.
  eapply reaches_then; [apply (fill_loop 792 832 l2_word rp1 _ (x7 :: rest) s v 511); [|lia..]|].
  { intros. by apply l2_turn. }
  intros c (y5 & y6 & p1 & -> & Hp1 & Hq1). unfold filling. block 5%nat. value_simpl. fold rp1.
  eapply reaches_then; [apply (fill_loop 852 884 rp1_word rp1 _ (Z.shiftl 0x1c 32 :: rest) s v 511); [|lia..]|].
  { intros. by apply rp1_turn. }
  intros c (y5' & y6' & p2 & -> & Hp2 & Hq2). unfold filling. apply reaches_now.
  eexists _, _, _, _, _, _, _, _, _. split; [reflexivity|]. by rewrite Hp2, Hp1, Hq2, Hq1.
Qed.

(** [boot_enable_mmu] up to its return. *)
Lemma enable_runs x0 x1 x2 x3 x4 x5 x6 x7 rest s p v m : mmu_off s →
  table_addresses (sym "boot_l0") (sym "boot_l1") (sym "boot_l2") (sym "boot_l2_rp1") →
  reaches (At 660, mkCpu (x0 :: x1 :: x2 :: x3 :: x4 :: x5 :: x6 :: x7 :: rest) s p v m) (At 1000)
    (λ c, ∃ y0 y1 y2 y3 y4 y5 y6 y7 s' p', c = mkCpu (y0 :: y1 :: y2 :: y3 :: y4 :: y5 :: y6 :: y7 :: rest) s' p' v
        (build_tables (sym "boot_l0") (sym "boot_l1") (sym "boot_l2") (sym "boot_l2_rp1") m) ∧
      (∀ r, s' r = enabled (sym "boot_l0") s r) ∧ el p' = el p ∧ sp_sel p' = sp_sel p).
Proof.
  intros Hoff Ht. eapply reaches_then; [by apply enable_clears|]. intros c (z0 & p1 & -> & Hp1 & Hq1).
  eapply reaches_then; [by apply enable_fills|]. intros c (z0' & z1 & z2 & z3 & z4 & z5 & z6 & z7 & p2 & -> & Hp2 & Hq2).
  block 29%nat. apply reaches_now.
  eexists _, _, _, _, _, _, _, _, _, _. split; [reflexivity|]. split; [|by rewrite Hp2, Hp1, Hq2, Hq1].
  intros []; reflexivity.
Qed.
End enable.

(** ** What the tables map *)

(** An offset in the first GiB, the peripherals at its end as device memory, and the RP1 window: the same in the
    first and the 257th half TiB of either half. *)
Definition boot_window (off : Z) : option (Z * Z) :=
  if decide (off < 2 ^ 30) then Some (off, if decide (off < 0x3F000000) then 1 else 0)
  else if decide (0x1c00000000 ≤ off < 0x1c40000000) then Some (off, 0) else None.

Definition boot_map (va : Z) : option (Z * Z) :=
  let top := Z.shiftr va 48 in
  if decide (top = 0 ∨ top = 0xFFFF) then
    if decide (index_at 39 va = 0 ∨ index_at 39 va = 256) then boot_window (Z.land va (Z.ones 39)) else None
  else None.

Record tables_in (l0 l1 l2 rp1 : Z) (m : mem) : Prop := {
  ti_l0 i : 0 ≤ i < 512 → load64 m (l0 + 8 * i) = if decide (i = 0 ∨ i = 256) then Z.lor l1 3 else 0;
  ti_l1 i : 0 ≤ i < 512 → load64 m (l1 + 8 * i) =
    if decide (i = 0) then Z.lor l2 3 else if decide (i = 0x70) then Z.lor rp1 3 else 0;
  ti_l2 i : 0 ≤ i < 512 → load64 m (l2 + 8 * i) = l2_word i;
  ti_rp1 i : 0 ≤ i < 512 → load64 m (rp1 + 8 * i) = rp1_word i
}.

Definition every_index (f : Z → bool) : bool := forallb f (seqZ 0 512).
Lemma every_index_ok f i : every_index f = true → 0 ≤ i < 512 → f i = true.
Proof. intros Hf Hi. unfold every_index in Hf. rewrite forallb_forall in Hf. apply Hf. apply list_elem_of_In. apply elem_of_seqZ. lia. Qed.

Lemma l2_word_u64 : Forall is_u64 (words l2_word 0 512).
Proof. apply words_u64. by vm_compute. Qed.
Lemma rp1_word_u64 : Forall is_u64 (words rp1_word 0 512).
Proof. apply words_u64. by vm_compute. Qed.
Lemma zeros_u64 n : Forall is_u64 (zeros n).
Proof. by apply Forall_replicate. Qed.

Lemma words_lookup f i n : 0 ≤ i < Z.of_nat n → words f 0 n !! Z.to_nat i = Some (f i).
Proof. intros Hi. unfold words. rewrite list_lookup_fmap, lookup_seqZ_lt by lia. cbn. by rewrite Z2Nat.id by lia. Qed.

Lemma load64_words_at a f m i n : Forall is_u64 (words f 0 n) → 0 ≤ i < Z.of_nat n →
  load64 (store_words a (words f 0 n) m) (a + 8 * i) = f i.
Proof.
  intros Hu Hi. replace i with (Z.of_nat (Z.to_nat i)) at 1 by lia. apply load64_store_words; [done|]. by apply words_lookup.
Qed.

Lemma load64_zeros_at a m i n : 0 ≤ i < Z.of_nat n → load64 (store_words a (zeros n) m) (a + 8 * i) = 0.
Proof.
  intros Hi. replace i with (Z.of_nat (Z.to_nat i)) by lia. apply load64_store_words; [apply zeros_u64|].
  apply lookup_replicate. split; [done|]. lia.
Qed.

Lemma len_words f i n : len (words f i n) = Z.of_nat n.
Proof. unfold len, words. rewrite length_fmap, length_seqZ. lia. Qed.
Lemma len_zeros n : len (zeros n) = Z.of_nat n.
Proof. unfold len, zeros. by rewrite length_replicate. Qed.

Lemma pointer_u64 a : 0 ≤ a ≤ 2 ^ 30 → is_u64 (Z.lor a 3).
Proof. intros Ha. apply is_u64_lor; unfold is_u64; lia. Qed.

Lemma build_tables_in l0 l1 l2 rp1 m : table_addresses l0 l1 l2 rp1 → tables_in l0 l1 l2 rp1 (build_tables l0 l1 l2 rp1 m).
Proof.
  intros (H0 & H1 & H2 & H3 & H4). unfold build_tables.
  pose proof (pointer_u64 l1 ltac:(lia)). pose proof (pointer_u64 l2 ltac:(lia)). pose proof (pointer_u64 rp1 ltac:(lia)).
  split; intros i Hi.
  - rewrite 2!load64_store_words_other by (rewrite len_words; lia). rewrite 2!load64_store64_other by lia.
    destruct (decide (i = 256)) as [->|]; [rewrite load64_store64 by done; by rewrite decide_True by auto|].
    rewrite load64_store64_other by lia.
    destruct (decide (i = 0)) as [->|]; [rewrite Z.add_0_r, load64_store64 by done; by rewrite decide_True by auto|].
    rewrite load64_store64_other, 2!load64_store_words_other by (rewrite ?len_zeros; lia).
    rewrite load64_zeros_at by lia. by rewrite decide_False by lia.
  - rewrite 2!load64_store_words_other by (rewrite len_words; lia).
    destruct (decide (i = 0x70)) as [->|].
    { rewrite load64_store64 by done. by rewrite (decide_False (P := _ = 0)) by done. }
    rewrite load64_store64_other by lia. destruct (decide (i = 0)) as [->|]; [by rewrite Z.add_0_r, load64_store64 by done|].
    rewrite 3!load64_store64_other, load64_store_words_other by (rewrite ?len_zeros; lia).
    by apply load64_zeros_at.
  - rewrite load64_store_words_other by (rewrite len_words; lia). by apply load64_words_at; [apply l2_word_u64|].
  - by apply load64_words_at; [apply rp1_word_u64|].
Qed.

(** Only the tables are written. *)
Lemma build_tables_out l0 l1 l2 rp1 m a : table_addresses l0 l1 l2 rp1 → a < l0 ∨ l0 + 0x4000 ≤ a →
  build_tables l0 l1 l2 rp1 m a = m a.
Proof.
  intros (H0 & H1 & H2 & H3 & H4) Ha. unfold build_tables.
  rewrite 2!store_words_out, 4!store64_out, 3!store_words_out by (rewrite ?len_words, ?len_zeros; lia). done.
Qed.

Lemma tables_in_ext l0 l1 l2 rp1 m m' : table_addresses l0 l1 l2 rp1 → (∀ a, a < 2 ^ 30 → m' a = m a) →
  tables_in l0 l1 l2 rp1 m → tables_in l0 l1 l2 rp1 m'.
Proof.
  intros (H0 & H1 & H2 & H3 & H4) Hm [T0 T1 T2 T3].
  split; intros i Hi; (rewrite (load64_ext m' m) by (intros; apply Hm; lia)); auto.
Qed.

(** *** The walk *)
Lemma table_of_table a : 0 ≤ a < 2 ^ 48 → a mod 4096 = 0 →
  table_of a = a ∧ table_of (Z.lor a 3) = a ∧ Z.testbit (Z.lor a 3) 0 = true ∧ Z.testbit (Z.lor a 3) 1 = true.
Proof.
  intros Ha Hm. assert (table_of a = a) as Ht.
  { unfold table_of. change 0x0000FFFFFFFFF000 with (Z.shiftl (Z.ones 36) 12).
    apply Z.mod_divide in Hm as [k ->]; [|done]. change 4096 with (2 ^ 12). rewrite <-Z.shiftl_mul_pow2 by lia.
    rewrite <-Z.shiftl_land, Z.land_ones, Z.mod_small by lia. done. }
  split; [done|]. split.
  - unfold table_of in *. by rewrite Z.land_lor_distr_l, Ht, Z.lor_0_r.
  - by rewrite !Z.lor_spec, !orb_true_r.
Qed.

Lemma va_parts va : 0 ≤ va → ∃ a b c, 0 ≤ a < 512 ∧ 0 ≤ b < 512 ∧ 0 ≤ c < 2 ^ 21 ∧ index_at 30 va = a ∧ index_at 21 va = b ∧
  Z.land va (Z.ones 21) = c ∧ Z.land va (Z.ones 39) = a * 2 ^ 30 + b * 2 ^ 21 + c.
Proof.
  intros Hva. exists ((va / 2 ^ 30) mod 512), ((va / 2 ^ 21) mod 512), (va mod 2 ^ 21).
  unfold index_at. rewrite !index_field, !Z.land_ones by lia.
  change (2 ^ 39) with 549755813888. change (2 ^ 30) with 1073741824. change (2 ^ 21) with 2097152.
  split_and!; try done; Z.to_euclidean_division_equations; lia.
Qed.

(** A block: the address in it, its attribute. *)
Lemma lor_block k c : 0 ≤ c < 2 ^ 21 → Z.lor (Z.shiftl k 21) c = Z.shiftl k 21 + c.
Proof.
  intros Hc. rewrite <-Z.add_lor_land. assert (Z.land (Z.shiftl k 21) c = 0) as ->; [|lia].
  apply Z.bits_inj'. intros n Hn. rewrite Z.land_spec, Z.bits_0. destruct (decide (n < 21)).
  - by rewrite Z.shiftl_spec_low.
  - rewrite <-(Z.mod_small c (2 ^ 21)) by done. by rewrite Z.mod_pow2_bits_high, andb_false_r by lia.
Qed.

Definition block_ok (base : Z) (attr : Z → Z) (f : Z → Z) : bool := every_index (λ i,
  Z.testbit (f i) 0 && negb (Z.testbit (f i) 1) && Z.testbit (f i) 10 &&
  bool_decide (Z.land (table_of (f i)) (not64 (Z.ones 21)) = Z.shiftl (base + i) 21) && bool_decide (attr_of (f i) = attr i)).

Lemma l2_blocks : block_ok 0 (λ i, if decide (i < 0x1F8) then 1 else 0) l2_word = true.
Proof. by vm_compute. Qed.
Lemma rp1_blocks : block_ok 0xe000 (λ _, 0) rp1_word = true.
Proof. by vm_compute. Qed.

Lemma walk_block m table va f base attr b c : block_ok base attr f = true → index_at 21 va = b → 0 ≤ b < 512 →
  Z.land va (Z.ones 21) = c → 0 ≤ c < 2 ^ 21 → load64 m (table + 8 * b) = f b →
  walk m 1 table va = Some (Z.shiftl (base + b) 21 + c, attr b).
Proof.
  intros Hok Hi Hb Hc Hc' Hl. apply (every_index_ok _ b) in Hok; [|done].
  rewrite !andb_true_iff, negb_true_iff, !bool_decide_eq_true in Hok. destruct Hok as [[[[Hb0 Hb1] Hb10] Hpa] Hattr].
  cbn [walk]. change (12 + 9 * Z.of_nat 1) with 21. rewrite Hi, Hl, Hb0, Hb1, Hb10.
  rewrite (decide_False (P := 1%nat = 3%nat)) by done. by rewrite Hpa, Hattr, Hc, lor_block.
Qed.

Lemma walk_table m n table va i d : index_at (12 + 9 * Z.of_nat (S n)) va = i → load64 m (table + 8 * i) = d →
  Z.testbit d 0 = true → Z.testbit d 1 = true → walk m (S n) table va = walk m n (table_of d) va.
Proof. intros Hi Hd H0 H1. cbn [walk]. by rewrite Hi, Hd, H0, H1. Qed.

Lemma walk_invalid m n table va i : index_at (12 + 9 * Z.of_nat n) va = i → load64 m (table + 8 * i) = 0 → walk m n table va = None.
Proof. intros Hi Hd. destruct n; cbn [walk]; by rewrite Hi, Hd. Qed.

(** The walk of the boot tables, for either half. *)
Lemma walk_boot l0 l1 l2 rp1 m va : table_addresses l0 l1 l2 rp1 → l0 mod 4096 = 0 → tables_in l0 l1 l2 rp1 m → 0 ≤ va →
  walk m 3 (table_of l0) va =
    if decide (index_at 39 va = 0 ∨ index_at 39 va = 256) then boot_window (Z.land va (Z.ones 39)) else None.
Proof.
  intros (H0 & H1 & H2 & H3 & H4) Hal [T0 T1 T2 T3] Hva.
  destruct (table_of_table l0) as (E0 & _); [lia|done|].
  destruct (table_of_table l1) as (_ & E1 & B1); [lia|by rewrite H1, Z.add_mod, Hal|].
  destruct (table_of_table l2) as (_ & E2 & B2); [lia|by rewrite H2, Z.add_mod, Hal|].
  destruct (table_of_table rp1) as (_ & E3 & B3); [lia|by rewrite H3, Z.add_mod, Hal|].
  destruct (va_parts va Hva) as (a & b & c & Ha & Hb & Hc & Ia & Ib & Ic & Hoff). rewrite Hoff, E0.
  assert (0 ≤ index_at 39 va < 512) as Hi by (unfold index_at; rewrite index_field by lia; by apply Z.mod_pos_bound).
  pose proof (T0 _ Hi) as D0. pose proof (T1 a Ha) as D1.
  destruct (decide (index_at 39 va = 0 ∨ index_at 39 va = 256)); [|by apply (walk_invalid m 3 l0 va _ eq_refl D0)].
  rewrite (walk_table m 2 l0 va _ _ eq_refl D0), E1 by apply B1.
  destruct (decide (a = 0)) as [->|Hna]; [|destruct (decide (a = 0x70)) as [->|Hna']].
  - rewrite (walk_table m 1 l1 va _ _ Ia D1), E2 by apply B2.
    rewrite (walk_block m l2 va _ _ _ b c l2_blocks) by (done || by apply T2).
    unfold boot_window. rewrite Z.shiftl_mul_pow2 by lia. rewrite (decide_True (P := _ < 2 ^ 30)) by lia.
    replace ((0 + b) * 2 ^ 21 + c) with (0 * 2 ^ 30 + b * 2 ^ 21 + c) by lia. do 2 f_equal.
    repeat case_decide; (done || lia).
  - rewrite (walk_table m 1 l1 va _ _ Ia D1), E3 by apply B3.
    rewrite (walk_block m rp1 va _ _ _ b c rp1_blocks) by (done || by apply T3).
    unfold boot_window. rewrite Z.shiftl_mul_pow2 by lia. rewrite decide_False, decide_True by lia.
    replace ((0xe000 + b) * 2 ^ 21 + c) with (0x70 * 2 ^ 30 + b * 2 ^ 21 + c) by lia. done.
  - rewrite (walk_invalid m 2 l1 va _ Ia D1). unfold boot_window. by rewrite !decide_False by lia.
Qed.

Lemma enabled_regime : regime tcr_value = true.
Proof. by vm_compute. Qed.

Lemma shiftr_nonneg_inv va k : 0 ≤ k → 0 ≤ Z.shiftr va k → 0 ≤ va.
Proof. intros Hk Hs. by apply Z.shiftr_nonneg in Hs. Qed.

(** What a core translates through the boot tables. *)
Lemma boot_mapped l0 l1 l2 rp1 m s va : table_addresses l0 l1 l2 rp1 → l0 mod 4096 = 0 → tables_in l0 l1 l2 rp1 m →
  s TCR_EL1 = tcr_value → s TTBR0_EL1 = l0 → s TTBR1_EL1 = l0 → mapped s m va = boot_map va.
Proof.
  intros Ha Hal Ht Htcr H0 H1. unfold mapped, boot_map. rewrite Htcr, enabled_regime, H0, H1. cbn [negb].
  destruct (decide (Z.shiftr va 48 = 0)) as [Hz|]; [|destruct (decide (Z.shiftr va 48 = 0xFFFF)) as [Hf|]].
  - rewrite decide_True by auto. apply (walk_boot l0 l1 l2 rp1); [done..|]. apply (shiftr_nonneg_inv va 48); lia.
  - rewrite decide_True by auto. apply (walk_boot l0 l1 l2 rp1); [done..|]. apply (shiftr_nonneg_inv va 48); lia.
  - by rewrite decide_False by intuition.
Qed.

(** ** From the entries to Rust *)
Definition UART0 : Z := 0x1c00030000.

Section phases.
Context (sym : string → Z) (ext : string → cpu → outcome cpu).
Notation reaches := (reaches boot_S KERNEL_PHYS_BASE sym ext translate).

(** Stores to the UART go through, whatever they leave there. *)
Definition uart_mapped (s : sysreg → Z) (m : mem) : Prop :=
  ∀ m', (∀ a, a < 2 ^ 30 → m' a = m a) → translate s m' UART0 = Some UART0.

Definition puts_code (n : nat) (ch : Z) : list instr :=
  [MovI (X n) ch; StrW (X n) (X 21) 0; MovI (X n) 13; StrW (X n) (X 21) 0; MovI (X n) 10; StrW (X n) (X 21) 0].

Definition puts_mem (ch : Z) (m : mem) : mem := store32 UART0 10 (store32 UART0 13 (store32 UART0 ch m)).

Lemma puts_ok o n ch l s p v m o' : block_at boot_S o (puts_code n ch) = true → (n = 1 ∨ n = 2)%nat → 0 ≤ ch < 256 →
  length l = 31%nat → l !! 21%nat = Some UART0 → uart_mapped s m → o' = o + 24 →
  reaches (At o, mkCpu l s p v m) (At o') (λ c, c = mkCpu (<[n := 10]> l) s p v (puts_mem ch m)).
Proof.
  intros Hb Hn Hch Hl Hu Hm ->. explode l Hl. cbn in Hu. injection Hu as ->.
  assert (∀ l' m', (∀ a, a < 2 ^ 30 → m' a = m a) → phys translate (mkCpu l' s p v m') (add64 UART0 0) = Ret UART0) as Hph.
  { intros l' m' He. unfold phys. cbn [sys memory]. change (add64 UART0 0) with UART0. by rewrite (Hm m' He). }
  assert (∀ w m' b, b < 2 ^ 30 → m' b = m b → store32 UART0 w m' b = m b) as Hout.
  { intros w m' b Hb' <-. apply store32_out. unfold UART0. lia. }
  assert (∀ w, 0 ≤ w < 256 → wrap32 w = w) as Hw by (intros w Hw; unfold wrap32; by rewrite Z.mod_small by lia).
  eapply reaches_block; [exact Hb| |apply reaches_now; reflexivity].
  destruct Hn as [-> | ->]; unfold puts_code; run_simpl;
    do 3 (rewrite Hph by (intros; repeat first [done|apply Hout]); run_simpl); by rewrite !Hw by lia.
Qed.

Lemma puts_low ch m a : a < 2 ^ 30 → puts_mem ch m a = m a.
Proof. intros Ha. unfold puts_mem, UART0. by rewrite !store32_out by lia. Qed.

Lemma uart_off s m : mmu_off s → uart_mapped s m.
Proof. intros Hoff m' _. unfold translate. by rewrite Hoff. Qed.

(** A state that runs on the boot tables. *)
Record on_boot_tables (s : sysreg → Z) (m : mem) : Prop := {
  ob_tcr : s TCR_EL1 = tcr_value;
  ob_ttbr : s TTBR0_EL1 = sym "boot_l0" ∧ s TTBR1_EL1 = sym "boot_l0";
  ob_on : Z.testbit (s SCTLR_EL1) 0 = true;
  ob_tables : tables_in (sym "boot_l0") (sym "boot_l1") (sym "boot_l2") (sym "boot_l2_rp1") m
}.

Context (Hl : linked sym).

Lemma linked_tables : table_addresses (sym "boot_l0") (sym "boot_l1") (sym "boot_l2") (sym "boot_l2_rp1").
Proof using Hl.
  destruct Hl as [[H0 _] H1 H2 H3 [H4 H4'] _ _ _ _]. change (KERNEL_PHYS_BASE + size boot_S) with 525292 in H0.
  unfold table_addresses. lia.
Qed.

Lemma on_boot_tables_mapped s m va : on_boot_tables s m → mapped s m va = boot_map va.
Proof using Hl.
  intros [Ht [H0 H1] _ Hm]. eapply boot_mapped; [apply linked_tables|apply Hl|exact Hm|done..].
Qed.

Lemma on_boot_tables_ext s m m' : (∀ a, a < 2 ^ 30 → m' a = m a) → on_boot_tables s m → on_boot_tables s m'.
Proof using Hl. intros He [Ht H0 H1 Hm]. split; [done..|]. eapply tables_in_ext; [apply linked_tables|exact He|done]. Qed.

Lemma uart_on s m : on_boot_tables s m → uart_mapped s m.
Proof using Hl.
  intros Hb m' He. apply (on_boot_tables_ext s m m' He) in Hb. unfold translate. rewrite (ob_on _ _ Hb).
  rewrite (on_boot_tables_mapped s m' UART0 Hb). by vm_compute.
Qed.

Lemma sctlr_on_bit v : Z.testbit (sctlr_on v) 0 = true.
Proof. unfold sctlr_on. rewrite Z.lor_spec. by rewrite orb_true_r. Qed.

Lemma enabled_on s m : on_boot_tables (enabled (sym "boot_l0") s) m ↔
  tables_in (sym "boot_l0") (sym "boot_l1") (sym "boot_l2") (sym "boot_l2_rp1") m.
Proof. split; [by intros []|]. intros Hm. split; [done..| |done]. apply sctlr_on_bit. Qed.

(** *** [el1_start] *)
Lemma spsel_set p : let p' := Z.lor (Z.land p (not64 1)) (Z.land 1 1) in el p' = el p ∧ sp_sel p' = 1.
Proof.
  cbn zeta. change (Z.land 1 1) with 1. split.
  - unfold el. rewrite Z.shiftr_lor, Z.shiftr_land. change (Z.shiftr 1 2) with 0. rewrite Z.lor_0_r, <-Z.land_assoc. f_equal.
  - unfold sp_sel. rewrite Z.land_lor_distr_l, <-Z.land_assoc. change (Z.land (not64 1) 1) with 0. by rewrite Z.land_0_r.
Qed.

Lemma el1_sp p : el p = 1 → sp_sel p = 1 → sp_reg p = SP_EL1.
Proof. intros He Hs. unfold sp_reg. by rewrite He, Hs. Qed.

Lemma sp_reg_same p p' : el p' = el p → sp_sel p' = sp_sel p → sp_reg p' = sp_reg p.
Proof. intros He Hs. unfold sp_reg. by rewrite He, Hs. Qed.

(** The number of a core. *)
Definition core (c : cpu) : Z := Z.land (sys c MPIDR_EL1) 3.

Lemma core_bounds c : 0 ≤ core c < 4.
Proof. unfold core. change 3 with (Z.ones 2). rewrite Z.land_ones by lia. by apply Z.mod_pos_bound. Qed.

(** What [el1_start] leaves. *)
Record started (c c1 : cpu) : Prop := {
  sd_xs : length (xs c1) = 31%nat;
  sd_x20 : xs c1 !! 20%nat = xs c !! 20%nat;
  sd_x0 : get (X 0) c1 = core c;
  sd_mode : el (pstate c1) = el (pstate c) ∧ sp_sel (pstate c1) = 1;
  sd_memory : memory c1 = memory c;
  sd_off : mmu_off (sys c1);
  sd_sys : sys c1 MPIDR_EL1 = sys c MPIDR_EL1 ∧ sys c1 CPACR_EL1 = Z.shiftl 3 20
}.

Lemma el1_start_ok c : length (xs c) = 31%nat →
  reaches (At 120, c) (if decide (core c = 0) then At 208 else At 176) (started c).
Proof.
  intros Hx. destruct c as [l s p v m]. cbn [xs] in Hx. explode l Hx.
  block 13%nat. jump_step. target_simpl. unfold core. cbn [get xs lookup list_lookup default sys].
  match goal with |- context [Z.land (?f MPIDR_EL1) 3] => change (f MPIDR_EL1) with (s MPIDR_EL1) end.
  unfold id. assert (mmu_off (λ r, if decide (r = SCTLR_EL1) then
      Z.land (Z.land (Z.land (s SCTLR_EL1) (not64 1)) (not64 4)) (not64 4096) else s r)) as Hoff.
  { unfold mmu_off. rewrite decide_True by done. by rewrite !Z.land_spec, !andb_false_r. }
  case_decide; apply reaches_now; (split; [done..|apply spsel_set|done|exact Hoff|done]).
Qed.

(** *** The first core *)
(** Zeroing what lies from [a] to [e], a word at a time. *)
Lemma bss_loop n x0 a e rest s p v m : mmu_off s → 0 ≤ a → e - a ≤ 8 * Z.of_nat n → e + 8 < U64 →
  reaches (At 252, mkCpu (x0 :: a :: e :: rest) s p v m) (At 268)
    (λ c, ∃ a' p' m', c = mkCpu (x0 :: a' :: e :: rest) s p' v m' ∧ el p' = el p ∧ sp_sel p' = sp_sel p ∧
      (∀ y, a ≤ y < e → m' y = 0) ∧ ∀ y, y < a ∨ e + 8 ≤ y → m' y = m y).
Proof using Type.
  intros Hoff. revert a p m. induction n as [|n IH]; intros a p m Ha Hn He; block 1%nat; branch.
  - yes. apply reaches_now. eexists a, _, m. split; [done|]. autorewrite with aarch64. split_and!; try done. lia.
  - destruct (decide (e ≤ a)) as [Hle|Hgt].
    + yes. apply reaches_now. eexists a, _, m. split; [done|]. autorewrite with aarch64. split_and!; try done. lia.
    + no. store_block 1%nat ltac:(run_stores Hoff). jump.
      assert (add64 a 8 = a + 8) as -> by (unfold add64, wrap64; by rewrite Z.mod_small by lia).
      eapply reaches_then; [apply IH; lia|]. intros c (a' & p' & m' & -> & Hel & Hsel & Hz & Hm). apply reaches_now.
      exists a', p', m'. autorewrite with aarch64 in Hel, Hsel. split_and!; try done.
      * intros y Hy. destruct (decide (a + 8 ≤ y)); [apply Hz; lia|]. rewrite Hm by lia. apply store64_zero. lia.
      * intros y Hy. rewrite Hm by lia. apply store64_out. lia.
Qed.

(** Where the boot ends: at EL1 on the stack [sp], with the vectors, on the boot tables. *)
Record entered_rust (sp : Z) (c : cpu) : Prop := {
  er_sp : sp_reg (pstate c) = SP_EL1 ∧ sys c SP_EL1 = sp;
  er_vbar : sys c VBAR_EL1 = sym "vector_table";
  er_tables : on_boot_tables (sys c) (memory c)
}.

Lemma on_boot_tables_sys s s' m :
  (∀ r, r = TCR_EL1 ∨ r = TTBR0_EL1 ∨ r = TTBR1_EL1 ∨ r = SCTLR_EL1 → s' r = s r) → on_boot_tables s m → on_boot_tables s' m.
Proof using Type. intros He [Ht [H0 H1] Hon Hm]. split; rewrite ?He by auto; done. Qed.

Lemma gone_kernel a : KERNEL_VIRT_BASE ≤ a → Aarch64.goto boot_S KERNEL_PHYS_BASE a = Gone a.
Proof using Type.
  intros Ha. apply goto_out, fetch_past. change (size boot_S) with 1004.
  change KERNEL_VIRT_BASE with 0xFFFF800000000000 in Ha. change KERNEL_PHYS_BASE with 0x80000. lia.
Qed.

Ltac puts o n ch o' H :=
  eapply reaches_then; [eapply (puts_ok o n ch _ _ _ _ _ o');
    [by vm_compute|by auto|done|by rewrite ?length_insert|done|exact H|done]|];
  intros ? ->; cbn [insert list_insert].

Lemma on_boot_tables_puts s ch m : on_boot_tables s m → on_boot_tables s (puts_mem ch m).
Proof using Hl. apply on_boot_tables_ext. intros a Ha. by apply puts_low. Qed.

(** Up to the return of [boot_enable_mmu]. *)
Lemma first_core_builds c : length (xs c) = 31%nat → mmu_off (sys c) → sp_reg (pstate c) = SP_EL1 →
  reaches (At 208, c) (At 296) (λ c', length (xs c') = 31%nat ∧ xs c' !! 20%nat = xs c !! 20%nat ∧ xs c' !! 21%nat = Some UART0 ∧
    on_boot_tables (sys c') (memory c') ∧ el (pstate c') = el (pstate c) ∧ sp_reg (pstate c') = SP_EL1 ∧
    sys c' CPACR_EL1 = sys c CPACR_EL1 ∧
    ∀ y, sym "__bss_start_phys" ≤ y < sym "__bss_end_phys" → memory c' y = 0).
Proof.
  intros Hx Hoff Hsp. destruct c as [l s p v m]. cbn [xs sys pstate] in *. explode l Hx.
  destruct linked_tables as (T0 & T1 & T2 & T3 & T4). pose proof (lk_bss _ Hl) as [[B0 B1] B2].
  match goal with |- reaches _ _ ?q => set (Q := q) end.
  block 3%nat. value_simpl. rewrite Hsp. set (s1 := set_sysf SP_EL1 _ s).
  assert (mmu_off s1) as Hoff1 by exact Hoff.
  puts 220 1%nat 66 244 (uart_off s1 m Hoff1). block 2%nat. value_simpl.
  eapply reaches_then; [apply (bss_loop (Z.to_nat (sym "__bss_end_phys" - sym "__bss_start_phys"))); [done|lia..]|].
  intros c (a' & p1 & m1 & -> & Hel1 & Hsel1 & Hz & _).
  puts 268 1%nat 98 292 (uart_off s1 m1 Hoff1). jump_step. run_simpl.
  eapply reaches_then; [by apply enable_runs; [|apply linked_tables]|].
  intros c (y0 & y1 & y2 & y3 & y4 & y5 & y6 & y7 & s2 & p2 & -> & Hs2 & Hel2 & Hsel2).
  jump_step. reg_simpl.
  change (Aarch64.goto boot_S KERNEL_PHYS_BASE (KERNEL_PHYS_BASE + 292 + 4)) with (At 296).
  apply reaches_now. unfold Q. clear Q. cbn [xs sys pstate memory]. split_and!; try done.
  - apply (on_boot_tables_sys (enabled (sym "boot_l0") s1)); [by intros r _|]. apply enabled_on, build_tables_in, linked_tables.
  - by rewrite Hel2.
  - rewrite <-Hsp. apply sp_reg_same; [by rewrite Hel2|by rewrite Hsel2].
  - intros y Hy. rewrite build_tables_out by (first [apply linked_tables|lia]). rewrite puts_low by lia. by apply Hz.
Qed.

(** With the MMU on, to Rust. *)
Lemma first_core_enters c : length (xs c) = 31%nat → xs c !! 21%nat = Some UART0 → sp_reg (pstate c) = SP_EL1 →
  on_boot_tables (sys c) (memory c) →
  reaches (At 296, c) (Gone (sym "kernel_main")) (λ c', entered_rust (sym "__stack_end") c' ∧
    Some (get (X 0) c') = xs c !! 20%nat ∧ pstate c' = pstate c ∧ sys c' CPACR_EL1 = sys c CPACR_EL1 ∧
    ∀ y, y < 2 ^ 30 → memory c' y = memory c y).
Proof.
  intros Hx Hu Hsp Hon. destruct c as [l s p v m]. cbn [xs sys pstate memory] in *. explode l Hx.
  cbn in Hu. injection Hu as ->. match goal with |- reaches _ _ ?q => set (Q := q) end.
  puts 296 1%nat 109 320 (uart_on s m Hon). apply (on_boot_tables_puts _ 109) in Hon. block 3%nat. value_simpl.
  set (s1 := set_sysf VBAR_EL1 (sym "vector_table") s).
  apply (on_boot_tables_sys s s1) in Hon; [|by intros r [->|[->|[->| ->]]]].
  puts 332 1%nat 118 356 (uart_on s1 _ Hon). apply (on_boot_tables_puts _ 118) in Hon. block 2%nat. value_simpl.
  rewrite Hsp. set (s2 := set_sysf SP_EL1 (sym "__stack_end") s1).
  apply (on_boot_tables_sys s1 s2) in Hon; [|by intros r [->|[->|[->| ->]]]].
  puts 364 1%nat 115 388 (uart_on s2 _ Hon). apply (on_boot_tables_puts _ 115) in Hon. block 1%nat.
  puts 392 2%nat 107 416 (uart_on s2 _ Hon). apply (on_boot_tables_puts _ 107) in Hon. block 1%nat. value_simpl.
  jump_step. reg_simpl. rewrite gone_kernel by apply Hl. apply reaches_now. unfold Q. clear Q.
  split; [split; [by split|done|exact Hon]|]. do 3 (split; [done|]).
  intros y Hy. cbn [memory]. by rewrite !puts_low by lia.
Qed.

(** *** The other cores *)
Definition secondary_sp (c : cpu) : Z := sym "__secondary_stacks" + 0x4000 * (core c + 1).

Lemma stack_of k : 0 ≤ k < 4 →
  add64 (add64 (sym "__secondary_stacks") (mul64 k 0x4000)) 0x4000 = sym "__secondary_stacks" + 0x4000 * (k + 1).
Proof using Hl.
  intros Hk. pose proof (lk_stacks _ Hl) as [H0 H1]. pose proof (lk_l0 _ Hl) as [H2 _]. pose proof (lk_bss _ Hl) as [[B0 B1] B2].
  change (KERNEL_PHYS_BASE + size boot_S) with 525292 in H2. change KERNEL_VIRT_BASE with 0xFFFF800000000000 in *.
  unfold add64, mul64, wrap64. rewrite (Z.mod_small (k * 0x4000)), (Z.mod_small (sym "__secondary_stacks" + k * 0x4000)) by lia.
  rewrite Z.mod_small by lia. lia.
Qed.

Lemma secondary_setup_ok c : length (xs c) = 31%nat → mmu_off (sys c) → el (pstate c) = 1 →
  reaches (At 548, c) (Gone (sym "secondary_rust_entry")) (λ c', entered_rust (secondary_sp c) c' ∧
    el (pstate c') = 1 ∧ sys c' CPACR_EL1 = Z.shiftl 3 20 ∧
    ∀ y, y < sym "boot_l0" ∨ sym "boot_l0" + 0x4000 ≤ y → memory c' y = memory c y).
Proof.
  intros Hx Hoff Hel. unfold secondary_sp. pose proof (core_bounds c) as Hc. destruct c as [l s p v m]. unfold core in *. cbn [xs sys pstate] in *. explode l Hx.
  destruct (spsel_set p) as [Hel' Hsel']. rewrite Hel in Hel'.
  match goal with |- reaches _ _ ?q => set (Q := q) end.
  block 15%nat. value_simpl. rewrite (el1_sp _ Hel' Hsel').
  set (k := Z.land (s MPIDR_EL1) 3) in *. set (s1 := set_sysf SP_EL1 _ _). set (p1 := Z.lor _ _) in *.
  assert (mmu_off s1) as Hoff1 by exact Hoff.
  jump_step. run_simpl.
  eapply reaches_then; [by apply enable_runs; [|apply linked_tables]|].
  intros c (y0 & y1 & y2 & y3 & y4 & y5 & y6 & y7 & s2 & p2 & -> & Hs2 & Hel2 & Hsel2).
  jump_step.
  reg_simpl.
  change (Aarch64.goto boot_S KERNEL_PHYS_BASE (KERNEL_PHYS_BASE + 608 + 4)) with (At 612).
  block 9%nat. value_simpl. rewrite (el1_sp p2) by (rewrite ?Hel2, ?Hsel2; done). rewrite stack_of by done.
  jump_step.
  reg_simpl.
  rewrite gone_kernel by apply Hl. apply reaches_now. unfold Q. clear Q. split; [split|split; [|split]]; cbn [pstate sys memory].
  - split; [apply el1_sp; by rewrite ?Hel2, ?Hsel2|done].
  - done.
  - apply (on_boot_tables_sys (enabled (sym "boot_l0") s1)).
    + intros r [->|[->|[->| ->]]]; apply Hs2.
    + apply enabled_on, build_tables_in, linked_tables.
  - by rewrite Hel2.
  - change (s2 CPACR_EL1 = Z.shiftl 3 20). by rewrite Hs2.
  - intros y Hy. apply build_tables_out; [apply linked_tables|done].
Qed.

(** The word of [__secondary_table] a core polls, where it lies before the MMU is on. *)
Definition release_word (c : cpu) : Z := load64 (memory c) (sym "__secondary_table" - KERNEL_VIRT_BASE + 8 * core c).

(** A turn of the loop at line 109: the core goes on when its word is not 0, and polls again otherwise. *)
Lemma release_poll c : length (xs c) = 31%nat → mmu_off (sys c) → get (X 0) c = core c →
  reaches (At 176, c) (if decide (release_word c = 0) then At 176 else At 548)
    (λ c', sys c' = sys c ∧ pstate c' = pstate c ∧ memory c' = memory c ∧ get (X 0) c' = core c ∧ length (xs c') = 31%nat).
Proof.
  intros Hx Hoff H0. unfold release_word. pose proof (core_bounds c) as Hc. pose proof (lk_table _ Hl) as [H1 H2].
  pose proof (lk_l0 _ Hl) as [H3 _]. pose proof (lk_base _ Hl) as Hb.
  change (KERNEL_PHYS_BASE + size boot_S) with 525292 in H3.
  destruct c as [l s p v m]. unfold core in *. cbn [xs sys pstate memory] in *. explode l Hx.
  cbn in H0. subst z. set (k := Z.land (s MPIDR_EL1) 3) in *.
  match goal with |- reaches _ _ ?q => set (Q := q) end.
  block 3%nat. value_simpl. rewrite Hb.
  assert (add64 (sub64 (sym "__secondary_table") KERNEL_VIRT_BASE) (shl64 k 3) = sym "__secondary_table" - KERNEL_VIRT_BASE + 8 * k) as Ha.
  { change KERNEL_VIRT_BASE with 0xFFFF800000000000 in *. unfold add64, sub64, shl64, wrap64. change (3 mod 64) with 3.
    rewrite Z.shiftl_mul_pow2 by lia. change (2 ^ 3) with 8. rewrite (Z.mod_small (k * 8)) by lia.
    rewrite (Z.mod_small (sym "__secondary_table" - _)) by lia. rewrite Z.mod_small by lia. lia. }
  store_block 1%nat ltac:(run_simpl; rewrite Ha, (load_off _ s p v m _ Hoff); run_simpl). set (w := load64 m _).
  jump_step. target_simpl.
  reg_simpl. case_decide.
  - block 1%nat. jump. apply reaches_now. unfold Q. done.
  - jump. apply reaches_now. unfold Q. done.
Qed.

(** The first instruction. *)
Lemma first_instruction c : reaches (At 0, c) (At 4) (λ c1, c1 = set (X 20) (wrap32 (get (X 0) c)) c).
Proof using Type.
  eapply (reaches_block boot_S KERNEL_PHYS_BASE sym ext translate 0 [MovW (X 20) (X 0)] c); [by vm_compute|reflexivity|].
  by apply reaches_now.
Qed.

(** *** The theorems *)

(** [boot_enable_mmu] builds what the boot relies on: run with the MMU off, it comes to its return with the MMU
    on, and the walk of the tables in memory then maps every 64-bit address as [boot_map] says, the first GiB and the
    RP1 window at their own addresses and at the kernel's base, with the peripherals as device memory, and nothing
    else; of memory only the tables have changed. *)
Theorem boot_mmu_maps c : length (xs c) = 31%nat → mmu_off (sys c) →
  reaches (At 660, c) (At 1000) (λ c', Z.testbit (sys c' SCTLR_EL1) 0 = true ∧ sys c' MAIR_EL1 = mair_value ∧
    (∀ va, mapped (sys c') (memory c') va = boot_map va) ∧
    (∀ y, y < sym "boot_l0" ∨ sym "boot_l0" + 0x4000 ≤ y → memory c' y = memory c y) ∧ drop 8 (xs c') = drop 8 (xs c)).
Proof using Hl.
  intros Hx Hoff. destruct c as [l s p v m]. cbn [xs sys] in *. do 8 (destruct l as [|? l]; [discriminate Hx|]).
  eapply reaches_then; [by apply enable_runs; [|apply linked_tables]|].
  intros c (y0 & y1 & y2 & y3 & y4 & y5 & y6 & y7 & s' & p' & -> & Hs & _). apply reaches_now. cbn [xs sys memory].
  split; [rewrite Hs; apply sctlr_on_bit|]. split; [by rewrite Hs|]. split; [|split; [|done]].
  - intros va. apply on_boot_tables_mapped. apply (on_boot_tables_sys (enabled (sym "boot_l0") s)); [by intros r _|].
    apply enabled_on, build_tables_in, linked_tables.
  - intros y Hy. apply build_tables_out; [apply linked_tables|done].
Qed.

(** C5. The first core boots: from [_start] at EL1 or EL2, or at EL3 if the firmware has left HCR_EL2.RW set
    ([can_drop]; without it [el3_needs_rw]), it comes to [kernel_main] at EL1, with the low 32 bits of
    x0, the device tree's address, as its argument, the BSS all zero, the vectors installed, floating point
    enabled, on the kernel's stack, and with the boot map in force. *)
Theorem first_core_boots c : length (xs c) = 31%nat → can_drop c → core c = 0 →
  reaches (At 0, c) (Gone (sym "kernel_main")) (λ c', get (X 0) c' = wrap32 (get (X 0) c) ∧
    el (pstate c') = 1 ∧ sp_reg (pstate c') = SP_EL1 ∧ sys c' SP_EL1 = sym "__stack_end" ∧
    sys c' VBAR_EL1 = sym "vector_table" ∧ sys c' CPACR_EL1 = Z.shiftl 3 20 ∧
    (∀ y, sym "__bss_start_phys" ≤ y < sym "__bss_end_phys" → memory c' y = 0) ∧
    ∀ va, mapped (sys c') (memory c') va = boot_map va).
Proof using Hl.
  intros Hx Hd Hc.
  eapply reaches_then; [apply first_instruction|]. intros ? ->. set (c1 := set _ _ _).
  eapply reaches_then; [apply (drop_primary sym ext c1); [by cbn; rewrite length_insert|exact Hd]|].
  intros c2 [Dx Dd De Dm [Ds1 Ds2] _].
  eapply reaches_then; [apply (el1_start_ok c2 Dx)|]. intros c3 [Sx S20 S0 [Se Ss] Sm Soff [Sy1 Sy2]].
  assert (core c2 = 0) as -> by (unfold core in *; by rewrite Ds2). rewrite decide_True by done.
  assert (sp_reg (pstate c3) = SP_EL1) as Hsp by (apply el1_sp; [by rewrite Se|done]).
  eapply reaches_then; [by apply (first_core_builds c3)|].
  intros c4 (Bx & B20 & B21 & Bon & Be & Bs & Bc & Bz).
  eapply reaches_then; [by apply (first_core_enters c4)|].
  intros c5 ([[E1 E2] E3 E4] & E0 & Ep & Ec & Em). apply reaches_now.
  assert (get (X 0) c5 = wrap32 (get (X 0) c)) as ->.
  { apply (inj Some). rewrite E0, B20, S20. transitivity (drop 2 (xs c2) !! 18%nat); [by rewrite lookup_drop|]. rewrite Dd, lookup_drop.
    unfold c1, set, with_xs. cbn [xs]. rewrite list_lookup_insert_eq; [done|]. rewrite Hx. lia. }
  rewrite Ep, Be, Se, Ec, Bc. split_and!; try done.
  - intros y Hy. pose proof (lk_bss _ Hl) as [_ B2]. rewrite Em by lia. by apply Bz.
  - intros va. by apply on_boot_tables_mapped.
Qed.

(** C6. The other cores boot: released at [secondary_start] with the MMU off, at EL1 or EL2, or at EL3 if the
    firmware has left HCR_EL2.RW set ([can_drop]), a core comes to [secondary_rust_entry] at EL1 on the stack of its own number, four disjoint ones, with the vectors, floating point
    enabled and the boot map in force, and has written nothing but the boot tables. *)
Theorem secondary_core_boots c : length (xs c) = 31%nat → can_drop c → mmu_off (sys c) →
  reaches (At 432, c) (Gone (sym "secondary_rust_entry")) (λ c',
    el (pstate c') = 1 ∧ sp_reg (pstate c') = SP_EL1 ∧
    sys c' SP_EL1 = sym "__secondary_stacks" + 0x4000 * (core c + 1) ∧ 0 ≤ core c < 4 ∧
    sys c' VBAR_EL1 = sym "vector_table" ∧ sys c' CPACR_EL1 = Z.shiftl 3 20 ∧
    (∀ y, y < sym "boot_l0" ∨ sym "boot_l0" + 0x4000 ≤ y → memory c' y = memory c y) ∧
    ∀ va, mapped (sys c') (memory c') va = boot_map va).
Proof using Hl.
  intros Hx Hd Hoff. eapply reaches_then; [by apply (drop_secondary sym ext c)|].
  intros c2 [Dx Dd De Dm [Ds1 Ds2] _].
  eapply reaches_then; [apply (secondary_setup_ok c2); [done|by unfold mmu_off; rewrite Ds1|done]|].
  intros c3 ([[E1 E2] E3 E4] & Ee & Ec & Em). apply reaches_now. unfold secondary_sp, core in *. rewrite Ds2 in E2.
  split_and!; try done; try apply (core_bounds c).
  - intros y Hy. rewrite Em, Dm; done.
  - intros va. by apply on_boot_tables_mapped.
Qed.

(** A core at the loop of line 109. *)
Record parked (id : Z) (c : cpu) : Prop := {
  pk_xs : length (xs c) = 31%nat;
  pk_x0 : get (X 0) c = id;
  pk_core : core c = id;
  pk_off : mmu_off (sys c);
  pk_el : el (pstate c) = 1
}.

Lemma parked_polls id c : parked id c →
  reaches (At 176, c) (if decide (release_word c = 0) then At 176 else At 548) (λ c', parked id c' ∧ memory c' = memory c).
Proof using Hl.
  intros [Hx H0 Hc Hoff He]. eapply reaches_then; [apply release_poll; [done|done|by rewrite Hc]|].
  intros c' (Hs & Hp & Hm & H0' & Hx'). apply reaches_now. split; [|done].
  split; [done|by rewrite H0'|unfold core in *; by rewrite Hs|by rewrite Hs|by rewrite Hp].
Qed.

Lemma released_word c (t : list Z) w : load_words (memory c) (sym "__secondary_table" - KERNEL_VIRT_BASE) 4 = t →
  t !! Z.to_nat (core c) = Some w → release_word c = w.
Proof using Type.
  intros Ht Hw. rewrite <-Ht in Hw. apply load64_words in Hw. pose proof (core_bounds c). by rewrite Z2Nat.id in Hw by lia.
Qed.

(** C7. The other cores wait until the first releases them: one that enters at [_start], at EL1 or EL2, or at EL3
    if the firmware has left HCR_EL2.RW set ([can_drop]), comes to a loop with memory as it was; there it polls again as long as [__secondary_table] is as the image has it; and
    once the table is what [start_secondary_cores] makes of it, the core's next poll is its last, and it comes to
    [secondary_rust_entry] on its own stack with the boot map in force. *)
Theorem secondary_core_waits c : length (xs c) = 31%nat → can_drop c → core c ≠ 0 →
  reaches (At 0, c) (At 176) (λ c', parked (core c) c' ∧ memory c' = memory c) ∧
  ∀ c', parked (core c) c' → let table := load_words (memory c') (sym "__secondary_table" - KERNEL_VIRT_BASE) 4 in
    (table = Smp.secondary_table Smp.state_new →
      reaches (At 176, c') (At 176) (λ c'', parked (core c) c'' ∧ memory c'' = memory c')) ∧
    ∀ b entry t, Smp.start_secondary_cores b entry Smp.state_new = Ret t → entry ≠ 0 → table = Smp.secondary_table t →
      reaches (At 176, c') (Gone (sym "secondary_rust_entry")) (λ c'', el (pstate c'') = 1 ∧
        sp_reg (pstate c'') = SP_EL1 ∧ sys c'' SP_EL1 = sym "__secondary_stacks" + 0x4000 * (core c + 1) ∧
        ∀ va, mapped (sys c'') (memory c'') va = boot_map va).
Proof using Hl.
  intros Hx Hd Hc. split.
  - eapply reaches_then; [apply first_instruction|]. intros ? ->. set (c1 := set _ _ _).
    eapply reaches_then; [apply (drop_primary sym ext c1); [by cbn; rewrite length_insert|exact Hd]|].
    intros c2 [Dx Dd De Dm [Ds1 Ds2] _].
    eapply reaches_then; [apply (el1_start_ok c2 Dx)|]. intros c3 [Sx S20 S0 [Se Ss] Sm Soff [Sy1 Sy2]].
    assert (core c2 = core c) as Hc2 by (unfold core; by rewrite Ds2). rewrite Hc2, decide_False by done.
    apply reaches_now. rewrite Sm, Dm. split; [|done].
    split; [done|by rewrite S0|unfold core in *; by rewrite Sy1|done|by rewrite Se].
  - intros c' Hp. pose proof (core_bounds c) as Hb. pose proof (parked_polls _ _ Hp) as Hpoll.
    assert (∀ t w, load_words (memory c') (sym "__secondary_table" - KERNEL_VIRT_BASE) 4 = t →
      t !! Z.to_nat (core c) = Some w → release_word c' = w) as Hword.
    { intros t w Ht Hw. apply (released_word c' t); [done|]. by rewrite (pk_core _ _ Hp). }
    split.
    + intros Ht. rewrite (Hword _ 0 Ht) in Hpoll; [exact Hpoll|]. apply lookup_replicate. split; [done|]. lia.
    + intros b entry t Hs He Ht. rewrite Smp.start_secondary_cores_ok in Hs. injection Hs as <-.
      rewrite (Hword _ entry Ht), decide_False in Hpoll; [|done|].
      * eapply reaches_then; [exact Hpoll|]. intros c1 [[Hx1 H01 Hc1 Hoff1 He1] _].
        eapply reaches_then; [by apply secondary_setup_ok|]. intros c2 ([[E1 E2] E3 E4] & Ee & _). apply reaches_now.
        unfold secondary_sp in E2. rewrite Hc1 in E2. split_and!; try done. intros va. by apply on_boot_tables_mapped.
      * assert (core c = 1 ∨ core c = 2 ∨ core c = 3) as [-> |[-> | ->]] by lia; done.
Qed.

(** The tables are shared, and every core that boots builds them again: once it has passed the first loop, no other
    core that still translates through them, as every core does until [secondary_rust_entry] has switched to the
    kernel's tables, has any mapping at all. *)
Theorem rebuilding_unmaps c : length (xs c) = 31%nat → mmu_off (sys c) →
  reaches (At 660, c) (At 684) (λ c', ∀ d, on_boot_tables (sys d) (memory c) →
    ∀ va, mapped (sys d) (memory c) va = boot_map va ∧ mapped (sys d) (memory c') va = None).
Proof using Hl.
  intros Hx Hoff. destruct c as [l s p v m]. cbn [xs sys] in *. do 8 (destruct l as [|? l]; [discriminate Hx|]).
  destruct linked_tables as (T0 & T1 & T2 & T3 & T4).
  block 3%nat. value_simpl.
  eapply reaches_then; [apply (clear_loop sym ext 672 "L301" _ s p v m (sym "boot_l0") 511 Hoff); [by vm_compute..|lia|lia]|].
  intros c (p1 & -> & _). apply reaches_now. cbn [memory]. intros d Hon va. split; [by apply on_boot_tables_mapped|].
  destruct Hon as [Ht [H0 H1] _ _]. unfold mapped. rewrite Ht, enabled_regime, H0, H1. cbn [negb].
  destruct (table_of_table (sym "boot_l0")) as (-> & _); [lia|apply Hl|].
  assert (∀ va, 0 ≤ va → walk (store_words (sym "boot_l0") (zeros 512) m) 3 (sym "boot_l0") va = None) as Hw.
  { intros va' Hva. apply (walk_invalid _ 3 _ _ _ eq_refl). apply load64_zeros_at.
    unfold index_at. rewrite index_field by lia. by apply Z.mod_pos_bound. }
  repeat case_decide; try done; apply Hw, (shiftr_nonneg_inv va 48); lia.
Qed.
End phases.

(** ** Concrete boots *)

(** An image of 1 MiB of code, and cores at EL2 with their firmware's registers. *)
Definition demo_sections : sections := mkSections 0x500 0x100000 0x20000 0x8000 0x200000 0x800 0x1000 0x2000 0 0x10000.
Definition cold_core (id : Z) : cpu :=
  mkCpu (0xdead00002eff0000 :: replicate 30 0) (λ r, if decide (r = MPIDR_EL1) then 0x80000000 + id else 0) 0x3c9 (replicate 32 0) (λ _, 0xff).

Lemma demo_linked : linked (link demo_sections).
Proof. apply link_linked. split; [split_and!; by vm_compute| |by vm_compute]. split_and!; by vm_compute. Qed.

Lemma boot_mmu_maps_witness : reaches boot_S KERNEL_PHYS_BASE (link demo_sections) (λ _ c, Ret c) translate (At 660, cold_core 0) (At 1000)
  (λ c', mapped (sys c') (memory c') 0x3F201000 = Some (0x3F201000, 0) ∧ mapped (sys c') (memory c') 0x40000000 = None).
Proof.
  destruct (boot_mmu_maps (link demo_sections) (λ _ c, Ret c) demo_linked (cold_core 0)) as (c' & Hs & _ & _ & Hm & _); [done|done|].
  exists c'. split; [exact Hs|]. rewrite !Hm. by vm_compute.
Defined.

Lemma first_core_boots_witness : reaches boot_S KERNEL_PHYS_BASE (link demo_sections) (λ _ c, Ret c) translate (At 0, cold_core 0)
  (Gone (KERNEL_VIRT_BASE + 0x201000)) (λ c', get (X 0) c' = 0x2eff0000 ∧ memory c' 0x330000 = 0).
Proof.
  destruct (first_core_boots (link demo_sections) (λ _ c, Ret c) demo_linked (cold_core 0)) as (c' & Hs & H0 & _ & _ & _ & _ & _ & Hz & _);
    [done|right; by left|by vm_compute|].
  exists c'. split; [exact Hs|]. split; [exact H0|]. apply Hz. by vm_compute.
Defined.

Lemma secondary_core_boots_witness : reaches boot_S KERNEL_PHYS_BASE (link demo_sections) (λ _ c, Ret c) translate (At 432, cold_core 2)
  (Gone (KERNEL_VIRT_BASE + 0x202000)) (λ c', sys c' SP_EL1 = link demo_sections "__secondary_stacks" + 0xC000).
Proof.
  destruct (secondary_core_boots (link demo_sections) (λ _ c, Ret c) demo_linked (cold_core 2)) as (c' & Hs & _ & _ & Hsp & _);
    [done|right; by left|by vm_compute|].
  exists c'. split; [exact Hs|exact Hsp].
Defined.

(** Core 3 parked, its word of the table at 0x322000 written. *)
Definition parked_core : cpu :=
  mkCpu (3 :: replicate 30 0) (λ r, if decide (r = MPIDR_EL1) then 0x80000003 else 0) 0x3c5 (replicate 32 0)
    (store_words (link demo_sections "__secondary_table" - KERNEL_VIRT_BASE) [0; 0x80300; 0x80300; 0x80300] (λ _, 0)).

Lemma secondary_core_waits_witness :
  reaches boot_S KERNEL_PHYS_BASE (link demo_sections) (λ _ c, Ret c) translate (At 0, cold_core 3) (At 176)
    (λ c', memory c' = memory (cold_core 3)) ∧
  reaches boot_S KERNEL_PHYS_BASE (link demo_sections) (λ _ c, Ret c) translate (At 176, parked_core)
    (Gone (KERNEL_VIRT_BASE + 0x202000)) (λ c', sys c' SP_EL1 = link demo_sections "__secondary_stacks" + 0x10000).
Proof.
  destruct (secondary_core_waits (link demo_sections) (λ _ c, Ret c) demo_linked (cold_core 3)) as [(c' & Hs & _ & Hm) Hgo];
    [done|right; by left|by vm_compute|].
  split; [exists c'; split; [exact Hs|exact Hm]|].
  destruct (Hgo parked_core) as [_ Hrel]; [by split; vm_compute|].
  destruct (Hrel Qemu 0x80300 _ (Smp.start_secondary_cores_ok Qemu 0x80300)) as (c2 & Hs2 & _ & _ & Hsp & _).
  - done.
  - cbn [Smp.secondary_table]. apply (load_store_words _ [0; 0x80300; 0x80300; 0x80300]).
    by apply words_u64; vm_compute.
  - exists c2. split; [exact Hs2|exact Hsp].
Defined.
