(* ===== verification/Switch.v ===== *)
(** * From the boot tables to the kernel's

    [boot.S] enters Rust on the boot tables; [paging::init] on the first core, and [secondary_rust_entry] on the
    others, then put the kernel's tables in their place while they run on them.  Here the tables [Paging] builds
    are words in the memory of the processor of [Aarch64], and its walk is the one [Paging] states its theorems
    with.

    Shown: the switch moves nothing: an address of RAM has the same translation, with the same memory type, before
    and after it and between the writes of the two base registers. *)
From S2P Require Import Prelude Bits Layout Memory Region Mmu Paging.
From S2P Require Aarch64.
From S2P Require Import BootAsm.
Local Open Scope Z_scope.

(** The memory holds the tables of [s], each at its physical address. *)
Definition holds (a : addresses) (s : state) (m : mem) : Prop :=
  ∀ pa i d, read_desc a s pa i = Some d → 0 ≤ i < 512 → load64 m (pa + 8 * i) = d mod U64.

(** A memory that does. *)
Definition image (a : addresses) (s : state) : mem := λ y,
  match read_desc a s (y - y mod 4096) (y mod 4096 / 8) with
  | Some d => byte_of d (y mod 8)
  | None => 0
  end.

Lemma byte_of_mod v n k : 0 ≤ k → 8 * k + 8 ≤ n → byte_of (v mod 2 ^ n) k = byte_of v k.
Proof.
  intros Hk Hn. unfold byte_of. change 256 with (2 ^ 8). apply Z.bits_inj'. intros i Hi. destruct (decide (i < 8)).
  - rewrite !Z.mod_pow2_bits_low, !Z.div_pow2_bits by lia. by rewrite Z.mod_pow2_bits_low by lia.
  - by rewrite !Z.mod_pow2_bits_high by lia.
Qed.

Lemma byte_of_high v k : 0 ≤ k → byte_of (v / U32) k = byte_of v (4 + k).
Proof.
  intros Hk. unfold byte_of. change U32 with (2 ^ 32). rewrite Z.div_div by lia. rewrite <-Z.pow_add_r by lia.
  do 3 f_equal. lia.
Qed.

(** A word is its eight bytes. *)
Lemma load64_bytes m a d : (∀ k, 0 ≤ k < 8 → m (a + k) = byte_of d k) → load64 m a = d mod U64.
Proof.
  intros Hm. set (w := d mod U64).
  assert (is_u32 (w mod U32) ∧ is_u32 (w / U32)) as [Hlo Hhi].
  { unfold w, is_u32. change U64 with (U32 * U32). split; [by apply Z.mod_pos_bound|].
    split; [by apply Z.div_pos; [apply Z.mod_pos_bound|]|apply Z.div_lt_upper_bound; [done|by apply Z.mod_pos_bound]]. }
  assert (∀ k, 0 ≤ k < 8 → m (a + k) = byte_of w k) as Hw.
  { intros k Hk. rewrite Hm by lia. unfold w. change U64 with (2 ^ 64). by rewrite byte_of_mod by lia. }
  assert (load32 m a = w mod U32 ∧ load32 m (a + 4) = w / U32) as [Hl Hh].
  { rewrite <-(word_bytes _ Hlo) at 1. rewrite <-(word_bytes _ Hhi). change U32 with (2 ^ 32) at 1 2 3 4.
    rewrite !byte_of_mod by lia. rewrite !byte_of_high by lia. unfold load32.
    replace (a + 4 + 1) with (a + 5) by lia. replace (a + 4 + 2) with (a + 6) by lia. replace (a + 4 + 3) with (a + 7) by lia.
    rewrite <-(Hw 0), <-(Hw 1), <-(Hw 2), <-(Hw 3) by lia. rewrite Z.add_0_r.
    rewrite <-(Hw (4 + 0)), <-(Hw (4 + 1)), <-(Hw (4 + 2)), <-(Hw (4 + 3)) by lia. done. }
  unfold load64. rewrite Hl, Hh. pose proof (Z.div_mod w U32 ltac:(lia)). lia.
Qed.

Section placed.
Context (a : addresses) (Ha : placed a).

Lemma table_at_aligned s pa t : table_at a s pa = Some t → pa mod 4096 = 0.
Proof.
  intros Ht. pose proof (placed_roots _ Ha) as Hr. rewrite Forall_forall in Hr.
  assert (∀ va, va ∈ roots a → virt_to_phys va mod 4096 = 0) as Hroot.
  { intros va Hva. destruct (Hr va Hva) as (? & ? & Hm & _). unfold PAGE_SIZE in *.
    destruct (virt_to_phys_static va) as [-> _]; [lia|]. rewrite Zminus_mod, Hm. done. }
  unfold table_at in Ht. do 4 (case_decide as Hc; [rewrite Hc; apply Hroot; unfold roots; set_solver|clear Hc]).
  assert (∀ pva j, pva mod 4096 = 0 → pool_index pva (phys_to_virt pa) = Ret j → pa mod 4096 = 0) as Hpool.
  { intros pva j Hp Hj. unfold pool_index in Hj. case_decide as Hd; [|done]. destruct Hd as [_ Hd].
    unfold phys_to_virt, add64, wrap64, PHYS_MAP_BASE, KERNEL_VIRT_BASE, PAGE_SIZE in Hd. clear -Hp Hd.
    Z.to_euclidean_division_equations. lia. }
  pose proof (placed_K _ Ha) as (_ & _ & HK). pose proof (placed_U _ Ha) as (_ & _ & HU).
  destruct (pool_index (K_POOL_va a) (phys_to_virt pa)) as [j| | |] eqn:Hj; [by apply (Hpool _ _ HK Hj)|..];
    (destruct (pool_index (U_POOL_va a) (phys_to_virt pa)) as [j'| | |] eqn:Hj'; [by apply (Hpool _ _ HU Hj')|done..]).
Qed.

Lemma image_holds s : holds a s (image a s).
Proof.
  intros pa i d Hd Hi. apply load64_bytes. intros k Hk. unfold image.
  assert (pa mod 4096 = 0) as Hpa.
  { unfold read_desc in Hd. destruct (table_at a s pa) as [t|] eqn:Ht; [|done]. by apply (table_at_aligned s pa t). }
  assert ((pa + 8 * i + k) mod 4096 = 8 * i + k) as Hoff.
  { rewrite <-Z.add_assoc, Z.add_mod, Hpa by done. rewrite Z.add_0_l, Z.mod_mod by done. apply Z.mod_small. lia. }
  rewrite Hoff. replace (pa + 8 * i + k - (8 * i + k)) with pa by lia.
  replace ((8 * i + k) / 8) with i by (apply (Z.div_unique _ _ _ k); lia). rewrite Hd. f_equal.
  clear -Hpa Hk. Z.to_euclidean_division_equations. lia.
Qed.

(** ** The two walks *)
Lemma bits_of_mod d n : 0 ≤ n < 64 → Z.testbit (d mod U64) n = Z.testbit d n.
Proof. intros Hn. change U64 with (2 ^ 64). by rewrite Z.mod_pow2_bits_low by lia. Qed.

Lemma land_of_mod d c : 0 ≤ c < U64 → Z.land (d mod U64) c = Z.land d c.
Proof.
  intros Hc. apply Z.bits_inj'. intros n Hn. rewrite !Z.land_spec. destruct (decide (n < 64)).
  - by rewrite bits_of_mod by lia.
  - rewrite (u64_testbit_high c n) by (done || lia). by rewrite !andb_false_r.
Qed.

Lemma low_bits d v : Z.land d 3 = v → Z.testbit d 0 = Z.testbit v 0 ∧ Z.testbit d 1 = Z.testbit v 1.
Proof. intros <-. by rewrite !Z.land_spec, !andb_true_r. Qed.

(** A table descriptor leads both to the same table. *)
Lemma table_step s m n pa va d t : holds a s m → read_desc a s pa (Aarch64.index_at (12 + 9 * Z.of_nat (S n)) va) = Some d →
  next_table d = Some t → 0 ≤ va → Aarch64.walk m (S n) pa va = Aarch64.walk m n t va.
Proof.
  intros Hm Hd Ht Hva. unfold next_table in Ht. case_decide as H3; [|done]. injection Ht as <-.
  destruct (low_bits d _ H3) as [H0 H1]. set (i := Aarch64.index_at _ va) in *.
  assert (0 ≤ i < 512) as Hi.
  { unfold i, Aarch64.index_at. rewrite index_field by lia. by apply Z.mod_pos_bound. }
  erewrite (walk_table m n pa va i (d mod U64)); [|done|by apply Hm|by rewrite bits_of_mod, H0|by rewrite bits_of_mod, H1].
  unfold Aarch64.table_of. by rewrite land_of_mod by done.
Qed.

(** What [Paging]'s walk finds, the processor does. *)
Lemma walks_agree s m r f va x d : holds a s m → walk a s r va = Some (x, d) → Z.testbit d 10 = true → 0 ≤ va < U64 →
  f Aarch64.TCR_EL1 = tcr_value →
  (va < 2 ^ 48 → f Aarch64.TTBR0_EL1 = ttbr0_el1 r ∧ Aarch64.table_of (ttbr0_el1 r) = ttbr0_el1 r) →
  (2 ^ 48 ≤ va → f Aarch64.TTBR1_EL1 = ttbr1_el1 r ∧ Aarch64.table_of (ttbr1_el1 r) = ttbr1_el1 r) →
  Aarch64.mapped f m va = Some (x, Aarch64.attr_of d).
Proof.
  intros Hm Hw Hbit Hva Htcr H0 H1. unfold walk in Hw.
  destruct (if decide (va < 2 ^ 48) then _ else _) as [root|] eqn:Hroot; [|done]. simpl in Hw.
  assert (Aarch64.mapped f m va = Aarch64.walk m 3 root va) as ->.
  { unfold Aarch64.mapped. rewrite Htcr, enabled_regime. cbn [negb]. rewrite Z.shiftr_div_pow2 by lia.
    case_decide as Hlt; [|case_decide as Hge; [|done]]; injection Hroot as <-.
    - destruct (H0 Hlt) as [-> ->]. by rewrite decide_True by (apply Z.div_small; lia).
    - destruct (H1 ltac:(lia)) as [-> ->].
      assert (va / 2 ^ 48 = 0xFFFF) as -> by (symmetry; apply (Z.div_unique _ _ _ (va - 0xFFFF * 2 ^ 48)); lia). done. }
  destruct (read_desc a s root _) as [d0|] eqn:D0; [|done]. simpl in Hw.
  destruct (next_table d0) as [t1|] eqn:T1; [|done]. simpl in Hw.
  destruct (read_desc a s t1 _) as [d1|] eqn:D1; [|done]. simpl in Hw.
  destruct (next_table d1) as [t2|] eqn:T2; [|done]. simpl in Hw.
  destruct (read_desc a s t2 _) as [d2|] eqn:D2; [|done]. simpl in Hw.
  case_decide as H3; [|done]. injection Hw as <- ->.
  rewrite (table_step s m 2 root va d0 t1 Hm D0 T1) by lia. rewrite (table_step s m 1 t1 va d1 t2 Hm D1 T2) by lia.
  destruct (low_bits d _ H3) as [B0 B1].
  assert (0 ≤ Aarch64.index_at 21 va < 512) as Hi by (unfold Aarch64.index_at; rewrite index_field by lia; by apply Z.mod_pos_bound).
  cbn [Aarch64.walk]. change (12 + 9 * Z.of_nat 1) with 21. rewrite (Hm t2 (Aarch64.index_at 21 va) d D2 Hi), !bits_of_mod, B0, B1, Hbit by lia.
  rewrite (decide_False (P := 1%nat = 3%nat)) by done. do 2 f_equal.
  - unfold Aarch64.table_of. rewrite land_of_mod, <-Z.land_assoc by done. done.
  - unfold Aarch64.attr_of. apply Z.bits_inj'. intros n Hn. rewrite !Z.land_spec, !Z.shiftr_spec by done.
    destruct (decide (n < 3)); [by rewrite bits_of_mod by lia|]. change 7 with (Z.ones 3). by rewrite Z.ones_spec_high, !andb_false_r by lia.
Qed.
End placed.

(** ** Taking over *)
Lemma boot_map_low x : 0 ≤ x < 0x3F000000 → boot_map x = Some (x, 1).
Proof.
  intros Hx. unfold boot_map. destruct (virt_index x) as [_ Hi]; [lia|]. unfold Aarch64.index_at. rewrite Hi.
  rewrite Z.shiftr_div_pow2, Z.div_small by lia. rewrite !decide_True by auto.
  rewrite Z.land_ones, Z.mod_small by lia. unfold boot_window. by rewrite !decide_True by lia.
Qed.

Lemma boot_map_high x : 0 ≤ x < 0x3F000000 → boot_map (KERNEL_VIRT_BASE + x) = Some (x, 1).
Proof.
  intros Hx. unfold boot_map. destruct (virt_index x) as [Hi _]; [lia|]. unfold Aarch64.index_at. rewrite Hi.
  change KERNEL_VIRT_BASE with 0xFFFF800000000000.
  assert (Z.shiftr (0xFFFF800000000000 + x) 48 = 0xFFFF) as ->.
  { rewrite Z.shiftr_div_pow2 by lia. symmetry. apply (Z.div_unique _ _ _ (0x800000000000 + x)); lia. }
  rewrite !decide_True by auto.
  assert (Z.land (0xFFFF800000000000 + x) (Z.ones 39) = x) as ->.
  { rewrite Z.land_ones by lia. symmetry. apply (Z.mod_unique _ _ 0x1FFFF00); lia. }
  unfold boot_window. by rewrite !decide_True by lia.
Qed.

Lemma init_regs a b map s r : placed a → shaped s → map_in_reach b map → extra_in_reach s →
  returns (init a b map s r) (λ '(_, r'), r' = enable_mmu (virt_to_phys (U_L0_va a)) (virt_to_phys (K_L0_va a)) r).
Proof.
  intros Ha Hs Hm He. unfold init. apply returns_bind. eapply returns_mono; [by apply (build_ok a Ha b map s)|].
  intros s' (k0 & u0 & _ & _ & _ & _ & HK & HU & _). simpl. by rewrite HK, HU.
Qed.

Lemma root_address a va : placed a → va ∈ roots a → Aarch64.table_of (virt_to_phys va) = virt_to_phys va.
Proof.
  intros Ha Hva. pose proof (placed_roots _ Ha) as Hr. rewrite Forall_forall in Hr.
  destruct (Hr va Hva) as (? & ? & Hm & _). unfold PAGE_SIZE in *. destruct (virt_to_phys_static va) as [-> _]; [lia|].
  unfold KERNEL_VIRT_BASE in *. apply table_of_table; [lia|]. rewrite Zminus_mod, Hm. done.
Qed.

Section take_over.
Context (a : addresses) (Ha : placed a) (b : board) (map : NormalizedMap) (s : state) (r : regs).
Context (Hs : shaped s) (Hm : map_in_reach b map) (He : extra_in_reach s).

(** C8. The kernel's tables take over from the boot tables without moving anything: for a memory map within 512 GiB
    [paging::init] returns tables and
    registers with which, wherever the tables lie in memory, the processor reaches RAM below 0x3F000000 and outside
    the MMIO windows at the same physical address and with the same memory type as on the boot tables, through the higher half as soon as
    TTBR1 is written and through the identity map as soon as TTBR0 is; so code, stack and data stay where they are
    between the writes, on the first core and on the others. *)
Theorem kernel_tables_take_over region x :
  region ∈ map → kind region ≠ Mmio → start region ≤ x < capped_end b region →
  Forall (λ w, ¬ window_spans (x / BLOCK_SIZE) w) (windows b (EXTRA_MMIO_BASE s) (EXTRA_MMIO_SIZE s)) → x < 0x3F000000 →
  returns (init a b map s r) (λ '(s', r'), mair_el1 r' = mair_value ∧
    ∀ m f, holds a s' m → f Aarch64.TCR_EL1 = tcr_el1 r' →
      (f Aarch64.TTBR1_EL1 = ttbr1_el1 r' → Aarch64.mapped f m (KERNEL_VIRT_BASE + x) = boot_map (KERNEL_VIRT_BASE + x)) ∧
      (f Aarch64.TTBR0_EL1 = ttbr0_el1 r' → Aarch64.mapped f m x = boot_map x) ∧
      boot_map (KERNEL_VIRT_BASE + x) = Some (x, ATTR_NORMAL) ∧ boot_map x = Some (x, ATTR_NORMAL)).
Proof.
  intros Hin Hk Hx Hw Hlt.
  destruct (ram_translates b map s Hm AP_EL1_RW region x) as (Hr & dk & Hdk & Hdk'); [done..|].
  destruct (ram_translates b map s Hm AP_EL0_RW region x) as (_ & du & Hdu & Hdu'); [done..|].
  eapply returns_mono; [apply (returns_conj _ _ _ (init_ok a Ha b map s r Hs Hm He) (init_regs a b map s r Ha Hs Hm He))|].
  intros [s' r'] [Hwalk ->]. destruct (Hwalk x Hr) as [HK HU]. rewrite Hdk in HK. rewrite Hdu in HU.
  split; [done|]. intros m f Hmem Htcr. rewrite (boot_map_low x), (boot_map_high x) by lia.
  assert (∀ d, decode_block d = mkAttrs true ATTR_NORMAL (d_ap (decode_block d)) SH_INNER true (x - x mod BLOCK_SIZE) false false →
    Z.testbit d 10 = true ∧ Aarch64.attr_of d = 1) as Hdec.
  { intros d Hd. split; [exact (f_equal d_af Hd)|exact (f_equal d_attr Hd)]. }
  destruct (Hdec dk) as [Bk Ak]; [by rewrite Hdk'|]. destruct (Hdec du) as [Bu Au]; [by rewrite Hdu'|].
  split_and!; [intros Ht..|done|done].
  - rewrite (walks_agree a s' m _ f _ x dk Hmem HK Bk), Ak; [done| |done|..]; cbn [enable_mmu ttbr0_el1 ttbr1_el1 tcr_el1] in *.
    + unfold KERNEL_VIRT_BASE. lia.
    + unfold KERNEL_VIRT_BASE. lia.
    + intros _. split; [done|]. apply (root_address a); [done|]. unfold roots. set_solver.
  - rewrite (walks_agree a s' m _ f _ x du Hmem HU Bu), Au; [done|lia|done|..]; cbn [enable_mmu ttbr0_el1 ttbr1_el1 tcr_el1] in *.
    + intros _. split; [done|]. apply (root_address a); [done|]. unfold roots. set_solver.
    + lia.
Qed.

(** Above, up to 0x40000000, the boot tables map devices.  RAM there (on a Pi 5, where no window covers it) changes
    its memory type: it is Device until the switch and Normal from then on. *)
Theorem boot_devices_become_normal region x :
  region ∈ map → kind region ≠ Mmio → start region ≤ x < capped_end b region →
  Forall (λ w, ¬ window_spans (x / BLOCK_SIZE) w) (windows b (EXTRA_MMIO_BASE s) (EXTRA_MMIO_SIZE s)) →
  0x3F000000 ≤ x < 0x40000000 →
  boot_map x = Some (x, ATTR_DEVICE) ∧
  returns (init a b map s r) (λ '(s', r'), ∃ d, walk a s' r' x = Some (x, d) ∧ d_attr (decode_block d) = ATTR_NORMAL).
Proof.
  intros Hin Hk Hx Hw Hlt. split.
  - unfold boot_map. destruct (virt_index x) as [_ Hi]; [lia|]. unfold Aarch64.index_at. rewrite Hi.
    rewrite Z.shiftr_div_pow2, Z.div_small by lia. rewrite !decide_True by auto.
    rewrite Z.land_ones, Z.mod_small by lia. unfold boot_window. rewrite decide_True by lia. by rewrite decide_False by lia.
  - destruct (ram_translates b map s Hm AP_EL0_RW region x) as (Hr & du & Hdu & Hdu'); [done..|].
    eapply returns_mono; [apply (init_ok a Ha b map s r Hs Hm He)|].
    intros [s' r'] Hwalk. destruct (Hwalk x Hr) as [_ HU]. exists du. by rewrite HU, Hdu, Hdu'.
Qed.
End take_over.

Lemma kernel_tables_take_over_witness :
  returns (init demo_addresses Qemu demo_map state_new demo_regs) (λ '(s', r'),
    let f := λ q, match q with
      | Aarch64.TCR_EL1 => tcr_el1 r' | Aarch64.TTBR0_EL1 => ttbr0_el1 r' | Aarch64.TTBR1_EL1 => ttbr1_el1 r' | _ => 0 end in
    Aarch64.mapped f (image demo_addresses s') (KERNEL_VIRT_BASE + 0x1234567) = Some (0x1234567, 1)).
Proof.
  eapply returns_mono; [apply (kernel_tables_take_over demo_addresses demo_placed Qemu demo_map state_new demo_regs
    demo_shaped (proj1 demo_reach) (proj2 demo_reach) (mkRegion 0x100000 0x3c000000 UsableRam) 0x1234567)|].
  - by left.
  - done.
  - by vm_compute.
  - apply (bool_decide_unpack _). by vm_compute.
  - done.
  - intros [s' r'] [_ Hm]. destruct (Hm _ _ (image_holds demo_addresses demo_placed s') (eq_refl : (λ q, match q with
      | Aarch64.TCR_EL1 => tcr_el1 r' | Aarch64.TTBR0_EL1 => ttbr0_el1 r' | Aarch64.TTBR1_EL1 => ttbr1_el1 r' | _ => 0 end) Aarch64.TCR_EL1 = _))
      as (HK & _ & Hb & _). cbn zeta. rewrite HK by done. exact Hb.
Defined.
