(* ===== verification/User.v ===== *)
(** * The user side of the system calls

    [src/kernel/user.rs]: the wrappers that load the argument registers and execute SVC, and the
    trampoline into user code.  An SVC enters [Syscall.sync_handler] with the caller's
    registers as the frame and comes back with the frame's; the other registers of the caller
    are a parameter.

    Shown: the allocation calls, as user code makes them, are the kernel's heap. *)
From stdpp Require Import gmap.
From S2P Require Import Prelude Bits Layout Sync Memory Mmio Uart Vfs Trap Smp Process Scheduler Timer Heap.
From S2P Require Import Syscall.
Local Open Scope Z_scope.

Record entry_state := mkEntry { USER_ENTRY : option Z; USER_STACK_TOP : Z }.
Definition entry_new : entry_state := mkEntry None 0.
Definition init (entry stack_top : Z) (s : entry_state) : entry_state :=
  mkEntry (Some entry) (Z.land stack_top (not64 0xF)).

(** SP_EL0, ELR_EL1 and SPSR_EL1 (EL1h) at the ERET. *)
Definition user_start (s : entry_state) : outcome (Z * Z * Z) :=
  entry ← unwrap (USER_ENTRY s);
  Ret (USER_STACK_TOP s, entry, 0x5).

Section calls.
Context {W H : Type} `{HW : Hardware W, HD : Dma W, HC : Clock W, HK : KernelHeap H, HA : AddressSpace}.
Context (b : board) (fuel : nat) (cpu : Z) (regs : TrapFrame).

(** The exception SVC raises and the registers it is raised with: [args] from x0 on. *)
Definition SVC_ESR : Z := 0x56000000.
Definition svc_frame (n : Z) (args : list Z) : TrapFrame :=
  mkFrame (<[8%nat := n]> (args ++ drop (length args) (x regs))) (pad regs) (elr regs) (spsr regs)
    (sp_el0 regs) (pad2 regs).

(** FAR_EL1 is not read for an SVC. *)
Definition svc (n : Z) (args : list Z) (s : kernel W H) : outcome (Z * kernel W H) :=
  r ← sync_handler b fuel cpu SVC_ESR 0 (svc_frame n args) s;
  ret ← aget (x r.1) 0;
  Ret (ret, r.2).

(** A slice or a string is passed as its address and length. *)
Definition open (ptr len flags : Z) := svc SYSCALL_OPEN [ptr; len; flags].
Definition read (fd ptr len : Z) := svc SYSCALL_READ [fd; ptr; len].
Definition write (fd ptr len : Z) := svc SYSCALL_WRITE [fd; ptr; len].
Definition write_bytes (fd ptr len : Z) := svc SYSCALL_WRITE [fd; ptr; len].
Definition close (fd : Z) := svc SYSCALL_CLOSE [fd].
Definition sleep_ms (ms : Z) := svc SYSCALL_SLEEP_MS [ms].
Definition alloc (size align : Z) := svc SYSCALL_ALLOC [size; align].
Definition realloc (ptr old_size new_size align : Z) := svc SYSCALL_REALLOC [ptr; old_size; new_size; align].
Definition free (ptr size align : Z) := svc SYSCALL_FREE [ptr; size; align].

(** What the global allocator calls at EL0. *)
Definition user_heap : user_ops (kernel W H) := {|
  u_alloc size align s := alloc size align s;
  u_free ptr size align s := free ptr size align s;
  u_realloc ptr old new align s := realloc ptr old new align s
|}.

Context (Hregs : length (x regs) = 31%nat).

Lemma svc_ok n args s : (1 ≤ length args ≤ 4)%nat →
  svc n args s =
    (let a i := (args ++ drop (length args) (x regs)) !!! i in
     dispatch b fuel cpu n (a 0%nat) (a 1%nat) (a 2%nat) (a 3%nat) s).
Proof.
  intros Ha. cbv zeta. set (l := args ++ drop (length args) (x regs)).
  assert (length l = 31%nat) as Hl by (unfold l; rewrite length_app, length_drop; lia).
  assert (∀ i, (i < 31)%nat → i ≠ 8%nat → aget (<[8%nat := n]> l) (Z.of_nat i) = Ret (l !!! i)) as Hg.
  { intros i Hi Hne. apply aget_ret. split; [lia|]. rewrite Nat2Z.id, list_lookup_insert_ne by done.
    apply list_lookup_lookup_total_lt. lia. }
  assert (aget (<[8%nat := n]> l) 8 = Ret n) as H8.
  { apply aget_ret. split; [lia|]. apply list_lookup_insert_eq. lia. }
  unfold svc, sync_handler. rewrite decide_False by (vm_compute; lia).
  unfold svc_frame. fold l. cbn [x]. rewrite H8.
  rewrite (Hg 0%nat ltac:(lia) ltac:(lia) : aget _ 0 = _), (Hg 1%nat ltac:(lia) ltac:(lia) : aget _ 1 = _),
    (Hg 2%nat ltac:(lia) ltac:(lia) : aget _ 2 = _), (Hg 3%nat ltac:(lia) ltac:(lia) : aget _ 3 = _).
  cbn [mbind outcome_bind].
  destruct (dispatch b fuel cpu n _ _ _ _ s) as [[v s']| | |]; try done.
  cbn [mbind outcome_bind]. unfold set_x. cbn [x].
  rewrite aset_ret by (unfold len; rewrite length_insert; lia). cbn [mbind outcome_bind fst snd x].
  rewrite (proj2 (aget_ret _ 0 v)); [done|]. split; [lia|].
  apply list_lookup_insert_eq. rewrite length_insert. lia.
Qed.

(** The calls the shell makes are the handler's. *)
Lemma write_call fd ptr n s : write fd ptr n s = sys_write b fuel cpu fd ptr n s.
Proof.
  unfold write. rewrite svc_ok by (simpl; lia). cbv zeta. unfold dispatch.
  by rewrite 2!decide_False, decide_True by done.
Qed.

Lemma read_call fd ptr n s : read fd ptr n s = sys_read cpu fd ptr n s.
Proof.
  unfold read. rewrite svc_ok by (simpl; lia). cbv zeta. unfold dispatch.
  by rewrite decide_False, decide_True by done.
Qed.

Lemma sleep_call ms s : sleep_ms ms s = sys_sleep_ms fuel ms s.
Proof.
  unfold sleep_ms. rewrite svc_ok by (simpl; lia). cbv zeta. unfold dispatch.
  by rewrite 4!decide_False, decide_True by done.
Qed.

Lemma alloc_call size align s : alloc size align s = sys_alloc size align s.
Proof.
  unfold alloc. rewrite svc_ok by (simpl; lia). cbv zeta. unfold dispatch.
  by rewrite 5!decide_False, decide_True by done.
Qed.

Lemma realloc_call ptr old new align s : realloc ptr old new align s = sys_realloc ptr old new align s.
Proof.
  unfold realloc. rewrite svc_ok by (simpl; lia). cbv zeta. unfold dispatch.
  by rewrite 6!decide_False, decide_True by done.
Qed.

Lemma free_call ptr size align s : free ptr size align s = sys_free ptr size align s.
Proof.
  unfold free. rewrite svc_ok by (simpl; lia). cbv zeta. unfold dispatch.
  by rewrite 7!decide_False, decide_True by done.
Qed.

(** C32. The allocation calls are the kernel's allocator: for a layout, a live block with its layout and a new
    size as the allocator's contract allows, [alloc], [realloc] and [free] of user code, through the
    system call and its dispatch, give the pointer that the kernel heap gives (u64::MAX for a null one), change
    the heap as it does and touch nothing else; and they agree with what the global allocator does
    directly at any exception level but EL0 (where it cannot run: [Heap.allocator_needs_el1]). *)
Theorem user_heap_is_kernel_heap (s : kernel W H) (l : Layout) (ptr new el : Z) :
  layout_ok l → lh_wf (kheap s) → ptr ≠ 0 → lh_live (kheap s) !! ptr = Some l →
  layout_ok (mkLayout new (lalign l)) → el ≠ 0 →
  (∃ p h, lh_alloc l (kheap s) = (p, h) ∧ alloc (lsize l) (lalign l) s = Ret (or_error p, with_heap s h) ∧
     Heap.alloc heap_ops user_heap el l s = Ret (p, with_heap s h)) ∧
  (∃ p h, lh_realloc ptr l new (kheap s) = Ret (p, h) ∧
     realloc ptr (lsize l) new (lalign l) s = Ret (or_error p, with_heap s h) ∧
     Heap.realloc heap_ops user_heap el ptr l new s = Ret (p, with_heap s h)) ∧
  (∃ h, lh_dealloc ptr l (kheap s) = Ret h ∧ free ptr (lsize l) (lalign l) s = Ret (0, with_heap s h) ∧
     Heap.dealloc heap_ops user_heap el ptr l s = Ret (with_heap s h)).
Proof.
  intros Hl Hwf Hp Hlive Hnew Hel. pose proof (layout_ok_align l Hl) as Hal. pose proof Hl as [Hsz Hlay].
  destruct (proj2 (allocator_needs_el1 heap_ops user_heap el l ptr new s) Hel) as (-> & -> & ->).
  rewrite alloc_call, realloc_call, free_call. split; [|split].
  - unfold sys_alloc. rewrite decide_False by lia. rewrite Z.max_l by lia. rewrite Hlay, kalloc_ok.
    cbn [k_alloc heap_ops]. destruct (lh_alloc l (kheap s)) as [p h]. by exists p, h.
  - unfold sys_realloc. rewrite !Z.max_l by lia. rewrite Hlay, !decide_False, krealloc_ok by (done || apply Hnew || (destruct Hnew as [H0 _]; simpl in H0; lia)).
    cbn [k_realloc heap_ops]. pose proof (lh_realloc_ok ptr l new (kheap s) Hwf Hlive Hnew) as Hr.
    destruct (lh_realloc ptr l new (kheap s)) as [[p h]| | |]; try done. by exists p, h.
  - unfold sys_free. rewrite decide_False by lia. rewrite Z.max_l by lia. rewrite Hlay, kdealloc_ok.
    cbn [k_dealloc heap_ops]. pose proof (lh_dealloc_ok ptr l (kheap s) Hwf Hlive) as Hr.
    destruct (lh_dealloc ptr l (kheap s)) as [h| | |]; try done. by exists h.
Qed.
End calls.

#[local] Existing Instance demo_space.

(** A block of 100 bytes is allocated, grown to 200 and freed. *)
Lemma user_heap_is_kernel_heap_witness :
  let s := with_heap demo_kernel (mkBump 0x10064 0x20000 {[0x10000 := mkLayout 100 16]}) in
  let regs := TrapFrame_new 0x80000 in
  (∃ p h, alloc Qemu 1 0 regs 100 16 s = Ret (or_error p, with_heap s h) ∧ p = 0x10070) ∧
  (∃ p h, realloc Qemu 1 0 regs 0x10000 100 200 16 s = Ret (or_error p, with_heap s h) ∧ p = 0x10070 ∧
     lh_live h = {[0x10070 := mkLayout 200 16]}) ∧
  ∃ h, free Qemu 1 0 regs 0x10000 100 16 s = Ret (0, with_heap s h) ∧ lh_live h = ∅.
Proof.
  intros s regs. destruct (user_heap_is_kernel_heap Qemu 1 0 regs eq_refl s (mkLayout 100 16) 0x10000 200 1)
    as ((p & h & Hh & Ha & _) & (q & h' & Hh' & Hr & _) & h'' & Hh'' & Hf & _).
  - by split; vm_compute.
  - split; [simpl; lia|]. split; [simpl; lia|]. apply map_Forall_singleton. simpl. lia.
  - done.
  - reflexivity.
  - by split; vm_compute.
  - done.
  - vm_compute in Hh, Hh', Hh''. injection Hh as <- <-. injection Hh' as <- <-. injection Hh'' as <-.
    split; [|split].
    + eexists _, _. split; [exact Ha|reflexivity].
    + eexists _, _. split; [exact Hr|]. by split.
    + eexists. split; [exact Hf|reflexivity].
Defined.

(** The trampoline enters user code at the recorded entry point with the recorded stack pointer,
    16-byte aligned and at most 15 bytes below the top asked for; before [init] it panics. *)
Theorem user_start_entry entry top : is_u64 top →
  user_start entry_new = Panic ∧
  ∃ sp, user_start (init entry top entry_new) = Ret (sp, entry, 0x5) ∧
    sp mod 16 = 0 ∧ top - 16 < sp ≤ top.
Proof.
  intros Ht. split; [done|]. unfold user_start, init. cbn [USER_ENTRY USER_STACK_TOP unwrap mbind outcome_bind].
  eexists. split; [done|]. change 0xF with (2 ^ 4 - 1). rewrite land_not64_pow2 by (done || lia).
  change (2 ^ 4) with 16. pose proof (Z.mod_pos_bound top 16 ltac:(lia)). split; [|lia].
  rewrite Zminus_mod, Z.mod_mod, Z.sub_diag by lia. done.
Qed.

Lemma user_start_entry_witness :
  user_start entry_new = Panic ∧
  ∃ sp, user_start (init 0x80000 0x100008 entry_new) = Ret (sp, 0x80000, 0x5) ∧
    sp mod 16 = 0 ∧ 0x100008 - 16 < sp ≤ 0x100008.
Proof. apply user_start_entry. split; lia. Defined.
