(* ===== verification/Shell.v ===== *)
(** * The user shell

    [src/user/shell.rs]: prompt, read a line with editing, print it back, for ever.  It runs on the
    wrappers of [User] and the global allocator of [Heap], here the interface [UserOs]; the endless loops are a
    step function, one step being one system call and the code up to the next, allocations included.

    Shown: on any terminal that delivers input in order and has memory for a short string ([Terminal], the
    interface [Session] implements with the kernel), whatever happens between the shell's steps, what is
    displayed is at every moment the transcript of the keys consumed so far, and every key is consumed; the
    line stays within 129 bytes, its buffer within 256; without memory the first key parks the core. *)
From S2P Require Import Prelude Bits Heap Vfs.
Local Open Scope Z_scope.

(** [write]/[write_bytes] of the bytes of a slice, [read] into a buffer of one zero byte (the result
    and the byte afterwards), [sleep_ms]; and the global allocator, a null pointer being 0. *)
Class UserOs (OS : Type) := {
  os_write : Z → list Z → OS → outcome (Z * OS);
  os_read : Z → OS → outcome (Z * Z * OS);
  os_sleep_ms : Z → OS → outcome (Z * OS);
  os_alloc : Layout → OS → outcome (Z * OS);
  os_realloc : Z → Layout → Z → OS → outcome (Z * OS)
}.

(** [String]: the line's characters; a byte pushed as a [char] is a Latin-1 character, stored in
    UTF-8. *)
Definition utf8 (c : Z) : list Z := if decide (c < 128) then [c] else [0xC0 + c / 64; 0x80 + c mod 64].
Definition as_str (line : list Z) : list Z := line ≫= utf8.

(** Its buffer: where it is and how many bytes it holds; a new string has none (a dangling pointer). *)
Record raw_vec := mkRaw { rv_ptr : Z; rv_cap : Z }.
Definition no_buffer : raw_vec := mkRaw 1 0.

Section string.
Context {OS : Type} `{UserOs OS}.

(** What alloc's [Vec<u8>] does to hold [extra] bytes more than [used]: at least twice the capacity, and 8. *)
Definition grow (used extra : Z) (v : raw_vec) (s : OS) : outcome (raw_vec * OS) :=
  let cap := Z.max 8 (Z.max (2 * rv_cap v) (used + extra)) in
  '(p, s) ← (if decide (rv_cap v = 0) then os_alloc (mkLayout cap 1) s
             else os_realloc (rv_ptr v) (mkLayout (rv_cap v) 1) cap s);
  if decide (p = 0) then oom (mkLayout cap 1) else Ret (mkRaw p cap, s).

(** [String::push]. *)
Definition push (c : Z) (l : list Z) (v : raw_vec) (s : OS) : outcome (list Z * raw_vec * OS) :=
  let used := len (as_str l) in
  '(v, s) ← (if decide (rv_cap v - used < len (utf8 c)) then grow used (len (utf8 c)) v s else Ret (v, s));
  Ret (l ++ [c], v, s).
End string.

(** The calls the shell makes between two reads. *)
Inductive call := Write (bs : list Z) | Sleep (ms : Z).

(** The local variables (the string's characters and its buffer, the flag), the calls to make before the next
    read, and the system. *)
Record shell (OS : Type) := mkShell { line : list Z; buf : raw_vec; saw_cr : bool; todo : list call; os : OS }.
Arguments mkShell {OS}.
Arguments line {OS}.
Arguments buf {OS}.
Arguments saw_cr {OS}.
Arguments todo {OS}.
Arguments os {OS}.

(** The outer loop's prompt, with a new [saw_cr]. *)
Definition prompt : call := Write (bytes "$ ").

(** The end of a line: echo it and start over; [clear] keeps the buffer. *)
Definition end_line (l : list Z) : list Z * bool * list call :=
  ([], false, [Write [10]; Write (bytes "String: "); Write (as_str l); Write [10]; prompt]).

Section shell.
Context {OS : Type} `{UserOs OS}.

(** A key after the carriage-return logic: the line and the flag from then on, the calls to make, the line's
    buffer and the system. *)
Definition on_key (b : Z) (l : list Z) (cr : bool) (v : raw_vec) (s : OS) :
    outcome (list Z * bool * list call * raw_vec * OS) :=
  if decide (b = 10 ∨ b = 13) then Ret (end_line l, v, s)
  else if decide (b = 0x08 ∨ b = 0x7f) then
    if decide (l ≠ []) then Ret (take (length l - 1) l, cr, [Write [8; 32; 8]], v, s) else Ret (l, cr, [], v, s)
  else if decide (len (as_str l) < 128) then
    '(l, v, s) ← push b l v s;
    Ret (l, cr, [Write [b]], v, s)
  else Ret (l, cr, [], v, s).

(** What [read] returned. *)
Definition on_read (n byte : Z) (l : list Z) (cr : bool) (v : raw_vec) (s : OS) :
    outcome (list Z * bool * list call * raw_vec * OS) :=
  if decide (n = 0 ∨ n = U64_MAX) then Ret (l, cr, [Sleep 10], v, s)
  else if decide (byte = 13) then on_key 10 l true v s
  else if decide (byte = 10) then
    if cr then Ret (l, false, [], v, s) else on_key byte l cr v s
  else on_key byte l false v s.

Definition step (sh : shell OS) : outcome (shell OS) :=
  match todo sh with
  | Write bs :: calls =>
      r ← os_write FD_STDOUT bs (os sh); Ret (mkShell (line sh) (buf sh) (saw_cr sh) calls r.2)
  | Sleep ms :: calls =>
      r ← os_sleep_ms ms (os sh); Ret (mkShell (line sh) (buf sh) (saw_cr sh) calls r.2)
  | [] =>
      '(n, byte, s) ← os_read FD_STDIN (os sh);
      '(l, cr, calls, v, s) ← on_read n byte (line sh) (saw_cr sh) (buf sh) s;
      Ret (mkShell l v cr calls s)
  end.

Definition user_shell (s : OS) : shell OS := mkShell [] no_buffer false [prompt] s.

Fixpoint run (n : nat) (sh : shell OS) : outcome (shell OS) :=
  match n with O => Ret sh | S n => sh ← step sh; run n sh end.
End shell.

(** ** What the user sees *)

(** A key's effect on the line, and what is printed; a line's end prints the next prompt. *)
Definition key (b : Z) (l : list Z) : list Z * list Z :=
  if decide (b = 13 ∨ b = 10) then
    ([], [10] ++ bytes "String: " ++ as_str l ++ [10] ++ bytes "$ ")
  else if decide (b = 8 ∨ b = 127) then
    match l with [] => ([], []) | _ => (take (length l - 1) l, [8; 32; 8]) end
  else if decide (len (as_str l) < 128) then (l ++ [b], [b])
  else (l, []).

Fixpoint keys (bs : list Z) (l : list Z) : list Z * list Z :=
  match bs with
  | [] => (l, [])
  | b :: bs => let '(l1, o1) := key b l in let '(l2, o2) := keys bs l1 in (l2, o1 ++ o2)
  end.

(** A terminal: the keys waiting to be read, in order, and what it displays, [D], to which printing
    adds.  [shows_on s d] is the terminal's invariant in state [s] displaying [d].  The calls work
    while the shell has a CPU ([ready]); between them things happen ([happens]) that may add keys and
    take the CPU away or give it back; up to [room] keys are kept.  [serves v s]: the allocator has handed out
    [v] and can still grow it, doubling, up to 256 bytes. *)
Class Terminal (OS D : Type) `{UserOs OS} := {
  pending : OS → list Z;
  ready : OS → Prop;
  shows_on : OS → D → Prop;
  serves : raw_vec → OS → Prop;
  put : list Z → D → D;
  put_nil d : put [] d = d;
  put_app bs cs d : put (bs ++ cs) d = put cs (put bs d);
  pending_bytes s d : shows_on s d → Forall is_u8 (pending s);
  os_write_ok s d bs : shows_on s d → ready s → (length bs ≤ 256)%nat → Forall is_u8 bs →
    returns (os_write FD_STDOUT bs s) (λ '(_, s'),
      shows_on s' (put bs d) ∧ ready s' ∧ pending s' = pending s ∧ ∀ v, serves v s → serves v s');
  os_read_ok s d : shows_on s d → ready s → returns (os_read FD_STDIN s) (λ '(n, b, s'),
    shows_on s' d ∧ ready s' ∧ (∀ v, serves v s → serves v s') ∧
    match pending s with
    | [] => n = 0 ∧ pending s' = []
    | c :: cs => n = 1 ∧ b = c ∧ pending s' = cs
    end);
  os_sleep_ok s d : shows_on s d → ready s → returns (os_sleep_ms 10 s) (λ '(_, s'),
    shows_on s' d ∧ ready s' ∧ pending s' = pending s ∧ ∀ v, serves v s → serves v s');
  os_grow_ok s d v n : shows_on s d → ready s → serves v s → 0 ≤ rv_cap v → Z.max 8 (2 * rv_cap v) ≤ n ≤ 256 →
    returns (if decide (rv_cap v = 0) then os_alloc (mkLayout n 1) s
             else os_realloc (rv_ptr v) (mkLayout (rv_cap v) 1) n s) (λ '(p, s'),
      p ≠ 0 ∧ serves (mkRaw p n) s' ∧ shows_on s' d ∧ ready s' ∧ pending s' = pending s);
  event : Type;
  typed : event → list Z;
  happens : event → OS → outcome OS;
  room : nat;
  happens_ok e s d : shows_on s d → (length (pending s) + length (typed e) ≤ room)%nat →
    returns (happens e s) (λ s', shows_on s' d ∧ pending s' = pending s ++ typed e ∧ ∀ v, serves v s → serves v s')
}.
Arguments typed {OS D _ _}.
Arguments happens {OS D _ _}.

(** The shell from [sh0] on, with the keys typed so far: its own steps while it has a CPU, and events
    in between, as long as the unread keys have room. *)
Inductive session {OS D} `{Terminal OS D} (sh0 : shell OS) : list Z → shell OS → Prop :=
| s_start : session sh0 [] sh0
| s_turn ks sh sh' : session sh0 ks sh → ready (os sh) → step sh = Ret sh' → session sh0 ks sh'
| s_event ks sh e s' : session sh0 ks sh →
    (length (pending (os sh)) + length (typed e) ≤ room)%nat → happens e (os sh) = Ret s' →
    session sh0 (ks ++ typed e) (mkShell (line sh) (buf sh) (saw_cr sh) (todo sh) s').

(** A session played from a script. *)
Inductive action (E : Type) := Turn | Ev (e : E).
Arguments Turn {E}.
Arguments Ev {E}.

Fixpoint play {OS D} `{HT : Terminal OS D} `{∀ s : OS, Decision (ready s)}
    (l : list (action (event (Terminal:=HT)))) (ks : list Z) (sh : shell OS) : option (list Z * shell OS) :=
  match l with
  | [] => Some (ks, sh)
  | Turn :: l =>
      match step sh with
      | Ret sh' => if decide (ready (os sh)) then play l ks sh' else None
      | _ => None
      end
  | Ev e :: l =>
      match happens e (os sh) with
      | Ret s' =>
          if decide (length (pending (os sh)) + length (typed e) ≤ room)%nat
          then play l (ks ++ typed e) (mkShell (line sh) (buf sh) (saw_cr sh) (todo sh) s') else None
      | _ => None
      end
  end.

Lemma play_session {OS D} `{HT : Terminal OS D} `{∀ s : OS, Decision (ready s)} l sh0 ks sh ks' sh' :
  session sh0 ks sh → play l ks sh = Some (ks', sh') → session sh0 ks' sh'.
Proof.
  revert ks sh. induction l as [|[|e] l IH]; intros ks sh Hs Hp; cbn [play] in Hp.
  - by injection Hp as <- <-.
  - destruct (step sh) as [sh1| | |] eqn:Hst; try done. case_decide; [|done].
    apply (IH ks sh1); [|done]. by eapply s_turn.
  - destruct (happens e (os sh)) as [s1| | |] eqn:He; try done. case_decide; [|done].
    refine (IH _ _ _ Hp). by eapply s_event.
Qed.

Lemma keys_snoc bs b l : keys (bs ++ [b]) l =
  ((key b (keys bs l).1).1, (keys bs l).2 ++ (key b (keys bs l).1).2).
Proof.
  revert l. induction bs as [|c bs IH]; intros l; cbn [keys app].
  - cbn [fst snd]. destruct (key b l) as [l1 o1]. simpl. by rewrite app_nil_r.
  - destruct (key c l) as [l1 o1]. rewrite IH. destruct (keys bs l1) as [l2 o2]. cbn [fst snd].
    by rewrite app_assoc.
Qed.

(** The line after any keys, as UTF-8: a two-byte character may be added at 127 bytes. *)
Lemma len_utf8 c : 1 ≤ len (utf8 c) ≤ 2.
Proof. unfold utf8, len. destruct (decide (c < 128)); cbn [length]; lia. Qed.

Lemma as_str_app l1 l2 : as_str (l1 ++ l2) = as_str l1 ++ as_str l2.
Proof. induction l1 as [|c l1 IH]; [done|]. unfold as_str in *. cbn. by rewrite IH, app_assoc. Qed.

Lemma key_line b l : len (as_str l) ≤ 129 → len (as_str (key b l).1) ≤ 129.
Proof.
  intros Hl. unfold key. case_decide; [by vm_compute|]. case_decide; [|case_decide as Hs].
  - destruct l as [|c l]; [by vm_compute|]. cbn [fst].
    rewrite <-(take_drop (length (c :: l) - 1) (c :: l)), as_str_app, len_app in Hl.
    unfold len in *. lia.
  - cbn [fst]. rewrite as_str_app, len_app. pose proof (len_utf8 b). unfold as_str at 2. simpl.
    rewrite app_nil_r. lia.
  - done.
Qed.

Lemma keys_line bs l : len (as_str l) ≤ 129 → len (as_str (keys bs l).1) ≤ 129.
Proof.
  revert l. induction bs as [|b bs IH]; intros l Hl; cbn [keys]; [done|].
  pose proof (key_line b l Hl) as Hk. destruct (key b l) as [l1 o1]. specialize (IH l1 Hk).
  by destruct (keys bs l1).
Qed.

Lemma utf8_bytes c : is_u8 c → Forall is_u8 (utf8 c).
Proof.
  unfold is_u8, utf8. intros Hc. case_decide; repeat constructor; try done; try lia.
  - Z.to_euclidean_division_equations. lia.
  - Z.to_euclidean_division_equations. lia.
  - pose proof (Z.mod_pos_bound c 64). lia.
  - pose proof (Z.mod_pos_bound c 64). lia.
Qed.

Lemma as_str_bytes l : Forall is_u8 l → Forall is_u8 (as_str l).
Proof. induction 1 as [|c l Hc _ IH]; [constructor|]. apply Forall_app. split; [by apply utf8_bytes|done]. Qed.

Lemma key_bytes b l : is_u8 b → Forall is_u8 l → Forall is_u8 (key b l).1.
Proof.
  intros Hb Hl. unfold key. case_decide; [constructor|]. case_decide; [|case_decide].
  - destruct l; [constructor|]. by apply Forall_take.
  - apply Forall_app. auto.
  - done.
Qed.

Section correct.
Context {OS D : Type} `{HT : Terminal OS D}.

(** A line the shell can print. *)
Definition line_ok (l : list Z) : Prop := len (as_str l) ≤ 129 ∧ Forall is_u8 l.

(** A call that can be made, and what a list of calls prints. *)
Definition call_ok (c : call) : Prop :=
  match c with Write bs => (length bs ≤ 256)%nat ∧ Forall is_u8 bs | Sleep ms => ms = 10 end.
Definition printed (calls : list call) : list Z := calls ≫= λ c, match c with Write bs => bs | Sleep _ => [] end.

(** What is still to be printed. *)
Definition owed (sh : shell OS) : list Z := printed (todo sh).

(** The shell's state after the keys [dn]: the line, and what it has printed since [d0]. *)
Record at_keys (d0 : D) (dn : list Z) (sh : shell OS) : Prop := {
  at_line : line sh = (keys dn []).1;
  at_fits : line_ok (line sh);
  at_out : ∃ d, shows_on (os sh) d ∧ put (owed sh) d = put (bytes "$ " ++ (keys dn []).2) d0;
  at_todo : Forall call_ok (todo sh) ∧ (length (todo sh) ≤ 5)%nat;
  at_cr : saw_cr sh = false;
  at_buf : serves (buf sh) (os sh);
  at_cap : 0 ≤ len (as_str (line sh)) ≤ rv_cap (buf sh) ∧ rv_cap (buf sh) ≤ 256
}.

(** The line grows into a buffer that holds it. *)
Lemma char_pushed_ok b l v s d : shows_on s d → ready s → serves v s → len (as_str l) < 128 →
  len (as_str l) ≤ rv_cap v ≤ 256 →
  returns (push b l v s) (λ '(l', v', s'), l' = l ++ [b] ∧ len (as_str l') ≤ rv_cap v' ≤ 256 ∧ serves v' s' ∧
    shows_on s' d ∧ ready s' ∧ pending s' = pending s).
Proof.
  intros Hs Hr Hv Hl Hc. pose proof (len_utf8 b) as Hb. unfold push.
  assert (len (as_str (l ++ [b])) = len (as_str l) + len (utf8 b)) as Hlen.
  { rewrite as_str_app, len_app. unfold as_str at 2. simpl. by rewrite app_nil_r. }
  assert (0 ≤ len (as_str l)) by (unfold len; lia).
  case_decide as Hfit; [|cbn [mbind outcome_bind returns]; split_and!; try done; lia].
  apply returns_bind. unfold grow. apply returns_bind. set (n := Z.max 8 _).
  eapply returns_mono; [apply (os_grow_ok s d v n Hs Hr Hv); lia|].
  intros [p s1] (Hp & Hv1 & Hs1 & Hr1 & Hp1). rewrite decide_False by done. cbn [returns].
  split_and!; try done; cbn [rv_cap]; lia.
Qed.

(** A key: the new line, what it prints, the flag and the buffer. *)
Definition key_done (b : Z) (l : list Z) (s : OS) (d : D) (r : list Z * bool * list call * raw_vec * OS) : Prop :=
  let '(l', cr', calls, v', s') := r in
  l' = (key b l).1 ∧ line_ok l' ∧ printed calls = (key b l).2 ∧ Forall call_ok calls ∧ (length calls ≤ 5)%nat ∧
  cr' = false ∧ (0 ≤ len (as_str l') ≤ rv_cap v' ∧ rv_cap v' ≤ 256) ∧ serves v' s' ∧ shows_on s' d ∧ ready s' ∧
  pending s' = pending s.

Lemma on_key_ok b l cr v s d : is_u8 b → line_ok l → cr = false ∨ b = 10 →
  shows_on s d → ready s → serves v s → len (as_str l) ≤ rv_cap v ≤ 256 →
  returns (on_key b l cr v s) (key_done b l s d).
Proof.
  intros Hb Hl Hcr Hs Hr Hv Hc.
  assert (line_ok (key b l).1) as Hk by (destruct Hl; split; [by apply key_line|by apply key_bytes]).
  assert (∀ bs, (length bs ≤ 256)%nat → Forall is_u8 bs → call_ok (Write bs)) as Hw by done.
  assert (0 ≤ len (as_str l)) as Hp by (unfold len; lia).
  revert Hk. unfold on_key, key_done, key. destruct (decide (b = 10 ∨ b = 13)) as [H1|H1].
  { rewrite (decide_True (P:=b = 13 ∨ b = 10)) by tauto. intros Hk. destruct Hl as [Hlen Hbytes]. unfold len in Hlen.
    unfold end_line, prompt. cbn [returns]. split_and!; try done; [|change (len (as_str [])) with 0; lia|lia].
    do 5 (apply Forall_cons_2; [apply Hw; [try lia; simpl; lia|
        first [by apply as_str_bytes|by decide_by_computation]]|]). constructor. }
  destruct Hcr as [->| ->]; [|by destruct H1; left].
  rewrite (decide_False (P:=b = 13 ∨ b = 10)) by tauto. destruct (decide (b = 8 ∨ b = 127)) as [H2|H2].
  - destruct l as [|c l].
    { rewrite decide_False by (intros Hn; by apply Hn). intros Hk. split_and!; try done; try lia. simpl. lia. }
    rewrite decide_True by done. intros Hk. split_and!; try done; try (unfold len; lia).
    + constructor; [|done]. apply Hw; [simpl; lia|by decide_by_computation].
    + simpl. lia.
    + cbn [fst]. rewrite <-(take_drop (length (c :: l) - 1) (c :: l)), as_str_app, len_app in Hc.
      unfold len in *. lia.
  - destruct (decide (len (as_str l) < 128)) as [Hlt|]; intros Hk.
    + apply returns_bind. eapply returns_mono; [by apply (char_pushed_ok b l v s d)|].
      intros [[l' v'] s'] (-> & Hc' & Hv' & Hs' & Hr' & Hp'). cbn [returns fst snd]. split_and!; try done; try lia.
      * constructor; [|done]. apply Hw; [simpl; lia|by apply Forall_singleton].
      * simpl. lia.
      * unfold len. lia.
    + split_and!; try done; try lia. simpl. lia.
Qed.

(** A byte read is a key. *)
Lemma on_read_key b l v s d : is_u8 b → line_ok l → shows_on s d → ready s → serves v s →
  len (as_str l) ≤ rv_cap v ≤ 256 → returns (on_read 1 b l false v s) (key_done b l s d).
Proof.
  intros Hb Hl Hs Hr Hv Hc. unfold on_read. rewrite decide_False by (intros [?|?]; done).
  case_decide as H13; [|case_decide; apply on_key_ok; auto].
  subst b. assert (∀ r, key_done 10 l s d r → key_done 13 l s d r) as Hk by done.
  eapply returns_mono; [|exact Hk]. apply on_key_ok; auto.
Qed.

(** One step makes one of the calls there are to make, or consumes the next key, or finds nothing
    to read. *)
Lemma step_ok d0 dn sh : at_keys d0 dn sh → ready (os sh) →
  returns (step sh) (λ sh', ready (os sh') ∧
    match todo sh with
    | _ :: calls => todo sh' = calls ∧ pending (os sh') = pending (os sh) ∧ at_keys d0 dn sh'
    | [] => match pending (os sh) with
            | [] => todo sh' = [Sleep 10] ∧ pending (os sh') = [] ∧ at_keys d0 dn sh'
            | b :: rest => pending (os sh') = rest ∧ at_keys d0 (dn ++ [b]) sh'
            end
    end).
Proof.
  intros [Hl Hfit (d & Hs & Ho) [Hcalls Hlen] Hcr Hv Hcap] Hr. unfold step. unfold owed in Ho.
  destruct (todo sh) as [|[bs|ms] calls] eqn:Htodo.
  - apply returns_bind. eapply returns_mono; [by apply os_read_ok|]. intros [[n c] s1] (Hs1 & Hr1 & Hv1 & Hrd).
    rewrite Hcr. destruct (pending (os sh)) as [|b rest] eqn:Hpend.
    + destruct Hrd as [-> Hp1]. unfold on_read. rewrite decide_True by by left. cbn [returns os todo mbind outcome_bind].
      split_and!; try done. split; try done; [by exists d| |by apply Hv1]. split; [by repeat constructor|simpl; lia].
    + destruct Hrd as (-> & -> & Hp1).
      assert (is_u8 b) as Hb.
      { pose proof (pending_bytes _ _ Hs) as Hf. rewrite Hpend in Hf. by apply Forall_cons in Hf as [? _]. }
      apply returns_bind. eapply returns_mono; [apply (on_read_key b (line sh) (buf sh) s1 d); auto; lia|].
      intros [[[[l' cr'] calls'] v'] s'] (Hl' & Hfit' & Hout & Hok & Hn & -> & Hc' & Hv' & Hs' & Hr' & Hp').
      cbn [returns os]. split_and!; [done|congruence|]. split; try done; cbn [line os owed todo saw_cr].
      * rewrite Hl', keys_snoc. by rewrite Hl.
      * exists d. split; [done|]. unfold owed. cbn [todo]. rewrite Hout, keys_snoc. cbn [snd].
        by rewrite app_assoc, put_app, <-Ho, put_nil, Hl.
  - apply Forall_cons in Hcalls as [[Hbl Hbs] Hcalls]. apply returns_bind.
    eapply returns_mono; [by apply os_write_ok|]. intros [v s1] (Hs1 & Hr1 & Hp1 & Hv1). cbn [returns snd os todo].
    split_and!; try done. split; try done; cbn [line buf os owed todo saw_cr]; [| |by apply Hv1].
    + eexists. split; [exact Hs1|]. rewrite <-Ho. by rewrite <-put_app.
    + split; [done|]. simpl in Hlen. lia.
  - apply Forall_cons in Hcalls as [Hms Hcalls]. cbn in Hms. subst ms. apply returns_bind.
    eapply returns_mono; [by apply os_sleep_ok|]. intros [v s1] (Hs1 & Hr1 & Hp1 & Hv1). cbn [returns snd os todo].
    split_and!; try done. split; try done; cbn [line buf os owed todo saw_cr]; [by exists d| |by apply Hv1].
    split; [done|]. simpl in Hlen. lia.
Qed.

(** The steps until every key is consumed and everything is printed: six calls per key at most. *)
Definition work (sh : shell OS) : nat := 6 * length (pending (os sh)) + length (todo sh).

(** When nothing is left to do the shell asks for keys and sleeps. *)
Lemma run_idle n : ∀ d0 dn sh, at_keys d0 dn sh → ready (os sh) → pending (os sh) = [] → owed sh = [] →
  returns (run n sh) (λ sh', pending (os sh') = [] ∧ owed sh' = [] ∧ at_keys d0 dn sh').
Proof.
  induction n as [|n IH]; intros d0 dn sh Hat Hr Hp Ho; cbn [run]; [done|]. apply returns_bind.
  eapply returns_mono; [by apply step_ok|]. intros sh1 [Hr1 Hst]. rewrite Hp in Hst. unfold owed in Ho.
  destruct (todo sh) as [|c calls].
  - destruct Hst as (Ht & Hp1 & Hat1). apply IH; try done. unfold owed. by rewrite Ht.
  - destruct Hst as (Ht & Hp1 & Hat1). apply IH; try done. unfold owed. rewrite Ht.
    by apply app_nil in Ho as [_ Ho].
Qed.

Lemma run_ok n : ∀ d0 dn sh, at_keys d0 dn sh → ready (os sh) → (work sh ≤ n)%nat →
  returns (run n sh) (λ sh', pending (os sh') = [] ∧ owed sh' = [] ∧ at_keys d0 (dn ++ pending (os sh)) sh').
Proof.
  induction n as [|n IH]; intros d0 dn sh Hat Hr Hw.
  { unfold work in Hw. destruct (pending (os sh)) eqn:Hp; [|simpl in Hw; lia].
    destruct (todo sh) eqn:Ht; [|simpl in Hw; lia]. cbn [run returns]. unfold owed. by rewrite Ht, Hp, (app_nil_r dn). }
  destruct (decide (pending (os sh) = [] ∧ todo sh = [])) as [[Hp Ht]|Hne].
  { rewrite Hp, (app_nil_r dn). apply run_idle; try done. unfold owed. by rewrite Ht. }
  cbn [run]. apply returns_bind. eapply returns_mono; [by apply step_ok|]. intros sh1 [Hr1 Hst].
  unfold work in *. destruct (todo sh) as [|c calls].
  - destruct (pending (os sh)) as [|b rest]; [by exfalso; apply Hne|]. destruct Hst as [Hp Hat1].
    eapply returns_mono; [apply (IH d0 _ sh1 Hat1 Hr1)|].
    + pose proof (proj2 (at_todo _ _ _ Hat1)). rewrite Hp. simpl in Hw. lia.
    + rewrite Hp, <-app_assoc. done.
  - destruct Hst as (Ht & Hp & Hat1). rewrite <-Hp. apply IH; [done|done|]. rewrite Ht, Hp. simpl in Hw. lia.
Qed.

(** What holds throughout a session that starts in [s] displaying [d0], after [ks] was typed. *)
Definition in_session (s : OS) (d0 : D) (ks : list Z) (sh : shell OS) : Prop :=
  ∃ dn, pending s ++ ks = dn ++ pending (os sh) ∧ at_keys d0 dn sh.

Lemma session_ok s d0 ks sh : shows_on s d0 → serves no_buffer s → session (user_shell s) ks sh → in_session s d0 ks sh.
Proof.
  intros Hs Hv. induction 1 as [|ks sh sh' _ (dn & Hp & Hat) Hr Hst|ks sh e s' _ (dn & Hp & Hat) Hroom He].
  - exists []. split; [by rewrite app_nil_r|]. split; try done.
    + exists d0. split; [done|]. cbn [keys snd]. by rewrite app_nil_r.
    + split; [|simpl; lia]. constructor; [|done]. split; [simpl; lia|by decide_by_computation].
  - pose proof (returns_det _ _ _ (step_ok d0 dn sh Hat Hr) Hst) as [_ Hcase].
    destruct (todo sh) as [|c calls]; [destruct (pending (os sh)) as [|b rest]|].
    + destruct Hcase as (_ & Hp' & Hat'). exists dn. by rewrite Hp', Hp.
    + destruct Hcase as (Hp' & Hat'). exists (dn ++ [b]). by rewrite Hp', Hp, <-app_assoc.
    + destruct Hcase as (_ & Hp' & Hat'). exists dn. by rewrite Hp', Hp.
  - destruct Hat as [Hl Hfit (d & Hd & Ho) Htodo Hcr Hb Hcap].
    pose proof (returns_det _ _ _ (happens_ok e _ d Hd Hroom) He) as (Hd' & Hp' & Hv').
    exists dn. cbn [os]. split; [by rewrite Hp', app_assoc, Hp, <-app_assoc|]. split; try done; [|by apply Hv'].
    exists d. split; [done|exact Ho].
Qed.

(** What a session guarantees. *)
Definition transcript_of (s : OS) (d0 : D) (ks : list Z) (sh : shell OS) : Prop :=
  ∃ dn, pending s ++ ks = dn ++ pending (os sh) ∧
    line sh = (keys dn []).1 ∧ len (as_str (line sh)) ≤ Z.min 129 (rv_cap (buf sh)) ∧ rv_cap (buf sh) ≤ 256 ∧
    (∃ d, shows_on (os sh) d ∧ put (owed sh) d = put (bytes "$ " ++ (keys dn []).2) d0) ∧
    (∀ e, (length (pending (os sh)) + length (typed e) ≤ room)%nat →
       returns (happens e (os sh)) (λ _, True)) ∧
    (ready (os sh) → returns (run (work sh) sh) (λ sh',
       pending (os sh') = [] ∧ line sh' = (keys (pending s ++ ks) []).1 ∧
       shows_on (os sh') (put (bytes "$ " ++ (keys (pending s ++ ks) []).2) d0))).

Lemma session_transcript s d0 ks sh : shows_on s d0 → serves no_buffer s → session (user_shell s) ks sh →
  transcript_of s d0 ks sh.
Proof.
  intros Hs Hv Hses. destruct (session_ok s d0 ks sh Hs Hv Hses) as (dn & Hp & Hat). exists dn.
  pose proof Hat as [Hl Hfit (d & Hd & Ho) _ _ _ Hcap]. destruct Hfit as [Hfit _].
  split_and!; [done|done|lia|lia|by exists d| |].
  - intros e He. eapply returns_mono; [by apply (happens_ok e _ d)|done].
  - intros Hr. eapply returns_mono; [by apply (run_ok _ d0 dn)|]. intros sh' (Hp' & Ho' & Hat').
    destruct Hat' as [Hl' _ (d' & Hd' & Hput) _ _ _ _]. rewrite Ho', put_nil in Hput. rewrite Hp. by subst d'.
Qed.
End correct.

(** C23. On a terminal that delivers its input in order and whose allocator serves the line's buffer (six
    requests at most, doubling from 8 to 256 bytes), whatever is typed and happens between the
    shell's system calls, the shell has at every moment consumed a prefix of the keys typed and
    displayed, but for the calls it is about to make, exactly the transcript of that prefix (prompt,
    echo of each accepted key, rubouts, each line played back); the line held is the edited one,
    takes at most 129 bytes of UTF-8 and fits its buffer; and left alone with the CPU, six calls per unread key
    display the transcript of everything typed. *)
Theorem transcript {OS D} `{Terminal OS D} (s : OS) (d0 : D) (ks : list Z) (sh : shell OS) :
  shows_on s d0 → serves no_buffer s → session (user_shell s) ks sh → transcript_of s d0 ks sh.
Proof. apply session_transcript. Qed.

(** A terminal that displays but has no memory: the first key that is not a line's end or a rubout parks the
    core. *)
Theorem no_memory_parks {OS D} `{Terminal OS D} (s : OS) (d : D) b rest sh : os sh = s → todo sh = [] → line sh = [] →
  rv_cap (buf sh) = 0 → shows_on s d → ready s → pending s = b :: rest → b ∉ [8; 10; 13; 127] →
  (∀ s' l, returns (os_alloc l s') (λ r, r.1 = 0)) → step sh = Halt.
Proof.
  intros <- Ht Hl Hc Hs Hr Hp Hb Hno. unfold step. rewrite Ht. pose proof (os_read_ok _ _ Hs Hr) as Hrd.
  destruct (os_read FD_STDIN (os sh)) as [[[n c] s1]| | |]; try done. cbn [returns] in Hrd.
  destruct Hrd as (_ & _ & _ & Hrd). rewrite Hp in Hrd. destruct Hrd as (-> & -> & _). cbn [mbind outcome_bind].
  assert (∀ cr, on_key b (line sh) cr (buf sh) s1 = Halt) as Hk.
  { intros cr. unfold on_key. rewrite Hl. rewrite 2!decide_False, decide_True by (done || set_solver).
    unfold push. rewrite decide_True by (pose proof (len_utf8 b); rewrite Hc; change (len (as_str [])) with 0; lia). unfold grow.
    rewrite decide_True by done. match goal with |- context [os_alloc ?l s1] => pose proof (Hno s1 l) as Hz; destruct (os_alloc l s1) as [[p s2]| | |] end;
      try done. cbn in Hz. subst p. done. }
  unfold on_read. rewrite decide_False by (intros [?|?]; done). rewrite !decide_False by set_solver. by rewrite Hk.
Qed.

(** ** A terminal *)
Record tty_os := mkTtyOs { keyboard : list Z; screen : list Z; brk : Z }.

(** Its allocator hands out blocks upwards from [brk], below 64 KiB. *)
Definition tty_alloc (n : Z) (s : tty_os) : outcome (Z * tty_os) :=
  Ret (if decide (brk s + n ≤ 0x10000) then (brk s, mkTtyOs (keyboard s) (screen s) (brk s + n)) else (0, s)).

#[export] Instance tty_user : UserOs tty_os := {
  os_write fd bs s := Ret (len bs, mkTtyOs (keyboard s) (screen s ++ bs) (brk s));
  os_read fd s := Ret match keyboard s with
    | [] => (0, 0, s)
    | c :: cs => (1, c, mkTtyOs cs (screen s) (brk s))
    end;
  os_sleep_ms ms s := Ret (0, s);
  os_alloc l s := tty_alloc (lsize l) s;
  os_realloc _ _ n s := tty_alloc n s
}.

(** Its events: a line is typed. *)
Definition keystrokes : Type := { l : list Z | bool_decide (Forall is_u8 l) = true }.
Definition strokes (l : list Z) (Hl : bool_decide (Forall is_u8 l) = true) : keystrokes := l ↾ Hl.
#[export] Program Instance tty_terminal : Terminal tty_os (list Z) := {
  pending := keyboard; ready _ := True; put bs d := d ++ bs;
  serves v s := 0 < brk s ∧ brk s + 2 * (256 - rv_cap v) ≤ 0x10000;
  shows_on s d := screen s = d ∧ Forall is_u8 (keyboard s);
  event := keystrokes;
  typed e := `e; room := 256%nat;
  happens e s := Ret (mkTtyOs (keyboard s ++ `e) (screen s) (brk s))
}.
Next Obligation. intros d. apply app_nil_r. Qed.
Next Obligation. intros bs cs d. apply app_assoc. Qed.
Next Obligation. by intros s d [_ ?]. Qed.
Next Obligation. intros [k s m] d bs [<- ?] _ _ _. done. Qed.
Next Obligation. intros [[|c k] s m] d [<- Hk] _; [done|]. apply Forall_cons in Hk as [_ ?]. done. Qed.
Next Obligation. done. Qed.
Next Obligation.
  intros [k s m] d [p c] n Hs _ [Hb Hv] Hc Hn. cbn [brk rv_cap rv_ptr os_alloc os_realloc tty_user lsize] in *.
  assert (returns (tty_alloc n (mkTtyOs k s m)) (λ '(p, s'), p ≠ 0 ∧
    (0 < brk s' ∧ brk s' + 2 * (256 - rv_cap (mkRaw p n)) ≤ 0x10000) ∧ (screen s' = d ∧ Forall is_u8 (keyboard s')) ∧
    True ∧ keyboard s' = k)) as Hg; [|by case_decide].
  unfold tty_alloc. cbn [brk keyboard screen]. rewrite decide_True by lia. cbn [returns brk rv_cap].
  split_and!; try apply Hs; try lia. done.
Qed.
Next Obligation.
  intros [l Hl] [k s m] d [<- ?] _. pose proof (proj1 (bool_decide_eq_true _) Hl) as Hl'. simpl. split; [|done].
  split; [done|]. by apply Forall_app.
Qed.

(** Typing an [h], an [x], a rubout, an [i] and a carriage return with its line feed. *)
Definition hi : list Z := bytes "hx" ++ [127] ++ bytes "i" ++ [13; 10].

Lemma transcript_witness :
  ∃ sh, session (D:=list Z) (user_shell (mkTtyOs [] [] 64)) hi sh ∧ pending (os sh) = hi ∧
    transcript_of (mkTtyOs [] [] 64) [] hi sh.
Proof.
  exists (mkShell [] no_buffer false [] (mkTtyOs hi (bytes "$ ") 64)).
  assert (session (D:=list Z) (user_shell (mkTtyOs [] [] 64)) hi
    (mkShell [] no_buffer false [] (mkTtyOs hi (bytes "$ ") 64))) as Hs.
  { apply (@s_event tty_os (list Z) tty_user tty_terminal _ [] (mkShell [] no_buffer false [] (mkTtyOs [] (bytes "$ ") 64))
      (strokes hi eq_refl) (mkTtyOs hi (bytes "$ ") 64)).
    - eapply s_turn; [apply s_start|done|reflexivity].
    - vm_compute. lia.
    - reflexivity. }
  split; [exact Hs|]. split; [reflexivity|].
  apply (transcript (mkTtyOs [] [] 64) [] hi _); [by split|split; simpl; lia|exact Hs].
Defined.

(** A carriage return followed by a line feed ends two lines: the test that would swallow the
    second byte reads a flag that is cleared with every prompt. *)
Theorem crlf_ends_two_lines :
  returns (run 21 (user_shell (mkTtyOs hi [] 64))) (λ sh, pending (os sh) = [] ∧
    screen (os sh) = bytes "$ hx" ++ [8; 32; 8] ++ bytes "i" ++ [10] ++ bytes "String: hi" ++ [10] ++
      bytes "$ " ++ [10] ++ bytes "String: " ++ [10] ++ bytes "$ ").
Proof. by vm_compute. Qed.
