(* ===== verification/MmInit.v ===== *)
(** * Bringing memory up

    [init] of [src/mm/mod.rs]: the raw memory map from the device tree and the linker's symbols,
    its normalization, the range of the boot allocator, and the order in which the allocators and
    the page tables are initialized, with the lines it logs.

    Shown: [init] returns, and every frame it leaves free, and every byte it gives the heap, is
    memory that some region of the raw map declares usable and no region of another kind
    claims; QEMU's fallback map hands out frames of a device. *)
From S2P Require Import Prelude Bits Layout Memory Sync Region BootAlloc Frame Mmu Paging Mmio Uart Log Vfs Fdt Dtb.
From S2P Require Import DtbUart Heap.
Local Open Scope Z_scope.

(** The linker's [__kernel_phys_info]. *)
Record KernelPhysInfo := mkPhysInfo {
  kernel_start : Z; kernel_end : Z; stack_start : Z; stack_end : Z; boot_end : Z
}.

(** The devices and the statics [init] changes. *)
Record system (W H : Type) := mkSystem {
  device : W;
  uart : Uart.state;
  paging : Paging.state;
  sysregs : Mmu.regs;
  bootalloc : BootAlloc.state;
  frames : SpinLock (option FrameAllocator);
  heap : H
}.
Arguments mkSystem {W H}.
Arguments device {W H}.
Arguments uart {W H}.
Arguments paging {W H}.
Arguments sysregs {W H}.
Arguments bootalloc {W H}.
Arguments frames {W H}.
Arguments heap {W H}.

Definition with_device {W H} (w : W) (s : system W H) : system W H :=
  mkSystem w (uart s) (paging s) (sysregs s) (bootalloc s) (frames s) (heap s).

(** What the device tree says of the console goes to the UART driver, ready or not. *)
Definition apply_uart (info : UartInfo) (u : Uart.state) : Uart.state :=
  let u := set_base (u_addr info) u in
  let u := set_clock_hz (u_clock_hz info) u in
  let u := set_reg_shift (u_reg_shift info) u in
  let u := set_reg_io_width (u_reg_io_width info) u in
  set_skip_init (u_skip_init info) u.

Definition uart_window {W H} (info : option UartInfo) (s : system W H) : system W H :=
  match info with
  | None => s
  | Some info =>
      mkSystem (device s) (apply_uart info (uart s))
        (set_extra_mmio (align_down (u_addr info) 0x200000) 0x200000 (paging s))
        (sysregs s) (bootalloc s) (frames s) (heap s)
  end.

(** The regions added to those of the device tree. *)
Definition kernel_regions (ki : KernelPhysInfo) (map : MemoryMap) : MemoryMap :=
  let boot_start := KERNEL_PHYS_BASE in
  let map := if decide (boot_start < boot_end ki)
             then add_region map boot_start (sat_sub64 (boot_end ki) boot_start) KernelImage
             else map in
  let map := add_region map (kernel_start ki) (sat_sub64 (kernel_end ki) (kernel_start ki)) KernelImage in
  add_region map (stack_start ki) (sat_sub64 (stack_end ki) (stack_start ki)) BootStack.

Definition raw_map (b : board) (dtb_pa : Z) (ki : KernelPhysInfo) (dtb_info : option DtbInfo)
    (map : MemoryMap) : MemoryMap :=
  let map := kernel_regions ki map in
  let map := match dtb_info with
             | Some info => add_region map dtb_pa (total_size info) BootInfo
             | None => match b with
                       | Qemu => add_region map 0 QEMU_RAM_SIZE UsableRam
                       | Rpi5 => map
                       end
             end in
  match b with
  | Qemu => add_region map PERIPHERAL_BASE PERIPHERAL_SIZE Mmio
  | Rpi5 => add_region map SOC_BASE SOC_MMIO_SIZE Mmio
  end.

(** The range given to the boot allocator: what follows the kernel in the usable region it lies in,
    or else up to the end of the first usable region; [None] without usable memory. *)
Definition boot_range (ki : KernelPhysInfo) (normalized : NormalizedMap) : option (Z * Z) :=
  let boot_start := align_up (kernel_end ki) PAGE_SIZE in
  let holds (region : PhysRange) := r_start region ≤ boot_start ∧ boot_start < r_end region in
  let boot_end := match list_find holds (usable_regions normalized) with
                  | Some (_, region) => r_end region
                  | None => 0
                  end in
  let boot_end := if decide (boot_end = 0)
                  then match usable_regions normalized with region :: _ => r_end region | [] => boot_end end
                  else boot_end in
  if decide (boot_end = 0) then None else Some (boot_start, boot_end).

(** ** What is logged *)

Definition kind_name (k : RegionKind) : list Z :=
  match k with
  | UsableRam => bytes "usable" | Reserved => bytes "reserved" | Mmio => bytes "mmio"
  | KernelImage => bytes "kernel" | BootStack => bytes "stack" | BootInfo => bytes "bootinfo"
  end.

(** The bytes of one kind; the code keeps the six sums side by side. *)
Definition total (k : RegionKind) (map : NormalizedMap) : Z :=
  fold_left (λ acc r, if decide (kind r = k) then add64 acc (sat_sub64 (end_ r) (start r)) else acc) map 0.

Section init.
Context (b : board) (fuel : nat) (a : Paging.addresses) {W H : Type}.
Context `{HW : Hardware W, HD : Dma W, HK : KernelHeap H}.
Implicit Types (s : system W H).

(** A line through the driver; one without it; the marks of the Pi 5; a line on either board. *)
Definition mlog (line : list Z) s : outcome (system W H) :=
  '(u, w) ← log b fuel line (uart s) (device s);
  Ret (mkSystem w u (paging s) (sysregs s) (bootalloc s) (frames s) (heap s)).
Definition early (f : W → W) s : system W H := with_device (f (device s)) s.
Definition mark (line : list Z) s : system W H :=
  match b with Rpi5 => early (early_print (line ++ [10])) s | Qemu => s end.
Definition note (line : list Z) s : outcome (system W H) :=
  match b with Rpi5 => Ret (early (early_print (line ++ [10])) s) | Qemu => mlog line s end.

Definition log_map_raw (map : NormalizedMap) (w : W) : W :=
  fold_left (λ w r,
    let w := early_hex (start r) (early_print (bytes "  ") w) in
    let w := early_hex (end_ r) (early_print (bytes "-") w) in
    early_print [10] (early_print (kind_name (kind r)) (early_print (bytes " ") w)))
    map (early_print (bytes "Memory map:" ++ [10]) w).

Definition log_summary_raw (map : NormalizedMap) (w : W) : W :=
  let put text k w := early_hex (total k map) (early_print text w) in
  let w := put (bytes "Memory summary: usable=") UsableRam w in
  let w := put (bytes " reserved=") Reserved w in
  let w := put (bytes " mmio=") Mmio w in
  let w := put (bytes " kernel=") KernelImage w in
  let w := put (bytes " stack=") BootStack w in
  let w := put (bytes " bootinfo=") BootInfo w in
  early_print [10] w.

Definition log_map (map : NormalizedMap) s : outcome (system W H) :=
  mlog (bytes "Memory map:" ++ (map ≫= λ r,
    [10] ++ bytes "  " ++ hex_010 (start r) ++ bytes "-" ++ hex_010 (end_ r) ++ bytes " " ++ kind_name (kind r))) s.

Definition log_summary (map : NormalizedMap) s : outcome (system W H) :=
  let mib k := dec (total k map / (1024 * 1024)) ++ bytes " MiB" in
  let kib k := dec (total k map / 1024) ++ bytes " KiB" in
  mlog (bytes "Memory summary: usable=" ++ mib UsableRam ++ bytes " reserved=" ++ mib Reserved ++
    bytes " mmio=" ++ mib Mmio ++ bytes " kernel=" ++ kib KernelImage ++ bytes " stack=" ++ kib BootStack ++
    bytes " bootinfo=" ++ kib BootInfo) s.

Definition log_normalized (map : NormalizedMap) s : outcome (system W H) :=
  match b with
  | Rpi5 => Ret (early (log_summary_raw map) (early (log_map_raw map) s))
  | Qemu => s ← log_map map s; log_summary map s
  end.

Definition log_boot_range (boot_start boot_end : Z) s : outcome (system W H) :=
  match b with
  | Rpi5 =>
      let f w :=
        let w := early_hex boot_start (early_print (bytes "mm: bootalloc init start=") w) in
        early_print [10] (early_hex boot_end (early_print (bytes " end=") w)) in
      Ret (early f s)
  | Qemu => mlog (bytes "mm: bootalloc init start=" ++ hex boot_start ++ bytes " end=" ++ hex boot_end) s
  end.

(** ** The steps *)

Definition caches s : system W H :=
  match b with
  | Rpi5 =>
      let s := mark (bytes "mm: enable caches") s in
      let s := mkSystem (device s) (uart s) (paging s) (enable_caches (sysregs s)) (bootalloc s) (frames s) (heap s) in
      mark (bytes "mm: caches on") s
  | Qemu => s
  end.

(** [paging::init] with its log lines; the marks between its steps, and those of [mmu::enable_mmu], come
    first, since [Paging.init] does not touch the device. *)
Definition paging_init (normalized : NormalizedMap) s : outcome (system W H) :=
  s ← match b with Rpi5 => Ret (mark (bytes "P0") s) | Qemu => mlog (bytes "paging: build tables") s end;
  let s := fold_left (λ s line, mark (bytes line) s)
             ["P1"; "P2"; "P3"; "E0"; "E1"; "E2"; "E3"; "E4"]%string s in
  '(pg, regs) ← Paging.init a b normalized (paging s) (sysregs s);
  let s := mkSystem (device s) (uart s) pg regs (bootalloc s) (frames s) (heap s) in
  match b with
  | Rpi5 => Ret (mark (bytes "P4") s)
  | Qemu =>
      s ← mlog (bytes "paging: enable mmu ttbr0=" ++ hex (user_root_pa pg) ++
                bytes " ttbr1=" ++ hex (kernel_root_pa pg)) s;
      mlog (bytes "paging: mmu enabled") s
  end.

(** What is done once the boot range is known. *)
Definition bring_up (normalized : NormalizedMap) (boot_start boot_end : Z) s : outcome (system W H) :=
  let s := caches (mark (bytes "M5") s) in
  s ← log_boot_range boot_start boot_end s;
  let s := mkSystem (device s) (uart s) (paging s) (sysregs s)
             (BootAlloc.init boot_start boot_end (bootalloc s)) (frames s) (heap s) in
  s ← note (bytes "mm: bootalloc ready") s;
  s ← note (bytes "mm: frame allocator init") (mark (bytes "M6") s);
  '(marks, boot, fr) ← Frame.init normalized (bootalloc s) (frames s);
  let s := fold_left (λ s line, mark line s) marks s in
  let s := mkSystem (device s) (uart s) (paging s) (sysregs s) boot fr (heap s) in
  s ← note (bytes "mm: frame allocator ready") s;
  s ← note (bytes "mm: paging init") (mark (bytes "M7") s);
  s ← paging_init normalized s;
  s ← note (bytes "mm: paging ready") s;
  s ← note (bytes "mm: heap init") (mark (bytes "M8") s);
  '(fr, hp) ← Heap.init alloc_contiguous (frames s) (heap s);
  let s := mkSystem (device s) (uart s) (paging s) (sysregs s) (bootalloc s) fr hp in
  s ← note (bytes "mm: heap ready") s;
  Ret (mark (bytes "M9") s).

Definition init (dtb_pa : Z) (ki : KernelPhysInfo) s : outcome (system W H) :=
  let s := mark (bytes "M0") s in
  '(dtb_info, map) ← parse (get_mem (device s)) dtb_pa MemoryMap_new;
  let s := mark (bytes "M1") s in
  s ← match b with
      | Rpi5 => info ← find_uart (get_mem (device s)) dtb_pa; Ret (uart_window info s)
      | Qemu => Ret s
      end;
  let s := mark (bytes "M2") s in
  s ← match dtb_info with
      | Some _ => Ret s
      | None => mlog (bytes "DTB parse failed or missing (dtb_pa=" ++ hex dtb_pa ++ bytes ")") s
      end;
  normalized ← normalize (raw_map b dtb_pa ki dtb_info map);
  s ← log_normalized normalized (mark (bytes "M3") s);
  let s := mark (bytes "M4") s in
  match boot_range ki normalized with
  | None => Ret s
  | Some (boot_start, boot_end) => bring_up normalized boot_start boot_end s
  end.
End init.

(** ** Logging changes the device only *)
Section logging.
Context (fuel : nat) {W H : Type}.
Context `{HW : Hardware W, HD : Dma W, HV : !View W, HK : KernelHeap H}.
Implicit Types (s : system W H).

(** A state that differs in the device only, and there in nothing that is watched. *)
Definition logged s s' : Prop := ∃ w, s' = with_device w s ∧ view w = view (device s).

Lemma logged_refl s : logged s s.
Proof. exists (device s). by destruct s. Qed.

Lemma logged_trans s1 s2 s3 : logged s1 s2 → logged s2 s3 → logged s1 s3.
Proof. intros (w & -> & Hw) (w' & -> & Hw'). exists w'. split; [done|]. by rewrite Hw'. Qed.

Lemma logged_mem s s' : logged s s' → view (device s') = view (device s).
Proof. by intros (w & -> & Hw). Qed.

Lemma mark_logged b line s : early_quiet (W:=W) b → logged s (mark b line s).
Proof.
  intros He. unfold mark. destruct b; [|apply logged_refl]. eexists. split; [done|]. by apply early_print_quiet.
Qed.

Lemma marks_logged {A} (f : A → list Z) b lines s : early_quiet (W:=W) b →
  logged s (fold_left (λ s line, mark b (f line) s) lines s).
Proof.
  intros He. revert s. induction lines as [|line lines IH]; intros s; [apply logged_refl|].
  eapply logged_trans; [by apply mark_logged|apply IH].
Qed.

Lemma mlog_ok b line s : logs (W:=W) b fuel (uart s) → returns (mlog b fuel line s) (logged s).
Proof.
  intros Hl. unfold mlog. apply returns_bind. eapply returns_mono; [apply Hl|].
  intros [u w] [-> Hw]. by exists w.
Qed.

Lemma note_ok b line s : early_quiet (W:=W) b → logs (W:=W) b fuel (uart s) →
  returns (note b fuel line s) (logged s).
Proof.
  intros He Hl. unfold note. destruct b; [|by apply mlog_ok]. eexists. split; [done|]. by apply early_print_quiet.
Qed.

Lemma log_map_raw_quiet map (w : W) : early_quiet (W:=W) Rpi5 → view (log_map_raw map w) = view w.
Proof.
  intros Hearly. unfold log_map_raw. rewrite <-(early_print_quiet (bytes "Memory map:" ++ [10]) w Hearly).
  generalize (early_print (bytes "Memory map:" ++ [10]) w). clear w.
  induction map as [|r map IH]; intros w; [done|]. cbn [fold_left]. rewrite IH. cbv zeta.
  quiet_log. done.
Qed.

Lemma log_normalized_ok b map s : early_quiet (W:=W) b → logs (W:=W) b fuel (uart s) →
  returns (log_normalized b fuel map s) (logged s).
Proof.
  intros He Hl. unfold log_normalized. destruct b.
  - eexists. split; [done|]. cbn [device early with_device]. unfold log_summary_raw.
    quiet_log. by apply log_map_raw_quiet.
  - apply returns_bind. eapply returns_mono; [by apply mlog_ok|]. intros s1 Hs1.
    eapply returns_mono; [apply mlog_ok; by destruct Hs1 as (w & -> & _)|].
    intros s2. by apply logged_trans.
Qed.

Lemma caches_ok b s : early_quiet (W:=W) b → ∃ w r,
  caches b s = mkSystem w (uart s) (paging s) r (bootalloc s) (frames s) (heap s) ∧
  view w = view (device s).
Proof.
  intros He. unfold caches. destruct b; [|exists (device s), (sysregs s); by destruct s].
  eexists _, _. split; [done|]. cbn [mark early with_device device]. by quiet_log.
Qed.

Lemma log_boot_range_ok b bs be s : early_quiet (W:=W) b → logs (W:=W) b fuel (uart s) →
  returns (log_boot_range b fuel bs be s) (logged s).
Proof.
  intros He Hl. unfold log_boot_range. destruct b; [|by apply mlog_ok]. eexists. split; [done|].
  cbv beta zeta. quiet_log. done.
Qed.
End logging.

(** ** The normalized map *)

(** Regions within the 512 GiB the page tables cover. *)
Definition in_reach (raw : MemoryMap) : Prop :=
  Forall (λ r, 0 ≤ start r ∧ start r ≤ end_ r ∧ end_ r ≤ 2 ^ 39) raw.

Lemma in_reach_wf raw : in_reach raw → Forall wf_region raw ∧ below_top raw.
Proof.
  intros Hr. split; eapply Forall_impl; try exact Hr; intros r (? & ? & ?); unfold wf_region; cbv beta;
    change (2 ^ 39) with 549755813888 in *; lia.
Qed.

Lemma normalized_in_reach raw out : in_reach raw → normalize raw = Ret out →
  Forall (λ r, 0 ≤ start r ∧ end_ r ≤ 2 ^ 39) out.
Proof.
  intros Hraw Hn. destruct (in_reach_wf raw Hraw) as [Hwf Htop].
  destruct (normalize_stages raw) as (mg & Hn' & _ & _ & Hne & Hcl & _).
  rewrite Hn in Hn'. injection Hn' as ->. apply Forall_fmap, Forall_forall. intros r Hr. cbv beta.
  destruct (stage_bounds raw Hwf Htop mg r) as (? & ? & ?); [done..|].
  assert (end_ r ≤ 2 ^ 39) as He.
  { destruct (Hcl (end_ r - 1) (kind r)) as [(r' & Hr' & [_ Hc] & _) _].
    { exists r. split; [done|]. split; [unfold contains; lia|done]. }
    unfold in_reach in Hraw. rewrite Forall_forall in Hraw. destruct (Hraw r' Hr') as (_ & _ & ?). lia. }
  unfold compose. destruct (decide (start (align_region r) < end_ (align_region r))) as [Hlt|Hge].
  - destruct (align_region_bounds r) as (? & ? & _); [done..|]. lia.
  - revert Hge. unfold align_region. repeat case_decide; simpl; lia.
Qed.

Lemma normalized_ok raw out : in_reach raw → normalize raw = Ret out →
  map_ok out ∧ ∀ b, map_in_reach b out.
Proof.
  intros Hraw Hn. pose proof (normalized_in_reach raw out Hraw Hn) as Hb.
  destruct (in_reach_wf raw Hraw) as [Hwf Htop]. rewrite Forall_forall in Hb. split.
  - apply Forall_forall. intros r Hr Hk. destruct (Hb r Hr) as [? ?].
    destruct (usable_safe raw out r Hwf Htop Hn Hr Hk) as (? & ? & _).
    split_and!; [done| |done|done]. change (2 ^ 39) with 549755813888 in *.
    change (2 ^ 63) with 9223372036854775808. lia.
  - intros b. apply Forall_forall. intros r Hr. destruct (Hb r Hr) as [? ?]. split; [done|].
    unfold capped_end. destruct b; [|done]. repeat case_decide; lia.
Qed.

(** Every byte of a frame is usable memory that nothing else claims. *)
Definition frame_safe (raw : MemoryMap) (j : Z) : Prop := ∀ x, x / 4096 = j →
  claims raw x UsableRam ∧ ∀ k, k ≠ UsableRam → ¬ claims raw x k.

Lemma usable_frame_safe raw out j : in_reach raw → normalize raw = Ret out →
  usable_frame out j → frame_safe raw j.
Proof.
  intros Hraw Hn (r & Hr & Hk & Hj) x Hx. destruct (in_reach_wf raw Hraw) as [Hwf Htop].
  destruct (usable_safe raw out r Hwf Htop Hn Hr Hk) as (Hs & He & Hc). apply Hc. unfold contains.
  Z.to_euclidean_division_equations. lia.
Qed.

(** ** What the page tables map *)

(** A block is mapped to itself. *)
Definition to_itself (sp : space) (n : Z) : Prop := ∃ attr ap sh xn,
  0 ≤ attr < 8 ∧ 0 ≤ ap < 4 ∧ 0 ≤ sh < 4 ∧ sp n = block_desc (n * BLOCK_SIZE) attr ap sh xn.

Lemma windows_to_itself ws sp n :
  Forall (λ w : Z * Z * Z * Z, let '(_, _, attr, sh) := w in 0 ≤ attr < 8 ∧ 0 ≤ sh < 4) ws →
  to_itself sp n → to_itself (windows_space ws sp) n.
Proof.
  intros Hws. revert sp. induction Hws as [|[[[base size] attr] sh] ws [Ha Hs] _ IH]; intros sp Hsp.
  { done. }
  unfold windows_space. cbn [fold_left]. apply IH. destruct (decide (spans base size n)) as [Hin|Hout].
  - exists attr, AP_EL1_RW, sh, true. split_and!; try (done || lia). by apply span_in.
  - destruct Hsp as (attr' & ap' & sh' & xn' & ? & ? & ? & He). exists attr', ap', sh', xn'.
    split_and!; try lia. by rewrite span_out.
Qed.

Lemma ram_mapped b ap map eb es r x : 0 ≤ ap < 4 → 0 ≤ start r → capped_end b r ≤ 2 ^ 39 →
  r ∈ map → kind r ≠ Mmio → start r ≤ x < capped_end b r →
  ∃ d, translate (address_space b ap map eb es) x = Some (x, d).
Proof.
  intros Hap Hst Hen Hr Hk Hx.
  assert (to_itself (address_space b ap map eb es) (x / BLOCK_SIZE)) as (attr & ap' & sh & xn & ? & ? & ? & He).
  { apply windows_to_itself.
    - unfold windows. apply Forall_app. split; [destruct b; repeat (constructor; [done|]); constructor|].
      case_decide; repeat constructor; done.
    - exists ATTR_NORMAL, ap, SH_INNER, false. split_and!; try (done || lia). apply ram_space_in, Exists_exists.
      exists r. split; [done|]. split; [done|]. unfold sat_sub64.
      apply spans_mem; lia. }
  destruct (translate_block (address_space b ap map eb es) x attr ap' sh xn) as (d & Hd & _); try done.
  { lia. }
  by exists d.
Qed.

(** ** Bringing the allocators up *)

(** Replaces a marked state by one that differs in the device. *)
Ltac unmark He l w Hw :=
  match goal with |- context [mark ?b (bytes l) ?s] =>
    let E := fresh in destruct (mark_logged b (bytes l) s He) as (w & E & Hw); rewrite E; clear E
  end.

(** The same for a list of marks. *)
Ltac remark He w Hw :=
  match goal with |- context [fold_left (λ s line, mark ?b line s) ?marks ?s] =>
    let E := fresh in destruct (marks_logged id b marks s He) as (w & E & Hw); cbv beta delta [id] in E;
    rewrite E; clear E
  end.

Section bring_up_proof.
Context (b : board) (fuel : nat) (a : Paging.addresses) (Ha : placed a) {W H : Type}.
Context `{HW : Hardware W, HD : Dma W, HV : !View W, HK : KernelHeap H} (Hearly : early_quiet (W:=W) b).
Implicit Types (s : system W H).

(** The heap is where it was, or on 2048 frames that satisfy [P] and can no longer be allocated. *)
Definition heap_placed (P : Z → Prop) (h : H) s' : Prop :=
  heap s' = h ∨ ∃ p, p mod 4096 = 0 ∧ heap s' = lh_init (phys_to_virt p) HEAP_SIZE h ∧
    ∀ j, p / 4096 ≤ j < p / 4096 + 2048 → P j ∧ ¬ glob_free (frames s') j.

(** The range the boot allocator gets begins in a usable region and has room for the frame allocator's bitmap,
    the heap and the rounding to frames. *)
Definition roomy (map : NormalizedMap) (bs be : Z) : Prop :=
  (∃ r, r ∈ map ∧ kind r = UsableRam ∧ contains r bs ∧ end_ r = be) ∧
  bs + bitmap_bytes map + HEAP_SIZE + 0x3000 ≤ be.

(** The heap is on 2048 frames that satisfy [P]. *)
Definition heap_given (P : Z → Prop) (h : H) s' : Prop :=
  ∃ p, p mod 4096 = 0 ∧ 0 ≤ p ∧ heap s' = lh_init (phys_to_virt p) HEAP_SIZE h ∧
    ∀ j, p / 4096 ≤ j < p / 4096 + 2048 → P j.

Lemma roomy_run map bs be boot fa boot' : roomy map bs be → map_ok map →
  BootAlloc.BOOT_CURRENT boot = bs → bs mod 4096 = 0 → 0 ≤ bs < 2 ^ 62 →
  boot' = BootAlloc.mkState (BootAlloc.BOOT_START boot)
    (align_up (BootAlloc.BOOT_CURRENT boot) 8 + bitmap_bytes map) (BootAlloc.BOOT_END boot) →
  (∀ idx, free fa idx ↔ usable_frame map idx ∧
     ¬ (BootAlloc.BOOT_START boot / 4096 ≤ idx < (BootAlloc.BOOT_CURRENT boot' + 4095) / 4096)) →
  ∃ i, 0 ≤ i ∧ ∀ j, i ≤ j < i + 2048 → free fa j.
Proof.
  intros [(r & Hr & Hk & Hc & He) Hroom] Hok Hcur Hal Hbs -> Hfree.
  change (2 ^ 62) with 4611686018427387904 in Hbs. unfold contains in Hc.
  assert (align_up bs 8 = bs) as Ha8.
  { change 8 with (2 ^ 3). rewrite align_up_eq by (unfold is_u64; lia). change (2 ^ 3) with 8.
    Z.to_euclidean_division_equations. lia. }
  destruct (max_usable_end_spec map Hok) as ([Hme _] & _ & _).
  assert (0 ≤ bitmap_bytes map) as Hb.
  { unfold bitmap_bytes. Z.to_euclidean_division_equations. lia. }
  cbn [BootAlloc.BOOT_CURRENT] in Hfree. rewrite Hcur, Ha8 in Hfree. unfold HEAP_SIZE in Hroom.
  exists ((bs + bitmap_bytes map + 4095) / 4096).
  split; [Z.to_euclidean_division_equations; lia|]. intros j Hj. apply Hfree. split; [|lia].
  exists r. split_and!; [done|done|Z.to_euclidean_division_equations; lia|Z.to_euclidean_division_equations; lia].
Qed.

(** Then the frame allocator comes up with such a run of free frames. *)
Lemma roomy_free map bs be st (g : SpinLock (option FrameAllocator)) boot' : roomy map bs be → map_ok map → 0 < bs < 2 ^ 62 → bs mod 4096 = 0 →
  let boot := BootAlloc.init bs be st in
  (data g ≠ None ↔ has_usable map ∧ bitmap_fits map boot) →
  match data g with
  | None => boot' = boot
  | Some fa => Frame.wf fa ∧
      boot' = BootAlloc.mkState (BootAlloc.BOOT_START boot)
        (align_up (BootAlloc.BOOT_CURRENT boot) 8 + bitmap_bytes map) (BootAlloc.BOOT_END boot) ∧
      (∀ idx, free fa idx ↔ usable_frame map idx ∧
         ¬ (BootAlloc.BOOT_START boot / 4096 ≤ idx < (BootAlloc.BOOT_CURRENT boot' + 4095) / 4096)) ∧
      ∀ x, bitmap_addr fa ≤ x < bitmap_addr fa + 8 * len (bitmap fa) → ¬ free fa (x / 4096)
  end → ∃ i, 0 ≤ i ∧ ∀ j, i ≤ j < i + 2048 → glob_free g j.
Proof.
  intros Hroom Hok Hbs Hal boot Hset Hg. pose proof Hroom as [(r & Hr & Hk & Hc & He) Hfit].
  change (2 ^ 62) with 4611686018427387904 in Hbs. unfold contains in Hc.
  assert (BootAlloc.BOOT_CURRENT boot = bs) as Hcur.
  { unfold boot, BootAlloc.init. cbn [BootAlloc.BOOT_CURRENT].
    destruct (align_up_page bs) as [Hb Hm]; [unfold is_u64; lia|lia|]. Z.to_euclidean_division_equations. lia. }
  assert (align_up bs 8 = bs) as Ha8.
  { change 8 with (2 ^ 3). rewrite align_up_eq by (unfold is_u64; lia). change (2 ^ 3) with 8.
    Z.to_euclidean_division_equations. lia. }
  unfold HEAP_SIZE in Hfit. assert (data g ≠ None) as Hne.
  { apply Hset. split; [exists r; split_and!; [done|done|lia]|]. unfold bitmap_fits. rewrite Hcur, Ha8.
    split; [lia|]. unfold boot, BootAlloc.init. cbn [BootAlloc.BOOT_END]. lia. }
  unfold glob_free. destruct (data g) as [fa|]; [|done]. destruct Hg as (_ & Hb & Hfree & _).
  apply (roomy_run map bs be boot fa boot'); try done; [change (2 ^ 62) with 4611686018427387904; lia].
Qed.

Definition ram_reached (map : NormalizedMap) s' : Prop :=
  ∀ r x, r ∈ map → kind r = UsableRam → start r ≤ x < capped_end b r →
    ∃ d, Paging.walk a (paging s') (sysregs s') (KERNEL_VIRT_BASE + x) = Some (x, d).

Lemma boot_wf bs be st : 0 ≤ bs < 2 ^ 62 → be < 2 ^ 63 → BootAlloc.wf (BootAlloc.init bs be st).
Proof.
  change (2 ^ 62) with 4611686018427387904. change (2 ^ 63) with 9223372036854775808.
  intros Hbs Hbe. destruct (align_up_page bs) as [Hal _]; [unfold is_u64; lia|lia|].
  unfold BootAlloc.wf, BootAlloc.init. cbn [BOOT_START BOOT_CURRENT BOOT_END].
  change (2 ^ 63) with 9223372036854775808. lia.
Qed.

Lemma paging_init_ok map s : shaped (paging s) → extra_in_reach (paging s) → map_in_reach b map →
  logs (W:=W) b fuel (uart s) →
  returns (paging_init b fuel a map s) (λ s', ∃ w pg r,
    s' = mkSystem w (uart s) pg r (bootalloc s) (frames s) (heap s) ∧ view w = view (device s) ∧
    ∀ x, 0 ≤ x < 2 ^ 39 → Paging.walk a pg r (KERNEL_VIRT_BASE + x) =
      translate (address_space b AP_EL1_RW map (EXTRA_MMIO_BASE (paging s)) (EXTRA_MMIO_SIZE (paging s))) x).
Proof.
  intros Hsh Hex Hre Hlog. unfold paging_init. apply returns_bind.
  eapply (returns_mono _ (logged s)).
  { pose proof (λ l s, mark_logged b l s Hearly) as Hm. destruct b; [apply Hm|by apply mlog_ok]. }
  intros s1 Hs1. set (s2 := fold_left _ _ s1).
  assert (logged s s2) as (w2 & -> & Hw2) by (eapply logged_trans; [exact Hs1|by apply marks_logged]).
  cbn [with_device paging sysregs]. apply returns_bind.
  eapply returns_mono; [by apply (Paging.init_ok a Ha b map)|]. intros [pg r] Hwalk.
  cbn [device uart bootalloc frames heap with_device]. set (s3 := mkSystem _ _ pg r _ _ _).
  eapply (returns_mono _ (logged s3)).
  { pose proof (λ l s, mark_logged b l s Hearly) as Hm. destruct b; [apply Hm|]. apply returns_bind.
    eapply returns_mono; [by apply mlog_ok|]. intros s4 Hs4.
    eapply returns_mono; [apply mlog_ok; by destruct Hs4 as (w4 & -> & _)|].
    intros s5. by apply logged_trans. }
  intros s' (w & -> & Hw). exists w, pg, r. split; [done|]. split; [by rewrite Hw|].
  intros x Hx. by destruct (Hwalk x Hx).
Qed.

Lemma bring_up_ok map bs be s : shaped (paging s) → extra_in_reach (paging s) →
  map_ok map → map_in_reach b map → frames s = FRAME_ALLOC_new →
  0 ≤ bs < 2 ^ 62 → be ≤ max_usable_end map → logs (W:=W) b fuel (uart s) →
  returns (bring_up b fuel a map bs be s) (λ s',
    (∀ j, glob_free (frames s') j → usable_frame map j) ∧
    heap_placed (usable_frame map) (heap s) s' ∧
    (0 < bs → bs mod 4096 = 0 → roomy map bs be → heap_given (usable_frame map) (heap s) s') ∧ ram_reached map s' ∧
    uart s' = uart s ∧ view (device s') = view (device s)).
Proof.
  intros Hsh Hex Hok Hre Hfr Hbs Hbe Hlog. unfold bring_up.
  destruct (max_usable_end_spec map Hok) as ((_ & Hme) & _ & _).
  unmark Hearly "M5" w0 Hw0.
  destruct (caches_ok b (with_device w0 s) Hearly) as (w1 & r1 & -> & Hw1). apply returns_bind.
  eapply returns_mono; [by apply log_boot_range_ok|]. intros ? (w2 & -> & Hw2). apply returns_bind.
  eapply returns_mono; [by apply note_ok|]. intros ? (w3 & -> & Hw3). apply returns_bind.
  unmark Hearly "M6" w4 Hw4.
  eapply returns_mono; [by apply note_ok|]. intros ? (w5 & -> & Hw5). apply returns_bind.
  cbn [with_device device uart paging sysregs bootalloc frames heap] in *. rewrite Hfr.
  destruct (init_free map (BootAlloc.init bs be (bootalloc s))) as (marks & boot' & g & Hi & Hl & Hset & Hg);
    [done|apply boot_wf; lia|done|].
  assert (glob_wf g ∧ ∀ j, glob_free g j → usable_frame map j) as [Hgw Hgf].
  { unfold glob_wf, glob_free. destruct (data g) as [fa|]; [|done].
    destruct Hg as (Hfa & _ & Hj & _). split; [done|]. intros j Hf. by apply Hj in Hf as [? _]. }
  assert (0 < bs → bs mod 4096 = 0 → roomy map bs be → ∃ i, 0 ≤ i ∧ ∀ j, i ≤ j < i + 2048 → glob_free g j) as Hrun.
  { intros Hbs0 Hal Hroom. apply (roomy_free map bs be (bootalloc s) g boot' Hroom); try done. lia. }
  rewrite Hi. cbn [returns]. apply returns_bind.
  remark Hearly w6m Hw6m.
  eapply returns_mono; [by apply note_ok|]. intros ? (w6 & -> & Hw6). apply returns_bind.
  unmark Hearly "M7" w7 Hw7.
  eapply returns_mono; [by apply note_ok|]. intros ? (w8 & -> & Hw8). apply returns_bind.
  eapply returns_mono; [by apply (paging_init_ok map)|]. intros ? (w9 & pg & r9 & -> & Hw9 & Hwalk).
  apply returns_bind. eapply returns_mono; [by apply note_ok|]. intros ? (w10 & -> & Hw10). apply returns_bind.
  unmark Hearly "M8" w11 Hw11.
  eapply returns_mono; [by apply note_ok|]. intros ? (w12 & -> & Hw12). apply returns_bind.
  cbn [with_device device uart paging sysregs bootalloc frames heap] in *.
  pose proof (init_heap_ok g (heap s) Hgw) as Hheap.
  change (init_kernel_heap ps_alloc g (heap s)) with (Heap.init alloc_contiguous g (heap s)) in Hheap.
  eapply returns_mono; [exact Hheap|]. intros [g' h'] [Hw' Hh]. apply returns_bind.
  eapply returns_mono; [by apply note_ok|]. intros ? (w13 & -> & Hw13).
  unmark Hearly "M9" w14 Hw14.
  cbn [returns with_device device uart paging sysregs bootalloc frames heap] in *.
  split_and!; [| | | |done|congruence].
  - intros j Hj. apply Hgf. destruct Hh as [(_ & Hh & _)|(p & _ & _ & _ & _ & Hh)]; by apply Hh.
  - unfold heap_placed. cbn [with_device heap frames].
    destruct Hh as [(-> & _)|(p & Hp & _ & -> & Hin & _)]; [by left|].
    right. exists p. split_and!; [done..|]. intros j Hj. destruct (Hin j Hj). auto.
  - intros Hbs0 Hal Hroom. destruct (Hrun Hbs0 Hal Hroom) as (i & Hi0 & Hij). unfold heap_given.
    cbn [with_device heap]. destruct Hh as [(_ & _ & Hno)|(p & Hp & Hp0 & -> & Hin & _)]; [by destruct (Hno i Hi0)|].
    exists p. split_and!; [done|lia|done|]. intros j Hj. apply Hgf. by destruct (Hin j Hj).
  - intros r x Hr Hk Hx. cbn [with_device paging sysregs]. unfold map_in_reach in Hre.
    rewrite Forall_forall in Hre. destruct (Hre r Hr) as [? ?].
    rewrite Hwalk by lia. apply (ram_mapped b _ map _ _ r); try done. by rewrite Hk.
Qed.
End bring_up_proof.

(** ** The boot range *)
Lemma usable_ranges map rg : rg ∈ usable_regions map →
  ∃ r, r ∈ map ∧ kind r = UsableRam ∧ start r = r_start rg ∧ end_ r = r_end rg.
Proof.
  intros (r & -> & [Hk Hr]%list_elem_of_filter)%list_elem_of_fmap. by exists r.
Qed.

(** The range ends where a usable region does, and if some usable region holds the first page
    after the kernel, it starts in that region. *)
Lemma boot_range_ok ki map bs be : 0 ≤ align_up (kernel_end ki) PAGE_SIZE →
  boot_range ki map = Some (bs, be) →
  bs = align_up (kernel_end ki) PAGE_SIZE ∧
  ∃ r, r ∈ map ∧ kind r = UsableRam ∧ end_ r = be ∧
    ((∃ r', r' ∈ map ∧ kind r' = UsableRam ∧ contains r' bs) → contains r bs).
Proof.
  unfold boot_range. set (bs0 := align_up _ _). set (holds := λ region : PhysRange, _ ∧ _). intros Hbs.
  destruct (list_find holds (usable_regions map)) as [[i rg]|] eqn:Hf.
  - apply list_find_Some in Hf as (Hi & [Hh1 Hh2] & _). apply list_elem_of_lookup_2 in Hi as Hin.
    destruct (usable_ranges map rg Hin) as (r & Hr & Hk & Hs & He).
    rewrite !(decide_False (P:=r_end rg = 0)) by lia. injection 1 as <- <-. split; [done|]. exists r.
    unfold contains. rewrite Hs, He. done.
  - rewrite (decide_True (P:=0 = 0)) by done. destruct (usable_regions map) as [|r0 l] eqn:Hl; [done|].
    case_decide; [done|]. injection 1 as <- <-. split; [done|].
    destruct (usable_ranges map r0) as (r & Hr & Hk & Hs & He); [rewrite Hl; set_solver|].
    exists r. split_and!; [done..|]. intros (r' & Hr' & Hk' & Hc). exfalso.
    apply list_find_None in Hf. rewrite Forall_forall in Hf. rewrite <-Hl in Hf.
    apply (Hf (mkRange (start r') (end_ r'))); [|exact Hc].
    apply list_elem_of_fmap. exists r'. split; [done|]. by apply list_elem_of_filter.
Qed.

(** ** The whole of [init] *)

(** The UART the device tree names lies where the page tables can map it. *)
Definition uart_in_reach (b : board) (m : mem) (dtb_pa : Z) : Prop :=
  match b with
  | Qemu => True
  | Rpi5 => returns (find_uart m dtb_pa) (λ info, ∀ i, info = Some i → 0 ≤ u_addr i < 2 ^ 39)
  end.

(** The statics before [init]. *)
Definition untouched {W H} (s : system W H) : Prop :=
  shaped (paging s) ∧ extra_in_reach (paging s) ∧ frames s = FRAME_ALLOC_new.

Lemma uart_window_ok {W H} info (s : system W H) : untouched s →
  (∀ i, info = Some i → 0 ≤ u_addr i < 2 ^ 39) → untouched (uart_window info s) ∧
  heap (uart_window info s) = heap s.
Proof.
  intros (Hs & He & Hf) Hi. destruct info as [i|]; [|done]. destruct (Hi i eq_refl) as [H0 H1].
  split; [|done]. split_and!; [exact Hs| |exact Hf].
  unfold extra_in_reach. cbn [uart_window paging set_extra_mmio EXTRA_MMIO_BASE EXTRA_MMIO_SIZE].
  change 0x200000 with (2 ^ 21). change (2 ^ 39) with 549755813888 in *.
  rewrite align_down_eq by (unfold is_u64; lia). change (2 ^ 21) with 2097152.
  Z.to_euclidean_division_equations. lia.
Qed.

(** The UART after [init] has told it what the device tree says. *)
Definition uart_told {W H} (b : board) (info : option UartInfo) (s : system W H) : Uart.state :=
  match b with Rpi5 => uart (uart_window info s) | Qemu => uart s end.

Section init_proof.
Context (b : board) (fuel : nat) (a : Paging.addresses) (Ha : placed a) {W H : Type}.
Context `{HW : Hardware W, HD : Dma W, HV : !View W, HK : KernelHeap H} (Hearly : early_quiet (W:=W) b).
Implicit Types (s : system W H).

(** Log lines can be written on the UART as [init] finds it. *)
Definition can_log (m : mem) (dtb_pa : Z) s : Prop := ∀ info,
  (b = Rpi5 → find_uart m dtb_pa = Ret info) → logs (W:=W) b fuel (uart_told b info s).

(** What the device tree says of the console is told to the UART. *)
Lemma tell_uart_ok m dtb_pa s : uart_in_reach b m dtb_pa → untouched s →
  returns (match b with
           | Rpi5 => info ← find_uart m dtb_pa; Ret (uart_window info s)
           | Qemu => Ret s
           end) (λ s', untouched s' ∧ heap s' = heap s ∧ device s' = device s ∧
    ∃ i, (b = Rpi5 → find_uart m dtb_pa = Ret i) ∧ uart s' = uart_told b i s).
Proof.
  intros Hu Hs. unfold uart_told. destruct b.
  - apply returns_bind. unfold uart_in_reach in Hu.
    destruct (find_uart m dtb_pa) as [i| | |]; try done. cbn [returns] in *.
    destruct (uart_window_ok i s Hs Hu) as [Hs' Hh']. split_and!; [done|done|by destruct i|].
    by exists i.
  - split_and!; [done..|]. by exists None.
Qed.

(** A heap just initialized; the memory that is needed for it. *)
Definition fresh_heap (h : H) : Prop := lh_wf h ∧ lh_live h = ∅ ∧ lh_room HEAP_SIZE h.
Definition room_for_heap (ki : KernelPhysInfo) (raw : MemoryMap) : Prop := ∃ out bs be,
  normalize raw = Ret out ∧ boot_range ki out = Some (bs, be) ∧ 0 < bs ∧ roomy out bs be.

Lemma given_fresh raw h s' : in_reach raw → heap_given (frame_safe raw) h s' → fresh_heap (heap s').
Proof.
  intros Hraw (p & Hp & Hp0 & -> & Hj). destruct (Hj (p / 4096) ltac:(lia) p eq_refl) as [Hc _].
  destruct Hc as (r & Hr & [_ Hc] & _). unfold in_reach in Hraw. rewrite Forall_forall in Hraw.
  destruct (Hraw r Hr) as (_ & _ & He). change (2 ^ 39) with 549755813888 in He.
  assert (phys_to_virt p = p + 0xFFFF800000000000) as Hv.
  { unfold phys_to_virt, add64, wrap64. change PHYS_MAP_BASE with 0xFFFF800000000000. apply Z.mod_small. lia. }
  apply lh_init_ok; [lia| |done]. rewrite Hv, Z.add_mod, Hp by lia. done.
Qed.

Lemma init_safe (dtb_pa : Z) (ki : KernelPhysInfo) s info map : let m := get_mem (device s) in
  parse m dtb_pa MemoryMap_new = Ret (info, map) →
  let raw := raw_map b dtb_pa ki info map in
  in_reach raw → uart_in_reach b m dtb_pa → untouched s → 0 ≤ kernel_end ki < 2 ^ 39 → can_log m dtb_pa s →
  returns (init b fuel a dtb_pa ki s) (λ s',
    (∀ j, glob_free (frames s') j → frame_safe raw j) ∧
    heap_placed (frame_safe raw) (heap s) s' ∧
    (room_for_heap ki raw → fresh_heap (heap s')) ∧
    (frames s' = FRAME_ALLOC_new ∨ ∃ out, normalize raw = Ret out ∧ ram_reached b a out s') ∧
    view (device s') = view (device s) ∧
    ∃ i, (b = Rpi5 → find_uart m dtb_pa = Ret i) ∧ uart s' = uart_told b i s).
Proof.
  intros m Hp raw Hraw Hu Hs Hke Hlog. destruct (in_reach_wf raw Hraw) as [Hwf Htop].
  unfold init. unmark Hearly "M0" w0 Hw0.
  cbn [with_device device]. rewrite (view_mem _ _ Hw0). fold m. rewrite Hp. apply returns_bind. cbn [returns].
  unmark Hearly "M1" w1 Hw1.
  cbn [with_device device uart paging sysregs bootalloc frames heap] in *.
  assert (view w1 = view (device s)) as Hv1 by (rewrite Hw1; exact Hw0).
  rewrite (view_mem _ _ Hv1). fold m. apply returns_bind.
  eapply returns_mono; [by apply (tell_uart_ok m dtb_pa (with_device w1 s))|].
  intros s0 ((Hsh & Hex & Hfr) & Hheap & Hm0%(f_equal view) & i0 & Hi0 & Hu0).
  replace (uart_told b i0 (with_device w1 s)) with (uart_told b i0 s) in Hu0 by (unfold uart_told; by destruct b, i0).
  specialize (Hlog i0 Hi0). rewrite <-Hu0 in Hlog.
  unmark Hearly "M2" w2 Hw2. apply returns_bind.
  eapply (returns_mono _ (logged (with_device w2 s0))).
  { destruct info; [apply logged_refl|by apply mlog_ok]. }
  intros ? (w3 & -> & Hw3). fold raw.
  destruct (normalize_stages raw) as (mg & Hn & _). set (out := align_usable mg) in *.
  destruct (normalized_ok raw out Hraw Hn) as [Hok Hre]. rewrite Hn.
  apply returns_bind. cbn [returns]. apply returns_bind.
  unmark Hearly "M3" w4 Hw4.
  eapply returns_mono; [by apply log_normalized_ok|]. intros ? (w5 & -> & Hw5).
  unmark Hearly "M4" w6 Hw6.
  cbn [with_device device uart paging sysregs bootalloc frames heap] in *.
  assert (view w6 = view (device s)) as Hm6 by congruence.
  change (2 ^ 39) with 549755813888 in *.
  destruct (align_up_page (kernel_end ki)) as [Hal _]; [unfold is_u64; lia|lia|].
  destruct (boot_range ki out) as [[bs be]|] eqn:Hb.
  - pose proof Hb as Hrange. apply boot_range_ok in Hb as (-> & r & Hr & Hk & <- & _); [|lia].
    destruct (max_usable_end_spec out Hok) as (_ & _ & Hmax).
    eapply returns_mono; [apply (bring_up_ok b fuel a Ha Hearly out _ (end_ r)); try done|].
    + change (2 ^ 62) with 4611686018427387904. lia.
    + by apply Hmax.
    + intros s' (Hfree & Hpl & Hgiven & Hreach & Hu' & Hm').
      cbn [with_device device uart paging sysregs bootalloc frames heap] in *.
      split_and!; [|rewrite <-Hheap; destruct Hpl as [?|(p & ? & ? & Hj)]| | |congruence|].
      * intros j Hj. eapply usable_frame_safe; eauto.
      * by left.
      * right. exists p. split_and!; [done..|]. intros j Hin. destruct (Hj j Hin). split; [|done].
        eapply usable_frame_safe; eauto.
      * intros (out' & bs & be & Hn' & Hb' & Hbs & Hroom). rewrite Hn in Hn'. injection Hn' as <-.
        rewrite Hrange in Hb'. injection Hb' as <- <-. apply (given_fresh raw (heap s0)); [done|].
        destruct Hgiven as (p & Hp4 & Hp0 & Hpi & Hj); [done| |done|].
        { pose proof (align_up_page (kernel_end ki)) as Hpg. apply Hpg; [unfold is_u64; lia|lia]. }
        exists p. split_and!; [done..|]. intros j Hj'. eapply usable_frame_safe; eauto.
      * right. by exists out.
      * exists i0. split; [done|congruence].
  - cbn [returns with_device frames heap]. rewrite Hfr. split_and!; [done|by left| |by left|done|by exists i0].
    intros (out' & bs & be & Hn' & Hb' & _). rewrite Hn in Hn'. injection Hn' as <-. congruence.
Qed.

End init_proof.

#[local] Existing Instance mem_view.

(** C4. Memory comes up safely: with a raw map and a UART below 512 GiB, and log lines that come through,
    [init] returns; a frame it leaves to be allocated consists of bytes that a usable-RAM region of the
    raw map claims and no region of another kind does (kernel, boot stack, device tree, reserved memory,
    MMIO); the heap is untouched or has 2048 such frames, no longer allocatable; and usable RAM below
    the mapping cap is reached through the higher half. *)
Theorem init_memory_safe (b : board) (fuel : nat) (a : Paging.addresses) {W H : Type}
    `{HW : Hardware W, HD : Dma W, HK : KernelHeap H} (dtb_pa : Z) (ki : KernelPhysInfo) (s : system W H) info map :
  placed a → early_quiet (W:=W) b → parse (get_mem (device s)) dtb_pa MemoryMap_new = Ret (info, map) →
  let raw := raw_map b dtb_pa ki info map in
  in_reach raw → uart_in_reach b (get_mem (device s)) dtb_pa → untouched s → 0 ≤ kernel_end ki < 2 ^ 39 →
  can_log b fuel (get_mem (device s)) dtb_pa s →
  returns (init b fuel a dtb_pa ki s) (λ s',
    (∀ j, glob_free (frames s') j → frame_safe raw j) ∧
    heap_placed (frame_safe raw) (heap s) s' ∧
    (frames s' = FRAME_ALLOC_new ∨ ∃ out, normalize raw = Ret out ∧ ram_reached b a out s')).
Proof.
  intros Ha He Hp raw Hraw Hu Hs Hke Hlog.
  eapply returns_mono; [by apply (init_safe b fuel a Ha He dtb_pa ki s info map)|].
  by intros s' (? & ? & _ & ? & _).
Qed.

(** ** Concrete boots *)
Definition demo_ki : KernelPhysInfo := mkPhysInfo 0x200000 0x300000 0x2F0000 0x300000 0x200000.
Definition image_of (pa : Z) (tree : node) : mem :=
  image_at pa (encode (tokens_of tree)) demo_strings.
Definition demo_map : MemoryMap := add_all (collect demo_strings root_ctx demo_tree) MemoryMap_new.

(** A machine with [m] in memory. *)
Definition demo_system (m : mem) : system demo_dev bump :=
  mkSystem (mkDemo (mkPort [] []) m) (Uart.state_new Rpi5) Paging.state_new demo_regs boot_zero FRAME_ALLOC_new
    lh_empty.

Lemma demo_early b : early_quiet (W:=demo_dev) b.
Proof. by intros _ v [p m]. Qed.

Lemma init_memory_safe_witness :
  let raw := raw_map Rpi5 0x8000000 demo_ki (Some (mkInfo 315)) demo_map in
  let s := demo_system (image_of 0x8000000 demo_tree) in
  returns (init Rpi5 0 demo_addresses 0x8000000 demo_ki s) (λ s',
    (∀ j, glob_free (frames s') j → frame_safe raw j) ∧
    heap_placed (frame_safe raw) (heap s) s' ∧
    (frames s' = FRAME_ALLOC_new ∨
     ∃ out, normalize raw = Ret out ∧ ram_reached Rpi5 demo_addresses out s')).
Proof.
  assert (find_uart (image_of 0x8000000 demo_tree) 0x8000000 = Ret None) as Hno
    by (vm_compute; reflexivity).
  intros raw s.
  apply (init_memory_safe Rpi5 0 demo_addresses 0x8000000 demo_ki s (Some (mkInfo 315)) demo_map
    demo_placed (demo_early _)).
  - vm_compute. reflexivity.
  - unfold in_reach. apply (bool_decide_unpack _). vm_compute. reflexivity.
  - unfold uart_in_reach. cbn [s demo_system device get_mem demo_dev_dma d_mem]. rewrite Hno. intros i [=].
  - split_and!; [exact demo_shaped|exact (proj2 demo_reach)|reflexivity].
  - vm_compute. intuition discriminate.
  - intros info Hi. specialize (Hi eq_refl). cbn [s demo_system device get_mem demo_dev_dma d_mem] in Hi.
    rewrite Hno in Hi. injection Hi as <-. by apply log_not_ready.
Defined.

(** The same memory, with the device tree on the page that follows the kernel. *)
Definition small_tree : node :=
  Node [] [(0, be32 2); (15, be32 1)] [
    Node (bytes "memory@0") [(27, be32 0 ++ be32 0 ++ be32 0x1000000)] []].

(** A device tree on the page after the kernel leaves the system without memory: that page is in no
    usable region, so the boot allocator is given the range up to the end of the first usable one,
    which lies below the kernel; nothing can be allocated for the bitmap, and [init] returns
    with neither frames nor heap although 13 MiB are usable. *)
Theorem dtb_after_kernel_no_memory :
  returns (init Qemu 0 demo_addresses 0x300000 demo_ki (demo_system (image_of 0x300000 small_tree))) (λ s',
    BootAlloc.BOOT_START (bootalloc s') = 0x300000 ∧ BootAlloc.BOOT_END (bootalloc s') = 0x80000 ∧
    frames s' = FRAME_ALLOC_new ∧ heap s' = lh_empty) ∧
  ∃ out, normalize (raw_map Qemu 0x300000 demo_ki (Some (mkInfo 175))
                      [mkRegion 0 0x1000000 UsableRam]) = Ret out ∧
    mkRegion 0x301000 0x1000000 UsableRam ∈ out.
Proof.
  split; [vm_compute; by split_and!|]. eexists. split; [vm_compute; reflexivity|].
  do 3 right. by left.
Qed.

Lemma device_bounds : (0 ≤ ATTR_DEVICE < 8) ∧ (0 ≤ AP_EL1_RW < 4) ∧ 0 ≤ SH_NONE < 4.
Proof. by vm_compute. Qed.

(** Without a device tree QEMU's fallback declares the first 8 GiB usable except the peripheral
    window: the frames of the local peripherals at 0x40000000 can be allocated as RAM, while the
    page tables map them as device memory. *)
Theorem fallback_device_frames r : ∃ out,
  normalize (raw_map Qemu 0 demo_ki None MemoryMap_new) = Ret out ∧ usable_frame out 0x40000 ∧
  returns (Paging.init demo_addresses Qemu out Paging.state_new r) (λ '(s', r'), ∃ d,
    Paging.walk demo_addresses s' r' (KERNEL_VIRT_BASE + 0x40000000) = Some (0x40000000, d) ∧
    d_attr (decode_block d) = ATTR_DEVICE).
Proof.
  set (raw := raw_map Qemu 0 demo_ki None MemoryMap_new).
  assert (in_reach raw) as Hraw by (apply (bool_decide_unpack _); vm_compute; reflexivity).
  assert (∃ out, normalize raw = Ret out ∧ usable_frame out 0x40000) as (out & Hn & Hu).
  { eexists. split; [vm_compute; reflexivity|]. apply (bool_decide_unpack _). vm_compute. reflexivity. }
  exists out. split_and!; [exact Hn|exact Hu|].
  destruct (normalized_ok raw out Hraw Hn) as [_ Hre].
  eapply returns_mono; [exact (Paging.init_ok demo_addresses demo_placed Qemu out _ r demo_shaped
    (Hre Qemu) (proj2 demo_reach))|].
  assert (0 ≤ 0x40000000 < 2 ^ 39) as Hin by lia.
  intros [s' r'] Hwalk. destruct (Hwalk 0x40000000 Hin) as [-> _]. clear Hwalk.
  destruct (translate_block (address_space Qemu AP_EL1_RW out 0 0) 0x40000000
    ATTR_DEVICE AP_EL1_RW SH_NONE true Hin) as (d & Hd & Hd'); try apply device_bounds.
  { apply (windows_space_last [_] 0x40000000 0x00200000 ATTR_DEVICE SH_NONE [_]).
    - apply (spans_mem 0x40000000 0x00200000 0x40000000); lia.
    - constructor; [|constructor]. apply (bool_decide_unpack _). vm_compute. reflexivity. }
  exists d. split; [exact Hd|]. by rewrite Hd'.
Qed.

(** The Pi 5 maps at most the first GiB of a region, but hands out frames of all of it: on a machine with
    2 GiB the frame at 0x70000000 is usable, and no address reaches it. *)
Theorem rpi5_unmapped_frames r : ∃ out,
  normalize (raw_map Rpi5 0x8000000 demo_ki (Some (mkInfo 315)) [mkRegion 0 0x80000000 UsableRam]) = Ret out ∧
  usable_frame out 0x70000 ∧
  returns (Paging.init demo_addresses Rpi5 out Paging.state_new r) (λ '(s', r'),
    Paging.walk demo_addresses s' r' (KERNEL_VIRT_BASE + 0x70000000) = None ∧
    Paging.walk demo_addresses s' r' 0x70000000 = None).
Proof.
  set (raw := raw_map _ _ _ _ _).
  assert (in_reach raw) as Hraw by (apply (bool_decide_unpack _); vm_compute; reflexivity).
  assert (∃ out, normalize raw = Ret out ∧ usable_frame out 0x70000 ∧
    Forall (λ r0, ¬ ram_spans Rpi5 r0 (0x70000000 / BLOCK_SIZE)) out) as (out & Hn & Hu & Hout).
  { eexists. split; [vm_compute; reflexivity|]. split; apply (bool_decide_unpack _); vm_compute; reflexivity. }
  exists out. split_and!; [exact Hn|exact Hu|].
  destruct (normalized_ok raw out Hraw Hn) as [_ Hre].
  eapply returns_mono; [exact (Paging.init_ok demo_addresses demo_placed Rpi5 out _ r demo_shaped
    (Hre Rpi5) (proj2 demo_reach))|].
  assert (0 ≤ 0x70000000 < 2 ^ 39) as Hin by lia.
  intros [s' r'] Hwalk. destruct (Hwalk 0x70000000 Hin) as [-> ->]. clear Hwalk.
  split; apply translate_unmapped; unfold address_space; rewrite windows_space_out, ram_space_out;
    try exact Hout; try reflexivity; apply (bool_decide_unpack _); vm_compute; reflexivity.
Qed.
