(* ===== verification/Main.v ===== *)
(** * Booting

    [src/main.rs]: [kernel_main], which runs the components in order on CPU 0, and the console it
    tries to bring up; and [secondary_rust_entry] of [src/kernel/smp.rs].

    The other cores run from their release on, next to the rest of the sequence: what they do to the machine is
    an argument of it.

    Shown: the table the boot sequence leaves; and whatever timer interrupts come in between, every
    core that has not started finds a process to run.  [Boot] shows that the sequence gets there. *)
From stdpp Require Import gmap.
From S2P Require Import Prelude Bits Layout Memory Ring Sync Region BootAlloc Frame Mmu Paging Mmio Uart Log.
From S2P Require Import Keyboard Mailbox Framebuffer Vfs Trap Smp Process Scheduler Fdt Dtb DtbUart Timer Intc.
From S2P Require Import Interrupts Heap Syscall User MmInit.
Local Open Scope Z_scope.

(** Addresses the linker fixes. *)
Record image := mkImage {
  tables : Paging.addresses;
  phys_info : KernelPhysInfo;
  MBOX : Z;
  process_stacks : Z;
  user_stack : Z;
  user_shell_at : Z;
  user_start_at : Z;
  idle_loop_at : Z;
  secondary_start : Z
}.

Definition USER_STACK_SIZE : Z := 512 * 1024.
Definition RP1_UART_FALLBACK : Z := 0x1c00030000.

(** Everything the boot sequence changes: [Interrupts.machine] holds the drivers, the devices and the
    process table. *)
Record kernel (W H : Type) := mkKernel {
  machine : Interrupts.machine W;
  paging : Paging.state;
  sysregs : Mmu.regs;
  bootalloc : BootAlloc.state;
  frames : SpinLock (option FrameAllocator);
  heap : H;
  user : User.entry_state;
  cores : Smp.state
}.
Arguments mkKernel {W H}.
Arguments machine {W H}.
Arguments paging {W H}.
Arguments sysregs {W H}.
Arguments bootalloc {W H}.
Arguments frames {W H}.
Arguments heap {W H}.
Arguments user {W H}.
Arguments cores {W H}.

Section boot.
Context {W H : Type} `{HW : Hardware W, HD : Dma W, HC : Clock W, HK : KernelHeap H}.
Context (b : board) (fuel : nat) (im : image).
Implicit Types (s : kernel W H).

Definition device s : W := hw (dev (machine s)).
Definition procs_of s : procs := tbl (machine s).

Definition with_machine (m : Interrupts.machine W) s : kernel W H :=
  mkKernel m (paging s) (sysregs s) (bootalloc s) (frames s) (heap s) (user s) (cores s).
Definition with_dev (d : io W) s : kernel W H :=
  with_machine (mkMachine d (procs_of s) (tick_ticks (machine s)) (irq_enabled (machine s))) s.
Definition with_procs (t : procs) s : kernel W H :=
  with_machine (mkMachine (dev (machine s)) t (tick_ticks (machine s)) (irq_enabled (machine s))) s.
Definition with_uart_hw (u : Uart.state) (w : W) s : kernel W H :=
  let d := dev (machine s) in with_dev (mkIo u (console d) (input d) w) s.

(** What the device tree says of the serial port, or the address the firmware uses. *)
Definition uart_settings (info : option UartInfo) (u : Uart.state) : Uart.state :=
  match info with
  | Some i => apply_uart i u
  | None => set_skip_init true (set_reg_io_width 4 (set_reg_shift 0 (set_base RP1_UART_FALLBACK u)))
  end.

(** A line through the driver, and one without it that only the Pi 5 prints. *)
Definition klog (line : list Z) s : outcome (kernel W H) :=
  '(u, w) ← log b fuel line (Vfs.uart (dev (machine s))) (device s); Ret (with_uart_hw u w s).
Definition kmark (line : list Z) s : kernel W H :=
  match b with
  | Rpi5 => with_uart_hw (Vfs.uart (dev (machine s))) (early_print (line ++ [10]) (device s)) s
  | Qemu => s
  end.

Definition init_uart (dtb_pa : Z) s : outcome (kernel W H) :=
  let u := Vfs.uart (dev (machine s)) in
  match b with
  | Qemu => let '(u, w) := Uart.init b u (device s) in Ret (with_uart_hw u w s)
  | Rpi5 =>
      info ← find_uart (get_mem (device s)) dtb_pa;
      let '(u, w) := Uart.init b (uart_settings info u) (device s) in
      Ret (kmark (bytes "K1") (with_uart_hw u w s))
  end.

(** [mm::init], on its part of the state. *)
Definition init_mm (dtb_pa : Z) s : outcome (kernel W H) :=
  r ← MmInit.init b fuel (tables im) dtb_pa (phys_info im)
        (mkSystem (device s) (Vfs.uart (dev (machine s))) (paging s) (sysregs s) (bootalloc s) (frames s) (heap s));
  let d := dev (machine s) in
  let d := mkIo (MmInit.uart r) (console d) (input d) (MmInit.device r) in
  Ret (mkKernel
    (mkMachine d (procs_of s) (tick_ticks (machine s)) (irq_enabled (machine s)))
    (MmInit.paging r) (MmInit.sysregs r) (MmInit.bootalloc r) (MmInit.frames r) (MmInit.heap r)
    (user s) (cores s)).

(** The UART again, if it is not ready. *)
Definition late_uart s : kernel W H :=
  match b with
  | Rpi5 =>
      if is_ready (Vfs.uart (dev (machine s))) then s
      else let '(u, w) := Uart.init b (Vfs.uart (dev (machine s))) (device s) in with_uart_hw u w s
  | Qemu => s
  end.

Definition fb_err_str (e : InitError) : list Z :=
  match e with
  | MailboxCallFailed => bytes "mailbox call failed"
  | NoFramebuffer => bytes "no framebuffer address"
  | NoPitch => bytes "no pitch returned"
  | InvalidSimpleFb => bytes "invalid simplefb data"
  end.

Definition with_screen (con : SpinLock (option Console)) (w : W) s : kernel W H :=
  let d := dev (machine s) in with_dev (mkIo (Vfs.uart d) con (input d) w) s.

Definition modes : list (Z * Z) := [(1280, 1024); (1024, 768); (1920, 1080)].
Definition by_by (x y : Z) : list Z := dec x ++ bytes "x" ++ dec y.

(** The loop over the modes: whether one succeeded. *)
Fixpoint try_modes (ms : list (Z * Z)) s : outcome (bool * kernel W H) :=
  match ms with
  | [] => Ret (false, s)
  | (x, y) :: ms =>
      s ← klog (bytes "Framebuffer init attempt " ++ by_by x y) s;
      '(r, con, w) ← init_console_with_mode b (MBOX im) x y 0x00FFFFFF 0 (console (dev (machine s))) (device s);
      let s := with_screen con w s in
      match r with
      | inr (ow, oh) =>
          s ← klog (bytes "Framebuffer " ++ by_by x y ++ bytes " -> " ++ by_by ow oh) s; Ret (true, s)
      | inl err =>
          s ← klog (bytes "Framebuffer " ++ by_by x y ++ bytes " failed: " ++ fb_err_str err) s; try_modes ms s
      end
  end.

Definition try_init_console (dtb_pa : Z) s : outcome (bool * kernel W H) :=
  info ← find_simplefb (get_mem (device s)) dtb_pa;
  match info with
  | None => try_modes modes s
  | Some info =>
      s ← klog (bytes "simplefb: addr=" ++ hex (sfb_addr info) ++ bytes " size=" ++ hex (sfb_size info) ++
                bytes " " ++ by_by (sfb_width info) (sfb_height info) ++ bytes " stride=" ++ dec (sfb_stride info)) s;
      '(r, con, w) ← init_console_from_simplefb info 0x00FFFFFF 0 (console (dev (machine s))) (device s);
      let s := with_screen con w s in
      match r with
      | inr (ow, oh) => s ← klog (bytes "simplefb active " ++ by_by ow oh) s; Ret (true, s)
      | inl err => s ← klog (bytes "simplefb init failed: " ++ fb_err_str err) s; try_modes modes s
      end
  end.

(** QEMU tries until it succeeds, every half second. *)
Definition console_body (dtb_pa : Z) s : outcome (kernel W H + kernel W H) :=
  '(ok, s) ← try_init_console dtb_pa s;
  if (ok : bool) then Ret (inr s)
  else w ← delay_ms fuel 500 (device s); Ret (inl (with_uart_hw (Vfs.uart (dev (machine s))) w s)).

Definition init_console (dtb_pa : Z) s : outcome (kernel W H) :=
  match b with
  | Qemu => loop fuel (console_body dtb_pa) s
  | Rpi5 =>
      '(ok, s) ← try_init_console dtb_pa s;
      if (ok : bool) then Ret s else klog (bytes "Framebuffer init failed; using UART") s
  end.

(** The descriptors every process starts with. *)
Definition wire_fds (t : procs) : outcome procs :=
  let fb := open_path "/dev/fb0" (OpenFlags_new false true false) in
  let stdin := open_path "/dev/kbd0" (OpenFlags_new true false false) in
  t ← set_init_fd FD_STDIN stdin t;
  t ← set_init_fd FD_STDOUT fb t;
  set_init_fd FD_STDERR fb t.

Definition user_sp : Z := user_stack im + USER_STACK_SIZE.

(** The lines of one [with_uart]. *)
Definition log_cores s : outcome (kernel W H) :=
  klog (bytes "CPU" ++ dec 0 ++ bytes " online" ++ [10] ++ bytes "Bringing up secondary cores..." ++
    (seqZ 1 (MAX_CPUS - 1) ≫= λ core, [10] ++ bytes "Releasing CPU" ++ dec core)) s.

(** The closure that creates the shell and an idle process for every core, and lists them. *)
Definition spawn_body (u : Uart.state) (root : Z) (t : procs) (w : W) : outcome (procs * W) :=
  '(pid, t) ← create_user (process_stacks im) root 0 (bytes "shell") (user_start_at im) 0 t;
  w ← match pid with
      | Some pid => writeln b fuel u (bytes "Created process " ++ dec pid ++ bytes " (shell user)") w
      | None => Ret w
      end;
  '(t, w) ← while_range 0 MAX_CPUS (λ core '(t, w),
    '(pid, t) ← create (process_stacks im) root 0 (bytes "idle") (idle_loop_at im) 0 t;
    w ← match pid with
        | Some pid =>
            writeln b fuel u (bytes "Created idle process " ++ dec pid ++ bytes " for CPU" ++ dec core) w
        | None => Ret w
        end;
    Ret (t, w)) (t, w);
  '(ps, t) ← for_each t;
  w ← for_each_in ps (λ p w,
    let md := match mode p with Kernel => bytes "K" | User => bytes "U" end in
    writeln b fuel u (bytes "Process " ++ dec (id p) ++ bytes ": " ++ name p ++ bytes " [" ++ md ++ bytes "]") w) w;
  Ret (t, w).

(** Run by [with_uart]: nothing is created when the UART is not ready. *)
Definition create_processes s : outcome (kernel W H) :=
  let u := Vfs.uart (dev (machine s)) in
  '(t, u, w) ← with_uart (spawn_body u (user_root_pa (paging s)) (procs_of s)) u (device s);
  Ret (with_procs (default (procs_of s) t) (with_uart_hw u w s)).

(** A secondary core comes up, on what it shares with the others: its line, its timer and interrupts; *)
Definition announce (cpu : Z) (m : Interrupts.machine W) : outcome (Interrupts.machine W) :=
  let d := dev m in
  '(u, w) ← log b fuel (bytes "CPU" ++ dec cpu ++ bytes " online") (Vfs.uart d) (hw d);
  init_per_cpu b cpu fuel 10 (mkMachine (mkIo u (console d) (input d) w) (tbl m) (tick_ticks m) (irq_enabled m)).

(** and a core's first process: where it jumps, its stack and TTBR0. *)
Definition enter (cpu : Z) (m : Interrupts.machine W) : outcome (Z * Z * Z * Interrupts.machine W) :=
  '(en, sp, root, t) ← start_on_cpu cpu (tbl m);
  Ret (en, sp, root, mkMachine (dev m) t (tick_ticks m) (irq_enabled m)).

(** With its own registers. *)
Definition secondary_rust_entry (cpu : Z) (regs : Mmu.regs) s :
    outcome (Z * Z * Z * Mmu.regs * kernel W H) :=
  let regs := set_ttbr1 (kernel_root_pa (paging s)) regs in
  let regs := set_ttbr0 (user_root_pa (paging s)) regs in
  m ← announce cpu (machine s);
  '(en, sp, root, m) ← enter cpu m;
  Ret (en, sp, root, set_ttbr0 root regs, with_machine m s).

(** What another core does on the shared state: it comes up, enters its first process, takes an interrupt. *)
Inductive other_move : Interrupts.machine W → Interrupts.machine W → Prop :=
| move_announce cpu m m' : 0 < cpu < MAX_CPUS → announce cpu m = Ret m' → other_move m m'
| move_enter cpu m en sp root m' : 0 < cpu < MAX_CPUS → Process.idle (tbl m) cpu →
    enter cpu m = Ret (en, sp, root, m') → other_move m m'
| move_irq cpu frame m next root m' : 0 < cpu < MAX_CPUS →
    irq_handler b cpu frame m = Ret (next, root, m') → other_move m m'.

(** It only comes up. *)
Inductive other_announces : Interrupts.machine W → Interrupts.machine W → Prop :=
| announces cpu m m' : 0 < cpu < MAX_CPUS → announce cpu m = Ret m' → other_announces m m'.

(** The released cores run [secondary_rust_entry], take processes and are interrupted while CPU 0 goes on: what
    they have made of the machine by the time CPU 0 takes the table's lock. *)
Context (others : Interrupts.machine W → Interrupts.machine W).

(** From the process table up to the first process: where the CPU jumps, its stack and TTBR0. *)
Definition start_kernel (dtb_pa : Z) s : outcome (Z * Z * Z * kernel W H) :=
  t ← Process.init (procs_of s);
  s ← init_console dtb_pa (with_procs t s);
  t ← wire_fds (procs_of s);
  let s := with_procs t s in
  let s := mkKernel (machine s) (paging s) (sysregs s) (bootalloc s) (frames s) (heap s)
             (User.init (user_shell_at im) user_sp (user s)) (cores s) in
  s ← log_cores s;
  s ← create_processes s;
  c ← start_secondary_cores b (secondary_start im) (cores s);
  s ← klog (bytes "Hello, world!") s;
  m ← init_per_cpu b 0 fuel 10 (machine s);
  '(en, sp, root, m) ← enter 0 (others m);
  Ret (en, sp, root, mkKernel m (paging s) (set_ttbr0 root (sysregs s)) (bootalloc s) (frames s) (heap s)
                       (user s) c).

Definition kernel_main (dtb_pa : Z) s : outcome (Z * Z * Z * kernel W H) :=
  s ← init_uart dtb_pa (kmark (bytes "K0") s);
  s ← init_mm dtb_pa s;
  start_kernel dtb_pa (late_uart (kmark (bytes "K2") s)).
End boot.

(** ** The process table after booting *)

Definition fb_desc : FileDesc := mkDesc DevFb0 (OpenFlags_new false true false).
Definition kbd_desc : FileDesc := mkDesc DevKbd0 (OpenFlags_new true false false).
Definition init_fds : list (option FileDesc) :=
  [Some kbd_desc; Some fb_desc; Some fb_desc] ++ replicate 5 None.

(** What [init] makes of any table whose locks are free. *)
Definition boot_procs (fr : gmap Z TrapFrame) (fd : list (option FileDesc)) : procs :=
  mkProcs (lock_new ProcessTable_new) (replicate 4 INVALID_IDX) (lock_new fd) fr.

Lemma process_init_ok (t : procs) : locked (PROCESS_TABLE t) = false → locked (INIT_FDS t) = false →
  len (CURRENT t) = MAX_CPUS → Process.init t = Ret (boot_procs (Process.frames t) (replicate 8 None)).
Proof.
  intros Hp Hf Hc. destruct t as [[l pt] cur [lf f] fr]. simpl in *. subst l lf.
  destruct cur as [|c0 [|c1 [|c2 [|c3 [|c4 cur]]]]]; try (unfold len, MAX_CPUS in Hc; simpl in Hc; lia).
  reflexivity.
Qed.

Lemma wire_fds_ok fr : wire_fds (boot_procs fr (replicate 8 None)) = Ret (boot_procs fr init_fds).
Proof. reflexivity. Qed.

(** A process [create] has just made for slot [i]. *)
Definition booted (im : image) (root i : Z) (nm : list Z) (en : Z) (md : ProcessMode)
    (fd : list (option FileDesc)) : Process :=
  let top := stack_of (process_stacks im) i in
  mkProcess (i + 1) nm en Ready top (init_context en top).1 CPU_NONE true md None fd root.

Definition shell_process (im : image) (root : Z) : Process :=
  booted im root 0 (bytes "shell") (user_start_at im) User init_fds.
Definition idle_process (im : image) (root i : Z) : Process :=
  booted im root i (bytes "idle") (idle_loop_at im) Kernel init_fds.

Definition five_processes (im : image) (root : Z) : list (option Process) :=
  [Some (shell_process im root); Some (idle_process im root 1); Some (idle_process im root 2);
   Some (idle_process im root 3); Some (idle_process im root 4)] ++ replicate 59 None.

Definition five_frames (im : image) (fr : gmap Z TrapFrame) : gmap Z TrapFrame :=
  let at_ en i fr := let c := init_context en (stack_of (process_stacks im) i) in <[c.1 := c.2]> fr in
  at_ (idle_loop_at im) 4 (at_ (idle_loop_at im) 3 (at_ (idle_loop_at im) 2 (at_ (idle_loop_at im) 1
    (at_ (user_start_at im) 0 fr)))).

(** The table with the first [n] of them. *)
Definition spawned (im : image) (root : Z) (fr : gmap Z TrapFrame) (n : nat) : procs :=
  let proc i := if decide (i = 0%nat) then shell_process im root else idle_process im root (Z.of_nat i) in
  let put fr i := let c := init_context (entry (proc i)) (stack_of (process_stacks im) (Z.of_nat i)) in
                  <[c.1 := c.2]> fr in
  mkProcs (lock_new (mkTable (((λ i, Some (proc i)) <$> seq 0 n) ++ replicate (64 - n) None) (Z.of_nat n + 1)
             (mkQueue ((Z.of_nat <$> seq 0 n) ++ replicate (64 - n) INVALID_IDX) 0 (Z.of_nat n) (Z.of_nat n))))
    (replicate 4 INVALID_IDX) (lock_new init_fds) (fold_left put (seq 0 n) fr).

Lemma create_shell_ok im root fr :
  create_user (process_stacks im) root 0 (bytes "shell") (user_start_at im) 0 (boot_procs fr init_fds) =
  Ret (Some 1, spawned im root fr 1).
Proof. reflexivity. Qed.

Lemma create_idle_ok im root fr i : 0 ≤ i < MAX_CPUS →
  create (process_stacks im) root 0 (bytes "idle") (idle_loop_at im) 0 (spawned im root fr (Z.to_nat i + 1)) =
  Ret (Some (i + 2), spawned im root fr (Z.to_nat i + 2)).
Proof.
  unfold MAX_CPUS. intros Hi. assert (i = 0 ∨ i = 1 ∨ i = 2 ∨ i = 3) as [->|[->|[->| ->]]] by lia; reflexivity.
Qed.

(** The closure creates the five processes, whatever it prints. *)
Lemma spawn_ok {W} `{HW : Hardware W, HD : Dma W, HV : !View W} b fuel im u root fr (w : W) : writes (W:=W) b fuel u →
  returns (spawn_body b fuel im u root (boot_procs fr init_fds) w) (λ '(t, w'),
    t = spawned im root fr 5 ∧ view w' = view w).
Proof.
  intros Hw. unfold spawn_body. rewrite create_shell_ok. apply returns_bind. cbn [returns]. apply returns_bind.
  eapply returns_mono; [apply Hw|]. intros w1 <-. apply returns_bind. eapply returns_mono.
  - apply (returns_while_range (λ i tw, tw.1 = spawned im root fr (Z.to_nat i + 1) ∧ view tw.2 = view w1));
      [by vm_compute|done|].
    intros i [t w2] Hi [Ht Hm]. cbn [fst snd] in *. subst t. rewrite create_idle_ok by done.
    apply returns_bind. cbn [returns]. apply returns_bind. eapply returns_mono; [apply Hw|]. intros w3 Hm3.
    cbn [returns fst snd]. split; [|by rewrite Hm3]. f_equal. lia.
  - intros [t w2] [Ht Hm]. cbn [fst snd] in *. subst t. change (Z.to_nat MAX_CPUS + 1)%nat with 5%nat.
    unfold for_each at 1, on_table, with_lock, lock. cbn [spawned PROCESS_TABLE lock_new locked mbind outcome_bind data
      fst snd]. apply returns_bind. eapply returns_mono.
    + apply (returns_for_each_in (λ _ w', view w' = view w1)); [done|]. intros dn p rest w3 _ <-. apply Hw.
    + by intros w3 Hm3.
Qed.

(** The table CPU 0 leaves when it enters the shell. *)
Definition first_table (im : image) (root : Z) (fr : gmap Z TrapFrame) : procs :=
  mkProcs (lock_new (mkTable
      (<[0%nat := Some (dispatched 0 (shell_process im root))]> (five_processes im root)) 6
      (mkQueue ([0; 1; 2; 3; 4] ++ replicate 59 INVALID_IDX) 1 5 4)))
    ([0] ++ replicate 3 INVALID_IDX) (lock_new init_fds) (five_frames im fr).

Lemma start_shell_ok im root fr :
  start_on_cpu 0 (spawned im root fr 5) =
  Ret (user_start_at im, stack_of (process_stacks im) 0, root, first_table im root fr).
Proof. reflexivity. Qed.

(** The operations the boot sequence performs on the process table. *)
Definition boot_ops (im : image) : list op :=
  let idle := Create (bytes "idle") (idle_loop_at im) 0 Kernel None in
  [SetInitFd FD_STDIN (Some kbd_desc); SetInitFd FD_STDOUT (Some fb_desc);
   SetInitFd FD_STDERR (Some fb_desc);
   Create (bytes "shell") (user_start_at im) 0 User None; idle; idle; idle; idle; Start 0].

Lemma first_table_reachable im root :
  reachable_quiet (process_stacks im) root (first_table im root ∅).
Proof. apply (run_ops_quiet _ _ (boot_ops im)). reflexivity. Qed.

(** ** Starting the other cores *)

(** The processes the cores run, and with those in the queue all that are at work. *)
Definition active (cur : list Z) : list Z := filter (λ i, i ≠ INVALID_IDX) cur.
Definition work (s : procs) : list Z := queue (table s) ++ active (CURRENT s).

Lemma active_insert cur c ci i : cur !! c = Some ci → i ≠ INVALID_IDX →
  active (<[c := i]> cur) ++ (if decide (ci = INVALID_IDX) then [] else [ci]) ≡ₚ i :: active cur.
Proof.
  intros Hc Hi. revert c Hc. unfold active. induction cur as [|d cur IH]; intros [|c] Hc; try done; simpl in Hc.
  - injection Hc as ->. simpl. rewrite !filter_cons, (decide_True (P:=i ≠ _)) by done.
    repeat case_decide; simpl; try done; [by rewrite app_nil_r|]. by rewrite <-Permutation_cons_append.
  - specialize (IH c Hc). simpl. rewrite !filter_cons. destruct (decide (d ≠ INVALID_IDX)); simpl; [|done].
    rewrite IH. apply Permutation_swap.
Qed.

Lemma active_idle cur c : cur !! c = Some INVALID_IDX → (length (active cur) < length cur)%nat.
Proof.
  revert c. unfold active. induction cur as [|d cur IH]; intros [|c] Hc; try done; simpl in Hc.
  - injection Hc as ->. rewrite filter_cons, decide_False by (intros Hn; by apply Hn). simpl.
    pose proof (length_filter (λ i, i ≠ INVALID_IDX) cur). lia.
  - specialize (IH c Hc). rewrite filter_cons. case_decide; simpl; lia.
Qed.

Lemma queued_valid s i : procs_ok s → i ∈ queue (table s) → i ≠ INVALID_IDX.
Proof.
  intros Hs Hi ->. apply (queue_range _ _ (ok_table _ Hs)) in Hi. unfold INVALID_IDX, MAX_PROCS in Hi. lia.
Qed.

(** Timer interrupts on any core and cores entering their first process. *)
Inductive boot_step : procs → procs → Prop :=
| boot_interrupt cpu frame s r root s' : 0 ≤ cpu < MAX_CPUS →
    schedule_from_irq cpu frame s = Ret (r, root, s') → boot_step s s'
| boot_start cpu s en sp root s' : 0 ≤ cpu < MAX_CPUS → Process.idle s cpu →
    start_on_cpu cpu s = Ret (en, sp, root, s') → boot_step s s'.

(** At least [n] processes are at work. *)
Definition populated (n : nat) (s : procs) : Prop := healthy s ∧ (n ≤ length (work s))%nat.

(** What a step leaves as it is: the same processes are at work. *)
Definition carries_on (s s' : procs) : Prop := healthy s' ∧ work s' ≡ₚ work s ∧ keeps s s'.

Lemma carries_on_trans s1 s2 s3 : carries_on s1 s2 → carries_on s2 s3 → carries_on s1 s3.
Proof. intros (_ & Hw & Hk) (Hh & Hw' & Hk'). split_and!; [done|by etrans|by eapply keeps_trans]. Qed.

Lemma populated_carries n s s' : populated n s → carries_on s s' → populated n s'.
Proof. intros [_ Hn] (Hh & Hw & _). split; [done|]. by rewrite Hw. Qed.

Lemma start_one cpu s : populated 5 s → 0 ≤ cpu < MAX_CPUS → Process.idle s cpu →
  returns (start_on_cpu cpu s) (λ '(en, sp, root, s'), carries_on s s' ∧
    ∃ i p, CURRENT s' = <[Z.to_nat cpu := i]> (CURRENT s) ∧ i ∈ queue (table s) ∧
      holds (slots (table s)) i p ∧ en = entry p ∧ sp = stack_top p ∧ root = ttbr0 p).
Proof.
  intros [Hh Hn] Hcpu Hidle. pose proof (h_ok _ Hh) as Hs. pose proof (ok_table _ Hs) as Hok.
  fold (table s) in Hok. pose proof Hidle as [H0 Hi]. pose proof (active_idle _ _ Hi) as Hlt.
  pose proof (ok_cpus _ _ Hok) as Hl. unfold len, MAX_CPUS in Hl. unfold work in Hn. rewrite length_app in Hn.
  assert (queue (table s) ≠ []) as Hne by (intros Hq; rewrite Hq in Hn; simpl in Hn; lia).
  assert (Exists (runnable (slots (table s))) (queue (table s))) as Hex.
  { destruct (queue (table s)) as [|i q] eqn:Hq; [done|]. apply Exists_cons. left.
    apply (h_queue _ Hh). rewrite Hq. by left. }
  eapply returns_mono; [apply returns_conj; [apply (start_healthy cpu s Hh Hcpu Hidle Hne)|
    apply returns_conj; [apply (start_keeps cpu s Hs Hcpu Hidle Hex)|apply (start_ok cpu s Hs Hcpu Hidle Hex)]]|].
  intros [[[en sp] root] s'] (Hh' & Hk & _ & _ & _ & i & l1 & l2 & p & Hq & _ & Hp & _ & _ & He & Hsp & Hr & Hc & Hq' & _).
  assert (i ∈ queue (table s)) as Hin by (rewrite Hq; set_solver).
  split; [|by exists i, p]. split; [done|]. split; [|done]. unfold work. rewrite Hc, Hq', Hq.
  pose proof (active_insert _ _ _ i Hi (queued_valid s i Hs Hin)) as Hr'. rewrite decide_True, app_nil_r in Hr' by done.
  rewrite Hr', (Permutation_app_comm l1 (i :: l2)). cbn [app]. by rewrite <-Permutation_middle.
Qed.

Lemma interrupt_carries_on cpu frame s : healthy s → 0 ≤ cpu < MAX_CPUS →
  returns (schedule_from_irq cpu frame s) (λ '(_, _, s'), carries_on s s' ∧
    ∀ c, c ≠ Z.to_nat cpu → CURRENT s' !! c = CURRENT s !! c).
Proof.
  intros Hh Hcpu. pose proof (h_ok _ Hh) as Hs.
  pose proof (ok_cpus _ _ (ok_table _ Hs)) as Hl. unfold len, MAX_CPUS in *.
  destruct (lookup_lt_is_Some_2 (CURRENT s) (Z.to_nat cpu)) as [ci Hci]; [lia|].
  eapply returns_mono; [apply returns_conj; [apply (schedule_fifo_ok cpu frame s _ Hh Hcpu (fifo_of_stands s))|
    apply (schedule_keeps cpu frame s Hs Hcpu)]|].
  intros [[r root] s'] [(Hh' & _ & Hq & Hc & _) Hk]. unfold carries_on, work. rewrite Hq, Hc.
  unfold fifo_interrupt. cbn [f_queue f_cur fifo_of]. rewrite Hci. cbn [default].
  destruct (queue (table s)) as [|i q] eqn:Hqe; cbn [f_queue f_cur snd]; [done|].
  assert (i ≠ INVALID_IDX) as Hiv by (apply (queued_valid s); [done|rewrite Hqe; by left]).
  split; [|intros c Hne; by rewrite list_lookup_insert_ne]. split; [done|]. split; [|done].
  pose proof (active_insert _ _ _ i Hci Hiv) as Hr. change (Datatypes.id ci) with ci.
  rewrite <-app_assoc, (Permutation_app_comm (if decide _ then _ else _)), Hr. by rewrite <-Permutation_middle.
Qed.

Lemma boot_step_carries_on s s' : populated 5 s → boot_step s s' → carries_on s s'.
Proof.
  intros Hp Hstep. destruct Hstep as [cpu frame s r root s' Hcpu Hrun|cpu s en sp root s' Hcpu Hidle Hrun].
  - pose proof (interrupt_carries_on cpu frame s (proj1 Hp) Hcpu) as Hs. rewrite Hrun in Hs. apply Hs.
  - pose proof (start_one cpu s Hp Hcpu Hidle) as Hs. rewrite Hrun in Hs. apply Hs.
Qed.

Lemma boot_steps_carry_on s s' : populated 5 s → rtc boot_step s s' → carries_on s s'.
Proof.
  intros Hp Hr. induction Hr as [s|s1 s2 s3 Hstep _ IH].
  - split; [apply Hp|]. split; [done|]. intros i p Hi. by exists p.
  - pose proof (boot_step_carries_on _ _ Hp Hstep) as Hc.
    eapply carries_on_trans; [exact Hc|]. apply IH. by eapply populated_carries.
Qed.

Lemma first_table_populated im root : populated 5 (first_table im root ∅).
Proof.
  split; [apply (reachable_healthy _ _ _ (first_table_reachable im root))|].
  vm_compute. lia.
Qed.

(** C27. Every core finds work: after CPU 0 has entered the shell, whatever timer interrupts are taken and
    whichever other cores have started in between, a core that runs nothing yet gets a process
    from the queue instead of panicking. *)
Theorem every_core_starts im root s cpu :
  rtc boot_step (first_table im root ∅) s → 0 ≤ cpu < MAX_CPUS → Process.idle s cpu →
  returns (start_on_cpu cpu s) (λ '(_, s'),
    ∃ i, CURRENT s' = <[Z.to_nat cpu := i]> (CURRENT s) ∧ i ∈ queue (table s) ∧ ∀ c, CURRENT s !! c ≠ Some i).
Proof.
  intros Hr Hcpu Hidle. pose proof (first_table_populated im root) as Hp0.
  assert (populated 5 s) as Hp by (eapply populated_carries; [exact Hp0|by apply boot_steps_carry_on]).
  eapply returns_mono; [by apply start_one|]. intros [[[en sp] r] s'] (_ & i & p & Hc & Hi & _). exists i.
  split_and!; [done|done|]. intros c. apply queued_not_running; [apply Hp|done].
Qed.

(** The table CPU 0 leaves to the released cores. *)
Lemma spawned_populated im root : populated 5 (spawned im root ∅ 5).
Proof.
  split; [|vm_compute; lia]. apply (reachable_healthy (process_stacks im) root).
  apply (run_ops_quiet _ _ (removelast (boot_ops im))). reflexivity.
Qed.

Lemma spawned_idle im root : Process.idle (spawned im root ∅ 5) 0.
Proof. by split. Qed.

(** The process of slot [i], in what it keeps. *)
Definition spawned_as (im : image) (root i : Z) : Z * Z * Z * list (option FileDesc) :=
  (if decide (i = 0) then user_start_at im else idle_loop_at im, stack_of (process_stacks im) i, root, init_fds).

Lemma spawned_work im root s i : carries_on (spawned im root ∅ 5) s → i ∈ work s ↔ 0 ≤ i < 5.
Proof.
  intros (_ & -> & _). change (work (spawned im root ∅ 5)) with [0; 1; 2; 3; 4]. rewrite !elem_of_cons, elem_of_nil. lia.
Qed.

Lemma spawned_holds im root s i p : carries_on (spawned im root ∅ 5) s → 0 ≤ i < 5 → holds (slots (table s)) i p →
  fixed p = spawned_as im root i.
Proof.
  intros (_ & _ & Hk) Hi Hp.
  assert (∃ p0, holds (slots (table (spawned im root ∅ 5))) i p0 ∧ fixed p0 = spawned_as im root i)
    as (p0 & Hp0 & <-).
  { assert (i = 0 ∨ i = 1 ∨ i = 2 ∨ i = 3 ∨ i = 4) as Hc by lia.
    destruct Hc as [->|[->|[->|[->| ->]]]]; eexists; (split; [split; [lia|reflexivity]|reflexivity]). }
  destruct (Hk i p0 Hp0) as (p' & Hp' & Hf). by rewrite (holds_inj _ _ _ _ Hp Hp').
Qed.

(** CPU 0 enters whatever process is first by then. *)
Lemma enter_spawned {W} im root (m : Interrupts.machine W) :
  carries_on (spawned im root ∅ 5) (tbl m) → Process.idle (tbl m) 0 →
  returns (enter 0 m) (λ '(en, sp, rt, m'), carries_on (spawned im root ∅ 5) (tbl m') ∧
    (∃ i, 0 ≤ i < 5 ∧ spawned_as im root i = (en, sp, rt, init_fds) ∧ CURRENT (tbl m') = <[0%nat := i]> (CURRENT (tbl m))) ∧
    dev m' = dev m ∧ irq_enabled m' = irq_enabled m).
Proof.
  intros Hc Hi. unfold enter. apply returns_bind. eapply returns_mono.
  { apply (start_one 0); [|done|exact Hi]. eapply populated_carries; [apply spawned_populated|exact Hc]. }
  intros [[[en sp] rt] t] (Hc' & i & p & Hcur & Hin & Hp & -> & -> & ->). cbn [returns tbl dev irq_enabled].
  split; [by eapply carries_on_trans|]. split; [|done]. exists i.
  assert (0 ≤ i < 5) as Hi5 by (apply (spawned_work im root _ i Hc), elem_of_app; by left).
  split; [done|]. split; [|exact Hcur]. pose proof (spawned_holds im root _ i p Hc Hi5 Hp) as Hf.
  unfold fixed, spawned_as in *. congruence.
Qed.

(** The boot sequence enables interrupts before [start_on_cpu] takes the table's lock, and a timer
    interrupt taken while the core holds it waits for it for ever. *)
Lemma interrupted_start_hangs {W} `{HW : Hardware W, HC : Clock W} b fuel cpu frame (m m' : Interrupts.machine W)
    (t : procs) g :
  (init_per_cpu b cpu fuel 10 m = Ret m' → irq_enabled m' = true) ∧
  (lock (PROCESS_TABLE t) = Ret g → schedule_from_irq cpu frame (with_table t g) = Halt).
Proof.
  split.
  - unfold init_per_cpu. destruct (init_tick 10 _). intros ([u w'] & _ & [= <-])%bind_ret_inv. done.
  - unfold lock at 1. destruct (locked (PROCESS_TABLE t)); [done|]. injection 1 as <-. done.
Qed.

(** An interrupt that CPU 0 takes before that, with the lock free, starts the shell all the same: from the frame of
    its first context. *)
Theorem interrupted_before_start im root frame : ∃ t,
  schedule_from_irq 0 frame (spawned im root ∅ 5) =
    Ret ((init_context (user_start_at im) (stack_of (process_stacks im) 0)).1, Some root, t) ∧
  CURRENT t !! 0%nat = Some 0.
Proof. eexists. split; reflexivity. Qed.

(** Another core that is faster takes the shell, and CPU 0 an idle process. *)
Lemma shell_on_another_core im root : ∃ t t',
  start_on_cpu 1 (spawned im root ∅ 5) = Ret (user_start_at im, stack_of (process_stacks im) 0, root, t) ∧
  start_on_cpu 0 t = Ret (idle_loop_at im, stack_of (process_stacks im) 1, root, t').
Proof. do 2 eexists. split; reflexivity. Qed.

(** [start_on_cpu] enters the process it takes at its entry point, also one that has run: when the shell has been
    preempted and its turn comes again as another core comes up, it is started over, on top of its own
    stack, and the context saved at [f1] is dropped. *)
Theorem start_drops_context im root f1 f2 f3 f4 :
  returns (interrupts [(0, f1); (0, f2); (0, f3); (0, f4)] (first_table im root ∅)) (λ '(_, t),
    context_sp <$> (slots (table t) !!! 0%nat) = Some f1 ∧
    returns (start_on_cpu 1 t) (λ '(en, sp, _, _),
      en = user_start_at im ∧ sp = stack_of (process_stacks im) 0)).
Proof.
  unfold first_table. generalize (five_frames im ∅). intros fr.
  unfold five_processes, shell_process, idle_process, booted.
  repeat match goal with |- context [init_context ?e ?x] => generalize (init_context e x); intros ? end.
  repeat match goal with |- context [stack_of ?x ?i] => generalize (stack_of x i); intros ? end.
  vm_compute. by split_and!.
Qed.

(** ** Witness *)
Definition demo_image : image :=
  mkImage demo_addresses demo_ki 0xFFFF800000100000 0x100000 0x4000000 0xFFFF800000210000
    0xFFFF800000211000 0xFFFF800000212000 0x80100.

Lemma every_core_starts_witness :
  returns (start_on_cpu 2 (first_table demo_image 0 ∅)) (λ '(_, s'),
    ∃ i, CURRENT s' = <[2%nat := i]> (CURRENT (first_table demo_image 0 ∅)) ∧
      i ∈ queue (table (first_table demo_image 0 ∅)) ∧ ∀ c, CURRENT (first_table demo_image 0 ∅) !! c ≠ Some i).
Proof.
  apply (every_core_starts demo_image 0 (first_table demo_image 0 ∅) 2); [apply rtc_refl| |].
  - split; [lia|reflexivity].
  - split; [lia|reflexivity].
Defined.
