(* ===== verification/Boot.v ===== *)
(** * From the firmware to the shell

    What [kernel_main] of [Main] comes to on both boards: from a machine as the firmware leaves it, every
    step of the boot sequence returns, whatever the released cores do meanwhile, and the last one enters the
    shell or, if another core was faster, one of the idle processes.

    Besides memory some further observation of the devices is followed through the boot ([keep]; for
    [Session] it is the input that waits on the serial line): what the early prints, the log, the
    mailbox, the interrupt controller and the timer are assumed to leave alone, the boot does.
    Only a mailbox call may write memory. *)
From stdpp Require Import gmap.
From S2P Require Import Prelude Bits Layout Memory Ring Sync Region BootAlloc Frame Mmu Paging Mmio Uart Log.
From S2P Require Import Keyboard Mailbox Vfs Trap Smp Process Scheduler Fdt Dtb DtbUart Timer Intc.
From S2P Require Import Interrupts Heap Syscall User MmInit Main Framebuffer.
Local Open Scope Z_scope.

(** ** The devices *)
Class Watched (W : Type) := { kept : Type; keep : W → kept }.

#[export] Instance watched_view {W} `{HD : Dma W, HR : Watched W} : View W.
Proof.
  refine {| viewed := mem * kept; view w := (get_mem w, keep w) |}. by intros w w' [= Hm _].
Defined.

(** The registers of the interrupt controller that the boot sets up and [irq_handler] uses. *)
Definition intc_register (b : board) (r : Z) : Prop :=
  match b with
  | Rpi5 => GICD_BASE ≤ r < GICD_BASE + 0x1000 ∨ GICC_BASE ≤ r < GICC_BASE + 0x1000
  | Qemu => ∃ core, r = LOCAL_BASE + TIMER_INT_CTRL_OFFSET + core * CORE_STRIDE ∨
                    r = LOCAL_BASE + IRQ_SOURCE_OFFSET + core * CORE_STRIDE
  end.

Class Platform (W : Type) `{HW : Hardware W, HD : Dma W, HC : Clock W, HR : Watched W} (b : board) := {
  pf_put m w : keep (put_mem m w) = keep w;
  pf_mbox_status w : keep (read32 (MBOX_BASE b + MBOX_STATUS) w).2 = keep w;
  pf_mbox_reply w : keep (read32 (MBOX_BASE b + MBOX_READ) w).2 = keep w;
  pf_mbox_write v w : keep (write32 (MBOX_BASE b + MBOX_WRITE) v w) = keep w;
  pf_intc_read r w : intc_register b r → view (read32 r w).2 = view w;
  pf_intc_write r v w : intc_register b r → view (write32 r v w) = view w;
  pf_arm t w : view (arm t w) = view w
}.

(** The timer and the interrupt controller leave what is watched alone. *)
Class Undisturbing (W : Type) `{HW : Hardware W, HD : Dma W, HC : Clock W, HV : !View W} (b : board) := {
  un_read r w : intc_register b r → view (read32 r w).2 = view w;
  un_write r v w : intc_register b r → view (write32 r v w) = view w;
  un_arm t w : view (arm t w) = view w
}.
#[export] Instance platform_undisturbing {W} `{HP : Platform W b} : Undisturbing W b :=
  {| un_read := pf_intc_read; un_write := pf_intc_write; un_arm := pf_arm |}.

Section intc.
Context {W : Type} `{HW : Hardware W, HD : Dma W, HC : Clock W, HV : !View W} (b : board) `{HU : !Undisturbing W b}.


Lemma set_priority_view irq prio w : b = Rpi5 → 0 ≤ Z.land irq (not32 3) < 0x100 →
  view (set_priority irq prio w) = view w.
Proof.
  intros -> Hi. unfold set_priority. set (r := _ + Z.land irq (not32 3)).
  assert (intc_register Rpi5 r) as Hr by (left; unfold r, GICD_IPRIORITYR; lia).
  pose proof (un_read r w Hr) as Hv. destruct (read32 r w) as [v w1]. cbn [snd] in Hv.
  by rewrite un_write.
Qed.

(** Setting up the timer interrupt of a core. *)
Lemma intc_up_view cpu w : view (match b with
    | Qemu => enable_generic_timer_irq b cpu w
    | Rpi5 => init_cpu (if decide (cpu = 0) then init_dist w else w)
    end) = view w.
Proof.
  pose proof (λ r v w, un_write r v w) as Hw.
  pose proof (λ irq prio w, set_priority_view irq prio w) as Hp. destruct b.
  - assert (∀ o v w, 0 ≤ o < 0x1000 → view (write32 (GICD_BASE + o) v w) = view w) as Hd
      by (intros o v v' Ho; apply Hw; left; lia).
    assert (∀ o v w, 0 ≤ o < 0x1000 → view (write32 (GICC_BASE + o) v w) = view w) as Hc
      by (intros o v v' Ho; apply Hw; right; lia).
    assert (∀ prio w, view (set_priority TIMER_PPI prio w) = view w) as Ht
      by (intros prio v; by apply Hp).
    unfold init_cpu, init_dist, enable_timer_ppi.
    rewrite Hd by done. rewrite Ht, Hd by done. rewrite !Hc by done. case_decide; [|done].
    rewrite Hd by done. rewrite Ht. by rewrite !Hd by done.
  - apply Hw. exists cpu. by left.
Qed.

(** The timer and the interrupt controller of a core are set up. *)
Lemma per_cpu_view cpu ms (w : W) : view (match b with
    | Qemu => enable_generic_timer_irq b cpu (init_tick ms w).2
    | Rpi5 => init_cpu (if decide (cpu = 0) then init_dist (init_tick ms w).2 else (init_tick ms w).2)
    end) = view w.
Proof.
  rewrite intc_up_view. unfold init_tick, set_timer. cbn [snd]. apply un_arm.
Qed.

(** The handler's accesses to the interrupt controller. *)
Lemma reported_view cpu (w : W) : view (reported b cpu w).2 = view w.
Proof.
  unfold reported, ack_irq, generic_timer_pending. pose proof (λ r, un_read r w) as Hr. destruct b.
  - specialize (Hr (GICC_BASE + GICC_IAR) ltac:(right; vm_compute; split; congruence)).
    by destruct (read32 _ w) as [v w1].
  - specialize (Hr (LOCAL_BASE + IRQ_SOURCE_OFFSET + cpu * CORE_STRIDE) ltac:(exists cpu; by right)).
    by destruct (read32 _ w) as [v w1].
Qed.

Lemma acknowledge_view id (w : W) : view (acknowledge b id w) = view w.
Proof.
  unfold acknowledge, end_irq. pose proof (λ r v w, un_write r v w) as Hr. destruct b; [|done].
  apply (Hr (GICC_BASE + GICC_EOIR)). right. vm_compute. split; congruence.
Qed.

Lemma tick_view t (w : W) : view (tick t w) = view w.
Proof. unfold tick, set_timer. case_decide; [apply un_arm|done]. Qed.
End intc.

Section devices.
Context {W : Type} `{HW : Hardware W, HD : Dma W, HC : Clock W, HR : Watched W} (b : board) `{HP : !Platform W b}.

Lemma init_with_mode_keeps mbox x y w r : init_with_mode b mbox x y w = Ret r → keep r.2 = keep w.
Proof.
  unfold init_with_mode. intros ([ok w1] & Hc & Hr)%bind_ret_inv.
  apply (call_keeps b (λ v, keep v = keep w)) in Hc; cbn [snd] in *.
  - repeat case_match; by injection Hr as <-.
  - intros v <-. apply pf_mbox_status.
  - intros v <-. apply pf_mbox_reply.
  - intros v v' <-. apply pf_mbox_write.
  - apply pf_put.
Qed.

(** The per-CPU part enables interrupts and leaves the table and everything watched alone. *)
Lemma init_per_cpu_ok cpu fuel ms (m : Interrupts.machine W) : logs (W:=W) b fuel (Vfs.uart (dev m)) →
  returns (init_per_cpu b cpu fuel ms m) (λ m', tbl m' = tbl m ∧ irq_enabled m' = true ∧ ∃ w,
    dev m' = mkIo (Vfs.uart (dev m)) (console (dev m)) (input (dev m)) w ∧ view w = view (hw (dev m))).
Proof.
  intros Hl. unfold init_per_cpu. pose proof (per_cpu_view b cpu ms (hw (dev m))) as Hup.
  destruct (init_tick ms _) as [t w]. apply returns_bind. eapply returns_mono; [apply Hl|]. intros [u' w'] [-> Hv].
  split; [done|]. split; [done|]. exists w'. split; [done|]. rewrite Hv. exact Hup.
Qed.

(** The flag and data registers of the port do not write memory when they are read. *)
Definition port_quiet (u : Uart.state) : Prop := ∀ w : W, get_mem (read32 (reg_addr u UART_DR) w).2 = get_mem w.

(** What the other cores do, on a table with enough processes: the table is another one with the same processes at
    work, CPU 0 with none; the UART, the console and memory are as they were. *)
Definition aside (m m' : Interrupts.machine W) : Prop :=
  carries_on (tbl m) (tbl m') ∧ (Process.idle (tbl m) 0 → Process.idle (tbl m') 0) ∧
  Vfs.uart (dev m') = Vfs.uart (dev m) ∧ console (dev m') = console (dev m) ∧
  get_mem (hw (dev m')) = get_mem (hw (dev m)) ∧ (irq_enabled m = true → irq_enabled m' = true).

Lemma announce_ok cpu fuel (m : Interrupts.machine W) : logs (W:=W) b fuel (Vfs.uart (dev m)) →
  returns (announce b fuel cpu m) (λ m', tbl m' = tbl m ∧ irq_enabled m' = true ∧ ∃ w,
    dev m' = mkIo (Vfs.uart (dev m)) (console (dev m)) (input (dev m)) w ∧ view w = view (hw (dev m))).
Proof.
  intros Hl. unfold announce. apply returns_bind. eapply returns_mono; [apply Hl|]. intros [u w] [-> Hv].
  eapply returns_mono; [by apply init_per_cpu_ok|]. intros m' (Ht & Hi & w' & Hd & Hv'). split; [exact Ht|].
  split; [exact Hi|]. exists w'. split; [exact Hd|]. by rewrite Hv'.
Qed.

Lemma poll_mem u l (w : W) r : uart_quiet (W:=W) u → port_quiet u → Keyboard.poll u l w = Ret r → get_mem r.2 = get_mem w.
Proof.
  intros Hu Hp Hr. apply (Keyboard.poll_keeps u (λ v, get_mem v = get_mem w)) in Hr; [done| |done].
  intros v <-. unfold read_byte_nonblocking. case_match; [done|].
  pose proof (view_mem _ _ (proj1 (Hu v))) as Hf. destruct (read32 (reg_addr u UART_FR) v) as [x v1]. cbn [snd] in Hf.
  case_decide; [done|]. specialize (Hp v1). destruct (read32 (reg_addr u UART_DR) v1) as [y v2]. cbn [snd] in *. congruence.
Qed.

Lemma handle_tick_aside cpu frame (m : Interrupts.machine W) next root m' : 0 < cpu < MAX_CPUS →
  uart_quiet (W:=W) (Vfs.uart (dev m)) → port_quiet (Vfs.uart (dev m)) → populated 5 (tbl m) →
  handle_tick cpu frame m = Ret (next, root, m') → aside m m'.
Proof.
  intros Hc Hu Hq Hp. unfold handle_tick. intros ([inp w] & Hpoll & Ht)%bind_ret_inv.
  apply bind_ret_inv in Ht as ([[r rt] t] & Hs & [= _ _ <-]). apply poll_mem in Hpoll; [|done..]. cbn [snd] in Hpoll.
  pose proof (interrupt_carries_on cpu frame (tbl m) (proj1 Hp) ltac:(lia)) as Hi. rewrite Hs in Hi.
  destruct Hi as [Hca Hcur]. split; [exact Hca|]. split_and!; try done.
  - intros [? H0]. split; [done|]. cbn [tbl]. rewrite Hcur by lia. exact H0.
  - cbn [dev hw]. by rewrite (view_mem _ _ (tick_view b _ _)).
Qed.

(** The devices change only. *)
Lemma aside_devices f (m : Interrupts.machine W) : get_mem (f (hw (dev m))) = get_mem (hw (dev m)) → healthy (tbl m) → aside m (on_hw f m).
Proof. intros Hf Hh. split_and!; try done. split; [done|]. split; [done|]. intros i p Hp. by exists p. Qed.

Lemma irq_aside cpu frame (m : Interrupts.machine W) next root m' : 0 < cpu < MAX_CPUS →
  uart_quiet (W:=W) (Vfs.uart (dev m)) → port_quiet (Vfs.uart (dev m)) → populated 5 (tbl m) →
  irq_handler b cpu frame m = Ret (next, root, m') → aside m m'.
Proof.
  intros Hc Hu Hq Hp. pose proof (view_mem _ _ (reported_view b cpu (hw (dev m)))) as Hr.
  assert (∀ id w, get_mem (acknowledge b id w) = get_mem w) as Ha by (intros; exact (view_mem _ _ (acknowledge_view b _ _))).
  assert (∀ w next root m', get_mem w = get_mem (hw (dev m)) → handle_tick cpu frame (on_hw (λ _, w) m) = Ret (next, root, m') →
    aside m m') as Ht.
  { intros w n r m1 Hw Hrun. apply handle_tick_aside in Hrun as (Hca & Hi & Hut & Hco & Hm & Hirq); [|done..].
    split_and!; try done. rewrite Hm. exact Hw. }
  assert (∀ w, get_mem w = get_mem (hw (dev m)) → aside m (on_hw (λ _, w) m)) as Hd.
  { intros w Hw. apply aside_devices; [exact Hw|apply Hp]. }
  unfold irq_handler. unfold reported in Hr. unfold acknowledge in Ha. destruct b.
  - destruct (ack_irq (hw (dev m))) as [[id|] w]; cbn [snd] in Hr; [|intros [= _ _ <-]; by apply Hd].
    case_decide.
    + intros [= _ _ <-]. apply (Hd (end_irq id w)). by rewrite Ha.
    + intros ([[n r] m1] & Hrun & [= _ _ <-])%bind_ret_inv. apply Ht in Hrun as (Hca & Hi & Hut & Hco & Hm & Hirq); [|done].
      split_and!; try done. cbn [on_hw dev with_hw hw snd]. by rewrite Ha.
  - destruct (generic_timer_pending Qemu cpu (hw (dev m))) as [[|] w]; cbn [snd negb] in *.
    + intros Hrun. by eapply Ht.
    + intros [= _ _ <-]. by apply Hd.
Qed.

(** Whatever the other cores do. *)
Lemma others_aside fuel (m m' : Interrupts.machine W) : let u := Vfs.uart (dev m) in
  logs (W:=W) b fuel u → uart_quiet (W:=W) u → port_quiet u → populated 5 (tbl m) →
  rtc (other_move b fuel) m m' → aside m m'.
Proof.
  intros u Hl Hu Hq Hp Hr. unfold u in *. clear u. induction Hr as [m|m1 m2 m3 Hmove _ IH].
  { split_and!; try done. split; [apply Hp|]. split; [done|]. intros i p Hi. by exists p. }
  assert (aside m1 m2) as Ha.
  { destruct Hmove as [cpu m1 m2 Hc Hrun|cpu m1 en sp root m2 Hc Hi Hrun|cpu frame m1 next root m2 Hc Hrun];
      [| |by eapply irq_aside].
    - pose proof (announce_ok cpu fuel m1 Hl) as Ha. rewrite Hrun in Ha. destruct Ha as (Ht & Hirq & w & Hd & Hv).
      split_and!; try (by rewrite ?Ht, ?Hd).
      + rewrite Ht. split; [apply Hp|]. split; [done|]. intros i p Hi. by exists p.
      + rewrite Hd. apply (view_mem _ _ Hv).
    - unfold enter in Hrun. apply bind_ret_inv in Hrun as ([[[en' sp'] root'] t] & Hs & [= _ _ _ <-]).
      pose proof (start_one cpu (tbl m1) Hp ltac:(lia) Hi) as Hst. rewrite Hs in Hst.
      destruct Hst as (Hca & i & p & Hcur & _). split_and!; try done. intros [? H0]. split; [done|].
      cbn [tbl]. rewrite Hcur, list_lookup_insert_ne by lia. exact H0. }
  destruct Ha as (Hca & Hi & Hut & Hco & Hm & Hirq).
  destruct IH as (Hca' & Hi' & Hut' & Hco' & Hm' & Hirq'); rewrite ?Hut; try done; [by eapply populated_carries|].
  split_and!; [by eapply carries_on_trans|tauto|congruence..|tauto].
Qed.

(** Cores that only come up leave everything watched alone. *)
Lemma announces_ok fuel (m m' : Interrupts.machine W) : logs (W:=W) b fuel (Vfs.uart (dev m)) →
  rtc (other_announces b fuel) m m' → tbl m' = tbl m ∧ (irq_enabled m = true → irq_enabled m' = true) ∧ ∃ w,
    dev m' = mkIo (Vfs.uart (dev m)) (console (dev m)) (input (dev m)) w ∧ view w = view (hw (dev m)).
Proof.
  intros Hl Hr. induction Hr as [m|m1 m2 m3 Hmove _ IH].
  { split; [done|]. split; [done|]. exists (hw (dev m)). by destruct m as [[] ? ? ?]. }
  destruct Hmove as [cpu m1 m2 Hc Hrun].
  pose proof (announce_ok cpu fuel m1 Hl) as Ha. rewrite Hrun in Ha. destruct Ha as (Ht & Hirq & w & Hd & Hv).
  destruct IH as (Ht' & Hirq' & w' & Hd' & Hv'); [by rewrite Hd|]. rewrite Hd in Hd', Hv'.
  split; [congruence|]. split; [tauto|]. exists w'. split; [exact Hd'|]. cbn [hw] in Hv'. congruence.
Qed.
End devices.

(** ** The screen *)

(** A framebuffer that holds a character. *)
Definition good_fb (f : Framebuffer) : Prop := fb_ok f ∧ 8 ≤ width f ∧ 16 ≤ height f.

Section console.
Context {W H : Type} `{HW : Hardware W, HD : Dma W, HC : Clock W, HK : KernelHeap H, HR : Watched W}.
Context (b : board) (fuel : nat) (im : image) `{HP : !Platform W b}.
Implicit Types (s : kernel W H).

(** The framebuffers the firmware may hand out: the one of the device tree, or, where that has none
    that is valid, the VideoCore's. *)
Inductive granted (m : mem) (dtb_pa : Z) : Framebuffer → Prop :=
| by_simplefb i f : find_simplefb m dtb_pa = Ret (Some i) → init_from_simplefb i = inr f → granted m dtb_pa f
| by_mailbox x y w w' f :
    (∀ i f, find_simplefb m dtb_pa = Ret (Some i) → init_from_simplefb i ≠ inr f) → (x, y) ∈ modes →
    init_with_mode b (MBOX im) x y w = Ret (inr f, w') → granted m dtb_pa f.

(** The firmware has a framebuffer: the first attempt succeeds. *)
Definition delivers (m : mem) (dtb_pa : Z) : Prop :=
  (∃ i f, find_simplefb m dtb_pa = Ret (Some i) ∧ init_from_simplefb i = inr f) ∨
  (∀ x y w, (x, y) ∈ modes → ∃ f w', init_with_mode b (MBOX im) x y w = Ret (inr f, w')).

Lemma install_ok f con (w : W) : good_fb f → locked con = false →
  returns (install f 0x00FFFFFF 0 con w) (λ '(_, con', w'), locked con' = false ∧ keep w' = keep w ∧
    ∃ c, data con' = Some c ∧ fb c = f ∧ shows c (get_mem w') tty_new).
Proof.
  intros (Hf & Hw & Hh) Hl. unfold install, clear_w. apply returns_bind, returns_bind.
  assert (is_u32 0 ∧ is_u32 0x00FFFFFF) as [H0 H1] by (split; split; (lia || reflexivity)).
  eapply returns_mono; [by apply clear_draws|]. intros m Hd. cbn [returns]. unfold lock. rewrite Hl.
  cbn [mbind outcome_bind returns unlock guard_set locked data]. split; [done|]. split; [apply pf_put|].
  eexists. split; [done|]. split; [done|]. rewrite get_put. by apply (console_new_shows f _ _ (get_mem w)).
Qed.

(** A log line changes the device only, and there nothing that is watched. *)
Lemma klog_ok line s : logs (W:=W) b fuel (Vfs.uart (dev (machine s))) →
  returns (klog b fuel line s) (λ s', ∃ w,
    s' = with_screen (console (dev (machine s))) w s ∧ view w = view (device s)).
Proof.
  intros Hl. unfold klog. apply returns_bind. eapply returns_mono; [apply Hl|].
  intros [u w] [-> Hw]. by exists w.
Qed.

(** Before a framebuffer is found, and at the end: [P] holds of the framebuffer. *)
Definition trying s0 s : Prop := ∃ w, s = with_screen (console (dev (machine s0))) w s0 ∧ keep w = keep (device s0).
Definition settled (P : Framebuffer → Prop) s0 s : Prop := ∃ con w,
  s = with_screen con w s0 ∧ locked con = false ∧ keep w = keep (device s0) ∧
  ∀ c, data con = Some c → P (fb c) ∧ shows c (get_mem w) tty_new.
Definition has_screen s : Prop := data (console (dev (machine s))) ≠ None.

Lemma klog_settled P line s0 s : logs (W:=W) b fuel (Vfs.uart (dev (machine s0))) → settled P s0 s →
  returns (klog b fuel line s) (λ s', settled P s0 s' ∧ (has_screen s → has_screen s')).
Proof.
  intros Hlog (con & w & -> & Hl & Hk & Hc). eapply returns_mono; [by apply klog_ok|].
  intros s' (w' & -> & Hv). split; [|done]. exists con, w'. split; [done|]. split; [done|].
  injection Hv as Hm Hk'. split; [by rewrite Hk'|]. intros c Hcon. destruct (Hc c Hcon) as [? Hs].
  split; [done|]. change (get_mem w' = get_mem w) in Hm. by rewrite Hm.
Qed.

Section attempt.
Context (P : Framebuffer → Prop) (Hgood : ∀ f, P f → good_fb f) (s0 : kernel W H).
Context (Hlog : logs (W:=W) b fuel (Vfs.uart (dev (machine s0)))).
Context (Hcon : console (dev (machine s0)) = lock_new None).

(** A line after a failure, then the rest; a line after a success. *)
Lemma line_then line s (k : kernel W H → outcome (bool * kernel W H)) Q : trying s0 s →
  (∀ s, trying s0 s → returns (k s) Q) → returns (s ← klog b fuel line s; k s) Q.
Proof.
  intros (w & -> & Hk) Hr. apply returns_bind. eapply returns_mono; [by apply klog_ok|].
  intros s' (w' & -> & Hv). apply Hr. exists w'. split; [done|]. injection Hv as _ Hk'. by rewrite Hk'.
Qed.

Lemma installed line f w : keep w = keep (device s0) → P f →
  returns ('(wh, con, w) ← install f 0x00FFFFFF 0 (console (dev (machine s0))) w;
           s ← klog b fuel (line wh) (with_screen con w s0); Ret (true, s))
    (λ r, settled P s0 r.2 ∧ r.1 = true ∧ has_screen r.2).
Proof.
  intros Hk Hf. apply returns_bind. eapply returns_mono; [apply install_ok; [by apply Hgood|by rewrite Hcon]|].
  intros [[wh con] w'] (Hl & Hk' & c & Hc & Hfb & Hs). apply returns_bind.
  eapply returns_mono; [apply (klog_settled P _ s0); [done|]|].
  - exists con, w'. split; [done|]. split; [done|]. split; [by rewrite Hk'|].
    intros c' Hc'. rewrite Hc in Hc'. injection Hc' as <-. by rewrite Hfb.
  - intros s' [Hs' Hh]. cbn [returns fst snd]. split; [done|]. split; [done|]. apply Hh.
    unfold has_screen. cbn. by rewrite Hc.
Qed.

(** What an attempt comes to. *)
Definition attempted (r : bool * kernel W H) : Prop :=
  settled P s0 r.2 ∧ (r.1 = true → has_screen r.2).

Lemma trying_settled s : trying s0 s → settled P s0 s.
Proof.
  intros (w & -> & Hk). eexists _, w. split; [done|]. rewrite Hcon. split; [done|]. by split.
Qed.

Lemma try_modes_ok ms s : trying s0 s →
  (∀ x y w w' f, (x, y) ∈ ms → init_with_mode b (MBOX im) x y w = Ret (inr f, w') → P f) →
  returns (try_modes b fuel im ms s) (λ r, attempted r ∧
    ((∃ xy, xy ∈ ms) → (∀ x y w, (x, y) ∈ ms → ∃ f w', init_with_mode b (MBOX im) x y w = Ret (inr f, w')) →
      r.1 = true)).
Proof.
  revert s. induction ms as [|[x y] ms IH]; intros s Hs Hf.
  { split; [split; [by apply trying_settled|done]|]. intros [? Hxy]. by apply elem_of_nil in Hxy. }
  cbn [try_modes]. apply line_then; [done|]. clear s Hs. intros s (w & -> & Hk). apply returns_bind.
  unfold init_console_with_mode. change (device (with_screen _ w s0)) with w.
  change (console (dev (machine (with_screen ?c _ _)))) with c.
  assert (returns (init_with_mode b (MBOX im) x y w) (λ _, True)) as [[[e|f] w1] [Hi _]]%returns_eq.
  { unfold init_with_mode. apply returns_bind. eapply returns_mono; [apply call_ok|].
    intros [ok w1] _. repeat case_match; done. }
  all: rewrite Hi; pose proof (init_with_mode_keeps b _ _ _ _ _ Hi) as Hk1; cbn [snd] in Hk1; rewrite Hk in Hk1.
  - cbn [mbind outcome_bind returns]. apply line_then; [by exists w1|]. intros s Hs.
    eapply returns_mono; [apply (IH s Hs)|].
    + intros x' y' v v' f Hin. apply (Hf x' y' v v' f). by right.
    + intros r [Ha _]. split; [done|]. intros _ Hall. destruct (Hall x y w) as (f & w' & Hi'); [by left|].
      by rewrite Hi in Hi'.
  - assert (P f) as HPf by (apply (Hf x y w w1 f); [by left|done]).
    pose proof (installed (λ wh, bytes "Framebuffer " ++ by_by x y ++ bytes " -> " ++ by_by wh.1 wh.2) f w1 Hk1 HPf)
      as Hin.
    cbn [mbind outcome_bind]. apply returns_bind_inv in Hin. apply returns_bind.
    eapply returns_mono; [exact Hin|]. intros [[[ow oh] con'] w'] Hr. cbn [returns fst snd] in *.
    eapply returns_mono; [exact Hr|]. intros r (Hs & Ht & Hh). by split.
Qed.

Lemma try_init_console_ok dtb_pa : let m := get_mem (device s0) in
  (∀ f, granted m dtb_pa f → P f) → returns (find_simplefb m dtb_pa) (λ _, True) →
  returns (try_init_console b fuel im dtb_pa s0) (λ r, attempted r ∧ (delivers m dtb_pa → r.1 = true)).
Proof.
  intros m Hgr Hfb. unfold try_init_console. apply returns_bind.
  apply returns_eq in Hfb as (i & Hi & _). fold m. rewrite Hi. cbn [returns].
  assert (trying s0 s0) as Hss.
  { exists (device s0). split; [|done]. by destruct s0 as [[[? ? ? ?] ? ? ?] ? ? ? ? ? ? ?]. }
  assert (∀ s, (∀ j f, find_simplefb m dtb_pa = Ret (Some j) → init_from_simplefb j ≠ inr f) → trying s0 s →
    returns (try_modes b fuel im modes s) (λ r, attempted r ∧ (delivers m dtb_pa → r.1 = true))) as Hmodes.
  { intros s Hno Hs. eapply returns_mono; [apply (try_modes_ok modes s Hs)|].
    - intros x y w w' f Hin Hm. apply Hgr. by eapply by_mailbox.
    - intros r [Ha Hall]. split; [done|]. intros [(j & f & Hj & Hf)|Hd]; [by apply Hno in Hf|].
      apply Hall; [|done]. eexists. by left. }
  destruct i as [i|]; [|apply Hmodes; [|done]; by intros j f; rewrite Hi].
  apply line_then; [done|]. intros s (w & -> & Hk). apply returns_bind.
  unfold init_console_from_simplefb. change (console (dev (machine (with_screen ?c _ _)))) with c.
  change (device (with_screen _ w s0)) with w. destruct (init_from_simplefb i) as [e|f] eqn:Hf.
  - cbn [returns]. apply line_then; [by exists w|]. intros s Hs. apply Hmodes; [|done].
    intros j f. rewrite Hi. intros [= <-]. by rewrite Hf.
  - assert (P f) as HPf by (by apply Hgr, (by_simplefb _ _ i)).
    pose proof (installed (λ wh, bytes "simplefb active " ++ by_by wh.1 wh.2) f w Hk HPf) as Hin.
    apply returns_bind_inv in Hin. apply returns_bind.
    eapply returns_mono; [exact Hin|]. intros [[[ow oh] con'] w'] Hr. cbn [returns fst snd] in *.
    eapply returns_mono; [exact Hr|]. intros r (Hs & Ht & Hh). by split.
Qed.

(** Both boards: the Pi 5 goes on without a screen, QEMU does not. *)
Lemma init_console_ok dtb_pa : let m := get_mem (device s0) in
  (∀ f, granted m dtb_pa f → P f) → returns (find_simplefb m dtb_pa) (λ _, True) →
  (b = Qemu → (0 < fuel)%nat ∧ delivers m dtb_pa) →
  returns (init_console b fuel im dtb_pa s0) (λ s, settled P s0 s ∧ (b = Qemu → has_screen s)).
Proof.
  intros m Hgr Hfb Hq. pose proof (try_init_console_ok dtb_pa Hgr Hfb) as Htry. fold m in Htry.
  pose proof (λ line s, klog_settled P line s0 s Hlog) as Hline. unfold init_console.
  apply returns_eq in Htry as ([ok s] & Hrun & [Hs Hscr] & Hd). cbn [fst snd] in *. destruct b.
  - apply returns_bind. rewrite Hrun. cbn [returns]. destruct ok; [by split|].
    eapply returns_mono; [by apply Hline|]. intros s' [Hs' _]. by split.
  - destruct (Hq eq_refl) as [Hfuel Hdel]. rewrite (loop_exit _ _ _ s); [|done|].
    + cbn [returns]. split; [done|]. intros _. by apply Hscr, Hd.
    + unfold console_body. rewrite Hrun. cbn [mbind outcome_bind]. by rewrite (Hd Hdel).
Qed.
End attempt.
End console.

(** ** The machine before and after *)

(** What the device tree says of the UART: before its initialization, and again in [mm::init]. *)
Definition first_told (b : board) (info : option UartInfo) (u : Uart.state) : Uart.state :=
  match b with Rpi5 => uart_settings info u | Qemu => u end.
Definition told (b : board) (info : option UartInfo) (u : Uart.state) : Uart.state :=
  match b, info with Rpi5, Some i => apply_uart i u | _, _ => u end.

(** A machine as the firmware leaves it: statics in their initial state, tables placed by the linker,
    a device tree that can be read (also after the UART, whose state is [u] in the end, has been
    initialized), whose memory and UART are within reach, and framebuffers that hold a character.
    QEMU's UART has room, and its firmware a framebuffer. *)
Record bootable {W H} `{Hardware W, Dma W, Clock W, Watched W} (b : board) (fuel : nat) (im : image) (dtb_pa : Z)
    (u : Uart.state) (w : W) (s : kernel W H) : Prop := {
  boot_procs_new : procs_of s = procs_new;
  boot_cores_new : cores s = Smp.state_new;
  boot_console : console (dev (machine s)) = lock_new None;
  boot_uart_lock : locked (UART_LOCK (Vfs.uart (dev (machine s)))) = false;
  boot_placed : placed (tables im);
  boot_shaped : shaped (paging s);
  boot_extra : extra_in_reach (paging s);
  boot_frames : frames s = FRAME_ALLOC_new;
  boot_kernel_end : 0 ≤ kernel_end (phys_info im) < 2 ^ 39;
  boot_early : early_quiet (W:=W) b;
  boot_uart : ∃ info u0,
    (b = Rpi5 → find_uart (get_mem (device s)) dtb_pa = Ret info) ∧
    uart_base (first_told b info (Vfs.uart (dev (machine s)))) ≠ 0 ∧
    Uart.init b (first_told b info (Vfs.uart (dev (machine s)))) (device (kmark b (bytes "K0") s)) = (u0, w) ∧
    ∀ i, (b = Rpi5 → find_uart (get_mem w) dtb_pa = Ret i) → told b i u0 = u;
  boot_lines : uart_quiet (W:=W) u;
  boot_map : ∃ dinfo map, parse (get_mem w) dtb_pa MemoryMap_new = Ret (dinfo, map) ∧
    in_reach (raw_map b dtb_pa (phys_info im) dinfo map);
  boot_uart_reach : uart_in_reach b (get_mem w) dtb_pa;
  boot_simplefb : returns (find_simplefb (get_mem w) dtb_pa) (λ _, True);
  boot_screens f : granted b im (get_mem w) dtb_pa f → good_fb f;
  boot_port : port_quiet u;
  boot_qemu : b = Qemu → (0 < fuel)%nat ∧ drains (W:=W) u ∧ delivers b im (get_mem w) dtb_pa
}.

(** What memory looks like after [init_mm]. *)
Definition memory_safe {W H} `{HK : KernelHeap H} raw (h : H) (s : kernel W H) : Prop :=
  (∀ j, glob_free (frames s) j → frame_safe raw j) ∧
  (heap s = h ∨ ∃ p, p mod 4096 = 0 ∧ heap s = lh_init (phys_to_virt p) HEAP_SIZE h ∧
    ∀ j, p / 4096 ≤ j < p / 4096 + 2048 → frame_safe raw j ∧ ¬ glob_free (frames s) j).

(** The machine when CPU 0 enters a process. *)
Record boot_done {W H} `{Hardware W, HD : Dma W, HR : Watched W, KernelHeap H} (b : board) (im : image) (dtb_pa : Z)
    (u : Uart.state) (w : W) (s s' : kernel W H) : Prop := {
  (* the shell and four idle processes are each on one core or in the run queue *)
  bt_procs : carries_on (spawned im (user_root_pa (paging s')) ∅ 5) (procs_of s');
  (* the trampoline knows the shell and its stack *)
  bt_user : user s' = User.init (user_shell_at im) (user_sp im) (user s);
  (* the other cores are released *)
  bt_cores : Smp.secondary_table (cores s') = [0; secondary_start im; secondary_start im; secondary_start im];
  bt_irq : irq_enabled (machine s') = true;
  (* what can be allocated is memory nothing else claims, and where that has room for a heap there is one *)
  bt_memory : ∃ dinfo map, parse (get_mem w) dtb_pa MemoryMap_new = Ret (dinfo, map) ∧
    let raw := raw_map b dtb_pa (phys_info im) dinfo map in
    memory_safe raw (heap s) s' ∧ (room_for_heap (phys_info im) raw → fresh_heap (heap s'));
  (* the serial line works *)
  bt_uart : Vfs.uart (dev (machine s')) = u ∧ is_ready u = true ∧ locked (UART_LOCK u) = false;
  (* a screen, if there is one, is blank *)
  bt_lock : locked (console (dev (machine s'))) = false;
  bt_screen c : data (console (dev (machine s'))) = Some c →
    granted b im (get_mem w) dtb_pa (fb c) ∧ shows c (get_mem (device s')) tty_new;
  bt_display : b = Qemu → data (console (dev (machine s'))) ≠ None
}.

(** CPU 0 enters the process of slot [i], which no other core runs: at its entry point, on its stack, in the user's
    address space. *)
Definition entering {W H} (im : image) (i en sp root : Z) (s' : kernel W H) : Prop :=
  0 ≤ i < 5 ∧ CURRENT (procs_of s') !! 0%nat = Some i ∧ spawned_as im root i = (en, sp, root, init_fds) ∧
  root = user_root_pa (paging s') ∧ ttbr0_el1 (sysregs s') = root.

(** The shell, with the keyboard buffer and everything watched as they were. *)
Definition in_shell {W H} `{HR : Watched W} (im : image) (w : W) (s : kernel W H) (en sp root : Z) (s' : kernel W H) : Prop :=
  en = user_start_at im ∧ sp = stack_of (process_stacks im) 0 ∧ procs_of s' = first_table im root ∅ ∧
  input (dev (machine s')) = input (dev (machine s)) ∧ keep (device s') = keep w.

(** With a UART that takes the lines, all five processes are created. *)
Lemma create_processes_ok {W H} `{HW : Hardware W, HD : Dma W, HV : !View W} b fuel im fr (s : kernel W H) :
  let u := Vfs.uart (dev (machine s)) in
  locked (UART_LOCK u) = false → is_ready u = true → writes (W:=W) b fuel u → procs_of s = boot_procs fr init_fds →
  returns (create_processes b fuel im s) (λ s', ∃ w,
    s' = with_procs (spawned im (user_root_pa (paging s)) fr 5) (with_uart_hw u w s) ∧ view w = view (device s)).
Proof.
  intros u Hl Hr Hw Hp. unfold create_processes. fold u. rewrite Hp. apply returns_bind. eapply returns_mono.
  - exact (with_uart_ok _ u (device s) _ Hl Hr (spawn_ok b fuel im u _ fr (device s) Hw)).
  - intros [[o u'] w'] (-> & t & -> & -> & Hv). by exists w'.
Qed.

(** A UART that is not ready leaves the table empty, and the first core panics: a device tree whose
    console is at address 0 is enough. *)
Lemma no_uart_no_shell {W H} `{HW : Hardware W} b fuel im fr (s : kernel W H) :
  let u := Vfs.uart (dev (machine s)) in
  is_ready u = false → procs_of s = boot_procs fr init_fds →
  create_processes b fuel im s = Ret (with_procs (procs_of s) (with_uart_hw u (device s) s)) ∧
  start_on_cpu 0 (procs_of s) = Panic.
Proof.
  intros u Hr Hp. split.
  - unfold create_processes. fold u. unfold with_uart. by rewrite Hr.
  - by rewrite Hp.
Qed.

Section boot_proof.
Context {W H : Type} `{HW : Hardware W, HD : Dma W, HC : Clock W, HK : KernelHeap H, HR : Watched W}.
Context (b : board) (fuel : nat) (im : image) `{HP : !Platform W b}.
Implicit Types (s : kernel W H).

Lemma kmark_ok line s : early_quiet (W:=W) b →
  ∃ w, kmark b line s = with_uart_hw (Vfs.uart (dev (machine s))) w s ∧ view w = view (device s).
Proof.
  intros He. unfold kmark. pose proof (λ l (w : W), early_print_quiet l w) as Hq. destruct b.
  - eexists. split; [done|]. by apply Hq.
  - exists (device s). split; [|done]. by destruct s as [[[? ? ? ?] ? ? ?] ? ? ? ? ? ? ?].
Qed.

(** Initialization makes the UART ready, and does not touch its lock. *)
Lemma uart_init_ready (u : Uart.state) (w : W) : uart_base u ≠ 0 →
  is_ready (Uart.init b u w).1 = true ∧ UART_LOCK (Uart.init b u w).1 = UART_LOCK u.
Proof.
  intros Hb. unfold Uart.init. rewrite decide_False by done.
  destruct (UART_SKIP_INIT u); [by destruct (read32 _ w)|]. by destruct (divisors u).
Qed.

Lemma told_same i u : is_ready (told b i u) = is_ready u ∧ UART_LOCK (told b i u) = UART_LOCK u.
Proof. by destruct b, i. Qed.

Lemma init_uart_ok dtb_pa s info u (w : W) : early_quiet (W:=W) b →
  (b = Rpi5 → find_uart (get_mem (device s)) dtb_pa = Ret info) →
  uart_base (first_told b info (Vfs.uart (dev (machine s)))) ≠ 0 →
  Uart.init b (first_told b info (Vfs.uart (dev (machine s)))) (device (kmark b (bytes "K0") s)) = (u, w) →
  ∃ w', init_uart b dtb_pa (kmark b (bytes "K0") s) = Ret (with_uart_hw u w' s) ∧
    view w' = view w ∧ is_ready u = true ∧ UART_LOCK u = UART_LOCK (Vfs.uart (dev (machine s))).
Proof.
  intros He Hfu Hb Hui. destruct (uart_init_ready _ (device (kmark b (bytes "K0") s)) Hb) as [Hy Hl].
  rewrite Hui in Hy, Hl. cbn [fst] in Hy, Hl.
  assert (UART_LOCK u = UART_LOCK (Vfs.uart (dev (machine s)))) as Hlock.
  { rewrite Hl. unfold first_told. by destruct b, info. }
  pose proof (λ l s, kmark_ok l s He) as Hk. unfold init_uart.
  destruct (Hk (bytes "K0") s) as (w0 & Hm & Hv0). rewrite Hm in *.
  change (device (with_uart_hw _ w0 s)) with w0 in *. change (Vfs.uart (dev (machine (with_uart_hw ?v _ s)))) with v.
  destruct b; cbn [first_told] in Hui.
  - rewrite (view_mem _ _ Hv0), (Hfu eq_refl). cbn [mbind outcome_bind]. rewrite Hui.
    destruct (Hk (bytes "K1") (with_uart_hw u w (with_uart_hw (Vfs.uart (dev (machine s))) w0 s))) as (w1 & -> & Hv1).
    by exists w1.
  - rewrite Hui. by exists w.
Qed.

Lemma init_mm_ok dtb_pa s dinfo map : let m := get_mem (device s) in
  placed (tables im) → shaped (paging s) → extra_in_reach (paging s) → frames s = FRAME_ALLOC_new →
  0 ≤ kernel_end (phys_info im) < 2 ^ 39 → early_quiet (W:=W) b →
  parse m dtb_pa MemoryMap_new = Ret (dinfo, map) →
  let raw := raw_map b dtb_pa (phys_info im) dinfo map in
  in_reach raw → uart_in_reach b m dtb_pa →
  (∀ i, (b = Rpi5 → find_uart m dtb_pa = Ret i) → logs (W:=W) b fuel (told b i (Vfs.uart (dev (machine s))))) →
  returns (init_mm b fuel im dtb_pa s) (λ s',
    (memory_safe raw (heap s) s' ∧ (room_for_heap (phys_info im) raw → fresh_heap (heap s'))) ∧
    (∃ i, (b = Rpi5 → find_uart m dtb_pa = Ret i) ∧
      Vfs.uart (dev (machine s')) = told b i (Vfs.uart (dev (machine s)))) ∧
    view (device s') = view (device s) ∧ procs_of s' = procs_of s ∧ cores s' = cores s ∧ user s' = user s ∧
    console (dev (machine s')) = console (dev (machine s)) ∧ input (dev (machine s')) = input (dev (machine s))).
Proof.
  intros m Ha Hs He Hf Hk Hearly Hp raw Hr Hu Hlog. unfold init_mm. set (ms := mkSystem _ _ _ _ _ _ _).
  assert (∀ i, uart_told b i ms = told b i (Vfs.uart (dev (machine s)))) as Htold by (by destruct b; intros [i|]).
  apply returns_bind. eapply returns_mono.
  - apply (init_safe b fuel (tables im) Ha Hearly dtb_pa (phys_info im) ms dinfo map Hp Hr Hu
      (conj Hs (conj He Hf)) Hk).
    intros i Hi. rewrite Htold. exact (Hlog i Hi).
  - intros r (Hfree & Hheap & Hfresh & _ & Hm & i & Hi & Hui). rewrite Htold in Hui. cbn [returns].
    split; [split; [split; [exact Hfree|exact Hheap]|exact Hfresh]|]. split; [exists i; split; [exact Hi|exact Hui]|].
    split; [exact Hm|]. repeat split; reflexivity.
Qed.

(** The other cores, from their release on. *)
Context (others : Interrupts.machine W → Interrupts.machine W).
Context (Hothers : ∀ m, rtc (other_move b fuel) m (others m)).

(** The end of the boot: CPU 0 takes its first process. *)
Lemma enter_first root (m : Interrupts.machine W) : let u := Vfs.uart (dev m) in
  tbl m = spawned im root ∅ 5 → irq_enabled m = true → logs (W:=W) b fuel u → uart_quiet (W:=W) u → port_quiet u →
  returns (enter 0 (others m)) (λ '(en, sp, rt, m'), carries_on (spawned im root ∅ 5) (tbl m') ∧
    (∃ i, 0 ≤ i < 5 ∧ spawned_as im root i = (en, sp, rt, init_fds) ∧ CURRENT (tbl m') !! 0%nat = Some i) ∧
    irq_enabled m' = true ∧ Vfs.uart (dev m') = u ∧ console (dev m') = console (dev m) ∧
    get_mem (hw (dev m')) = get_mem (hw (dev m)) ∧
    ((∀ m, rtc (other_announces b fuel) m (others m)) →
       en = user_start_at im ∧ sp = stack_of (process_stacks im) 0 ∧ tbl m' = first_table im root ∅ ∧
       input (dev m') = input (dev m) ∧ keep (hw (dev m')) = keep (hw (dev m)))).
Proof.
  intros u Ht Hirq Hl Hu Hq. assert (populated 5 (tbl m)) as Hp by (rewrite Ht; apply spawned_populated).
  destruct (others_aside b fuel m (others m) Hl Hu Hq Hp (Hothers m)) as (Hc & Hi & Hut & Hco & Hm & Hirq').
  rewrite Ht in Hc, Hi. specialize (Hi (spawned_idle im root)).
  pose proof (enter_spawned im root (others m) Hc Hi) as He.
  assert ((∀ m, rtc (other_announces b fuel) m (others m)) →
    ∃ m', enter 0 (others m) = Ret (user_start_at im, stack_of (process_stacks im) 0, root, m') ∧
      tbl m' = first_table im root ∅ ∧ input (dev m') = input (dev m) ∧ keep (hw (dev m')) = keep (hw (dev m))) as Hann.
  { intros Ha. destruct (announces_ok b fuel m (others m) Hl (Ha m)) as (Ht' & _ & w & Hd & Hv).
    unfold enter. rewrite Ht', Ht, start_shell_ok. eexists. split; [reflexivity|]. cbn [tbl dev]. rewrite Hd.
    by injection Hv. }
  apply returns_eq in He as ([[[en sp] rt] m'] & Hrun & Hc' & (i & Hi5 & Hf & Hcur) & Hd & Hirq2). rewrite Hrun in *.
  cbn [returns]. split; [exact Hc'|]. split.
  { exists i. split; [done|]. split; [done|]. rewrite Hcur. apply list_lookup_insert_eq.
    destruct Hi as [_ Hi]. by apply lookup_lt_Some in Hi. }
  rewrite Hd. split; [by rewrite Hirq2, Hirq'|]. do 3 (split; [done|]). intros Ha.
  destruct (Hann Ha) as (m2 & [= -> -> -> <-] & Hrest). by rewrite <-Hd.
Qed.

(** From a machine with memory, a ready UART and no processes. *)
Lemma start_kernel_ok dtb_pa s : let u := Vfs.uart (dev (machine s)) in let m := get_mem (device s) in
  procs_of s = procs_new → cores s = Smp.state_new → console (dev (machine s)) = lock_new None →
  is_ready u = true → locked (UART_LOCK u) = false → writes (W:=W) b fuel u → uart_quiet (W:=W) u → port_quiet u →
  returns (find_simplefb m dtb_pa) (λ _, True) → (∀ f, granted b im m dtb_pa f → good_fb f) →
  (b = Qemu → (0 < fuel)%nat ∧ delivers b im m dtb_pa) →
  returns (start_kernel b fuel im others dtb_pa s) (λ '(en, sp, root, s'),
    carries_on (spawned im (user_root_pa (paging s')) ∅ 5) (procs_of s') ∧
    user s' = User.init (user_shell_at im) (user_sp im) (user s) ∧
    Smp.secondary_table (cores s') = [0; secondary_start im; secondary_start im; secondary_start im] ∧
    irq_enabled (machine s') = true ∧ (frames s' = frames s ∧ heap s' = heap s ∧ paging s' = paging s) ∧
    Vfs.uart (dev (machine s')) = u ∧ locked (console (dev (machine s'))) = false ∧
    (∀ c, data (console (dev (machine s'))) = Some c →
       granted b im m dtb_pa (fb c) ∧ shows c (get_mem (device s')) tty_new) ∧
    (b = Qemu → data (console (dev (machine s'))) ≠ None) ∧ (∃ i, entering im i en sp root s') ∧
    ((∀ m, rtc (other_announces b fuel) m (others m)) → in_shell im (device s) s en sp root s')).
Proof.
  intros u m Hp Hc Hcon Hr Hl Hw Huq Hpq Hfb Hscr Hqe.
  assert (logs (W:=W) b fuel u) as Hlog by (by apply logs_writes).
  unfold start_kernel. apply returns_bind. rewrite Hp, process_init_ok by done. cbn [returns].
  set (s1 := with_procs _ s). apply returns_bind. eapply returns_mono.
  { apply (init_console_ok b fuel im (granted b im m dtb_pa) Hscr s1 Hlog Hcon dtb_pa); [done|exact Hfb|exact Hqe]. }
  intros ? [(con & w2 & -> & Hl2 & Hk2 & Hs2) Hd2]. apply returns_bind.
  change (procs_of (with_screen con w2 s1)) with (boot_procs ∅ (replicate 8 None)).
  rewrite wire_fds_ok. cbn [returns]. apply returns_bind.
  eapply returns_mono; [apply klog_ok; exact Hlog|]. intros ? (w3 & -> & Hv3). apply returns_bind.
  eapply returns_mono; [apply (create_processes_ok b fuel im ∅); [exact Hl|exact Hr|exact Hw|reflexivity]|].
  intros ? (w4 & -> & Hv4). apply returns_bind. change (cores (with_procs _ _)) with (cores s).
  rewrite Hc, start_secondary_cores_ok. cbn [returns].
  apply returns_bind. eapply returns_mono; [apply klog_ok; exact Hlog|]. intros ? (w5 & -> & Hv5).
  apply returns_bind. eapply returns_mono; [apply (init_per_cpu_ok b 0 fuel 10); exact Hlog|].
  intros m6 (Ht & Hirq & w6 & Hdev & Hv6). apply returns_bind.
  assert (Vfs.uart (dev m6) = u) as Hum by (rewrite Hdev; reflexivity).
  assert (console (dev m6) = con) as Hcm by (rewrite Hdev; reflexivity).
  assert (input (dev m6) = input (dev (machine s))) as Him by (rewrite Hdev; reflexivity).
  assert (view (hw (dev m6)) = view w2) as [= Hm Hk].
  { rewrite Hdev. etrans; [exact Hv6|]. etrans; [exact Hv5|]. etrans; [exact Hv4|]. exact Hv3. }
  eapply returns_mono; [apply (enter_first (user_root_pa (paging s)) m6); [exact Ht|exact Hirq|by rewrite Hum..]|].
  intros [[[en sp] rt] m7] (Hca & (i & Hi & Hf & Hcur) & Hirq7 & Hu7 & Hc7 & Hm7 & Hsh). cbn [returns].
  rewrite Hum in Hu7. rewrite Hcm in Hc7.
  assert (rt = user_root_pa (paging s)) as Hrt by (unfold spawned_as in Hf; congruence).
  split; [exact Hca|]. do 3 (split; [done|]). split; [done|]. split; [exact Hu7|].
  cbn [machine paging]. rewrite Hc7. split; [exact Hl2|]. split; [|split; [exact Hd2|split]].
  - intros c Hcc. unfold device. cbn [machine]. rewrite Hm7, Hm. by apply Hs2.
  - exists i. split; [done|]. split; [exact Hcur|]. split; [rewrite <-Hf; by rewrite Hrt|]. split; [exact Hrt|done].
  - intros Ha. destruct (Hsh Ha) as (He & Hsp & Ht7 & Hi7 & Hk7). split; [done|]. split; [done|].
    split; [by rewrite Hrt|]. split; [etrans; [exact Hi7|exact Him]|]. etrans; [exact Hk7|]. etrans; [exact Hk|exact Hk2].
Qed.

Lemma kernel_main_ok dtb_pa u w s : bootable b fuel im dtb_pa u w s →
  returns (kernel_main b fuel im others dtb_pa s) (λ '(en, sp, root, s'),
    boot_done b im dtb_pa u w s s' ∧ (∃ i, entering im i en sp root s') ∧
    ((∀ m, rtc (other_announces b fuel) m (others m)) → in_shell im w s en sp root s')).
Proof.
  intros [Hpn Hcn Hcon Hlock Hpl Hsh Hex Hfr Hke He (info & u0 & Hfu & Hb & Hui & Hto) Hqu
    (dinfo & map & Hp & Hr) Hur Hfb Hscr Hpq Hqe].
  destruct (init_uart_ok dtb_pa s info u0 w He Hfu Hb Hui) as (w1 & Hrun & Hv1 & Hready & Hul).
  assert (writes (W:=W) b fuel u) as Hwr by (apply writes_quiet; [done|naive_solver]).
  pose proof (view_mem _ _ Hv1) as Hm1. unfold kernel_main. apply returns_bind. rewrite Hrun. cbn [returns].
  set (s1 := with_uart_hw u0 w1 s). pose proof Hp as Hp0. rewrite <-Hm1 in Hto, Hp, Hur, Hfb.
  apply returns_bind. eapply returns_mono.
  { apply (init_mm_ok dtb_pa s1 dinfo map); try done. intros i Hi.
    change (Vfs.uart (dev (machine s1))) with u0. rewrite (Hto i Hi).
    apply logs_writes; [|done]. by rewrite <-(Hto i Hi), (proj2 (told_same i u0)), Hul. }
  intros s2 (Hsafe & (i & Hi & Hu2) & Hv2 & Hp2 & Hc2 & Hus2 & Hcon2 & Hin2).
  change (Vfs.uart (dev (machine s1))) with u0 in Hu2. destruct (told_same i u0) as [Hri Hli].
  rewrite (Hto i Hi) in Hu2, Hri, Hli. rewrite Hready in Hri. apply (f_equal locked) in Hli.
  rewrite Hul, Hlock in Hli.
  destruct (kmark_ok (bytes "K2") s2 He) as (w3 & -> & Hv3). rewrite Hu2. set (s3 := with_uart_hw u w3 s2).
  assert (late_uart b s3 = s3) as ->.
  { unfold late_uart. change (Vfs.uart (dev (machine s3))) with u. rewrite Hri. by destruct b. }
  assert (view w3 = view w) as Hv by (etrans; [exact Hv3|]; etrans; [exact Hv2|exact Hv1]).
  pose proof (view_mem _ _ Hv) as Hm. rewrite Hm1, <-Hm in Hfb. rewrite <-Hm in Hqe.
  eapply returns_mono.
  { apply (start_kernel_ok dtb_pa s3);
      [by etrans|by etrans|by etrans|exact Hri|exact Hli|exact Hwr|exact Hqu|exact Hpq|exact Hfb| |].
    - intros f. change (device s3) with w3. rewrite Hm. apply Hscr.
    - intros Hq. destruct (Hqe Hq) as (? & _ & ?). by split. }
  intros [[[en sp] root] s'] (Hca & Hus & Hco & Hirq & (Hfrm & Hhp & Hpg) & Huu & Hlk & Hs & Hd & Hen & Hin).
  change (device s3) with w3 in *. rewrite Hm in Hs. injection Hv as _ Hkw.
  split; [split; try done|split; [exact Hen|]].
  - exists dinfo, map. split; [exact Hp0|]. cbv zeta. unfold memory_safe in *. by rewrite Hfrm, Hhp.
  - intros Ha. destruct (Hin Ha) as (H1 & H2 & H3 & H4 & H5). split_and!; try done; [|congruence].
    etrans; [exact H4|exact Hin2].
Qed.
End boot_proof.


(** ** A boot with a display *)

(** 960 MiB of memory, and a framebuffer. *)
Definition screen_tree : node :=
  Node [] [(0, be32 2); (15, be32 1)] [
    Node (bytes "memory@0") [(31, bytes "memory" ++ [0]); (27, be32 0 ++ be32 0 ++ be32 0x3C000000)] [];
    Node (bytes "chosen") [] [
      Node (bytes "framebuffer@3e000000") [
        (43, bytes "simple-framebuffer" ++ [0]);
        (27, be32 0 ++ be32 0x3e000000 ++ be32 0x7E9000);
        (54, be32 1920); (60, be32 1080); (67, be32 7680); (74, bytes "a8r8g8b8" ++ [0])] []]].
Definition screen_image : mem := image_at 0x8000000 (encode (tokens_of screen_tree)) demo_fb_strings.
Definition screen_info : SimpleFbInfo := mkSimpleFb 0x3e000000 0x7E9000 1920 1080 7680 A8R8G8B8.

#[export] Instance demo_watched : Watched demo_dev := {| kept := unit; keep _ := tt |}.
#[export] Program Instance demo_platform b : Platform demo_dev b.
Solve Obligations with by intros.
Next Obligation. intros b r w _. cbn [read32 demo_dev_hw]. by destruct (@read32 port _ _ (d_port w)). Qed.

Lemma screen_found : find_simplefb screen_image 0x8000000 = Ret (Some screen_info).
Proof. vm_compute. reflexivity. Qed.

Lemma screen_no_uart : find_uart screen_image 0x8000000 = Ret None.
Proof. vm_compute. reflexivity. Qed.

(** The framebuffer of the device tree is the only one granted. *)
Lemma screen_granted {W} `{HW : Hardware W, HD : Dma W} b im f : granted (W:=W) b im screen_image 0x8000000 f →
  f = mkFb (phys_to_virt 0x3e000000) 1920 1080 7680.
Proof.
  intros [i f' Hi Hf|x y w w' f' Hno _ _].
  - rewrite screen_found in Hi. injection Hi as <-. vm_compute in Hf. injection Hf as <-. reflexivity.
  - exfalso. apply (Hno screen_info (mkFb (phys_to_virt 0x3e000000) 1920 1080 7680)); [exact screen_found|].
    vm_compute. reflexivity.
Qed.

Lemma screen_good {W} `{HW : Hardware W, HD : Dma W} b im f : granted (W:=W) b im screen_image 0x8000000 f → good_fb f.
Proof.
  intros ->%screen_granted. split; [|split; vm_compute; congruence].
  split; vm_compute; congruence.
Qed.

Section screen_boot.
Context {W : Type} `{HW : Hardware W, HD : Dma W, HC : Clock W, HR : Watched W} (b : board) (w : W).

Definition screen_boot : kernel W bump :=
  mkKernel (mkMachine (mkIo (Uart.state_new b) (lock_new None) (lock_new RingBuffer_new) w) procs_new 0 false)
    Paging.state_new demo_regs boot_zero FRAME_ALLOC_new lh_empty entry_new Smp.state_new.

(** The UART, and the devices once it is initialized. *)
Definition screen_ready : Uart.state * W :=
  Uart.init b (first_told b None (Uart.state_new b)) (device (kmark b (bytes "K0") screen_boot)).

End screen_boot.

Lemma screen_bootable {W} `{HW : Hardware W, HD : Dma W, HC : Clock W, HR : Watched W} b (w : W) fuel :
  let r := screen_ready b w in get_mem w = screen_image → get_mem r.2 = screen_image →
  early_quiet (W:=W) b → uart_quiet (W:=W) r.1 → port_quiet (W:=W) r.1 →
  (b = Qemu → (0 < fuel)%nat ∧ drains (W:=W) r.1) →
  bootable b fuel demo_image 0x8000000 r.1 r.2 (screen_boot b w).
Proof.
  intros r Hw Hm He Hu Hpq Hq.
  assert (∀ i, find_uart screen_image 0x8000000 = Ret i → i = None) as Hno.
  { intros i. rewrite screen_no_uart. congruence. }
  split; rewrite ?Hm; [reflexivity..|exact demo_placed|exact demo_shaped|exact (proj2 demo_reach)|reflexivity| |
    exact He| |exact Hu| | | | |exact Hpq|].
  - vm_compute. intuition discriminate.
  - exists None, r.1. split.
    { intros _. change (get_mem (device (screen_boot b w))) with (get_mem w). rewrite Hw. exact screen_no_uart. } split; [clear; by destruct b|].
    split; [apply surjective_pairing|]. intros i Hi. destruct b; [|reflexivity].
    by rewrite (Hno i (Hi eq_refl)).
  - exists (Some (mkInfo 409)), [mkRegion 0 0x3C000000 UsableRam]. split; [vm_compute; reflexivity|].
    apply (bool_decide_unpack _). destruct b; vm_compute; reflexivity.
  - destruct b; [|done]. unfold uart_in_reach. rewrite screen_no_uart. by intros i [=].
  - rewrite screen_found. done.
  - apply screen_good.
  - intros Hb. destruct (Hq Hb) as [Hf Hdr]. split; [exact Hf|]. split; [exact Hdr|]. left.
    exists screen_info, (mkFb (phys_to_virt 0x3e000000) 1920 1080 7680). by split; [exact screen_found|].
Qed.

(** On both boards. *)
Definition demo_screen : demo_dev := mkDemo (mkPort [] []) screen_image.

Lemma demo_bootable b :
  bootable b 1 demo_image 0x8000000 (screen_ready b demo_screen).1 (screen_ready b demo_screen).2
    (screen_boot b demo_screen).
Proof.
  apply screen_bootable; [reflexivity|by destruct b|by intros _ v [p m]| | |].
  - intros w. split; [|done]. cbn [read32 demo_dev_hw]. by destruct (@read32 port _ _ (d_port w)).
  - intros w. cbn [read32 demo_dev_hw]. by destruct (@read32 port _ _ (d_port w)).
  - intros ->. split; [lia|]. intros [p m].
    change (reg_addr (screen_ready Qemu demo_screen).1 UART_FR) with (reg_addr demo_uart UART_FR).
    cbn [read32 demo_dev_hw port_hw]. rewrite decide_True by done. cbn. by case_decide.
Qed.

(** Core 1 comes up and enters a process before CPU 0 does. *)
Definition core1_first {W} `{HW : Hardware W, HC : Clock W} (b : board) (fuel : nat) (m : Interrupts.machine W) :
    Interrupts.machine W :=
  match announce b fuel 1 m with
  | Ret m1 => if decide (CURRENT (tbl m1) !! 1%nat = Some INVALID_IDX)
              then match enter 1 m1 with Ret (_, _, _, m2) => m2 | _ => m1 end else m1
  | _ => m
  end.

Lemma core1_moves {W} `{HW : Hardware W, HC : Clock W} b fuel (m : Interrupts.machine W) :
  rtc (other_move b fuel) m (core1_first b fuel m).
Proof.
  unfold core1_first. destruct (announce b fuel 1 m) as [m1| | |] eqn:Ha; try done.
  eapply rtc_l; [by apply (move_announce b fuel 1 m)|]. case_decide; [|done].
  destruct (enter 1 m1) as [[[[en sp] root] m2]| | |] eqn:He; try done.
  apply rtc_once. by eapply (move_enter b fuel 1).
Qed.

