(* ===== verification/Session.v ===== *)
(** * The shell on the kernel

    The composition of [Shell] with everything under it: its calls are system calls
    ([User], [Syscall]) made on the CPU the scheduler gives it, its input comes from the
    serial line through the keyboard buffer ([Keyboard]), its output goes to the console or the
    serial line ([Vfs], [Framebuffer], [Uart]), it sleeps on the generic timer ([Timer]),
    and in between keys arrive, timer interrupts ([Interrupts]) reschedule any core, and cores that are
    still starting ([secondary_rust_entry]) print their lines and enter their first processes.

    A system call is not interrupted, as the processor masks interrupts when it takes the exception and
    the handler does not unmask them: what happens between two calls is any sequence of these
    events.  Other cores act between the shell's calls, not during one (their accesses one by
    one are the subject of [Cores] and [Screen]).  The bytes of a slice passed to a call lie in the user's memory
    at [buf_at], accessible and outside the framebuffer.  The line's [String] lives on the kernel heap, which
    must be initialized and have room for it: the shell runs at EL1, so that the global allocator does not
    make system calls.

    No core enters its first process while the shell, preempted, is at the head of the queue: it would start the
    shell over ([Main.start_drops_context]).

    Shown: the kernel implements the terminal the shell is proved against. *)
From stdpp Require Import gmap.
From S2P Require Import Main Boot.
From S2P Require Import Prelude Bits Layout Memory Ring Sync Mmio Uart Log Keyboard Framebuffer Vfs Trap Smp.
From S2P Require Import Process Scheduler Timer Intc Interrupts Heap Syscall User Shell.
Local Open Scope Z_scope.

(** The devices together: the serial port does not write memory; memory accesses, the
    counter, the timer and the interrupt controller leave the serial port alone and do not write
    memory; a byte arrives at the end of what waits. *)
Definition undisturbed {W} `{HW : Hardware W, HD : Dma W} (u : Uart.state) `{HP : !Pl011 W u} (w w' : W) : Prop :=
  rx w' = rx w ∧ tx w' = tx w ∧ get_mem w' = get_mem w.

Class Devices (W : Type) `{HW : Hardware W, HD : Dma W, HC : Clock W} (b : board) (u : Uart.state)
    `{HP : !Pl011 W u} (receive : Z → W → W) (hz : Z) := {
  dev_fr w : get_mem (read32 (reg_addr u UART_FR) w).2 = get_mem w;
  dev_dr w : get_mem (read32 (reg_addr u UART_DR) w).2 = get_mem w;
  dev_send v w : get_mem (write32 (reg_addr u UART_DR) v w) = get_mem w;
  dev_put m w : rx (put_mem m w) = rx w ∧ tx (put_mem m w) = tx w;
  dev_clock w : undisturbed u w (cntpct w).2;
  dev_arm t w : undisturbed u w (arm t w);
  dev_intc_read r w : intc_register b r → undisturbed u w (read32 r w).2;
  dev_intc_write r v w : intc_register b r → undisturbed u w (write32 r v w);
  dev_receive c w : is_u8 c → rx (receive c w) = rx w ++ [c] ∧ tx (receive c w) = tx w ∧
    get_mem (receive c w) = get_mem w;
  dev_steady : steady (W:=W) hz
}.

(** What happens between the shell's calls. *)
Inductive kernel_event :=
| Key (c : Z) (Hc : is_u8 c)
| Tick (cpu frame : Z) (Hcpu : 0 ≤ cpu < MAX_CPUS)
| Online (cpu : Z) (Hcpu : 0 < cpu < MAX_CPUS)
| Enter (cpu : Z) (Hcpu : 0 < cpu < MAX_CPUS).

(** The screen, if there is one, and what was sent on the serial line, but for the other cores' lines. *)
Definition display : Type := option tty * list Z.

(** What a core that comes up prints; the line with such prints in between. *)
Definition core_lines (cpu : Z) : list Z :=
  crlf (bytes "CPU" ++ dec cpu ++ bytes " online" ++ [10]) ++ crlf (bytes "irq init cpu" ++ dec cpu ++ [10]).

Inductive among : list Z → list Z → Prop :=
| among_all l : among l l
| among_core sent t cpu : among sent t → among sent (t ++ core_lines cpu)
| among_put sent t bs : among sent t → among (sent ++ bs) (t ++ bs).

Definition kbd_in : FileDesc := mkDesc DevKbd0 (OpenFlags_new true false false).
Definition fb_out : FileDesc := mkDesc DevFb0 (OpenFlags_new false true false).

Section kernel_os.
Context {W H : Type} `{HW : Hardware W, HD : Dma W, HC : Clock W, HK : KernelHeap H, HA : AddressSpace}.
Context (b : board) (fuel : nat) (regs : TrapFrame) (buf_at idx ticks ncols nrows : Z).
Context (u : Uart.state) `{HP : !Pl011 W u} (receive : Z → W → W).
Notation kstate := (Syscall.kernel W H).
Implicit Types (s : kstate) (d : display).

(** The CPU that runs the shell, the process in slot [idx]. *)
Definition shell_cpu s : Z :=
  default 0 ((λ '(c, _), Z.of_nat c) <$> list_find (λ i, i = idx) (CURRENT (kprocs s))).

Definition user_write (fd : Z) (bs : list Z) s : outcome (Z * kstate) :=
  User.write b fuel (shell_cpu s) regs fd buf_at (len bs) (store_memory buf_at bs s).

Definition user_read (fd : Z) s : outcome (Z * Z * kstate) :=
  r ← User.read b fuel (shell_cpu s) regs fd buf_at 1 (store_memory buf_at [0] s);
  Ret (r.1, memory r.2 buf_at, r.2).

Definition user_sleep_ms (ms : Z) s : outcome (Z * kstate) := User.sleep_ms b fuel (shell_cpu s) regs ms s.

(** The level the shell runs at, by the SPSR of its context; the global allocator there. *)
Definition SHELL_EL : Z := 1.
Definition user_alloc (l : Layout) s : outcome (Z * kstate) :=
  Heap.alloc heap_ops (user_heap b fuel (shell_cpu s) regs) SHELL_EL l s.
Definition user_realloc (p : Z) (l : Layout) (n : Z) s : outcome (Z * kstate) :=
  Heap.realloc heap_ops (user_heap b fuel (shell_cpu s) regs) SHELL_EL p l n s.

Definition kernel_user : UserOs kstate := {|
  os_write := user_write; os_read := user_read; os_sleep_ms := user_sleep_ms;
  os_alloc := user_alloc; os_realloc := user_realloc
|}.
#[local] Existing Instance kernel_user.

Definition kernel_happens (e : kernel_event) s : outcome kstate :=
  match e with
  | Key c _ => Ret (mkKernel (kprocs s) (with_device (receive c (hw (kio s))) (kio s)) (kheap s))
  | Tick cpu frame _ =>
      r ← irq_handler b cpu frame (mkMachine (kio s) (kprocs s) ticks true);
      Ret (mkKernel (tbl r.2) (dev r.2) (kheap s))
  | Online cpu _ =>
      m ← announce b fuel cpu (mkMachine (kio s) (kprocs s) ticks true);
      Ret (mkKernel (tbl m) (dev m) (kheap s))
  | Enter cpu _ =>
      if decide (CURRENT (kprocs s) !! Z.to_nat cpu = Some INVALID_IDX ∧ hd_error (queue (table (kprocs s))) ≠ Some idx) then
        r ← enter cpu (mkMachine (kio s) (kprocs s) ticks true);
        Ret (mkKernel (tbl r.2) (dev r.2) (kheap s))
      else Ret s
  end.

Definition kernel_typed (e : kernel_event) : list Z :=
  match e with Key c _ => [cook c] | _ => [] end.

(** The input not yet read: the keyboard buffer, then what waits on the serial line. *)
Definition kernel_pending s : list Z :=
  Keyboard.queue (data (input (kio s))) ++ (cook <$> rx (hw (kio s))).

Definition kernel_put (bs : list Z) d : display :=
  match d with
  | (Some t, sent) => (Some (tty_write ncols nrows bs t), sent)
  | (None, sent) => (None, sent ++ crlf bs)
  end.

(** The kernel, with the shell's descriptors wired, displaying [d]. *)
Record displaying s d : Prop := {
  sn_work : populated 5 (kprocs s);
  sn_shell : ∃ p, holds (slots (table (kprocs s))) idx p ∧
    fds p !! 0%nat = Some (Some kbd_in) ∧ fds p !! 1%nat = Some (Some fb_out);
  sn_uart : Vfs.uart (kio s) = u;
  sn_input : locked (input (kio s)) = false;
  sn_keys : Keyboard.wf (data (input (kio s)));
  sn_room : (length (kernel_pending s) ≤ 256)%nat;
  sn_bytes : Forall is_u8 (kernel_pending s);
  sn_console : screen_ok (kio s) d.1;
  sn_geometry : ∀ con, data (Vfs.console (kio s)) = Some con → cols con = ncols ∧ rows con = nrows ∧
    (buf_at + 256 ≤ ptr (fb con) ∨ ptr (fb con) + height (fb con) * pitch (fb con) ≤ buf_at);
  sn_sent : among d.2 (tx (hw (kio s)))
}.

(** The heap is initialized, the line's buffer is a live block of it, and there is room for what the buffer can
    still grow. *)
Definition kernel_serves (v : raw_vec) s : Prop :=
  lh_wf (kheap s) ∧ lh_room (10 * (256 - rv_cap v)) (kheap s) ∧
  (rv_cap v = 0 ∨ lh_live (kheap s) !! rv_ptr v = Some (mkLayout (rv_cap v) 1)).

(** A heap that the shell can be started on: 2560 bytes are enough for all the line's buffers. *)
Definition heap_ready (h : H) : Prop := lh_wf h ∧ lh_room 2560 h.

(** A CPU runs the shell. *)
Definition has_cpu s : Prop := idx ∈ CURRENT (kprocs s).

Context (hz : Z) (Hdev : Devices W b u receive hz).
Context (Hready : UART_READY u = true) (Hlock : locked (UART_LOCK u) = false) (Hregs : length (x regs) = 31%nat) (Hbuf : 0 < buf_at).
Context (Hmap : mapped buf_at 256 = true).
Context (Hhz : 0 ≤ hz < 2 ^ 32) (Hfuel : (Z.to_nat (hz * 10 / 1000) < fuel)%nat).

(** ** What keeps the invariant *)

Lemma kernel_put_app bs cs d : kernel_put (bs ++ cs) d = kernel_put cs (kernel_put bs d).
Proof.
  destruct d as [[t|] sent]; cbn [kernel_put].
  - unfold tty_write. by rewrite fold_left_app.
  - by rewrite crlf_app, app_assoc.
Qed.

Lemma kernel_put_nil d : kernel_put [] d = d.
Proof. destruct d as [[t|] sent]; cbn [kernel_put]; [done|]. by rewrite app_nil_r. Qed.

(** The display depends on the framebuffer's bytes only. *)
Lemma displays_ext con m m' t : (∀ a, ptr (fb con) ≤ a < ptr (fb con) + height (fb con) * pitch (fb con) →
  m' a = m a) → shows con m t → shows con m' t.
Proof.
  intros Hm [[Hfb ? ? ? ? ? ? Hpx] Hcol]. split; [|done]. split; try done.
  intros x y Hx Hy. rewrite <-Hpx by done. unfold pixel. apply load32_ext. intros a Ha.
  apply Hm. pose proof (pixel_offset (fb con) Hfb x y Hx Hy). lia.
Qed.

(** A state that differs in the devices only, and there in nothing the terminal shows. *)
Lemma displaying_keeps s d w' : displaying s d → rx w' = rx (hw (kio s)) → tx w' = tx (hw (kio s)) →
  (∀ a, a < buf_at ∨ buf_at + 256 ≤ a → get_mem w' a = memory s a) →
  displaying (mkKernel (kprocs s) (with_device w' (kio s)) (kheap s)) d.
Proof.
  intros [Hh Hsh Hu Hi Hk Hroom Hb Hc Hg Ht] Hrx Htx Hm.
  split; unfold kernel_pending in *; cbn [kprocs kio with_device Vfs.uart input Vfs.console hw];
    rewrite ?Hrx, ?Htx; try done.
  destruct Hc as [Hl Hc]. split; [done|]. cbn [Vfs.console with_device hw].
  destruct (data (Vfs.console (kio s))) as [con|] eqn:Hcon; [|done].
  destruct d.1 as [t|]; [|done]. apply (displays_ext con (memory s)); [|done].
  intros a Ha. apply Hm. destruct (Hg con eq_refl) as (_ & _ & Hout). lia.
Qed.

Lemma store_keeps s d bs : displaying s d → (length bs ≤ 256)%nat →
  displaying (store_memory buf_at bs s) d.
Proof.
  intros Hs Hl. destruct (dev_put (store_bytes buf_at bs (memory s)) (hw (kio s))) as [Hr Ht].
  apply (displaying_keeps s d _ Hs Hr Ht). intros a Ha. rewrite get_put.
  apply store_bytes_out. unfold len. lia.
Qed.

(** The CPU the shell runs on, and its descriptors. *)
Lemma shell_runs s d : displaying s d → has_cpu s → 0 ≤ shell_cpu s < MAX_CPUS ∧
  get_fd_current (shell_cpu s) FD_STDIN (kprocs s) = Ret (Some kbd_in, kprocs s) ∧
  get_fd_current (shell_cpu s) FD_STDOUT (kprocs s) = Ret (Some fb_out, kprocs s).
Proof.
  intros [[Hh _] (p & Hp & H0 & H1) _ _ _ _ _ _ _ _] Hc. pose proof (h_ok _ Hh) as Hs.
  destruct (list_find_elem_of (λ i, i = idx) (CURRENT (kprocs s)) idx Hc eq_refl) as [[c i] Hf].
  unfold shell_cpu. rewrite Hf. cbn [fmap option_fmap option_map default].
  apply list_find_Some in Hf as (Hci & -> & _).
  pose proof (ok_cpus _ _ (ok_table _ Hs)) as Hl. unfold len in Hl.
  pose proof (lookup_lt_Some _ _ _ Hci) as Hlt. change (Datatypes.id (Z.of_nat c)) with (Z.of_nat c).
  pose proof (holds_range _ _ _ Hp) as Hir.
  assert (runs (kprocs s) (Z.of_nat c) idx p) as Hr.
  { split; [lia|]. rewrite Nat2Z.id. split; [done|]. split; [|done].
    intros ->. rewrite (ok_slots _ _ (ok_table _ Hs) : len (slots (table (kprocs s))) = _) in Hir.
    unfold INVALID_IDX, MAX_PROCS in Hir. lia. }
  split; [lia|]. rewrite !(get_fd_ok _ _ idx p _ Hs Hr) by (unfold FD_STDIN, FD_STDOUT; lia).
  unfold FD_STDIN, FD_STDOUT. rewrite !decide_True by (unfold MAX_FDS; lia).
  change (Z.to_nat 0) with 0%nat. change (Z.to_nat 1) with 1%nat. by rewrite H0, H1.
Qed.

(** Output: on the screen or the serial line. *)
Lemma device_write_ok s d bs : displaying s d → Forall is_u8 bs →
  returns (Vfs.write b fuel fb_out bs (kio s)) (λ '(_, i),
    displaying (mkKernel (kprocs s) i (kheap s)) (kernel_put bs d) ∧
    rx (hw i) = rx (hw (kio s)) ∧ input i = input (kio s)).
Proof.
  intros [Hh Hsh Hu Hi Hk Hroom Hb [Hl Hc] Hg Ht] Hbs. unfold Vfs.write, fb_out.
  cbn [f_write Vfs.flags OpenFlags_new negb handle]. unfold try_with_console, try_lock. rewrite Hl.
  cbn [data]. destruct (data (Vfs.console (kio s))) as [con|] eqn:Hcon;
    destruct d as [[t|] sent]; try done; cbn [fst snd] in *.
  - destruct (Hg con eq_refl) as (Hcols & Hrows & Hout).
    pose proof (console_write_follows bs con (get_mem (hw (kio s))) t Hc) as Hw.
    destruct (console_write bs con _) as [[con' m']| | |];
      try (exfalso; apply Hw; eapply Forall_impl; [exact Hbs|unfold is_u8; lia]).
    destruct Hw as (Hs' & _ & Hfb' & Hc' & Hr' & _); [eapply Forall_impl; [exact Hbs|unfold is_u8; lia]|].
    cbn [mbind outcome_bind returns fst snd] in *. destruct (dev_put m' (hw (kio s))) as [Hrx Htx].
    split; [|by split]. rewrite Hcols, Hrows in Hs'.
    split; unfold kernel_pending in *; cbn [kprocs kio Vfs.uart input Vfs.console hw kernel_put fst snd] in *;
      rewrite ?Hrx, ?Htx; try done.
    + split; [done|]. cbn [Vfs.console unlock guard_set data hw]. by rewrite get_put.
    + cbn [unlock guard_set data]. intros ? [= <-]. by rewrite Hfb', Hc', Hr'.
  - cbn [mbind outcome_bind]. apply returns_bind. unfold write_uart. cbn [Vfs.uart hw]. rewrite Hu.
    apply returns_bind. eapply returns_mono;
      [apply (write_str_port u b fuel ltac:(lia) Hready bs (hw (kio s)))|].
    intros w' [Hrx Htx]. cbn [returns]. split; [|by split].
    split; unfold kernel_pending in *; cbn [kprocs kio Vfs.uart input Vfs.console hw kernel_put fst snd unlock data] in *;
      rewrite ?Hrx, ?Htx; try done; try congruence. by apply among_put.
Qed.

Lemma user_write_ok s d bs : displaying s d → has_cpu s → (length bs ≤ 256)%nat → Forall is_u8 bs →
  returns (user_write FD_STDOUT bs s) (λ '(_, s'),
    displaying s' (kernel_put bs d) ∧ has_cpu s' ∧ kernel_pending s' = kernel_pending s ∧ kheap s' = kheap s).
Proof.
  intros Hs Hc Hl Hbs. unfold user_write. rewrite write_call by done.
  pose proof (store_keeps s d bs Hs Hl) as Hst. set (s1 := store_memory buf_at bs s) in *.
  destruct (shell_runs s d Hs Hc) as (_ & _ & Hfd).
  assert (kernel_pending s1 = kernel_pending s) as Hp.
  { unfold kernel_pending. cbn [s1 store_memory kio with_device input hw]. by rewrite (proj1 (dev_put _ _)). }
  unfold sys_write. case_decide as Hz.
  { assert (bs = []) as -> by (destruct bs; [done|destruct Hz; unfold len in *; simpl in *; lia]).
    rewrite kernel_put_nil. done. }
  change (kprocs s1) with (kprocs s). rewrite Hfd. cbn [mbind outcome_bind fst snd kio].
  rewrite decide_True, (touch_ok buf_at 256) by (done || unfold len; lia). cbn [mbind outcome_bind]. apply returns_bind.
  assert (load_bytes (memory (mkKernel (kprocs s) (kio s1) (kheap s1))) buf_at (Z.to_nat (len bs)) = bs) as ->.
  { unfold memory. cbn [kio s1 store_memory with_device hw]. rewrite get_put. unfold len. rewrite Nat2Z.id.
    apply load_store_bytes. }
  eapply returns_mono; [apply (device_write_ok s1 d bs Hst Hbs)|].
  intros [n i] (Hd & Hrx & Hin). cbn [returns fst snd]. split; [exact Hd|]. split; [exact Hc|].
  split; [|done]. rewrite <-Hp. unfold kernel_pending. cbn [kio]. by rewrite Hrx, Hin.
Qed.

(** Input: the next of the pending keys. *)
Lemma port_memory w : get_mem (read_byte_nonblocking u w).2 = get_mem w.
Proof.
  unfold read_byte_nonblocking, is_ready. rewrite Hready. cbn [negb].
  pose proof (dev_fr w) as Hfr. destruct (read32 (reg_addr u UART_FR) w) as [v w1]. cbn [snd] in Hfr.
  case_decide; [done|]. pose proof (dev_dr w1) as Hdr.
  destruct (read32 (reg_addr u UART_DR) w1) as [v2 w2]. cbn [snd] in *. congruence.
Qed.

Lemma poll_all q ws : (length q + length ws ≤ 256)%nat → poll_spec q ws = (q ++ (cook <$> ws), []).
Proof.
  intros Hl. unfold poll_spec. rewrite take_ge by lia. case_decide; by rewrite drop_ge by lia.
Qed.

Lemma user_read_ok s d : displaying s d → has_cpu s →
  returns (user_read FD_STDIN s) (λ '(n, c, s'), displaying s' d ∧ has_cpu s' ∧ kheap s' = kheap s ∧
    match kernel_pending s with
    | [] => n = 0 ∧ kernel_pending s' = []
    | k :: ks => n = 1 ∧ c = k ∧ kernel_pending s' = ks
    end).
Proof.
  intros Hs Hc. unfold user_read. apply returns_bind. rewrite read_call by done.
  pose proof (store_keeps s d [0] Hs ltac:(simpl; lia)) as Hst.
  destruct (shell_runs s d Hs Hc) as (_ & Hfd & _).
  assert (kernel_pending (store_memory buf_at [0] s) = kernel_pending s) as Hp.
  { unfold kernel_pending. cbn [store_memory kio with_device input hw]. by rewrite (proj1 (dev_put _ _)). }
  set (s1 := store_memory buf_at [0] s) in *. rewrite <-Hp. unfold sys_read.
  rewrite decide_False by lia. change (kprocs s1) with (kprocs s). rewrite Hfd.
  cbn [mbind outcome_bind fst snd kio]. apply returns_bind. unfold Vfs.read, kbd_in.
  cbn [f_read Vfs.flags OpenFlags_new negb handle]. apply returns_bind.
  destruct Hst as [Hh Hsh Hu Hi Hk Hroom Hb Hcon Hg Ht]. rewrite Hu.
  eapply returns_mono.
  { apply returns_and; [apply (Keyboard.read_ok u Hready 1 _ (hw (kio s1)) Hi Hk)|].
    intros r. apply (read_keeps u (λ w, get_mem w = get_mem (hw (kio s1)))); [|done].
    intros w <-. apply port_memory. }
  intros [[bs inp] w'] [(Hl' & Hk' & Htx' & Hbs) Hm']. cbn [snd] in Hm'.
  unfold kernel_pending in Hroom, Hb. rewrite length_app, length_fmap in Hroom.
  rewrite poll_all in Hbs by done. fold (kernel_pending s1) in Hbs. fold (kernel_pending s1) in Hb.
  destruct Hbs as (-> & Hq' & Hrx'). cbn [returns fst snd kprocs kio kheap].
  rewrite (touch_ok buf_at 256) by (done || unfold len; rewrite length_take; lia). cbn [mbind outcome_bind returns fst snd].
  set (s2 := mkKernel (kprocs s) (mkIo u (Vfs.console (kio s1)) inp w') (kheap s1)).
  assert (kernel_pending s2 = drop 1 (kernel_pending s1)) as Hp2.
  { unfold kernel_pending at 1. cbn [s2 kio input hw]. rewrite Hrx', Hq'. apply app_nil_r. }
  assert (displaying s2 d) as Hs2.
  { split; try done; rewrite ?Hp2.
    - rewrite length_drop. unfold kernel_pending. rewrite length_app, length_fmap. lia.
    - by apply Forall_drop.
    - destruct Hcon as [Hlc Hcon]. split; [exact Hlc|]. cbn [s2 kio Vfs.console hw]. by rewrite Hm'.
    - cbn [s2 kio hw]. by rewrite Htx'. }
  split; [apply store_keeps; [exact Hs2|rewrite length_take; lia]|]. split; [exact Hc|]. split; [done|].
  assert (∀ bs, kernel_pending (store_memory buf_at bs s2) = drop 1 (kernel_pending s1)) as ->.
  { intros bs. rewrite <-Hp2. unfold kernel_pending. cbn [store_memory kio with_device input hw].
    by rewrite (proj1 (dev_put _ _)). }
  destruct (kernel_pending s1) as [|k ks]; [done|]. split; [done|]. split; [|done].
  unfold memory. cbn [store_memory kio with_device hw]. rewrite get_put.
  change (take 1 (k :: ks)) with [k]. cbn [store_bytes]. unfold store8. cbv beta. by rewrite decide_True.
Qed.

Lemma user_sleep_ok s d : displaying s d → has_cpu s →
  returns (user_sleep_ms 10 s) (λ '(_, s'), displaying s' d ∧ has_cpu s' ∧ kernel_pending s' = kernel_pending s ∧
    kheap s' = kheap s).
Proof.
  intros Hs Hc. unfold user_sleep_ms. rewrite sleep_call by done. unfold sys_sleep_ms.
  destruct (delay_returns hz fuel 10 (hw (kio s)) (dev_steady (W:=W))) as [n ->]; try lia.
  cbn [mbind outcome_bind returns].
  assert (undisturbed u (hw (kio s)) (after (S n) (hw (kio s)))) as (Hrx & Htx & Hm).
  { apply (after_keeps (undisturbed u (hw (kio s)))); [|done].
    intros w (Hrx & Htx & Hm). destruct (dev_clock w) as (Hrx' & Htx' & Hm'). split_and!; congruence. }
  split; [apply displaying_keeps; try done; intros a _; by rewrite Hm|]. split; [exact Hc|]. split; [|done].
  unfold kernel_pending. cbn [kio with_device input hw]. by rewrite Hrx.
Qed.

(** Memory for the line: the heap serves it, and nothing else changes. *)
Lemma displaying_heap s d h : displaying s d → displaying (with_heap s h) d.
Proof. by intros [? ? ? ? ? ? ? ? ? ?]. Qed.

Lemma layout_bytes n : 0 < n ≤ 256 → layout_ok (mkLayout n 1).
Proof.
  intros Hn. split; [apply Hn|]. unfold from_size_align. cbn [lsize lalign].
  change (is_power_of_two 1) with true. rewrite bool_decide_eq_true_2 by lia. done.
Qed.

Lemma user_grow_ok s d v n : displaying s d → has_cpu s → kernel_serves v s → 0 ≤ rv_cap v →
  Z.max 8 (2 * rv_cap v) ≤ n ≤ 256 →
  returns (if decide (rv_cap v = 0) then user_alloc (mkLayout n 1) s
           else user_realloc (rv_ptr v) (mkLayout (rv_cap v) 1) n s) (λ '(p, s'),
    p ≠ 0 ∧ kernel_serves (mkRaw p n) s' ∧ displaying s' d ∧ has_cpu s' ∧ kernel_pending s' = kernel_pending s).
Proof.
  intros Hs Hc (Hwf & Hroom & Hlive) Hcap Hn. pose proof (layout_bytes n ltac:(lia)) as Hlay. unfold kernel_serves.
  case_decide as Hz.
  - change (user_alloc (mkLayout n 1) s) with (Ret (k_alloc heap_ops (mkLayout n 1) s)). cbn [returns k_alloc heap_ops].
    pose proof (lh_alloc_ok _ _ Hwf Hlay) as Ha. destruct (lh_alloc (mkLayout n 1) (kheap s)) as [p h].
    destruct Ha as (Hwf' & Hp & Hr). destruct (Hr _ Hroom) as [Hp0 Hr']; cbn [lsize lalign] in *; [lia..|].
    cbn [with_heap kheap rv_cap rv_ptr]. split; [done|]. split; [|by split; [apply displaying_heap|]].
    split; [done|]. split; [eapply lh_room_le; [exact Hr'|lia]|]. right.
    destruct Hp as [[? _]|(_ & _ & ->)]; [done|]. by rewrite lookup_insert_eq.
  - destruct Hlive as [?|Hlive]; [done|]. change (user_realloc (rv_ptr v) (mkLayout (rv_cap v) 1) n s)
      with ('(q, h) ← lh_realloc (rv_ptr v) (mkLayout (rv_cap v) 1) n (kheap s); Ret (q, with_heap s h)).
    apply returns_bind. eapply returns_mono; [apply (lh_realloc_ok _ _ n _ Hwf Hlive Hlay)|].
    intros [p h] (Hwf' & Hp & Hr). cbn [lalign] in *. destruct (Hr _ Hroom) as [Hp0 Hr']; [lia..|].
    cbn [returns with_heap kheap rv_cap rv_ptr]. split; [done|]. split; [|by split; [apply displaying_heap|]].
    split; [done|]. split; [eapply lh_room_le; [exact Hr'|lia]|]. right.
    destruct Hp as [[? _]|(_ & _ & ->)]; [done|]. by rewrite lookup_insert_eq.
Qed.

(** ** What happens in between *)

Lemma key_ok s d c (Hc : is_u8 c) : displaying s d → (length (kernel_pending s) + 1 ≤ 256)%nat →
  returns (kernel_happens (Key c Hc) s) (λ s', displaying s' d ∧
    kernel_pending s' = kernel_pending s ++ [cook c]).
Proof.
  intros [Hh Hsh Hu Hi Hk Hroom Hb Hcon Hg Ht] Hl. cbn [kernel_happens returns].
  destruct (dev_receive c (hw (kio s)) Hc) as (Hrx & Htx & Hm).
  assert (kernel_pending (mkKernel (kprocs s) (with_device (receive c (hw (kio s))) (kio s)) (kheap s)) =
    kernel_pending s ++ [cook c]) as Hp.
  { unfold kernel_pending. cbn [kio with_device input hw]. by rewrite Hrx, fmap_app, app_assoc. }
  split; [|exact Hp]. split; try done; rewrite ?Hp.
  - rewrite length_app. simpl. lia.
  - apply Forall_app. split; [done|]. apply Forall_singleton. unfold cook. by case_decide.
  - destruct Hcon as [Hlc Hcon]. split; [exact Hlc|]. cbn [kio with_device Vfs.console hw]. by rewrite Hm.
  - cbn [kio with_device hw]. by rewrite Htx.
Qed.

(** The interrupt controller and the timer leave port and memory alone. *)
#[local] Instance port_view : View W.
Proof.
  refine {| viewed := mem * (list Z * list Z); view w := (get_mem w, (rx w, tx w)) |}. by intros w w' [= Hm _ _].
Defined.

Lemma view_undisturbed w w' : view w' = view w ↔ undisturbed u w w'.
Proof. unfold undisturbed. cbn [view port_view]. split; [by intros [= -> -> ->]|]. by intros (-> & -> & ->). Qed.

#[local] Instance port_undisturbing : Undisturbing W b.
Proof.
  split; intros; apply view_undisturbed; [by apply dev_intc_read|by apply dev_intc_write|apply dev_arm].
Qed.

Lemma reported_undisturbed cpu w : undisturbed u w (reported b cpu w).2.
Proof. exact (proj1 (view_undisturbed _ _) (reported_view b cpu w)). Qed.

Lemma acknowledge_undisturbed id w : undisturbed u w (acknowledge b id w).
Proof. exact (proj1 (view_undisturbed _ _) (acknowledge_view b id w)). Qed.

Lemma tick_undisturbed w : undisturbed u w (tick ticks w).
Proof. exact (proj1 (view_undisturbed _ _) (tick_view b ticks w)). Qed.

Lemma undisturbed_trans w1 w2 w3 : undisturbed u w1 w2 → undisturbed u w2 w3 → undisturbed u w1 w3.
Proof. intros (? & ? & ?) (? & ? & ?). split_and!; congruence. Qed.

(** A state with another table and other devices of which the terminal sees no difference. *)
Lemma displaying_same s d t inp w : displaying s d → carries_on (kprocs s) t →
  locked inp = false → Keyboard.wf (data inp) →
  Keyboard.queue (data inp) ++ (cook <$> rx w) = kernel_pending s →
  among d.2 (tx w) → get_mem w = memory s →
  displaying (mkKernel t (mkIo u (Vfs.console (kio s)) inp w) (kheap s)) d.
Proof.
  intros [Hh (p & Hp & H0 & H1) Hu Hi Hk Hroom Hb [Hlc Hcon] Hg Ht] Hca Hl Hw Hpend Htx Hm.
  split; try done.
  - by eapply populated_carries.
  - destruct Hca as (_ & _ & Hk'). destruct (Hk' _ p Hp) as (p' & Hp' & Hf%fixed_fds). exists p'. by rewrite Hf.
  - unfold kernel_pending at 1. cbn [kio input hw]. by rewrite Hpend.
  - unfold kernel_pending at 1. cbn [kio input hw]. by rewrite Hpend.
  - split; [exact Hlc|]. cbn [kio Vfs.console hw]. by rewrite Hm.
Qed.

Lemma carries_on_refl s d : displaying s d → carries_on (kprocs s) (kprocs s).
Proof. intros Hs. split; [apply (sn_work _ _ Hs)|]. split; [done|]. intros i p Hp. by exists p. Qed.

Lemma handle_tick_ok s d cpu frame w : displaying s d → 0 ≤ cpu < MAX_CPUS →
  undisturbed u (hw (kio s)) w →
  returns (handle_tick cpu frame (on_hw (λ _, w) (mkMachine (kio s) (kprocs s) ticks true))) (λ r,
    ∃ inp, ∀ w', undisturbed u (hw (dev r.2)) w' →
      with_hw w' (dev r.2) = mkIo u (Vfs.console (kio s)) inp w' ∧
      displaying (mkKernel (tbl r.2) (mkIo u (Vfs.console (kio s)) inp w') (kheap s)) d ∧
      Keyboard.queue (data inp) ++ (cook <$> rx w') = kernel_pending s).
Proof.
  intros Hs Hcpu (Hrx & Htx & Hm). unfold handle_tick. cbn [on_hw dev with_hw Vfs.uart input hw tbl tick_ticks].
  pose proof Hs as [Hh (p & Hp & _ & _) Hu Hi Hk Hroom _ _ _ _]. rewrite Hu. apply returns_bind.
  eapply returns_mono.
  { apply returns_and; [apply (Keyboard.poll_ok u Hready (input (kio s)) w Hi Hk)|].
    intros r. apply (poll_keeps u (λ v, get_mem v = get_mem w)); [|done].
    intros v <-. apply port_memory. }
  intros [inp w1] [(Hl1 & Hk1 & Hq1 & Htx1) Hm1]. cbn [snd] in Hm1.
  unfold kernel_pending in Hroom. rewrite length_app, length_fmap in Hroom.
  rewrite poll_all in Hq1 by (rewrite Hrx; lia). injection Hq1 as Hq1 Hrx1. rewrite Hrx in Hq1.
  fold (kernel_pending s) in Hq1. apply returns_bind.
  eapply returns_mono; [apply (interrupt_carries_on cpu frame (kprocs s) (proj1 Hh) Hcpu)|].
  intros [[next root] t] [Hca _]. cbn [returns fst snd dev tbl with_hw Vfs.uart Vfs.console input hw].
  exists inp. intros w' Hw'.
  destruct (undisturbed_trans _ _ _ (tick_undisturbed w1) Hw') as (Hrx' & Htx' & Hm').
  assert (Keyboard.queue (data inp) ++ (cook <$> rx w') = kernel_pending s) as Hpend.
  { rewrite Hrx', Hrx1, Hq1. apply app_nil_r. }
  split; [done|]. split; [|exact Hpend].
  apply displaying_same; try done.
  - rewrite Htx', Htx1, Htx. apply (sn_sent _ _ Hs).
  - rewrite Hm', Hm1. exact Hm.
Qed.

(** An interrupt on any core changes nothing the terminal shows, and loses no key. *)
Lemma tick_ok s d cpu frame : displaying s d → 0 ≤ cpu < MAX_CPUS →
  returns (irq_handler b cpu frame (mkMachine (kio s) (kprocs s) ticks true)) (λ r,
    displaying (mkKernel (tbl r.2) (dev r.2) (kheap s)) d ∧
    kernel_pending (mkKernel (tbl r.2) (dev r.2) (kheap s)) = kernel_pending s).
Proof.
  intros Hs Hcpu. set (m := mkMachine _ _ _ _).
  pose proof (reported_undisturbed cpu (hw (kio s))) as Hrep.
  pose proof Hs as [Hh (p & Hp & _ & _) Hu Hi Hk _ _ _ _ _].
  assert (∀ w, undisturbed u (hw (kio s)) w →
    displaying (mkKernel (kprocs s) (with_hw w (kio s)) (kheap s)) d ∧
    kernel_pending (mkKernel (kprocs s) (with_hw w (kio s)) (kheap s)) = kernel_pending s) as Hsame.
  { intros w (Hrx & Htx & Hm). unfold with_hw. rewrite Hu.
    assert (Keyboard.queue (data (input (kio s))) ++ (cook <$> rx w) = kernel_pending s) as Hpend
      by by rewrite Hrx.
    split; [|exact Hpend]. apply displaying_same; try done; [by eapply carries_on_refl|].
    rewrite Htx. apply (sn_sent _ _ Hs). }
  assert (∀ w f, undisturbed u (hw (kio s)) w → (∀ v, undisturbed u v (f v)) →
    returns (handle_tick cpu frame (on_hw (λ _, w) m)) (λ r,
      displaying (mkKernel (tbl r.2) (with_hw (f (hw (dev r.2))) (dev r.2)) (kheap s)) d ∧
      kernel_pending (mkKernel (tbl r.2) (with_hw (f (hw (dev r.2))) (dev r.2)) (kheap s)) =
        kernel_pending s)) as Htick.
  { intros w f Hw Hf. eapply returns_mono; [by apply (handle_tick_ok s d cpu frame w)|].
    intros r (inp & Hr). destruct (Hr _ (Hf (hw (dev r.2)))) as (-> & Hd & Hpend). by split. }
  pose proof acknowledge_undisturbed as Hack. unfold acknowledge in Hack.
  unfold reported in Hrep. unfold irq_handler. change (hw (dev m)) with (hw (kio s)).
  destruct b.
  - destruct (ack_irq (hw (kio s))) as [[id|] w]; cbn [snd] in Hrep; [|apply (Hsame w Hrep)].
    case_decide as Hid.
    + cbn [returns snd on_hw tbl dev with_hw hw]. apply Hsame.
      apply (undisturbed_trans _ _ _ Hrep), Hack.
    + apply returns_bind. eapply returns_mono; [apply (Htick w (end_irq id) Hrep), Hack|].
      intros [[next root] m'] Hm'. exact Hm'.
  - destruct (generic_timer_pending Qemu cpu (hw (kio s))) as [[|] w]; cbn [snd negb] in *;
      [|apply (Hsame w Hrep)].
    eapply returns_mono; [apply (Htick w (λ v, v) Hrep); done|]. intros [[next root] m'] [Hd Hp'].
    cbn [snd] in *. destruct (dev m') as [? ? ? ?]. by split.
Qed.

(** A log line. *)
Lemma log_port line w : returns (log b fuel line u w) (λ '(u', w'), u' = u ∧ rx w' = rx w ∧
  tx w' = tx w ++ crlf (line ++ [10]) ∧ get_mem w' = get_mem w).
Proof.
  unfold log. apply returns_bind. eapply returns_mono.
  { apply (with_uart_ok _ u w (λ r, rx r.2 = rx w ∧ tx r.2 = tx w ++ crlf (line ++ [10]) ∧ get_mem r.2 = get_mem w) Hlock Hready).
    apply returns_bind. eapply returns_mono.
    - apply returns_conj; [apply (write_str_port u b fuel ltac:(lia) Hready)|].
      apply (writes_quiet (HV:=mem_view) b fuel u); [intros v; split; [apply dev_fr|intros; apply dev_send]|].
      intros _. split; [lia|]. intros v. pose proof (fr_read v) as Hv. destruct (read32 _ v). apply Hv.
    - by intros w' [[Hr Ht] Hm]. }
  intros [[o u'] w'] (-> & x & _ & Hr). by split.
Qed.

(** A core comes up: its lines go to the serial port. *)
Lemma online_ok s d cpu Hcpu : displaying s d → returns (kernel_happens (Online cpu Hcpu) s) (λ s',
  displaying s' d ∧ kernel_pending s' = kernel_pending s ∧ kheap s' = kheap s).
Proof.
  intros Hs. pose proof Hs as [Hh Hsh Hu Hi Hk _ _ _ _ Ht]. cbn [kernel_happens]. apply returns_bind.
  unfold announce. cbn [dev tbl tick_ticks Interrupts.irq_enabled]. rewrite Hu. apply returns_bind.
  eapply returns_mono; [apply log_port|]. intros [u1 w1] (-> & Hr1 & Ht1 & Hm1).
  unfold init_per_cpu. cbn [dev hw Vfs.uart Vfs.console input].
  pose proof (per_cpu_view b cpu 10 w1) as Hup. apply view_undisturbed in Hup.
  destruct (init_tick 10 w1) as [t w2]. cbn [snd] in Hup. set (w3 := match b with Qemu => _ | Rpi5 => _ end) in *.
  destruct Hup as (Hr3 & Ht3 & Hm3). apply returns_bind. eapply returns_mono; [apply log_port|].
  intros [u4 w4] (-> & Hr4 & Ht4 & Hm4). cbn [returns enable_irq tbl dev].
  assert (Keyboard.queue (data (input (kio s))) ++ (cook <$> rx w4) = kernel_pending s) as Hpend.
  { by rewrite Hr4, Hr3, Hr1. }
  split; [|by split]. apply displaying_same; try done; [by eapply carries_on_refl| |].
  - rewrite Ht4, Ht3, Ht1, <-app_assoc. rewrite <-!app_assoc. by apply among_core.
  - by rewrite Hm4, Hm3, Hm1.
Qed.

(** A core enters its first process. *)
Lemma core_enters_ok s d cpu Hcpu : displaying s d → returns (kernel_happens (Enter cpu Hcpu) s) (λ s',
  displaying s' d ∧ kernel_pending s' = kernel_pending s ∧ kheap s' = kheap s).
Proof.
  intros Hs. pose proof Hs as [Hh Hsh Hu Hi Hk _ _ _ _ Ht]. cbn [kernel_happens]. case_decide as Hd; [|done].
  unfold enter. apply returns_bind, returns_bind.
  eapply returns_mono; [apply (start_one cpu (kprocs s) Hh ltac:(lia)); split; [lia|apply Hd]|].
  intros [[[en sp] root] t] [Hca _]. cbn [returns snd tbl dev]. split; [|done].
  pose proof (displaying_same s d t (input (kio s)) (hw (kio s)) Hs Hca Hi Hk eq_refl Ht eq_refl) as Hd'.
  rewrite <-Hu in Hd'. by destruct (kio s).
Qed.

Lemma happens_keeps e s d : displaying s d →
  (length (kernel_pending s) + length (kernel_typed e) ≤ 256)%nat →
  returns (kernel_happens e s) (λ s', displaying s' d ∧
    kernel_pending s' = kernel_pending s ++ kernel_typed e ∧ ∀ v, kernel_serves v s → kernel_serves v s').
Proof.
  intros Hs Hroom.
  assert (∀ s' : kstate, kheap s' = kheap s → ∀ v, kernel_serves v s → kernel_serves v s') as Hserves.
  { intros s' Hh v. unfold kernel_serves. by rewrite Hh. }
  destruct e as [c Hc|cpu frame Hcpu|cpu Hcpu|cpu Hcpu]; cbn [kernel_typed]; rewrite ?app_nil_r;
    [| |eapply returns_mono; [by apply online_ok|]; intros s' (? & ? & ?); by auto|
     eapply returns_mono; [by apply core_enters_ok|]; intros s' (? & ? & ?); by auto].
  { pose proof (key_ok s d c Hc Hs Hroom) as Hk. cbn [kernel_happens returns] in *. destruct Hk as [Hd Hp].
    split; [exact Hd|]. split; [exact Hp|]. apply Hserves. reflexivity. }
  cbn [kernel_happens]. apply returns_bind.
  eapply returns_mono; [by apply (tick_ok s d cpu frame)|]. intros r [Hd Hp]. cbn [returns]. by auto.
Qed.

(** The kernel is a terminal. *)
Definition kernel_terminal : @Terminal kstate display kernel_user.
Proof.
  refine (@Build_Terminal kstate display kernel_user kernel_pending has_cpu displaying kernel_serves kernel_put
    kernel_put_nil kernel_put_app sn_bytes _ _ _ user_grow_ok kernel_event kernel_typed kernel_happens 256%nat happens_keeps).
  - intros s d bs Hs Hc Hl Hb. eapply returns_mono; [by apply (user_write_ok s d bs)|].
    intros [n s'] (Hd & Hc' & Hp & Hh). split_and!; try done. intros v. unfold kernel_serves. by rewrite Hh.
  - intros s d Hs Hc. eapply returns_mono; [by apply (user_read_ok s d)|].
    intros [[n c] s'] (Hd & Hc' & Hh & Hp). split_and!; try done. intros v. unfold kernel_serves. by rewrite Hh.
  - intros s d Hs Hc. eapply returns_mono; [by apply (user_sleep_ok s d)|].
    intros [n s'] (Hd & Hc' & Hp & Hh). split_and!; try done. intros v. unfold kernel_serves. by rewrite Hh.
Defined.
#[local] Existing Instance kernel_terminal.

(** C3. The shell on the kernel: from any state with at least five processes at work, whose devices are idle,
    whose kernel heap is initialized with a free block of 2560 bytes, and whose shell process has its
    descriptors: whatever bytes arrive on the serial line (as long as at most 256 are unread), whatever timer
    interrupts reschedule any of the cores and whichever other cores come up and enter their first process (not
    the shell) between the shell's system calls, the shell has at every moment consumed, in order, a prefix of
    the keys; its line is what the keys make it and lies in a block of the heap that is the shell's own; the
    screen (or the serial line, but for the lines of the cores that have come up) shows, but for the
    calls the shell is about to make, exactly the transcript of that prefix; no interrupt and no core ever
    panics or hangs; and while the shell has a CPU, its next calls, six per key, return and display the
    transcript of every key.  The shell's buffer lies in accessible memory outside the framebuffer; the devices
    behave as [Devices] says, with a counter below 2^32 Hz. *)
Theorem kernel_shell s d ks sh : displaying s d → heap_ready (kheap s) → session (D:=display) (user_shell s) ks sh →
  ∃ dn, kernel_pending s ++ ks = dn ++ kernel_pending (os sh) ∧
    line sh = (keys dn []).1 ∧ len (as_str (line sh)) ≤ Z.min 129 (rv_cap (buf sh)) ∧ kernel_serves (buf sh) (os sh) ∧
    (∃ d', displaying (os sh) d' ∧ kernel_put (owed sh) d' = kernel_put (bytes "$ " ++ (keys dn []).2) d) ∧
    (∀ e, (length (kernel_pending (os sh)) + length (kernel_typed e) ≤ 256)%nat →
       returns (kernel_happens e (os sh)) (λ _, True)) ∧
    (has_cpu (os sh) → returns (run (6 * length (kernel_pending (os sh)) + length (todo sh)) sh) (λ sh',
       kernel_pending (os sh') = [] ∧
       displaying (os sh') (kernel_put (bytes "$ " ++ (keys (kernel_pending s ++ ks) []).2) d))).
Proof.
  intros Hs [Hwf Hroom] Hses. assert (kernel_serves no_buffer s) as Hv by (split_and!; [done|done|by left]).
  destruct (@session_ok _ _ _ kernel_terminal s d ks sh Hs Hv Hses) as (dn0 & _ & Hat).
  destruct (@session_transcript _ _ _ kernel_terminal s d ks sh Hs Hv Hses) as (dn & Hp & Hl & Hlen & _ & Hd & He & Hrun).
  exists dn. split_and!; try done; [apply Hat|]. intros Hc. eapply returns_mono; [apply (Hrun Hc)|].
  intros sh' (Hp' & _ & Hd'). by split.
Qed.
End kernel_os.

(** ** A session on a Pi 5 without a display, from the table the boot leaves *)
(** The UART of a Pi 5 whose device tree does not name it. *)
Definition serial_uart : Uart.state :=
  Eval cbv in set_ready (uart_settings None (Uart.state_new Rpi5)).

Record serial_dev := mkSerial { s_port : port; s_mem : mem; s_now : Z }.

(** The controller always reports the timer; the counter moves by one with each reading. *)
#[export] Instance serial_hw : Hardware serial_dev := {|
  read32 reg d :=
    if decide (reg = GICC_BASE + GICC_IAR) then (timer_irq_id, d)
    else let '(v, p) := @read32 port (port_hw serial_uart) reg (s_port d) in (v, mkSerial p (s_mem d) (s_now d));
  write32 reg v d := mkSerial (@write32 port (port_hw serial_uart) reg v (s_port d)) (s_mem d) (s_now d)
|}.
#[export] Instance serial_dma : Dma serial_dev := {|
  get_mem := s_mem; put_mem m d := mkSerial (s_port d) m (s_now d); get_put m d := eq_refl;
  put_get d := match d with mkSerial _ _ _ => eq_refl end
|}.
#[export] Instance serial_clock : Clock serial_dev := {|
  cntpct d := (wrap64 (s_now d), mkSerial (s_port d) (s_mem d) (wrap64 (s_now d + 1)));
  cntfrq _ := 1000; arm _ d := d
|}.
#[export] Program Instance serial_pl011 : Pl011 serial_dev serial_uart := {|
  rx d := wrap8 <$> p_rx (s_port d); tx d := p_tx (s_port d)
|}.
Next Obligation. intros [p m n]. exact (@fr_read port (port_hw serial_uart) serial_uart (port_pl011 serial_uart ltac:(done)) p). Qed.
Next Obligation.
  intros [p m n] c cs Hw.
  pose proof (@dr_read port (port_hw serial_uart) serial_uart (port_pl011 serial_uart ltac:(done)) p c cs Hw) as Hp. simpl in *.
  destruct (p_rx p) as [|e es]; [done|]. exact Hp.
Qed.
Next Obligation. intros [p m n] v. exact (@dr_write port (port_hw serial_uart) serial_uart (port_pl011 serial_uart ltac:(done)) p v). Qed.

Definition arrive (c : Z) (d : serial_dev) : serial_dev :=
  mkSerial (mkPort (p_rx (s_port d) ++ [c]) (p_tx (s_port d))) (s_mem d) (s_now d).

(** The interrupt controller's registers are not the port's. *)
Lemma setup_not_port r : intc_register Rpi5 r → r ≠ reg_addr serial_uart UART_DR ∧ r ≠ reg_addr serial_uart UART_FR.
Proof.
  unfold intc_register, GICD_BASE, GICC_BASE, SOC_BASE.
  change (reg_addr serial_uart UART_DR) with 0x1c00030000. change (reg_addr serial_uart UART_FR) with 0x1c00030018.
  lia.
Qed.

#[export] Program Instance serial_devices : Devices serial_dev Rpi5 serial_uart arrive 1000.
Next Obligation. intros [p m n]. simpl. by destruct (p_rx p). Qed.
Next Obligation. intros [p m n]. simpl. by destruct (p_rx p). Qed.
Next Obligation. done. Qed.
Next Obligation. done. Qed.
Next Obligation. done. Qed.
Next Obligation. done. Qed.
Next Obligation.
  intros r [p m n] Hr. destruct (setup_not_port r Hr) as [Hd Hf]. cbn [read32 serial_hw].
  case_decide; [done|]. cbn [s_port port_hw read32]. by rewrite !decide_False by done.
Qed.
Next Obligation.
  intros r v [p m n] Hr. destruct (setup_not_port r Hr) as [Hd Hf]. unfold undisturbed.
  cbn [write32 serial_hw s_port port_hw rx tx serial_pl011 get_mem serial_dma s_mem]. by rewrite decide_False by done.
Qed.
Next Obligation.
  intros c [p m n] Hc. split; [|done]. simpl. rewrite fmap_app. simpl. unfold wrap8.
  by rewrite Z.mod_small by exact Hc.
Qed.
Next Obligation.
  split; [done| |].
  - intros d. apply Z.mod_pos_bound. lia.
  - intros d. exists 1. split; [lia|]. simpl. unfold wrap64. rewrite Z.mod_mod by lia.
    by rewrite Zplus_mod_idemp_l.
Qed.

#[local] Existing Instance demo_space.

Definition serial_kernel : Syscall.kernel serial_dev bump :=
  mkKernel (first_table demo_image 0 ∅)
    (mkIo serial_uart (lock_new None) (lock_new RingBuffer_new) (mkSerial (mkPort [] []) (λ _, 0) 0))
    (mkBump 0x10000 0x20000 ∅).

Definition demo_regs : TrapFrame := TrapFrame_new 0x80000.

Lemma serial_displaying : displaying 0x4000 0 80 25 serial_uart serial_kernel (None, []).
Proof.
  split; try done.
  - apply first_table_populated.
  - eexists. split; [split; [lia|reflexivity]|]. by split.
  - vm_compute. lia.
  - apply among_all.
Qed.

(** There is room for the shell's line. *)
Lemma serial_heap : heap_ready (kheap serial_kernel).
Proof. split; [split; [done|]; vm_compute; intuition congruence|vm_compute; split; congruence]. Qed.

Lemma serial_hz : 0 ≤ 1000 < 2 ^ 32.
Proof. lia. Qed.
Lemma serial_buf : 0 < 0x4000.
Proof. lia. Qed.
Lemma serial_map : mapped 0x4000 256 = true.
Proof. by vm_compute. Qed.
Lemma serial_fuel : (Z.to_nat (1000 * 10 / 1000) < 20)%nat.
Proof. vm_compute. lia. Qed.

Definition serial_terminal : @Terminal _ display (kernel_user Rpi5 20 demo_regs 0x4000 0) :=
  kernel_terminal Rpi5 20 demo_regs 0x4000 0 540000 80 25 serial_uart arrive 1000 serial_devices
    eq_refl eq_refl eq_refl serial_buf serial_map serial_hz serial_fuel.

#[export] Instance has_cpu_dec idx (s : Syscall.kernel serial_dev bump) : Decision (has_cpu idx s).
Proof. unfold has_cpu. apply _. Defined.

(** The prompt; an [h] arrives and is read; core 1 comes up and enters its first process; before the [h] can be
    echoed, an interrupt gives core 0 to the next process, and a carriage return arrives; three more
    interrupts give the core back; the [h] is echoed and the line played back. *)
Definition serial_script : list (action kernel_event) :=
  let tick := Ev (Tick 0 0x5000 ltac:(split; vm_compute; [discriminate|reflexivity])) in
  let h := Ev (Key 104 ltac:(split; vm_compute; [discriminate|reflexivity])) in
  let cr := Ev (Key 13 ltac:(split; vm_compute; [discriminate|reflexivity])) in
  let up := Ev (Online 1 ltac:(split; vm_compute; reflexivity)) in
  let enter := Ev (Enter 1 ltac:(split; vm_compute; reflexivity)) in
  [Turn; h; up; Turn; enter; tick; cr; tick; tick; tick; Turn; Turn; Turn; Turn; Turn; Turn; Turn].

#[local] Notation serial_play :=
  (@play _ display _ serial_terminal (λ s, has_cpu_dec 0 s) serial_script [] (@user_shell _ serial_kernel)).

Lemma serial_played :
  (λ r, (r.1, tx (hw (kio (os r.2))))) <$> serial_play =
  Some ([104; 10], crlf (bytes "$ ") ++ core_lines 1 ++ crlf (bytes "h" ++ [10] ++ bytes "String: h" ++ [10] ++ bytes "$ ")).
Proof. vm_compute. reflexivity. Qed.

Lemma kernel_shell_witness : ∃ sh : shell (Syscall.kernel serial_dev bump),
  tx (hw (kio (os sh))) = crlf (bytes "$ ") ++ core_lines 1 ++ crlf (bytes "h" ++ [10] ++ bytes "String: h" ++ [10] ++ bytes "$ ") ∧
  ∃ dn, [104; 10] = dn ++ kernel_pending serial_uart (os sh) ∧ line sh = (keys dn []).1 ∧
    ∃ d', displaying 0x4000 0 80 25 serial_uart (os sh) d' ∧
      kernel_put 80 25 (owed sh) d' = kernel_put 80 25 (bytes "$ " ++ (keys dn []).2) (None, []).
Proof.
  pose proof serial_played as Hp. destruct serial_play as [[ks sh]|] eqn:Hplay; [|discriminate].
  injection Hp as -> Htx. exists sh. split; [exact Htx|].
  destruct (kernel_shell Rpi5 20 demo_regs 0x4000 0 540000 80 25 serial_uart arrive 1000 serial_devices
    eq_refl eq_refl eq_refl serial_buf serial_map serial_hz serial_fuel
    serial_kernel (None, []) [104; 10] sh serial_displaying serial_heap) as (dn & Hdn & Hl & _ & _ & Hd & _).
  - apply (@play_session _ display _ serial_terminal (λ s, has_cpu_dec 0 s) serial_script
      (user_shell serial_kernel) [] (user_shell serial_kernel)); [apply s_start|exact Hplay].
  - exists dn. split; [exact Hdn|]. split; [exact Hl|exact Hd].
Defined.
