(* ===== verification/PowerOn.v ===== *)
(** * From power-on to the shell's transcript

    [Boot] and [Session] together: the machine [kernel_main] leaves is one the shell's session can
    start on, so that from the firmware's hand-over onwards the screen (or the serial line) shows
    the transcript of the keys typed, whatever interrupts come.

    The other cores only come up until CPU 0 takes the process table's lock; from then on they come up, enter
    processes and are interrupted in any order. *)
From stdpp Require Import gmap.
From S2P Require Import Region Frame Fdt Dtb MmInit Main Boot.
From S2P Require Import Prelude Bits Layout Memory Ring Sync Mmio Uart Log Keyboard Framebuffer Vfs Trap Smp.
From S2P Require Import Process Scheduler Timer Intc Interrupts Heap Syscall User Shell Session.
Local Open Scope Z_scope.

(** The part of the booted machine the shell's calls work on. *)
Definition system_of {W H} (s : Main.kernel W H) : Syscall.kernel W H :=
  Syscall.mkKernel (procs_of s) (Interrupts.dev (Main.machine s)) (Main.heap s).

Section power_on.
Context {W H : Type} `{HW : Hardware W, HD : Dma W, HC : Clock W, HK : KernelHeap H, HA : AddressSpace}.
Context (b : board) (fuel : nat) (im : image) (u : Uart.state) `{HP : !Pl011 W u}.
Context (receive : Z → W → W) (hz buf_at : Z) (regs : TrapFrame).

(** Watched through the boot: the bytes that wait on the serial line. *)
#[local] Instance rx_watched : Watched W := Build_Watched W (list Z) rx.
Context `{HF : !Platform W b}.

Context (Hdev : Devices W b u receive hz).
Context (Hready : UART_READY u = true) (Hlock : locked (UART_LOCK u) = false).
Context (Hregs : length (x regs) = 31%nat) (Hbuf : 0 < buf_at) (Hmap : mapped buf_at 256 = true).
Context (Hhz : 0 ≤ hz < 2 ^ 32) (Hfuel : (Z.to_nat (hz * 10 / 1000) < fuel)%nat).

(** The other cores, which until then only come up. *)
Context (others : Interrupts.machine W → Interrupts.machine W).
Context (Hothers : ∀ m, rtc (other_announces b fuel) m (others m)).

(** The memory map has room for the kernel heap. *)
Definition has_memory (dtb_pa : Z) (m : mem) : Prop := ∃ dinfo map,
  parse m dtb_pa MemoryMap_new = Ret (dinfo, map) ∧ room_for_heap (phys_info im) (raw_map b dtb_pa (phys_info im) dinfo map).

(** The shell's buffer lies outside a framebuffer. *)
Definition apart (f : Framebuffer) : Prop :=
  buf_at + 256 ≤ ptr f ∨ ptr f + height f * pitch f ≤ buf_at.

Lemma announces_moves (m m' : Interrupts.machine W) : rtc (other_announces b fuel) m m' → rtc (other_move b fuel) m m'.
Proof. apply rtc_subrel. intros m1 m2 [cpu m3 m4 Hc Hr]. by eapply move_announce. Qed.

Lemma booted_heap dtb_pa w s s' : boot_done b im dtb_pa u w s s' → has_memory dtb_pa (get_mem w) →
  heap_ready (kheap (system_of s')).
Proof.
  intros Hd (dinfo & map & Hp & Hr). destruct (bt_memory _ _ _ _ _ _ _ Hd) as (dinfo' & map' & Hp' & _ & Hf).
  rewrite Hp in Hp'. injection Hp' as <- <-. destruct (Hf Hr) as (Hwf & _ & Hroom). split; [exact Hwf|].
  eapply lh_room_le; [exact Hroom|]. vm_compute. congruence.
Qed.

Lemma in_shell_displaying dtb_pa w s en sp root s' : boot_done b im dtb_pa u w s s' → in_shell im w s en sp root s' →
  input (Interrupts.dev (Main.machine s)) = lock_new RingBuffer_new →
  (length (rx w) ≤ 256)%nat → Forall is_u8 (rx w) →
  (∀ f, granted b im (get_mem w) dtb_pa f → apart f) →
  let k := system_of s' in has_cpu 0 k ∧ kernel_pending u k = (cook <$> rx w) ∧
  ∃ ncols nrows screen, (screen = None ∨ screen = Some tty_new) ∧ (b = Qemu → screen ≠ None) ∧
    displaying buf_at 0 ncols nrows u k (screen, tx (hw (kio k))).
Proof.
  intros [Hca _ _ _ _ [Hu _] Hl Hs Hq] (_ & _ & Hp & Hin & Hk) Hi Hroom Hb Hap k.
  assert (kernel_pending u k = (cook <$> rx w)) as Hpend.
  { unfold kernel_pending. cbn [k system_of kio]. rewrite Hin, Hi. cbn [data lock_new].
    rewrite (proj2 Keyboard.wf_new). exact (f_equal (fmap cook) Hk). }
  split; [unfold has_cpu; cbn [k system_of kprocs]; rewrite Hp; by left|]. split; [exact Hpend|].
  assert (Forall is_u8 (cook <$> rx w)) as Hbytes.
  { apply Forall_fmap. eapply Forall_impl; [exact Hb|]. intros c Hc. cbn. unfold cook. by case_decide. }
  assert (∀ ncols nrows screen, screen_ok (kio k) screen →
    (∀ con, data (console (kio k)) = Some con → cols con = ncols ∧ rows con = nrows) →
    displaying buf_at 0 ncols nrows u k (screen, tx (hw (kio k)))) as Hdisp.
  { intros ncols nrows screen Hok Hgeo. split; try done; rewrite ?Hpend; try done.
    - eapply populated_carries; [apply spawned_populated|exact Hca].
    - eexists. split; [split; [lia|]|]. { cbn [k system_of kprocs]. by rewrite Hp. } by split.
    - cbn [k system_of kio]. by rewrite Hin, Hi.
    - cbn [k system_of kio]. rewrite Hin, Hi. apply Keyboard.wf_new.
    - by rewrite length_fmap.
    - intros con Hcon. destruct (Hgeo con Hcon). split_and!; [done..|]. apply Hap, (Hs con Hcon).
    - apply among_all. }
  destruct (data (console (kio k))) as [con|] eqn:Hcon.
  - exists (cols con), (rows con), (Some tty_new). split; [by right|]. split; [done|].
    apply Hdisp; [|by intros ? [= <-]]. split; [exact Hl|]. rewrite Hcon. apply (Hs con Hcon).
  - exists 0, 0, None. split; [by left|]. split; [intros Hb'; by destruct (Hq Hb')|].
    apply Hdisp; [|done]. split; [exact Hl|]. by rewrite Hcon.
Qed.

(** C1. From power-on to the transcript: a bootable machine whose memory map has room for the kernel heap, with
    at most 256 bytes waiting on its serial line, boots with the shell on CPU 0 and a blank screen or none (never
    none on QEMU), provided the other cores, from their release until CPU 0 takes the process table's lock, only
    come up, and CPU 0 takes no timer interrupt until then; and from then on, whatever bytes arrive,
    whatever timer interrupts reschedule the cores and whichever other cores come up and enter their first process
    (not the shell) between the shell's system calls, the shell has at every moment consumed, in order, a
    prefix of what was typed, bytes that came in during the boot included; the screen (or the
    serial line, after the boot's log and but for the lines of the cores that come up) shows, but for the
    calls the shell is about to make, exactly the transcript of that prefix; no interrupt and no core panics or
    hangs; and while the shell has a CPU its next calls, six per key, return and display the transcript of
    every key.  The shell's buffer lies in accessible memory outside the framebuffer; the devices behave as
    [Platform] and [Devices] say, with a counter below 2^32 Hz. *)
Theorem power_on dtb_pa w (s : Main.kernel W H) : bootable b fuel im dtb_pa u w s → has_memory dtb_pa (get_mem w) →
  input (Interrupts.dev (Main.machine s)) = lock_new RingBuffer_new →
  (length (rx w) ≤ 256)%nat → Forall is_u8 (rx w) → (∀ f, granted b im (get_mem w) dtb_pa f → apart f) →
  returns (kernel_main b fuel im others dtb_pa s) (λ '(_, _, _, s'),
    let k := system_of s' in let typed := cook <$> rx w in
    has_cpu 0 k ∧ kernel_pending u k = typed ∧
    ∃ ncols nrows screen, (screen = None ∨ screen = Some tty_new) ∧ (b = Qemu → screen ≠ None) ∧
    let T := kernel_terminal b fuel regs buf_at 0 (tick_ticks (Main.machine s')) ncols nrows u receive hz Hdev
               Hready Hlock Hregs Hbuf Hmap Hhz Hfuel in
    let transcript ks := kernel_put ncols nrows (bytes "$ " ++ (keys ks []).2) (screen, tx (hw (kio k))) in
    let display_of s d := displaying buf_at 0 ncols nrows u s d in
    ∀ ks sh, @session _ display _ T (user_shell k) ks sh →
      (∃ dn d, typed ++ ks = dn ++ kernel_pending u (os sh) ∧ line sh = (keys dn []).1 ∧
         display_of (os sh) d ∧ kernel_put ncols nrows (owed sh) d = transcript dn) ∧
      (∀ e, (length (kernel_pending u (os sh)) + length (kernel_typed e) ≤ 256)%nat →
         returns (kernel_happens b fuel 0 (tick_ticks (Main.machine s')) receive e (os sh)) (λ _, True)) ∧
      (has_cpu 0 (os sh) → returns (@run _ (kernel_user b fuel regs buf_at 0)
         (6 * length (kernel_pending u (os sh)) + length (todo sh)) sh) (λ sh',
         kernel_pending u (os sh') = [] ∧ display_of (os sh') (transcript (typed ++ ks))))).
Proof.
  intros Hboot Hmem Hi Hroom Hb Hap. eapply returns_mono.
  { apply (kernel_main_ok b fuel im others (λ m, announces_moves _ _ (Hothers m))). exact Hboot. }
  intros [[[en sp] root] s'] (Hdone & _ & Hsh). specialize (Hsh Hothers). cbv zeta.
  destruct (booted_heap dtb_pa w s s' Hdone Hmem) as [Hwf Hheap].
  assert (kernel_serves no_buffer (system_of s')) as Hv by (split_and!; [done|done|by left]).
  destruct (in_shell_displaying dtb_pa w s en sp root s' Hdone Hsh Hi Hroom Hb Hap)
    as (Hcpu & Hpend & ncols & nrows & screen & Hblank & Hq & Hd).
  split; [exact Hcpu|]. split; [exact Hpend|]. exists ncols, nrows, screen. split; [exact Hblank|]. split; [exact Hq|].
  match goal with |- ∀ ks sh, @session _ _ _ ?t _ _ _ → _ => set (T := t) end. intros ks sh Hses.
  destruct (@session_transcript _ _ _ T (system_of s') (screen, tx (hw (kio (system_of s')))) ks sh Hd Hv Hses)
    as (dn & Hp & Hl & _ & _ & (d & Hshow & Hput) & He & Hrun).
  change (@pending _ _ _ T) with (kernel_pending (W:=W) (H:=H) u) in *. rewrite Hpend in *.
  split; [by exists dn, d|]. split; [exact He|]. intros Hc. eapply returns_mono; [exact (Hrun Hc)|].
  intros sh' (Hp' & _ & Hd'). by split.
Qed.
End power_on.

(** ** A Pi 5 with a display, an [h] typed before it boots *)
#[local] Existing Instance demo_space.
#[local] Instance serial_watched : Watched serial_dev := rx_watched serial_uart.

#[local] Program Instance serial_platform : Platform serial_dev Rpi5.
Solve Obligations with try by intros.
Next Obligation.
  intros r [p m n] Hr. destruct (setup_not_port r Hr) as [Hd Hf]. cbn [read32 serial_hw].
  case_decide; [done|]. cbn [s_port port_hw read32]. by rewrite !decide_False by done.
Qed.
Next Obligation.
  intros r v [p m n] Hr. destruct (setup_not_port r Hr) as [Hd Hf].
  cbn [write32 serial_hw s_port port_hw]. by rewrite decide_False by done.
Qed.

Definition serial_screen : serial_dev := mkSerial (mkPort [104] []) screen_image 0.

Lemma serial_bootable :
  bootable Rpi5 20 demo_image 0x8000000 serial_uart (screen_ready Rpi5 serial_screen).2
    (screen_boot Rpi5 serial_screen).
Proof.
  assert ((screen_ready Rpi5 serial_screen).1 = serial_uart) as <- by reflexivity.
  apply (screen_bootable Rpi5 serial_screen); [reflexivity|reflexivity|by intros _ v [p m n]| | |done].
  2:{ intros [p m n]. cbn [read32 serial_hw]. case_decide; [done|]. cbn [s_port]. by destruct (@read32 port _ (reg_addr (screen_ready Rpi5 serial_screen).1 UART_DR) p). }
  intros [p m n]. split; [|done].
  change (reg_addr (screen_ready Rpi5 serial_screen).1 UART_FR) with (reg_addr serial_uart UART_FR).
  cbn [read32 serial_hw port_hw]. by repeat case_decide.
Qed.

(** The 960 MiB have room for a heap. *)
Lemma screen_memory : has_memory Rpi5 demo_image 0x8000000 (get_mem (screen_ready Rpi5 serial_screen).2).
Proof.
  exists (Some (mkInfo 409)), [mkRegion 0 0x3C000000 UsableRam]. split; [vm_compute; reflexivity|].
  assert (∃ out bs be, normalize (raw_map Rpi5 0x8000000 demo_ki (Some (mkInfo 409)) [mkRegion 0 0x3C000000 UsableRam]) = Ret out ∧
    boot_range demo_ki out = Some (bs, be) ∧ 0 < bs ∧ bs + bitmap_bytes out + HEAP_SIZE + 0x3000 ≤ be ∧
    Exists (λ r, kind r = UsableRam ∧ contains r bs ∧ end_ r = be) out) as (out & bs & be & Hn & Hb & H0 & Hr & He).
  { do 3 eexists. split; [vm_compute; reflexivity|]. split; [vm_compute; reflexivity|]. split; [done|].
    split; [vm_compute; congruence|]. apply (bool_decide_unpack _). vm_compute. reflexivity. }
  exists out, bs, be. split; [exact Hn|]. split; [exact Hb|]. split; [exact H0|]. split; [|exact Hr].
  by apply Exists_exists in He.
Qed.

(** The framebuffer lies in the higher half, the shell's buffer does not. *)
Lemma screen_apart f : granted (W:=serial_dev) Rpi5 demo_image screen_image 0x8000000 f → apart 0x4000 f.
Proof. intros ->%screen_granted. left. vm_compute. discriminate. Qed.

(** The [h] that came in before the boot is echoed after it. *)
Lemma power_on_witness :
  returns (kernel_main Rpi5 20 demo_image (λ m, m) 0x8000000 (screen_boot Rpi5 serial_screen)) (λ '(_, _, _, s'),
    let k := system_of s' in ∃ ncols nrows screen, (screen = None ∨ screen = Some tty_new) ∧
    returns (@run _ (kernel_user Rpi5 20 demo_regs 0x4000 0) 7 (user_shell k)) (λ sh',
      displaying 0x4000 0 ncols nrows serial_uart (os sh')
        (kernel_put ncols nrows (bytes "$ h") (screen, tx (hw (kio k)))))).
Proof.
  eapply returns_mono; [exact (power_on Rpi5 20 demo_image serial_uart arrive 1000 0x4000 demo_regs serial_devices
    eq_refl eq_refl eq_refl serial_buf serial_map serial_hz serial_fuel (λ m, m) (λ m, rtc_refl _ m)
    0x8000000 _ (screen_boot Rpi5 serial_screen) serial_bootable screen_memory eq_refl ltac:(vm_compute; lia) ltac:(vm_compute; repeat constructor; discriminate) screen_apart)|].
  intros [[[en sp] root] s'] (Hcpu & Hp & ncols & nrows & screen & Hb & _ & Hses). exists ncols, nrows, screen.
  split; [exact Hb|]. destruct (Hses [] (user_shell (system_of s')) (s_start _)) as (_ & _ & Hrun).
  specialize (Hrun Hcpu). change (os (user_shell (system_of s'))) with (system_of s') in Hrun. rewrite Hp in Hrun.
  eapply returns_mono; [exact Hrun|]. intros sh' [_ Hd]. exact Hd.
Defined.
